(** * st7920-dashboard: the retained-mode renderer and its differential writer

    A shallow embedding of [graphics.py] (packed monochrome surfaces, the
    shape rasterizers and the compositor) and of [driver.py] (the ST7920
    serial driver with its differential GDRAM writer), together with the
    properties the specification states about them.

    Python objects live in a store (a list of objects, a reference being
    an index into it); methods are computations in a state-and-exception
    monad over that store.  An exception keeps the store as it was when
    it was raised, as in Python. *)

From Stdlib Require Import ZArith Lia Bool String SpecFloat.
From stdpp Require Import base tactics option list list_numbers.

Local Open Scope Z_scope.

(** ** Exceptions and the store monad *)

(** The Python exceptions the modelled code can raise.  The last two have
    no Python counterpart.  [InvalidRef]: a Python reference always
    denotes a live object, and the lookup is partial only because the
    store is a list.  [NonTermination]: a [while] loop that used up the
    iteration budget the model gives it (the budgets are the loops' own
    bounds, see [Line_loop_budget] and [Circle_loop_budget]). *)
Inductive exn : Set :=
| TypeError
| ValueError
| IndexError
| AttributeError
| OverflowError
| NotImplementedError
| RecursionError
| InvalidRef
| NonTermination.

Inductive result (A : Type) : Type :=
| Ok (a : A)
| Raise (e : exn).
Arguments Ok {A} a.
Arguments Raise {A} e.

Definition is_ok {A} (r : result A) : bool :=
  match r with Ok _ => true | Raise _ => false end.

(** ** numpy arrays of uint16, two-dimensional *)

Module np.

(** [shape = (nrows, ncols)]; [cells] holds the rows. *)
Record ndarray : Type := mk {
  nrows : nat;
  ncols : nat;
  cells : list (list Z)
}.

(** [np.zeros((r, c), dtype=np.uint16)]; numpy refuses negative
    dimensions with a ValueError. *)
Definition zeros (r c : Z) : result ndarray :=
  if (r <? 0) || (c <? 0) then Raise ValueError
  else Ok (mk (Z.to_nat r) (Z.to_nat c)
              (replicate (Z.to_nat r) (replicate (Z.to_nat c) 0))).

(** [a.fill(0)] *)
Definition fill0 (a : ndarray) : ndarray :=
  mk (nrows a) (ncols a) (map (map (fun _ => 0)) (cells a)).

(** [a[i, j]] for indices already known to be non-negative. *)
Definition getitem (a : ndarray) (i j : Z) : option Z :=
  row ← cells a !! Z.to_nat i; row !! Z.to_nat j.

(** [a[i, j] = v] *)
Definition setitem (a : ndarray) (i j : Z) (v : Z) : ndarray :=
  mk (nrows a) (ncols a)
     (alter (fun row => <[Z.to_nat j := v]> row) (Z.to_nat i) (cells a)).

(** [~a] on uint16 cells: the complement within sixteen bits. *)
Definition invert (a : ndarray) : ndarray :=
  mk (nrows a) (ncols a) (map (map (fun w => Z.lxor w 65535)) (cells a)).

(** [a ^ s], [a | s] ... with a scalar: every cell is combined with [s]. *)
Definition map_scalar (f : Z → Z → Z) (a : ndarray) (s : Z) : ndarray :=
  mk (nrows a) (ncols a) (map (map (fun w => f w s)) (cells a)).

(** numpy broadcasting of [b] against the shape of [a], for the in-place
    operators [a |= b], [a &= b], [a ^= b]: each axis of [b] must have
    the length of the same axis of [a], or length one. *)
Definition broadcastable (a b : ndarray) : bool :=
  (bool_decide (nrows b = nrows a) || bool_decide (nrows b = 1%nat))
  && (bool_decide (ncols b = ncols a) || bool_decide (ncols b = 1%nat)).

Definition bcast_index (len i : nat) : nat :=
  if bool_decide (len = 1%nat) then 0%nat else i.

Definition bcast_row (f : Z → Z → Z) (b : ndarray) (ra rb : list Z) : list Z :=
  imap (fun j w =>
          match rb !! bcast_index (ncols b) j with
          | Some v => f w v
          | None => w
          end) ra.

Definition inplace (f : Z → Z → Z) (a b : ndarray) : result ndarray :=
  if broadcastable a b then
    Ok (mk (nrows a) (ncols a)
           (imap (fun i ra =>
                    match cells b !! bcast_index (nrows b) i with
                    | Some rb => bcast_row f b ra rb
                    | None => ra
                    end) (cells a)))
  else Raise ValueError.

(** [a | b] producing a new array, for operands of one shape (the only
    use in the source: three line surfaces created with the same size). *)
Definition bitor_same (a b : ndarray) : result ndarray := inplace Z.lor a b.

(** The shape invariant every array built by [zeros] satisfies. *)
Definition wf (a : ndarray) : Prop :=
  length (cells a) = nrows a ∧ Forall (fun row => length row = ncols a) (cells a).

(** uint16 contents. *)
Definition u16 (a : ndarray) : Prop :=
  Forall (Forall (fun w => 0 ≤ w < 65536)) (cells a).

(** What NumPy does with a Python integer that meets a uint16 in an
    operator.  From NumPy 2 on (NEP 50) the integer is converted to
    uint16, and one outside [0, 65535] is refused with OverflowError.
    NumPy 1 chose a signed type wide enough for both operands and
    computed there.  The repository pins no version of NumPy. *)
Inductive casting : Set := NEP50 | Legacy.

(** [w & i] for a uint16 [w] and a Python integer [i], as stored back
    into the cell of [w]. *)
Definition and_int (c : casting) (w i : Z) : result Z :=
  match c with
  | NEP50 => if (0 <=? i) && (i <=? 65535) then Ok (Z.land w i) else Raise OverflowError
  | Legacy => Ok (Z.land w i)
  end.

End np.

(** ** graphics.py: the data model *)

(** A reference to an object: its index in the store. *)
Abbreviation ref := nat (only parsing).

(** [class BlendMode(Enum)] *)
Inductive BlendMode : Set := ON | OFF | XOR.

(** A loaded [ImageFont.FreeTypeFont], taken as what it does: for a text
    drawn at [(x, y)] on a [width × height] image it decides which pixels
    [(i, j)] receive ink. *)
Record Font : Type := {
  ink : string → Z → Z → Z → Z → Z → Z → bool
}.

(** The class of an object with the attributes its subclass adds to
    [Bitmap]. *)
Inductive Kind : Type :=
| KBitmap
| KGraphicsBuffer (children : list ref)
| KLine (x1 y1 x2 y2 : Z)
| KCircle (xc yc radius : Z) (fill : bool)
| KTriangle (x1 y1 x2 y2 x3 y3 : Z) (fill : bool)
| KRectangle (x y w h : Z) (fill : bool)
| KDrawableText (text : string) (font : Font) (x y : Z).

(** The slots of [Bitmap]. *)
Record Bitmap : Type := mkBitmap {
  width : Z;
  height : Z;
  words : np.ndarray;
  _is_dirty : bool;
  _parent : option ref;
  _blend_mode : BlendMode;
  kind : Kind
}.

Definition with_words (o : Bitmap) (a : np.ndarray) : Bitmap :=
  mkBitmap (width o) (height o) a (_is_dirty o) (_parent o) (_blend_mode o) (kind o).
Definition with_dirty (o : Bitmap) (b : bool) : Bitmap :=
  mkBitmap (width o) (height o) (words o) b (_parent o) (_blend_mode o) (kind o).
Definition with_parent (o : Bitmap) (p : option ref) : Bitmap :=
  mkBitmap (width o) (height o) (words o) (_is_dirty o) p (_blend_mode o) (kind o).
Definition with_kind (o : Bitmap) (k : Kind) : Bitmap :=
  mkBitmap (width o) (height o) (words o) (_is_dirty o) (_parent o) (_blend_mode o) k.

(** The object store. *)
Abbreviation heap := (list Bitmap) (only parsing).

(** A computation on a state [S]: it runs on a state and leaves a state,
    with a value or a raised exception. *)
Definition St (S A : Type) : Type := S → result A * S.

Definition ret {S A} (a : A) : St S A := fun s => (Ok a, s).
Definition raise {S A} (e : exn) : St S A := fun s => (Raise e, s).
Definition bind {S A B} (m : St S A) (f : A → St S B) : St S B :=
  fun s => match m s with
           | (Ok a, s') => f a s'
           | (Raise e, s') => (Raise e, s')
           end.

(** The computations of [graphics.py] run on the object store. *)
Definition M (A : Type) : Type := St heap A.

Declare Scope py_scope.
Delimit Scope py_scope with py.
Notation "'let*' x ':=' m 'in' k" := (bind m (fun x => k))
  (at level 10, x name, m at level 100, k at level 200) : py_scope.
Notation "'let*' ' p ':=' m 'in' k" := (bind m (fun p => k))
  (at level 10, p strict pattern, m at level 100, k at level 200) : py_scope.
Notation "m ';;' k" := (bind m (fun _ => k))
  (at level 100, k at level 200, right associativity) : py_scope.
Local Open Scope py_scope.

Definition lift {S A} (r : result A) : St S A := fun s => (r, s).

(** [for a in l: body(a)] *)
Fixpoint for_each {S A} (l : list A) (body : A → St S unit) : St S unit :=
  match l with
  | [] => ret tt
  | a :: l' => body a ;; for_each l' body
  end.

(** [for i in range(lo, hi): body(i)] *)
Definition for_range {S} (lo hi : Z) (body : Z → St S unit) : St S unit :=
  for_each (seqZ lo (hi - lo)) body.

(** Reading and writing an object of the store. *)
Definition get_obj (r : ref) : M Bitmap :=
  fun h => match h !! r with
           | Some o => (Ok o, h)
           | None => (Raise InvalidRef, h)
           end.

Definition put_obj (r : ref) (o : Bitmap) : M unit :=
  fun h => (Ok tt, <[r := o]> h).

Definition modify_obj (r : ref) (f : Bitmap → Bitmap) : M unit :=
  let* o := get_obj r in put_obj r (f o).

(** Object creation: the new object goes to the end of the store. *)
Definition alloc (o : Bitmap) : M ref :=
  fun h => (Ok (length h), h ++ [o]).

(** ** class Bitmap *)

(** [Bitmap.__init__(self, width, height, parent, blend_mode)] *)
Definition Bitmap_init (w h : Z) (parent : option ref) (bm : BlendMode)
    (k : Kind) : M ref :=
  let* a := lift (np.zeros h (w / 16)) in
  alloc (mkBitmap w h a true parent bm k).

(** [Bitmap.reset] *)
Definition reset (self : ref) : M unit :=
  modify_obj self (fun o => with_words o (np.fill0 (words o))).

(** [Bitmap.dirty]: the method calls itself on the parent.  The model
    counts the calls: a chain without a cycle visits each object at most
    once, so a budget of one call per object of the store (and one more)
    is only exhausted on a cyclic chain, where Python stops with
    RecursionError.  (Chains deeper than the interpreter's recursion
    limit are outside the model.) *)
Fixpoint dirty_rec (fuel : nat) (self : ref) : M unit :=
  match fuel with
  | O => raise RecursionError
  | S fuel' =>
      let* o := get_obj self in
      put_obj self (with_dirty o true) ;;
      match _parent o with
      | Some p => dirty_rec fuel' p
      | None => ret tt
      end
  end.

Definition dirty (self : ref) : M unit :=
  fun h => dirty_rec (S (length h)) self h.

(** The bounds test of [set_pixel] and [get_pixel]. *)
Definition in_bounds (o : Bitmap) (x y : Z) : bool :=
  (0 <=? x) && (x <? width o) && (0 <=? y) && (y <? height o).

(** [Bitmap.set_pixel(self, x, y, value=True)] under the NumPy [c].  The
    mask is a Python integer: [|= mask] has it within uint16, [&= ~mask]
    has the negative [~mask]. *)
Definition set_pixel_under (c : np.casting) (self : ref) (x y : Z) (value : bool)
    : M unit :=
  let* o := get_obj self in
  if negb (in_bounds o x y) then ret tt
  else
    let word := x / 16 in
    let bit := 15 - x mod 16 in
    let mask := Z.shiftl 1 bit in
    match np.getitem (words o) y word with
    | None => raise IndexError
    | Some w =>
        let* w' := lift (if value then Ok (Z.lor w mask)
                         else np.and_int c w (Z.lnot mask)) in
        put_obj self (with_words o (np.setitem (words o) y word w')) ;;
        dirty self
    end.

(** [set_pixel] under NumPy 2.  The shapes call it with [value = True],
    where the version of NumPy makes no difference. *)
Definition set_pixel : ref → Z → Z → bool → M unit := set_pixel_under np.NEP50.

(** [Bitmap.get_pixel(self, x, y)] *)
Definition get_pixel (self : ref) (x y : Z) : M Z :=
  let* o := get_obj self in
  if negb (in_bounds o x y) then ret 0
  else
    let word := x / 16 in
    let bit := 15 - x mod 16 in
    match np.getitem (words o) y word with
    | None => raise IndexError
    | Some w => ret (Z.land (Z.shiftr w bit) 1)
    end.

(** [Bitmap.set_word(self, v, h, value=0x0000)] *)
Definition set_word (self : ref) (v h : Z) (value : Z) : M unit :=
  let* o := get_obj self in
  if (0 <=? v) && (v <? height o) && (0 <=? h) && (h <? width o / 16) then
    match np.getitem (words o) v h with
    | None => raise IndexError
    | Some _ =>
        put_obj self (with_words o (np.setitem (words o) v h (Z.land value 65535))) ;;
        dirty self
    end
  else ret tt.

(** An in-place operator on [self.words] ([|=], [&=], [^=]): the array is
    read, combined and stored back in the same object. *)
Definition update_words (self : ref) (f : np.ndarray → result np.ndarray) : M unit :=
  let* o := get_obj self in
  let* a := lift (f (words o)) in
  put_obj self (with_words o a).

(** [Bitmap.reverse]: [self.words ^= 0xFFFF] *)
Definition Bitmap_reverse (self : ref) : M unit :=
  update_words self (fun a => Ok (np.map_scalar Z.lxor a 65535)).

(** ** Python floats (IEEE 754 binary64) for the triangle's scanlines *)

Module pyfloat.

Definition prec : Z := 53.
Definition emax : Z := 1024.

Definition finite (f : spec_float) : result spec_float :=
  match f with
  | S754_infinity _ => Raise OverflowError
  | _ => Ok f
  end.

(** An integer as the (unrounded) binary number it is. *)
Definition exact (n : Z) : spec_float :=
  match n with
  | Z0 => S754_zero false
  | Zpos p => S754_finite false p 0
  | Zneg p => S754_finite true p 0
  end.

(** [float(n)], the conversion Python applies to the integer operand of
    a mixed operation: correctly rounded, OverflowError beyond the
    range of a float. *)
Definition of_int (n : Z) : result spec_float :=
  finite (binary_normalize prec emax n 0 false).

(** [a / b] on integers with [b ≠ 0]: the correctly rounded quotient. *)
Definition truediv (a b : Z) : result spec_float :=
  finite (SFdiv prec emax (exact a) (exact b)).

Definition mul (x y : spec_float) : spec_float := SFmul prec emax x y.
Definition add (x y : spec_float) : spec_float := SFadd prec emax x y.
Definition ltb (x y : spec_float) : bool := SFltb x y.

(** [round(x)] with one argument: the nearest integer, ties to even;
    OverflowError on an infinity, ValueError on a NaN. *)
Definition round (x : spec_float) : result Z :=
  match x with
  | S754_zero _ => Ok 0
  | S754_infinity _ => Raise OverflowError
  | S754_nan => Raise ValueError
  | S754_finite s m e =>
      let mag :=
        if 0 <=? e then Z.pos m * 2 ^ e
        else
          let d := 2 ^ (- e) in
          let q := Z.pos m / d in
          let r := Z.pos m mod d in
          match 2 * r ?= d with
          | Lt => q
          | Gt => q + 1
          | Eq => if Z.even q then q else q + 1
          end in
      Ok (if s then - mag else mag)
  end.

(** [sorted(l)]: a stable sort by [<]; on at most three numbers any
    stable sort gives the list insertion gives. *)
Fixpoint insert (x : spec_float) (l : list spec_float) : list spec_float :=
  match l with
  | [] => [x]
  | y :: l' => if ltb x y then x :: y :: l' else y :: insert x l'
  end.

Definition sorted (l : list spec_float) : list spec_float :=
  fold_left (fun acc x => insert x acc) l [].

End pyfloat.

(** ** The shapes *)

(** The geometry of a shape, read from the object. *)
Definition expect {A} (o : option A) : M A :=
  match o with Some a => ret a | None => raise AttributeError end.

(** *** class Line *)

(** [Line.__init__] *)
Definition Line_init (x1 y1 x2 y2 : Z) (bm : BlendMode) (w h : Z) : M ref :=
  Bitmap_init w h None bm (KLine x1 y1 x2 y2).

(** The [while True] loop of [Line.draw] (Bresenham). *)
Fixpoint Line_loop (fuel : nat) (self : ref) (x1 y1 x2 y2 dx dy sx sy err : Z)
    : M unit :=
  match fuel with
  | O => raise NonTermination
  | S fuel' =>
      set_pixel self x1 y1 true ;;
      if (x1 =? x2) && (y1 =? y2) then ret tt
      else
        let e2 := 2 * err in
        let '(err, x1) := if e2 >=? dy then (err + dy, x1 + sx) else (err, x1) in
        let '(err, y1) := if e2 <=? dx then (err + dx, y1 + sy) else (err, y1) in
        Line_loop fuel' self x1 y1 x2 y2 dx dy sx sy err
  end.

(** [Line.draw(self, width, height)] *)
Definition Line_draw (self : ref) (width height : Z) : M ref :=
  let* o := get_obj self in
  if negb (_is_dirty o) then ret self
  else
    reset self ;;
    let* '(x1, y1, x2, y2) :=
      expect (match kind o with KLine a b c d => Some (a, b, c, d) | _ => None end) in
    let dx := Z.abs (x2 - x1) in
    let dy := - Z.abs (y2 - y1) in
    let sx := if x1 <? x2 then 1 else -1 in
    let sy := if y1 <? y2 then 1 else -1 in
    let err := dx + dy in
    Line_loop (S (Z.to_nat (dx - dy))) self x1 y1 x2 y2 dx dy sx sy err ;;
    modify_obj self (fun o => with_dirty o false) ;;
    ret self.

(** [Line(x1, y1, x2, y2, blend_mode, width, height).draw(width, height).words]:
    the temporary line of an outlined triangle or rectangle.  Nothing
    refers to it and it refers to nothing, so it is created and drawn in
    a store of its own. *)
Definition Line_surface (x1 y1 x2 y2 : Z) (bm : BlendMode) (w h : Z)
    : result np.ndarray :=
  fst ((let* l := Line_init x1 y1 x2 y2 bm w h in
        let* d := Line_draw l w h in
        let* o := get_obj d in
        ret (words o)) []).

(** *** class Circle *)

Definition Circle_init (xc yc radius : Z) (fill : bool) (bm : BlendMode)
    (w h : Z) : M ref :=
  Bitmap_init w h None bm (KCircle xc yc radius fill).

(** The local function [circle_points] of [Circle.draw]. *)
Definition circle_points (self : ref) (xc yc x y : Z) : M unit :=
  for_each [(xc + x, yc + y); (xc - x, yc + y); (xc + x, yc - y); (xc - x, yc - y);
            (xc + y, yc + x); (xc - y, yc + x); (xc + y, yc - x); (xc - y, yc - x)]
           (fun p => set_pixel self (fst p) (snd p) true).

(** The local function [circle_fill] of [Circle.draw]. *)
Definition circle_fill (self : ref) (xc yc x y : Z) : M unit :=
  for_range (xc - x) (xc + x + 1)
    (fun px => set_pixel self px (yc + y) true ;; set_pixel self px (yc - y) true) ;;
  for_range (xc - y) (xc + y + 1)
    (fun px => set_pixel self px (yc + x) true ;; set_pixel self px (yc - x) true).

(** The loop [while x <= y] of [Circle.draw] (midpoint circle). *)
Fixpoint Circle_loop (fuel : nat) (self : ref) (fill : bool) (x0 y0 x y d : Z)
    : M unit :=
  if x <=? y then
    match fuel with
    | O => raise NonTermination
    | S fuel' =>
        (if fill then circle_fill self x0 y0 x y else circle_points self x0 y0 x y) ;;
        let '(d, y) := if d <? 0 then (d + (2 * x + 3), y)
                       else (d + (2 * (x - y) + 5), y - 1) in
        Circle_loop fuel' self fill x0 y0 (x + 1) y d
    end
  else ret tt.

(** [Circle.draw(self, width, height)] *)
Definition Circle_draw (self : ref) (width height : Z) : M ref :=
  let* o := get_obj self in
  if negb (_is_dirty o) then ret self
  else
    reset self ;;
    let* '(x0, y0, r, fill) :=
      expect (match kind o with KCircle a b c f => Some (a, b, c, f) | _ => None end) in
    Circle_loop (Z.to_nat (r + 1)) self fill x0 y0 0 r (1 - r) ;;
    modify_obj self (fun o => with_dirty o false) ;;
    ret self.

(** *** class Triangle *)

Definition Triangle_init (x1 y1 x2 y2 x3 y3 : Z) (fill : bool) (bm : BlendMode)
    (w h : Z) : M ref :=
  Bitmap_init w h None bm (KTriangle x1 y1 x2 y2 x3 y3 fill).

Definition vertex : Type := Z * Z.

(** The body of the loop over the three edges, for the scanline [y]: the
    x where the edge meets the scanline, if it is not horizontal and
    spans [y]. *)
Definition edge_xint (y : Z) (v0 v1 : vertex) : result (option spec_float) :=
  let '(x0, y0) := v0 in
  let '(x1, y1) := v1 in
  if y0 =? y1 then Ok None
  else if (Z.min y0 y1 <=? y) && (y <=? Z.max y0 y1) then
    match pyfloat.truediv (y - y0) (y1 - y0) with
    | Raise e => Raise e
    | Ok t =>
        match pyfloat.of_int (x1 - x0) with
        | Raise e => Raise e
        | Ok d =>
            match pyfloat.of_int x0 with
            | Raise e => Raise e
            | Ok a => Ok (Some (pyfloat.add a (pyfloat.mul t d)))
            end
        end
    end
  else Ok None.

(** [xints] once the three edges have been visited. *)
Fixpoint collect_xints (y : Z) (edges : list (vertex * vertex))
    : result (list spec_float) :=
  match edges with
  | [] => Ok []
  | (v0, v1) :: rest =>
      match edge_xint y v0 v1 with
      | Raise e => Raise e
      | Ok i =>
          match collect_xints y rest with
          | Raise e => Raise e
          | Ok l => Ok (match i with Some x => x :: l | None => l end)
          end
      end
  end.

Definition triangle_edges (v0 v1 v2 : vertex) : list (vertex * vertex) :=
  [(v0, v1); (v1, v2); (v2, v0)].

(** The span of one scanline: [None] when fewer than two intersections
    were found, else the rounded two smallest. *)
Definition scanline_span (y : Z) (v0 v1 v2 : vertex) : result (option (Z * Z)) :=
  match collect_xints y (triangle_edges v0 v1 v2) with
  | Raise e => Raise e
  | Ok xints =>
      if (2 <=? length xints)%nat then
        match pyfloat.sorted xints with
        | xL :: xR :: _ =>
            match pyfloat.round xL with
            | Raise e => Raise e
            | Ok l =>
                match pyfloat.round xR with
                | Raise e => Raise e
                | Ok r => Ok (Some (l, r))
                end
            end
        | _ => Ok None
        end
      else Ok None
  end.

(** The body of [for y in range(ymin, ymax + 1)]. *)
Definition Triangle_scanline (self : ref) (v0 v1 v2 : vertex) (y : Z) : M unit :=
  let* span := lift (scanline_span y v0 v1 v2) in
  match span with
  | Some (l, r) => for_range l (r + 1) (fun x => set_pixel self x y true)
  | None => ret tt
  end.

(** [Triangle.draw(self, width, height)] *)
Definition Triangle_draw (self : ref) (width height : Z) : M ref :=
  let* o := get_obj self in
  if negb (_is_dirty o) then ret self
  else
    reset self ;;
    let* '(x1, y1, x2, y2, x3, y3, fill) :=
      expect (match kind o with
              | KTriangle a b c d e f g => Some (a, b, c, d, e, f, g)
              | _ => None
              end) in
    (if negb fill then
       let bm := _blend_mode o in
       let* l1 := lift (Line_surface x1 y1 x2 y2 bm width height) in
       let* l2 := lift (Line_surface x2 y2 x3 y3 bm width height) in
       let* l3 := lift (Line_surface x3 y3 x1 y1 bm width height) in
       let* l12 := lift (np.bitor_same l1 l2) in
       let* l123 := lift (np.bitor_same l12 l3) in
       update_words self (fun a => np.inplace Z.lor a l123)
     else
       let ymin := Z.min y1 (Z.min y2 y3) in
       let ymax := Z.max y1 (Z.max y2 y3) in
       for_range ymin (ymax + 1)
         (Triangle_scanline self (x1, y1) (x2, y2) (x3, y3))) ;;
    modify_obj self (fun o => with_dirty o false) ;;
    ret self.

(** *** class Rectangle *)

Definition Rectangle_init (x y w h : Z) (fill : bool) (bm : BlendMode)
    (width height : Z) : M ref :=
  Bitmap_init width height None bm (KRectangle x y w h fill).

(** [Rectangle.draw(self, width, height)] *)
Definition Rectangle_draw (self : ref) (width height : Z) : M ref :=
  let* o := get_obj self in
  if negb (_is_dirty o) then ret self
  else
    reset self ;;
    let* '(x, y, w, h, fill) :=
      expect (match kind o with
              | KRectangle a b c d f => Some (a, b, c, d, f)
              | _ => None
              end) in
    (if negb fill then
       let bm := _blend_mode o in
       let* top := lift (Line_surface x y (x + w - 1) y bm width height) in
       let* left := lift (Line_surface x y x (y + h - 1) bm width height) in
       let* right :=
         lift (Line_surface (x + w - 1) y (x + w - 1) (y + h - 1) bm width height) in
       let* bottom :=
         lift (Line_surface x (y + h - 1) (x + w - 1) (y + h - 1) bm width height) in
       let* tl := lift (np.bitor_same top left) in
       let* tlr := lift (np.bitor_same tl right) in
       let* all := lift (np.bitor_same tlr bottom) in
       update_words self (fun a => np.inplace Z.lor a all)
     else
       for_range y (y + h)
         (fun yy => for_range x (x + w) (fun xx => set_pixel self xx yy true))) ;;
    modify_obj self (fun o => with_dirty o false) ;;
    ret self.

(** *** class DrawableText *)

Definition DrawableText_init (text : string) (font : Font) (x y : Z)
    (bm : BlendMode) (w h : Z) : M ref :=
  Bitmap_init w h None bm (KDrawableText text font x y).

(** [DrawableText.draw(self, width, height)]; [Image.new] refuses a
    negative size with a ValueError. *)
Definition DrawableText_draw (self : ref) (width height : Z) : M ref :=
  let* o := get_obj self in
  if negb (_is_dirty o) then ret self
  else
    reset self ;;
    let* '(text, font, x, y) :=
      expect (match kind o with
              | KDrawableText t f a b => Some (t, f, a, b)
              | _ => None
              end) in
    (if (width <? 0) || (height <? 0) then raise ValueError else ret tt) ;;
    for_range 0 height
      (fun j => for_range 0 width
         (fun i => if ink font text x y width height i j
                   then set_pixel self i j true else ret tt)) ;;
    modify_obj self (fun o => with_dirty o false) ;;
    ret self.

(** *** class GraphicsBuffer *)

(** [GraphicsBuffer.__init__] *)
Definition GraphicsBuffer_init (w h : Z) : M ref :=
  Bitmap_init w h None ON (KGraphicsBuffer []).

(** [GraphicsBuffer.add(self, drawable)] *)
Definition GraphicsBuffer_add (self drawable : ref) : M unit :=
  modify_obj drawable (fun d => with_parent d (Some self)) ;;
  let* o := get_obj self in
  let* cs := expect (match kind o with KGraphicsBuffer cs => Some cs | _ => None end) in
  put_obj self (with_kind o (KGraphicsBuffer (cs ++ [drawable]))).

(** [c.draw(width, height)]: the call the compositor makes on a child,
    resolved on the child's class.  [Bitmap.draw] raises
    NotImplementedError; [GraphicsBuffer.draw(self)] takes no size, so
    the call with two arguments is a TypeError. *)
Definition draw_method (c : ref) (width height : Z) : M ref :=
  let* o := get_obj c in
  match kind o with
  | KBitmap => raise NotImplementedError
  | KGraphicsBuffer _ => raise TypeError
  | KLine _ _ _ _ => Line_draw c width height
  | KCircle _ _ _ _ => Circle_draw c width height
  | KTriangle _ _ _ _ _ _ _ => Triangle_draw c width height
  | KRectangle _ _ _ _ _ => Rectangle_draw c width height
  | KDrawableText _ _ _ _ => DrawableText_draw c width height
  end.

(** The three in-place operators of the compositor, on words. *)
Definition blend_words (bm : BlendMode) (acc drawn : np.ndarray) : result np.ndarray :=
  match bm with
  | ON => np.inplace Z.lor acc drawn
  | OFF => np.inplace Z.land acc (np.invert drawn)
  | XOR => np.inplace Z.lxor acc drawn
  end.

(** The body of [for c in self.children]. *)
Definition compose_child (self c : ref) : M unit :=
  let* co := get_obj c in
  let bm := _blend_mode co in
  let* o := get_obj self in
  let* drawn := draw_method c (width o) (height o) in
  let* d := get_obj drawn in
  update_words self (fun acc => blend_words bm acc (words d)).

(** [GraphicsBuffer.draw(self)] *)
Definition GraphicsBuffer_draw (self : ref) : M ref :=
  let* o := get_obj self in
  if negb (_is_dirty o) then ret self
  else
    reset self ;;
    let* cs := expect (match kind o with KGraphicsBuffer cs => Some cs | _ => None end) in
    for_each cs (compose_child self) ;;
    ret self.

(** [GraphicsBuffer.reverse(self)] *)
Definition GraphicsBuffer_reverse (self : ref) : M unit :=
  let* o := get_obj self in
  for_range 0 (height o)
    (fun h => for_range 0 (width o / 16)
       (fun w =>
          update_words self
            (fun a => match np.getitem a h w with
                      | None => Raise IndexError
                      | Some v => Ok (np.setitem a h w (Z.lxor v 65535))
                      end))).

(** [b.reverse()], resolved on the class of [b]. *)
Definition reverse (self : ref) : M unit :=
  let* o := get_obj self in
  match kind o with
  | KGraphicsBuffer _ => GraphicsBuffer_reverse self
  | _ => Bitmap_reverse self
  end.

(** *** The property setters

    Every setter stores the new value and calls [self.dirty()]. *)
Definition set_geometry (self : ref) (upd : Kind → option Kind) : M unit :=
  let* o := get_obj self in
  let* k := expect (upd (kind o)) in
  put_obj self (with_kind o k) ;;
  dirty self.

Definition Line_x1_setter (self : ref) (v : Z) : M unit :=
  set_geometry self (fun k => match k with KLine _ b c d => Some (KLine v b c d) | _ => None end).
Definition Line_y1_setter (self : ref) (v : Z) : M unit :=
  set_geometry self (fun k => match k with KLine a _ c d => Some (KLine a v c d) | _ => None end).
Definition Line_x2_setter (self : ref) (v : Z) : M unit :=
  set_geometry self (fun k => match k with KLine a b _ d => Some (KLine a b v d) | _ => None end).
Definition Line_y2_setter (self : ref) (v : Z) : M unit :=
  set_geometry self (fun k => match k with KLine a b c _ => Some (KLine a b c v) | _ => None end).

Definition Circle_xc_setter (self : ref) (v : Z) : M unit :=
  set_geometry self (fun k => match k with KCircle _ b c f => Some (KCircle v b c f) | _ => None end).
Definition Circle_yc_setter (self : ref) (v : Z) : M unit :=
  set_geometry self (fun k => match k with KCircle a _ c f => Some (KCircle a v c f) | _ => None end).
Definition Circle_radius_setter (self : ref) (v : Z) : M unit :=
  set_geometry self (fun k => match k with KCircle a b _ f => Some (KCircle a b v f) | _ => None end).
Definition Circle_fill_setter (self : ref) (v : bool) : M unit :=
  set_geometry self (fun k => match k with KCircle a b c _ => Some (KCircle a b c v) | _ => None end).

Definition Triangle_x1_setter (self : ref) (v : Z) : M unit :=
  set_geometry self (fun k => match k with
    | KTriangle _ b c d e f g => Some (KTriangle v b c d e f g) | _ => None end).
Definition Triangle_y1_setter (self : ref) (v : Z) : M unit :=
  set_geometry self (fun k => match k with
    | KTriangle a _ c d e f g => Some (KTriangle a v c d e f g) | _ => None end).
Definition Triangle_x2_setter (self : ref) (v : Z) : M unit :=
  set_geometry self (fun k => match k with
    | KTriangle a b _ d e f g => Some (KTriangle a b v d e f g) | _ => None end).
Definition Triangle_y2_setter (self : ref) (v : Z) : M unit :=
  set_geometry self (fun k => match k with
    | KTriangle a b c _ e f g => Some (KTriangle a b c v e f g) | _ => None end).
Definition Triangle_x3_setter (self : ref) (v : Z) : M unit :=
  set_geometry self (fun k => match k with
    | KTriangle a b c d _ f g => Some (KTriangle a b c d v f g) | _ => None end).
Definition Triangle_y3_setter (self : ref) (v : Z) : M unit :=
  set_geometry self (fun k => match k with
    | KTriangle a b c d e _ g => Some (KTriangle a b c d e v g) | _ => None end).
Definition Triangle_fill_setter (self : ref) (v : bool) : M unit :=
  set_geometry self (fun k => match k with
    | KTriangle a b c d e f _ => Some (KTriangle a b c d e f v) | _ => None end).

Definition Rectangle_x_setter (self : ref) (v : Z) : M unit :=
  set_geometry self (fun k => match k with
    | KRectangle _ b c d f => Some (KRectangle v b c d f) | _ => None end).
Definition Rectangle_y_setter (self : ref) (v : Z) : M unit :=
  set_geometry self (fun k => match k with
    | KRectangle a _ c d f => Some (KRectangle a v c d f) | _ => None end).
Definition Rectangle_w_setter (self : ref) (v : Z) : M unit :=
  set_geometry self (fun k => match k with
    | KRectangle a b _ d f => Some (KRectangle a b v d f) | _ => None end).
Definition Rectangle_h_setter (self : ref) (v : Z) : M unit :=
  set_geometry self (fun k => match k with
    | KRectangle a b c _ f => Some (KRectangle a b c v f) | _ => None end).
Definition Rectangle_fill_setter (self : ref) (v : bool) : M unit :=
  set_geometry self (fun k => match k with
    | KRectangle a b c d _ => Some (KRectangle a b c d v) | _ => None end).

Definition DrawableText_text_setter (self : ref) (v : string) : M unit :=
  set_geometry self (fun k => match k with
    | KDrawableText _ f a b => Some (KDrawableText v f a b) | _ => None end).
Definition DrawableText_x_setter (self : ref) (v : Z) : M unit :=
  set_geometry self (fun k => match k with
    | KDrawableText t f _ b => Some (KDrawableText t f v b) | _ => None end).
Definition DrawableText_y_setter (self : ref) (v : Z) : M unit :=
  set_geometry self (fun k => match k with
    | KDrawableText t f a _ => Some (KDrawableText t f a v) | _ => None end).

(** ** copy.deepcopy

    [deepcopy(b)] builds a copy of every object reachable from [b]
    (through [_parent] and [children]) with the references among the
    copies following those among the originals.  The model copies the
    whole store behind itself and moves every reference in the copies by
    the length of the store: what is reachable from the copy of [b] is
    the copy of what is reachable from [b], and the other copies are
    garbage no reference of the program reaches. *)
Definition shift_kind (n : nat) (k : Kind) : Kind :=
  match k with
  | KGraphicsBuffer cs => KGraphicsBuffer (map (fun c => (c + n)%nat) cs)
  | _ => k
  end.

Definition shift_refs (n : nat) (o : Bitmap) : Bitmap :=
  mkBitmap (width o) (height o) (words o) (_is_dirty o)
           (option_map (fun p => (p + n)%nat) (_parent o))
           (_blend_mode o) (shift_kind n (kind o)).

Definition deepcopy (b : ref) : M ref :=
  fun h => match h !! b with
           | Some _ => (Ok (b + length h)%nat, h ++ (shift_refs (length h) <$> h))
           | None => (Raise InvalidRef, h)
           end.

(** ** driver.py: class ST7920 *)

(** The driver's attributes.  [spi] is what has gone over the bus: the
    byte lists given to [spi.writebytes], oldest first.  The chip-select
    and reset pins and the delays are not modelled. *)
Record ST7920 : Type := mkST7920 {
  lcd_width : Z;
  lcd_height : Z;
  extended : bool;
  graphics : bool;
  old_buffer : option ref;
  spi : list (list Z)
}.

(** Computations of the driver alone, and of the driver with the store. *)
Definition D (A : Type) : Type := St ST7920 A.
Definition DM (A : Type) : Type := St (ST7920 * heap) A.

Definition on_driver {A} (m : D A) : DM A :=
  fun s => let '(r, d) := m (fst s) in (r, (d, snd s)).
Definition on_heap {A} (m : M A) : DM A :=
  fun s => let '(r, h) := m (snd s) in (r, (fst s, h)).

Definition get_driver : D ST7920 := fun d => (Ok d, d).

(** The three bytes [_send] hands to [spi.writebytes]. *)
Definition spi_frame (byte : Z) (is_data : bool) : list Z :=
  let sync_byte := Z.lor 248 (if is_data then 2 else 0) in
  let upper := Z.land byte 240 in
  let lower := Z.land (Z.shiftl byte 4) 240 in
  [sync_byte; upper; lower].

Definition writebytes (bs : list Z) : D unit :=
  fun d => (Ok tt, mkST7920 (lcd_width d) (lcd_height d) (extended d) (graphics d)
                            (old_buffer d) (spi d ++ [bs])).

(** [ST7920._send(self, byte, is_data=False)] *)
Definition _send (byte : Z) (is_data : bool) : D unit :=
  writebytes (spi_frame byte is_data).

Definition _send_cmd (b : Z) : D unit := _send b false.
Definition _send_data (b : Z) : D unit := _send b true.

Definition set_extended (v : bool) : D unit :=
  fun d => (Ok tt, mkST7920 (lcd_width d) (lcd_height d) v (graphics d)
                            (old_buffer d) (spi d)).
Definition set_graphics (v : bool) : D unit :=
  fun d => (Ok tt, mkST7920 (lcd_width d) (lcd_height d) (extended d) v
                            (old_buffer d) (spi d)).
Definition set_old_buffer (v : option ref) : D unit :=
  fun d => (Ok tt, mkST7920 (lcd_width d) (lcd_height d) (extended d) (graphics d)
                            v (spi d)).

(** [ST7920.clear] *)
Definition clear : D unit := _send_cmd 1.

(** [ST7920.initialize] *)
Definition initialize : D unit :=
  _send_cmd 48 ;; _send_cmd 12 ;; clear ;; _send_cmd 6.

(** [ST7920.__init__]: the state after the constructor has run. *)
Definition ST7920_init (width height : Z) : ST7920 :=
  snd (initialize (mkST7920 width height false false None [])).

(** [ST7920.set_instruction_set(self, extended=False, graphics=False)] *)
Definition set_instruction_set (ext gr : bool) : D unit :=
  set_extended ext ;;
  _send_cmd (Z.lor 48 (Z.shiftl (Z.b2z ext) 2)) ;;
  if gr then
    if negb ext then raise ValueError
    else
      set_graphics true ;;
      _send_cmd (Z.lor (Z.lor 48 (Z.shiftl 1 2)) (Z.shiftl 1 1))
  else ret tt.

(** [ST7920.set_ddram_address] *)
Definition set_ddram_address (addr : Z) : D unit :=
  _send_cmd (Z.lor (Z.land addr 127) 128).

(** [ST7920.write_str(self, s)], the string given by the code points
    [ord(c)] of its characters. *)
Definition write_str (s : list Z) : D unit :=
  for_each s (fun c => _send_data c).

(** [ST7920.set_gdram_address(self, row, col_word)] *)
Definition set_gdram_address (row col_word : Z) : D unit :=
  let* d := get_driver in
  if negb ((0 <=? row) && (row <? lcd_height d)) then raise ValueError
  else if negb ((0 <=? col_word) && (col_word <? lcd_width d / 16)) then raise ValueError
  else
    let '(row, col_word) := if row >=? 32 then (row - 32, col_word + 8)
                            else (row, col_word) in
    _send_cmd (Z.lor 128 row) ;;
    _send_cmd (Z.lor 128 col_word).

(** [ST7920.write_gdram_word(self, word16)] *)
Definition write_gdram_word (word16 : Z) : D unit :=
  _send_data (Z.land (Z.shiftr word16 8) 255) ;;
  _send_data (Z.land word16 255).

(** [ST7920.clear_gdram] *)
Definition clear_gdram : D unit :=
  for_range 0 64
    (fun row =>
       set_gdram_address row 0 ;;
       for_range 0 8 (fun _ => write_gdram_word 0)) ;;
  set_old_buffer None.

(** [bmp.words[row, col_word]] *)
Definition read_word (bmp : ref) (row col_word : Z) : M Z :=
  let* o := get_obj bmp in
  match np.getitem (words o) row col_word with
  | Some w => ret w
  | None => raise IndexError
  end.

(** The body of the two loops of [write_gdram_buffer]. *)
Definition write_changed_word (bmp : ref) (row col_word : Z) : DM unit :=
  let* new_word := on_heap (read_word bmp row col_word) in
  let* d := on_driver get_driver in
  let* old_word :=
    match old_buffer d with
    | Some ob => let* w := on_heap (read_word ob row col_word) in ret (Some w)
    | None => ret None
    end in
  if negb (bool_decide (old_word = Some new_word)) then
    on_driver (set_gdram_address row col_word) ;;
    on_driver (write_gdram_word new_word)
  else ret tt.

(** [ST7920.write_gdram_buffer(self, bmp)] *)
Definition write_gdram_buffer (bmp : ref) : DM unit :=
  let* o := on_heap (get_obj bmp) in
  for_range 0 (height o)
    (fun row => for_range 0 (width o / 16)
       (fun col_word => write_changed_word bmp row col_word)) ;;
  let* copy := on_heap (deepcopy bmp) in
  on_driver (set_old_buffer (Some copy)).

(** * Notions used to state the properties *)

(** ** Frames *)

(** The attributes no method of the modelled code changes after
    construction, except the setters and [add]. *)
Definition static (o o' : Bitmap) : Prop :=
  width o' = width o ∧ height o' = height o ∧ _parent o' = _parent o
  ∧ _blend_mode o' = _blend_mode o ∧ kind o' = kind o.

(** [touch T h h']: from [h] to [h'] no object was created, every object
    kept its static attributes, and outside [T] every object kept its
    words and no dirty flag was cleared. *)
Definition touch (T : ref → Prop) (h h' : heap) : Prop :=
  length h' = length h
  ∧ ∀ r o, h !! r = Some o →
      ∃ o', h' !! r = Some o' ∧ static o o'
            ∧ (¬ T r → words o' = words o ∧ (_is_dirty o = true → _is_dirty o' = true)).

(** A computation all of whose runs, returning or raising, relate the
    store they start from to the store they leave. *)
Definition preserves {A} (R : heap → heap → Prop) (m : M A) : Prop :=
  ∀ h, R h (snd (m h)).

(** A computation whose returned values all satisfy [P]. *)
Definition returns {A} (P : A → Prop) (m : M A) : Prop :=
  ∀ h a h', m h = (Ok a, h') → P a.

(** ** Parent chains *)

Definition parents (h : heap) : list (option ref) := _parent <$> h.

(** The chain of parents from [r] ends at an object without parent
    within [fuel] objects. *)
Fixpoint rooted (fuel : nat) (ps : list (option ref)) (r : ref) : bool :=
  match fuel with
  | O => false
  | S fuel' =>
      match ps !! r with
      | Some None => true
      | Some (Some p) => rooted fuel' ps p
      | None => false
      end
  end.

Definition chain_ok (h : heap) (r : ref) : Prop :=
  rooted (S (length h)) (parents h) r = true.

(** [a] is [r] or a container above it. *)
Inductive ancestor (h : heap) : ref → ref → Prop :=
| ancestor_self r : ancestor h r r
| ancestor_up r p a o :
    h !! r = Some o → _parent o = Some p → ancestor h p a → ancestor h r a.

(** ** Surfaces *)

(** A surface as the constructor builds it for a width that is a whole
    number of words: [height] rows of [width / 16] words. *)
Definition surface_ok (o : Bitmap) : Prop :=
  width o mod 16 = 0
  ∧ np.wf (words o)
  ∧ Z.of_nat (np.nrows (words o)) = height o
  ∧ Z.of_nat (np.ncols (words o)) = width o / 16.

(** The pixel at [(x, y)] as [get_pixel] computes it, on the object. *)
Definition pixel (o : Bitmap) (x y : Z) : Z :=
  if in_bounds o x y then
    match np.getitem (words o) y (x / 16) with
    | Some w => Z.land (Z.shiftr w (15 - x mod 16)) 1
    | None => 0
    end
  else 0.

(** ** Small scenes, for the examples *)

(** A 16×1 container (object 0) holding the line (0,0)–(3,0) (object 1). *)
Definition scene_line : heap :=
  snd ((let* g := GraphicsBuffer_init 16 1 in
        let* l := Line_init 0 0 3 0 ON 16 1 in
        GraphicsBuffer_add g l) []).

(** Two 16×1 containers (objects 0 and 1), not yet related. *)
Definition scene_two_buffers : heap :=
  snd ((GraphicsBuffer_init 16 1 ;; GraphicsBuffer_init 16 1) []).

(** ** Sequences of writes on a surface *)

Inductive write_op : Type :=
| SetPixel (x y : Z) (value : bool)
| SetWord (v h : Z) (value : Z).

Definition run_op (c : np.casting) (self : ref) (op : write_op) : M unit :=
  match op with
  | SetPixel x y value => set_pixel_under c self x y value
  | SetWord v h value => set_word self v h value
  end.

Definition run_ops (c : np.casting) (self : ref) (ops : list write_op) : M unit :=
  for_each ops (run_op c self).

(** The writes that clear a pixel of the surface. *)
Definition clears (o : Bitmap) (op : write_op) : bool :=
  match op with
  | SetPixel x y false => in_bounds o x y
  | _ => false
  end.

(** Whether word [(v, h)] is a word of the surface. *)
Definition word_in_bounds (o : Bitmap) (v h : Z) : bool :=
  (0 <=? v) && (v <? height o) && (0 <=? h) && (h <? width o / 16).

(** The value a write gives to the pixel [(x, y)], if it writes it: a
    [set_pixel] writes the pixel it names, a [set_word] writes the sixteen
    pixels of its word, most significant bit leftmost. *)
Definition written (o : Bitmap) (op : write_op) (x y : Z) : option bool :=
  match op with
  | SetPixel x' y' value =>
      if in_bounds o x' y' && (x' =? x) && (y' =? y) then Some value else None
  | SetWord v h value =>
      if word_in_bounds o v h && (v =? y) && (h =? x / 16)
      then Some (Z.testbit value (15 - x mod 16)) else None
  end.

(** The last value a sequence of writes gives to the pixel, if any. *)
Fixpoint last_written (o : Bitmap) (ops : list write_op) (x y : Z) : option bool :=
  match ops with
  | [] => None
  | op :: rest =>
      match last_written o rest x y with
      | Some b => Some b
      | None => written o op x y
      end
  end.

(** ** What the differential writer puts on the bus *)

(** The driver after the byte lists [l] have gone over the bus. *)
Definition sent (d : ST7920) (l : list (list Z)) : ST7920 :=
  mkST7920 (lcd_width d) (lcd_height d) (extended d) (graphics d)
           (old_buffer d) (spi d ++ l).

(** An address-set: the two commands of [set_gdram_address], rows 32 and
    up being the right half of the controller's rows 0 to 31. *)
Definition address_set (row col_word : Z) : list (list Z) :=
  let '(row, col_word) := if row >=? 32 then (row - 32, col_word + 8)
                          else (row, col_word) in
  [spi_frame (Z.lor 128 row) false; spi_frame (Z.lor 128 col_word) false].

(** A word-write: the two data bytes of [write_gdram_word], high byte first. *)
Definition word_write (word16 : Z) : list (list Z) :=
  [spi_frame (Z.land (Z.shiftr word16 8) 255) true;
   spi_frame (Z.land word16 255) true].

(** The transmission of one word: an address-set and a word-write. *)
Definition transmission (row col_word word16 : Z) : list (list Z) :=
  address_set row col_word ++ word_write word16.

(** The word of a surface at [(row, col_word)]. *)
Definition word_at (o : Bitmap) (row col_word : Z) : Z :=
  default 0 (np.getitem (words o) row col_word).

(** Every word of the surface transmitted once, rows in order and, in a
    row, words in order. *)
Definition full_scan (o : Bitmap) : list (list Z) :=
  flat_map (fun row =>
              flat_map (fun col_word => transmission row col_word (word_at o row col_word))
                       (seqZ 0 (width o / 16)))
           (seqZ 0 (height o)).

(** The surface has no more rows and words per row than the display. *)
Definition fits (d : ST7920) (o : Bitmap) : Prop :=
  height o ≤ lcd_height d ∧ width o / 16 ≤ lcd_width d / 16.

(** A computation that leaves the part [f] of the state as it is, on
    every run. *)
Definition keeps {S A X} (f : S → X) (m : St S A) : Prop :=
  ∀ s, f (snd (m s)) = f s.

(** The size of the display the driver was built for. *)
Definition lcd_size (d : ST7920) : Z * Z := (lcd_width d, lcd_height d).

(** ** Mutations of a live surface *)

Inductive mutation : Type :=
| MSetPixel (x y : Z) (value : bool)
| MSetWord (v h : Z) (value : Z)
| MReset
| MReverse.

Definition run_mutation (c : np.casting) (self : ref) (m : mutation) : M unit :=
  match m with
  | MSetPixel x y value => set_pixel_under c self x y value
  | MSetWord v h value => set_word self v h value
  | MReset => reset self
  | MReverse => reverse self
  end.

(** The driver with a new baseline. *)
Definition with_old_buffer (d : ST7920) (v : option ref) : ST7920 :=
  mkST7920 (lcd_width d) (lcd_height d) (extended d) (graphics d) v (spi d).

(** What one scan of [write_gdram_buffer] transmits when the word at
    [(row, col_word)] takes [tx row col_word] on the bus. *)
Definition scan (o : Bitmap) (tx : Z → Z → list (list Z)) : list (list Z) :=
  flat_map (fun row => flat_map (tx row) (seqZ 0 (width o / 16))) (seqZ 0 (height o)).

(** A 32×2 container alone in the store (object 0), a display of that
    size, and the two after a first [write_gdram_buffer] followed by
    [set_word(1, 1, 0xBEEF)] on the live surface. *)
Definition scene_32x2 : heap := Eval vm_compute in snd (GraphicsBuffer_init 32 2 []).
Definition lcd_32x2 : ST7920 := Eval vm_compute in ST7920_init 32 2.
Definition lcd_written : ST7920 :=
  Eval vm_compute in fst (snd (write_gdram_buffer 0%nat (lcd_32x2, scene_32x2))).
Definition scene_written : heap :=
  Eval vm_compute in snd (snd (write_gdram_buffer 0%nat (lcd_32x2, scene_32x2))).
Definition scene_changed : heap :=
  Eval vm_compute in snd (set_word 0%nat 1 1 48879 scene_written).

(** ** Composition *)

(** The blend rules on one bit: ON adds ink, OFF erases ink, XOR inverts
    ink. *)
Definition blend_bit (bm : BlendMode) (acc child : bool) : bool :=
  match bm with
  | ON => acc || child
  | OFF => acc && negb child
  | XOR => xorb acc child
  end.

(** The accumulator after the children [cs] have been combined into
    [acc] one after the other, first child first, each with its own
    blend mode and the surface it holds in the store [h]. *)
Fixpoint compose_children (h : heap) (acc : np.ndarray) (cs : list ref)
    : result np.ndarray :=
  match cs with
  | [] => Ok acc
  | c :: rest =>
      match h !! c with
      | Some oc =>
          match blend_words (_blend_mode oc) acc (words oc) with
          | Ok a => compose_children h a rest
          | Raise e => Raise e
          end
      | None => Raise InvalidRef
      end
  end.

(** Two overlapping lines on a 16×1 container: A = (0,0)–(3,0) with mode
    ON and B = (2,0)–(5,0) with mode OFF.  The container is object 0, A
    is object 1 and B is object 2; [a_first] tells the order of the two
    [add] calls. *)
Definition scene_blend_added (a_first : bool) : heap :=
  snd ((let* g := GraphicsBuffer_init 16 1 in
        let* a := Line_init 0 0 3 0 ON 16 1 in
        let* b := Line_init 2 0 5 0 OFF 16 1 in
        if a_first then GraphicsBuffer_add g a ;; GraphicsBuffer_add g b
        else GraphicsBuffer_add g b ;; GraphicsBuffer_add g a) []).

(** The same after [draw()] on the container. *)
Definition scene_blend (a_first : bool) : result ref * heap :=
  GraphicsBuffer_draw 0%nat (scene_blend_added a_first).

(** The words of object [r] in a store, [None] when there is no such
    object. *)
Definition words_of (h : heap) (r : ref) : option (list (list Z)) :=
  (fun o => np.cells (words o)) <$> h !! r.

(** The dirty flag of object [r] in a store. *)
Definition flag_of (h : heap) (r : ref) : option bool := _is_dirty <$> h !! r.

(** [flag_kept g h h']: the object [g] is still there, with its class and
    size, and its dirty flag, if it was set, is still set. *)
Definition flag_kept (g : ref) (h h' : heap) : Prop :=
  ∀ o, h !! g = Some o →
    ∃ o', h' !! g = Some o' ∧ static o o' ∧ (_is_dirty o = true → _is_dirty o' = true).

(** A container (object 0) holding a container (object 1) holding the
    line (0,0)–(3,0) (object 2), all 16×1. *)
Definition scene_nested : heap :=
  snd ((let* root := GraphicsBuffer_init 16 1 in
        let* mid := GraphicsBuffer_init 16 1 in
        let* l := Line_init 0 0 3 0 ON 16 1 in
        GraphicsBuffer_add mid l ;;
        GraphicsBuffer_add root mid) []).

(** [scene_nested] after the children have been drawn once on their own
    and every flag has been cleared by hand: the state a caching
    compositor would be in between two frames. *)
Definition scene_nested_clean : heap :=
  (fun o => with_dirty o false) <$> scene_nested.

(** ** Painting *)

(** [painted self o ink h]: in the store [h] the object [self] is the
    surface [o] up to its words and flag, still well formed and with a
    parent chain that ends, and its in-bounds pixels are exactly the
    ones [ink] tells. *)
Definition painted (self : ref) (o : Bitmap) (ink : Z → Z → bool) (h : heap) : Prop :=
  ∃ o', h !! self = Some o' ∧ static o o' ∧ surface_ok o' ∧ chain_ok h self
        ∧ ∀ x y, in_bounds o x y = true → pixel o' x y = Z.b2z (ink x y).

(** The pixels of the rectangle [[x, x + w) × [y, y + h)]. *)
Definition in_rect (x y w h : Z) (px py : Z) : bool :=
  (x <=? px) && (px <? x + w) && (y <=? py) && (py <? y + h).

(** The pixels of the image of a text that carry ink, the image being
    [width × height]. *)
Definition text_ink (font : Font) (text : string) (x y width height : Z) (px py : Z)
    : bool :=
  (0 <=? px) && (px <? width) && (0 <=? py) && (py <? height)
  && ink font text x y width height px py.

(** The pixels of the scanlines of a filled triangle: those of the rows
    from the lowest to the highest vertex that lie within the span of
    their row. *)
Definition in_spans (v0 v1 v2 : vertex) (px py : Z) : bool :=
  let ymin := Z.min (snd v0) (Z.min (snd v1) (snd v2)) in
  let ymax := Z.max (snd v0) (Z.max (snd v1) (snd v2)) in
  (ymin <=? py) && (py <=? ymax)
  && match scanline_span py v0 v1 v2 with
     | Ok (Some (l, r)) => (l <=? px) && (px <=? r)
     | _ => false
     end.

(** ** The pixels a line visits *)

(** The positions at which the loop of [Line.draw] calls [set_pixel], in
    order: the loop itself, with the calls written down instead of made.
    [None] when the budget runs out first. *)
Fixpoint line_points (fuel : nat) (x1 y1 x2 y2 dx dy sx sy err : Z)
    : option (list (Z * Z)) :=
  match fuel with
  | O => None
  | S fuel' =>
      if (x1 =? x2) && (y1 =? y2) then Some [(x1, y1)]
      else
        let e2 := 2 * err in
        let '(err, x1') := if e2 >=? dy then (err + dy, x1 + sx) else (err, x1) in
        let '(err, y1') := if e2 <=? dx then (err + dx, y1 + sy) else (err, y1) in
        cons (x1, y1) <$> line_points fuel' x1' y1' x2 y2 dx dy sx sy err
  end.

(** The positions visited for the line from [(x1, y1)] to [(x2, y2)],
    with the variables and the budget [Line.draw] starts the loop with. *)
Definition line_trace (x1 y1 x2 y2 : Z) : option (list (Z * Z)) :=
  let dx := Z.abs (x2 - x1) in
  let dy := - Z.abs (y2 - y1) in
  let sx := if x1 <? x2 then 1 else -1 in
  let sy := if y1 <? y2 then 1 else -1 in
  line_points (S (Z.to_nat (dx - dy))) x1 y1 x2 y2 dx dy sx sy (dx + dy).

(** Whether [(px, py)] is one of the positions [pts]. *)
Definition on_trace (pts : list (Z * Z)) (px py : Z) : bool :=
  existsb (fun p => (px =? fst p) && (py =? snd p)) pts.

(** [v] lies between [a] and [b], whichever is the smaller. *)
Definition between (a b v : Z) : Prop := Z.min a b ≤ v ≤ Z.max a b.

(** [m] returns and adds the pixels [f] to what the surface of [self]
    shows. *)
Definition paints (self : ref) (o : Bitmap) (m : M unit) (f : Z → Z → bool) : Prop :=
  ∀ ink h, painted self o ink h →
    ∃ h', m h = (Ok tt, h') ∧ painted self o (fun x y => ink x y || f x y) h'.

(** ** The pixels of a circle *)

(** The values of [(x, y)] at which the loop of [Circle.draw] calls
    [circle_points] or [circle_fill], in order: the loop itself, with the
    calls written down instead of made.  [None] when the budget runs out
    first. *)
Fixpoint circle_steps (fuel : nat) (x y d : Z) : option (list (Z * Z)) :=
  if x <=? y then
    match fuel with
    | O => None
    | S fuel' =>
        let '(d, y') := if d <? 0 then (d + (2 * x + 3), y)
                        else (d + (2 * (x - y) + 5), y - 1) in
        cons (x, y) <$> circle_steps fuel' (x + 1) y' d
    end
  else Some [].

(** The steps for radius [r], with the variables and the budget
    [Circle.draw] starts the loop with. *)
Definition circle_trace (r : Z) : option (list (Z * Z)) :=
  circle_steps (Z.to_nat (r + 1)) 0 r (1 - r).

(** The eight positions [circle_points(xc, yc, x, y)] sets. *)
Definition octants (xc yc : Z) (p : Z * Z) : list (Z * Z) :=
  let '(x, y) := p in
  [(xc + x, yc + y); (xc - x, yc + y); (xc + x, yc - y); (xc - x, yc - y);
   (xc + y, yc + x); (xc - y, yc + x); (xc + y, yc - x); (xc - y, yc - x)].

(** Whether [circle_points(xc, yc, x, y)] sets [(px, py)]. *)
Definition on_octants (xc yc px py : Z) (p : Z * Z) : bool :=
  on_trace (octants xc yc p) px py.

(** Whether [circle_fill(xc, yc, x, y)] sets [(px, py)]: the four
    horizontal chords. *)
Definition in_chords (xc yc px py : Z) (p : Z * Z) : bool :=
  let '(x, y) := p in
  ((xc - x <=? px) && (px <=? xc + x) && ((py =? yc + y) || (py =? yc - y)))
  || ((xc - y <=? px) && (px <=? xc + y) && ((py =? yc + x) || (py =? yc - x))).

(** The square of the distance of [(px, py)] from [(xc, yc)]. *)
Definition dist2 (xc yc px py : Z) : Z :=
  (px - xc) * (px - xc) + (py - yc) * (py - yc).

(** ** Shapes for the examples *)

(** A shape on a 16 × 4 surface, as its constructor leaves it. *)
Definition fresh_16x4 (k : Kind) : Bitmap :=
  mkBitmap 16 4 (np.mk 4 1 [[0]; [0]; [0]; [0]]) true None ON k.

(** A font that inks one pixel per character, on the row of the text's
    origin. *)
Definition font_dots : Font :=
  {| ink := fun text x y _ _ i j =>
              (x <=? i) && (i <? x + Z.of_nat (String.length text)) && (j =? y) |}.

(** ** Reading the bus back *)

(** The byte a transfer of [_send] carries: its high nibble is the high
    half of the second byte of the transfer, its low nibble the high half
    of the third. *)
Definition frame_byte (fr : list Z) : option Z :=
  match fr with
  | [_; upper; lower] => Some (Z.lor upper (Z.shiftr lower 4))
  | _ => None
  end.

(** Whether a transfer is data rather than a command: the RS bit of its
    synchronisation byte. *)
Definition frame_is_data (fr : list Z) : option bool :=
  match fr with
  | [sync; _; _] => Some (Z.testbit sync 1)
  | _ => None
  end.

(** A value [spi.writebytes] accepts as a byte. *)
Definition is_byte (b : Z) : Prop := 0 ≤ b ≤ 255.

(** The position the two bytes of an address-set name on a display of up
    to 64 rows of 8 words: the vertical address is a row of the upper
    half, the horizontal addresses from 8 on are the words of the lower
    half. *)
Definition gdram_position (vertical horizontal : Z) : Z * Z :=
  let row := vertical - 128 in
  let col_word := horizontal - 128 in
  if col_word >=? 8 then (row + 32, col_word - 8) else (row, col_word).

(** What [clear_gdram] transmits for one row: the address of its first
    word and eight zero words. *)
Definition clear_row (row : Z) : list (list Z) :=
  address_set row 0 ++ flat_map (fun _ : Z => word_write 0) (seqZ 0 8).

(** ** What a write to the display leaves alone *)

(** A computation all of whose runs, returning or raising, relate the
    state they start from to the state they leave. *)
Definition stays {S A} (R : S → S → Prop) (m : St S A) : Prop :=
  ∀ s, R s (snd (m s)).

(** From [s] to [s'] only transfers were added to the bus: the store,
    the driver's size, modes and baseline are the same. *)
Definition bus_only (s s' : ST7920 * heap) : Prop :=
  snd s' = snd s
  ∧ lcd_size (fst s') = lcd_size (fst s)
  ∧ extended (fst s') = extended (fst s)
  ∧ graphics (fst s') = graphics (fst s)
  ∧ old_buffer (fst s') = old_buffer (fst s)
  ∧ ∃ l, spi (fst s') = spi (fst s) ++ l.

(** Whether the word [(row, col_word)] is a position of the display. *)
Definition on_display (d : ST7920) (row col_word : Z) : bool :=
  (0 <=? row) && (row <? lcd_height d) && (0 <=? col_word) && (col_word <? lcd_width d / 16).

(** A display of one word by two rows, and what is left of it by the
    write of a surface of two words by two rows. *)
Definition lcd_16x2 : ST7920 := Eval vm_compute in ST7920_init 16 2.
Definition lcd_16x2_failed : ST7920 :=
  Eval vm_compute in fst (snd (write_gdram_buffer 0%nat (lcd_16x2, scene_32x2))).

(** ** Outlines *)

(** Whether the bit of the pixel [(px, py)] is set in an array of words. *)
Definition bit_at (a : np.ndarray) (px py : Z) : bool :=
  match np.getitem a py (px / 16) with
  | Some w => Z.testbit w (15 - px mod 16)
  | None => false
  end.

(** An array of [height] rows of [width / 16] words. *)
Definition shaped (a : np.ndarray) (width height : Z) : Prop :=
  np.wf a ∧ Z.of_nat (np.nrows a) = height ∧ Z.of_nat (np.ncols a) = width / 16.

(** [v] lies between [a] and [b], as a test. *)
Definition betweenb (a b v : Z) : bool := (Z.min a b <=? v) && (v <=? Z.max a b).

(** The four sides of the rectangle with corner [(x, y)] and size
    [w × h], each from corner to corner. *)
Definition on_border (x y w h px py : Z) : bool :=
  ((py =? y) && betweenb x (x + w - 1) px)
  || ((px =? x) && betweenb y (y + h - 1) py)
  || ((px =? x + w - 1) && betweenb y (y + h - 1) py)
  || ((py =? y + h - 1) && betweenb x (x + w - 1) px).

(** ** The picture a container composes *)

(** The class and attributes [k] render the ink [ink] at the size
    [dw × dh]: on a dirty object with these attributes, a well-formed
    surface of that size and a chain of parents that ends,
    [draw(dw, dh)] returns the object, clean, with exactly the pixels of
    [ink] set. *)
Definition renders (dw dh : Z) (k : Kind) (ink : Z → Z → bool) : Prop :=
  ∀ (h : heap) (c : ref) (oc : Bitmap),
    h !! c = Some oc → kind oc = k → _is_dirty oc = true →
    surface_ok oc → width oc = dw → height oc = dh → chain_ok h c →
    ∃ h' oc',
      draw_method c dw dh h = (Ok c, h')
      ∧ h' !! c = Some oc' ∧ static oc oc' ∧ surface_ok oc' ∧ _is_dirty oc' = false
      ∧ ∀ px py, in_bounds oc px py = true → pixel oc' px py = Z.b2z (ink px py).

(** The blend mode of the object [c]. *)
Definition blend_of (h : heap) (c : ref) : BlendMode :=
  default ON (_blend_mode <$> h !! c).

(** The picture of the children [cs]: the blank surface with the ink of
    each child blended in by the child's mode, in the order of the list. *)
Definition picture (h : heap) (inks : ref → Z → Z → bool) (cs : list ref)
    (px py : Z) : bool :=
  fold_left (fun acc c => blend_bit (blend_of h c) acc (inks c px py)) cs false.

(** A 16 × 4 container (object 0) with a line in mode ON (object 1) and
    a filled rectangle in mode XOR (object 2), and the inks of the two. *)
Definition scene_picture : heap :=
  [mkBitmap 16 4 (np.mk 4 1 [[0]; [0]; [0]; [0]]) true None ON
            (KGraphicsBuffer [1%nat; 2%nat]);
   mkBitmap 16 4 (np.mk 4 1 [[0]; [0]; [0]; [0]]) true (Some 0%nat) ON (KLine 1 0 9 0);
   mkBitmap 16 4 (np.mk 4 1 [[0]; [0]; [0]; [0]]) true (Some 0%nat) XOR
            (KRectangle 0 0 4 2 true)].

Definition inks_picture (c : ref) : Z → Z → bool :=
  if (c =? 1)%nat then on_trace (default [] (line_trace 1 0 9 0))
  else in_rect 0 0 4 2.

(** ** What a call leaves exactly as it was *)

(** [T] has the parent of each of its objects. *)
Definition up_closed (h : heap) (T : ref → Prop) : Prop :=
  ∀ r o p, T r → h !! r = Some o → _parent o = Some p → T p.

(** [within T S h h']: when [T] has the parents of its objects, from
    [h] to [h'] no object was created, no parent changed, and every
    object outside [T] and [S] is the object it was. *)
Definition within (T S : ref → Prop) (h h' : heap) : Prop :=
  up_closed h T →
  length h' = length h
  ∧ parents h' = parents h
  ∧ ∀ r, ¬ T r → ¬ S r → h' !! r = h !! r.

(** One turn of the loop of main.py, the texts left as they are:
    [g.draw(); lcd.write_gdram_buffer(g)]. *)
Definition show_frame (g : ref) : DM unit :=
  on_heap (GraphicsBuffer_draw g) ;; write_gdram_buffer g.

(** [n] turns. *)
Fixpoint show_frames (n : nat) (g : ref) : DM unit :=
  match n with
  | O => ret tt
  | S n' => show_frame g ;; show_frames n' g
  end.

(** The container [g] holds [og], flagged, with the children [cs], every
    child being a shape that is not flagged, and the words of [og] are
    the children's surfaces combined from the blank surface. *)
Definition composed (h : heap) (g : ref) (og : Bitmap) (cs : list ref) : Prop :=
  h !! g = Some og ∧ kind og = KGraphicsBuffer cs ∧ _is_dirty og = true
  ∧ (∀ c, c ∈ cs →
       c ≠ g ∧ ∃ oc, h !! c = Some oc ∧ _is_dirty oc = false
                     ∧ kind oc ≠ KBitmap ∧ ∀ cs', kind oc ≠ KGraphicsBuffer cs')
  ∧ compose_children h (np.fill0 (words og)) cs = Ok (words og).

(** A 16 × 4 display, and the scene of the picture after the container's
    [draw()]. *)
Definition lcd_16x4 : ST7920 := Eval vm_compute in ST7920_init 16 4.
Definition scene_picture_drawn : heap :=
  Eval vm_compute in snd (GraphicsBuffer_draw 0%nat scene_picture).

(** ** The cache of the drawables *)

(** The container [g], without parent and flagged, with the distinct
    children [cs] of its size that have it as parent, and the ink each
    child is to show: the class of a child renders its ink, and a child
    that is not flagged shows its ink already. *)
Definition ready (h : heap) (g : ref) (og : Bitmap) (cs : list ref)
    (inks : ref → Z → Z → bool) : Prop :=
  h !! g = Some og ∧ kind og = KGraphicsBuffer cs ∧ _is_dirty og = true
  ∧ surface_ok og ∧ _parent og = None ∧ NoDup cs
  ∧ ∀ c, c ∈ cs →
      ∃ oc, h !! c = Some oc ∧ _parent oc = Some g ∧ surface_ok oc
            ∧ width oc = width og ∧ height oc = height og
            ∧ renders (width og) (height og) (kind oc) (inks c)
            ∧ (_is_dirty oc = false →
               ∀ px py, in_bounds oc px py = true → pixel oc px py = Z.b2z (inks c px py)).

(** The inks after the child [c0] has been given a new geometry. *)
Definition with_ink (inks : ref → Z → Z → bool) (c0 : ref) (ink : Z → Z → bool)
    : ref → Z → Z → bool :=
  fun c => if bool_decide (c = c0) then ink else inks c.

(** ** The scanline fill, in the words of the specification *)

(** A float that is a number: neither an infinity nor a NaN. *)
Definition is_finite (x : spec_float) : bool :=
  match x with
  | S754_zero _ | S754_finite _ _ _ => true
  | _ => false
  end.

(** [x ≤ y] on floats that are numbers: [y] is not below [x]. *)
Definition fle (x y : spec_float) : Prop := SFltb y x = false.

(** The edge is not horizontal and the row [y] lies between its ends,
    the ends included. *)
Definition crosses (y : Z) (e : vertex * vertex) : bool :=
  let y0 := snd (fst e) in
  let y1 := snd (snd e) in
  negb (y0 =? y1) && (Z.min y0 y1 <=? y) && (y <=? Z.max y0 y1).

(** The integer [n] as a float, correctly rounded. *)
Definition float_of (n : Z) : spec_float := binary_normalize 53 1024 n 0 false.

(** Where the edge from [(x0, y0)] to [(x1, y1)] meets the row [y]:
    [x0 + (y - y0) / (y1 - y0) * (x1 - x0)], the quotient of the two
    integers, the product and the sum each rounded to a float. *)
Definition crossing (y : Z) (e : vertex * vertex) : spec_float :=
  let '((x0, y0), (x1, y1)) := e in
  SFadd 53 1024 (float_of x0)
    (SFmul 53 1024 (SFdiv 53 1024 (pyfloat.exact (y - y0)) (pyfloat.exact (y1 - y0)))
                   (float_of (x1 - x0))).

(** The intersections of the row [y] with the three edges of the
    triangle: one for every edge that crosses the row. *)
Definition crossings (y : Z) (v0 v1 v2 : vertex) : list spec_float :=
  flat_map (fun e => if crosses y e then [crossing y e] else [])
           [(v0, v1); (v1, v2); (v2, v0)].

(** [n] is the integer nearest to the number [x], and the even one of
    the two nearest when [x] lies halfway between them.  A float
    [S754_finite s m e] is the number [± m · 2 ^ e]. *)
Definition nearest_even (x : spec_float) (n : Z) : Prop :=
  match x with
  | S754_zero _ => n = 0
  | S754_finite s m e =>
      let v := if s then - Z.pos m else Z.pos m in
      if 0 <=? e then n = v * 2 ^ e
      else
        let d := 2 ^ (- e) in
        2 * Z.abs (n * d - v) ≤ d ∧ (2 * Z.abs (n * d - v) = d → Z.even n = true)
  | _ => False
  end.

(** A 16 × 4 surface holding the filled triangle (5,0), (0,3), (0,1):
    its row 1 has three intersections, its rows 1 and 2 have
    intersections that are not whole numbers. *)
Definition scene_triangle : heap :=
  [mkBitmap 16 4 (np.mk 4 1 [[0]; [0]; [0]; [0]]) true None ON
            (KTriangle 5 0 0 3 0 1 true)].

(** The same after the triangle's [draw(16, 4)]. *)
Definition scene_triangle_drawn : heap :=
  Eval vm_compute in snd (Triangle_draw 0%nat 16 4 scene_triangle).

(** * Properties *)

(** ** The monad *)

Lemma bind_ok {S A B} (m : St S A) (f : A → St S B) s a s' :
  m s = (Ok a, s') → bind m f s = f a s'.
Proof. intros E. unfold bind. by rewrite E. Qed.

Lemma bind_raise {S A B} (m : St S A) (f : A → St S B) s e s' :
  m s = (Raise e, s') → bind m f s = (Raise e, s').
Proof. intros E. unfold bind. by rewrite E. Qed.

Lemma bind_inv_ok {S A B} (m : St S A) (f : A → St S B) s b s2 :
  bind m f s = (Ok b, s2) → ∃ a s1, m s = (Ok a, s1) ∧ f a s1 = (Ok b, s2).
Proof.
  unfold bind. destruct (m s) as [[a|e] s1]; intros E; [eauto | discriminate].
Qed.

Lemma for_each_app {S A} (l1 l2 : list A) (body : A → St S unit) s :
  for_each (l1 ++ l2) body s = (for_each l1 body ;; for_each l2 body) s.
Proof.
  revert s. induction l1 as [|a l1 IH]; intros s; simpl.
  - reflexivity.
  - unfold bind in *. destruct (body a s) as [[[]|e] s1]; [apply IH | reflexivity].
Qed.

(** A loop whose body always returns and keeps an invariant indexed by
    the elements already visited. *)
Lemma for_each_total {S A} (I : list A → S → Prop) (l : list A)
    (body : A → St S unit) (s : S) :
  I [] s →
  (∀ done a s1, a ∈ l → I done s1 →
     ∃ s2, body a s1 = (Ok tt, s2) ∧ I (done ++ [a]) s2) →
  ∃ s', for_each l body s = (Ok tt, s') ∧ I l s'.
Proof.
  intros H0 Hstep.
  assert (G : ∀ todo done s1, (∀ a, a ∈ todo → a ∈ l) → I done s1 →
            ∃ s', for_each todo body s1 = (Ok tt, s') ∧ I (done ++ todo) s').
  { induction todo as [|a todo IH]; intros done s1 Hin Hd; simpl.
    - exists s1. by rewrite app_nil_r.
    - destruct (Hstep done a s1) as (s2 & E & Hd2); [apply Hin; left | done |].
      destruct (IH (done ++ [a]) s2) as (s' & E' & Hd'); [|done|].
      { intros b Hb. apply Hin. by right. }
      exists s'. rewrite (bind_ok _ _ _ _ _ E). split; [done|].
      by rewrite <- app_assoc in Hd'. }
  destruct (G l [] s) as (s' & E & Hs'); [auto | done |].
  exists s'. by split.
Qed.

(** ** Frames *)

Lemma static_refl o : static o o.
Proof. by repeat split. Qed.

Lemma static_trans o1 o2 o3 : static o1 o2 → static o2 o3 → static o1 o3.
Proof. unfold static. intros (?&?&?&?&?) (?&?&?&?&?). repeat split; congruence. Qed.

Lemma touch_refl T h : touch T h h.
Proof.
  split; [done|]. intros r o Hr. exists o. split; [done|]. split; [apply static_refl|done].
Qed.

Lemma touch_trans T h1 h2 h3 : touch T h1 h2 → touch T h2 h3 → touch T h1 h3.
Proof.
  intros [L1 H1] [L2 H2]. split; [congruence|].
  intros r o Hr. destruct (H1 r o Hr) as (o2 & Hr2 & S2 & F2).
  destruct (H2 r o2 Hr2) as (o3 & Hr3 & S3 & F3).
  exists o3. split; [done|]. split; [by eapply static_trans|].
  intros HT. destruct (F2 HT) as [W2 D2]. destruct (F3 HT) as [W3 D3].
  split; [congruence | auto].
Qed.

Lemma touch_mono (T T' : ref → Prop) h h' :
  (∀ r, T r → T' r) → touch T h h' → touch T' h h'.
Proof.
  intros HTT [L H]. split; [done|]. intros r o Hr.
  destruct (H r o Hr) as (o' & Hr' & S' & F'). exists o'.
  split; [done|]. split; [done|]. intros HT'. apply F'. auto.
Qed.

Lemma preserves_ret {A} R `{!Reflexive R} (a : A) : preserves R (ret a).
Proof. intros h. simpl. reflexivity. Qed.

Lemma preserves_raise {A} R `{!Reflexive R} e : preserves R (raise (A := A) e).
Proof. intros h. simpl. reflexivity. Qed.

Lemma preserves_lift {A} R `{!Reflexive R} (r : result A) : preserves R (lift r).
Proof. intros h. simpl. reflexivity. Qed.

Lemma preserves_get_obj R `{!Reflexive R} r : preserves R (get_obj r).
Proof. intros h. unfold get_obj. destruct (h !! r); simpl; reflexivity. Qed.

Lemma preserves_expect {A} R `{!Reflexive R} (o : option A) : preserves R (expect o).
Proof. destruct o; [apply preserves_ret | apply preserves_raise]; done. Qed.

Lemma preserves_bind {A B} R `{!Reflexive R, !Transitive R} (m : M A) (f : A → M B) :
  preserves R m → (∀ a, preserves R (f a)) → preserves R (bind m f).
Proof.
  intros Hm Hf h. unfold bind. specialize (Hm h).
  destruct (m h) as [[a|e] h1]; simpl in *; [|done].
  etransitivity; [exact Hm | apply Hf].
Qed.

Lemma preserves_for_each {A} R `{!Reflexive R, !Transitive R} (l : list A) body :
  (∀ a, a ∈ l → preserves R (body a)) → preserves R (for_each l body).
Proof.
  induction l as [|a l IH]; intros Hb; simpl.
  - by apply preserves_ret.
  - apply preserves_bind; [done | done | apply Hb; left | intros _; apply IH].
    intros b Hb'. apply Hb. by right.
Qed.

Lemma preserves_for_range R `{!Reflexive R, !Transitive R} lo hi body :
  (∀ i, preserves R (body i)) → preserves R (for_range lo hi body).
Proof. intros Hb. apply preserves_for_each; auto. Qed.

#[export] Instance touch_reflexive T : Reflexive (touch T).
Proof. intros h. apply touch_refl. Qed.

#[export] Instance touch_transitive T : Transitive (touch T).
Proof. intros h1 h2 h3. apply touch_trans. Qed.

Section frame_rules.
Context (T : ref → Prop).

Lemma frame_ret {A} (a : A) : preserves (touch T) (ret a).
Proof. apply preserves_ret, _. Qed.
Lemma frame_raise {A} e : preserves (touch T) (raise (A := A) e).
Proof. apply preserves_raise, _. Qed.
Lemma frame_lift {A} (r : result A) : preserves (touch T) (lift r).
Proof. apply preserves_lift, _. Qed.
Lemma frame_get_obj r : preserves (touch T) (get_obj r).
Proof. apply preserves_get_obj, _. Qed.
Lemma frame_expect {A} (o : option A) : preserves (touch T) (expect o).
Proof. apply preserves_expect, _. Qed.
Lemma frame_bind {A B} (m : M A) (f : A → M B) :
  preserves (touch T) m → (∀ a, preserves (touch T) (f a)) →
  preserves (touch T) (bind m f).
Proof. apply preserves_bind; apply _. Qed.
Lemma frame_for_each {A} (l : list A) body :
  (∀ a, preserves (touch T) (body a)) → preserves (touch T) (for_each l body).
Proof. intros Hb. apply preserves_for_each; [apply _ | apply _ | auto]. Qed.
Lemma frame_for_range lo hi body :
  (∀ i, preserves (touch T) (body i)) → preserves (touch T) (for_range lo hi body).
Proof. intros Hb. by apply frame_for_each. Qed.

Lemma touch_insert h r o o' :
  h !! r = Some o → static o o' → T r → touch T h (<[r := o']> h).
Proof.
  intros Hr Hs HT. split; [apply length_insert|].
  intros r' o1 Hr'. destruct (decide (r' = r)) as [->|Hne].
  - exists o'. rewrite list_lookup_insert_eq by (by eapply lookup_lt_Some).
    split; [done|]. split; [congruence|]. intros HnT. by destruct HnT.
  - exists o1. rewrite list_lookup_insert_ne by done.
    split; [done|]. split; [apply static_refl | done].
Qed.

Lemma touch_insert_flag h r o :
  h !! r = Some o → touch T h (<[r := with_dirty o true]> h).
Proof.
  intros Hr. split; [apply length_insert|].
  intros r' o1 Hr'. destruct (decide (r' = r)) as [->|Hne].
  - exists (with_dirty o true).
    rewrite list_lookup_insert_eq by (by eapply lookup_lt_Some).
    split; [done|]. assert (o1 = o) as -> by congruence.
    split; [by repeat split | done].
  - exists o1. rewrite list_lookup_insert_ne by done.
    split; [done|]. split; [apply static_refl | done].
Qed.

Lemma frame_modify_obj self f :
  T self → (∀ o, static o (f o)) → preserves (touch T) (modify_obj self f).
Proof.
  intros HT Hf h. unfold modify_obj, bind, get_obj, put_obj.
  destruct (h !! self) as [o|] eqn:E; simpl; [|apply touch_refl].
  by eapply touch_insert.
Qed.

Lemma frame_update_words self f :
  T self → preserves (touch T) (update_words self f).
Proof.
  intros HT h. unfold update_words, bind, get_obj, put_obj, lift.
  destruct (h !! self) as [o|] eqn:E; simpl; [|apply touch_refl].
  destruct (f (words o)) as [a|e]; simpl; [|apply touch_refl].
  eapply touch_insert; [done | by repeat split | done].
Qed.

Lemma frame_reset self : T self → preserves (touch T) (reset self).
Proof. intros HT. apply frame_modify_obj; [done|]. by repeat split. Qed.

Lemma frame_dirty_rec fuel r : preserves (touch T) (dirty_rec fuel r).
Proof.
  revert r. induction fuel as [|fuel IH]; intros r h; simpl.
  - apply touch_refl.
  - unfold bind, get_obj, put_obj.
    destruct (h !! r) as [o|] eqn:E; simpl; [|apply touch_refl].
    destruct (_parent o) as [p|]; simpl.
    + etransitivity; [by apply touch_insert_flag | apply IH].
    + by apply touch_insert_flag.
Qed.

Lemma frame_dirty r : preserves (touch T) (dirty r).
Proof. intros h. unfold dirty. apply frame_dirty_rec. Qed.

Lemma frame_set_pixel_under c self x y v :
  T self → preserves (touch T) (set_pixel_under c self x y v).
Proof.
  intros HT h. unfold set_pixel_under, bind, get_obj, lift.
  destruct (h !! self) as [o|] eqn:E; simpl; [|apply touch_refl].
  destruct (negb (in_bounds o x y)); simpl; [apply touch_refl|].
  destruct (np.getitem (words o) y (x / 16)) as [w|]; simpl; [|apply touch_refl].
  destruct (if v then _ else _) as [w'|e]; simpl; [|apply touch_refl].
  etransitivity; [|apply frame_dirty].
  eapply touch_insert; [done | by repeat split | done].
Qed.

Lemma frame_set_pixel self x y v : T self → preserves (touch T) (set_pixel self x y v).
Proof. apply frame_set_pixel_under. Qed.

Lemma frame_set_word self v hh value :
  T self → preserves (touch T) (set_word self v hh value).
Proof.
  intros HT h. unfold set_word, bind, get_obj.
  destruct (h !! self) as [o|] eqn:E; simpl; [|apply touch_refl].
  destruct (_ && _); simpl; [|apply touch_refl].
  destruct (np.getitem (words o) v hh) as [w|]; simpl; [|apply touch_refl].
  etransitivity; [|apply frame_dirty].
  eapply touch_insert; [done | by repeat split | done].
Qed.

End frame_rules.

(** Applies the frame rules along the structure of a method. *)
Ltac frame_step :=
  first
    [ apply frame_ret | apply frame_raise | apply frame_lift | apply frame_get_obj
    | apply frame_expect
    | apply frame_set_pixel; assumption
    | apply frame_set_word; assumption
    | apply frame_reset; assumption
    | apply frame_update_words; assumption
    | apply frame_dirty
    | apply frame_modify_obj; [assumption | intros ?; by repeat split]
    | apply frame_for_range; intros ?
    | apply frame_for_each; intros ?
    | apply frame_bind; [| intros ?] ].

Ltac frame :=
  repeat first
    [ frame_step
    | match goal with
      | |- preserves _ (if ?b then _ else _) => destruct b
      | |- preserves _ (match ?x with _ => _ end) => destruct x
      | |- preserves _ (let '(_, _) := ?x in _) => destruct x
      end ].

Lemma frame_Line_loop T fuel self x1 y1 x2 y2 dx dy sx sy err :
  T self → preserves (touch T) (Line_loop fuel self x1 y1 x2 y2 dx dy sx sy err).
Proof.
  intros HT. revert x1 y1 err. induction fuel as [|fuel IH]; intros x1 y1 err; simpl.
  - frame.
  - apply frame_bind; [frame | intros _].
    destruct (_ && _); [frame|].
    destruct (2 * err >=? dy), (2 * err <=? dx); apply IH.
Qed.

Lemma frame_Line_draw T self w h : T self → preserves (touch T) (Line_draw self w h).
Proof.
  intros HT. unfold Line_draw.
  apply frame_bind; [frame | intros o].
  destruct (negb (_is_dirty o)); [frame|].
  apply frame_bind; [frame | intros _].
  apply frame_bind; [frame | intros [[[x1 y1] x2] y2]].
  apply frame_bind; [by apply frame_Line_loop | intros _]. frame.
Qed.

Lemma frame_Circle_loop T fuel self fill x0 y0 x y d :
  T self → preserves (touch T) (Circle_loop fuel self fill x0 y0 x y d).
Proof.
  intros HT. revert x y d. induction fuel as [|fuel IH]; intros x y d; simpl.
  - frame.
  - destruct (x <=? y); [|frame].
    apply frame_bind; [unfold circle_fill, circle_points; frame | intros _].
    destruct (d <? 0); apply IH.
Qed.

Lemma frame_Circle_draw T self w h : T self → preserves (touch T) (Circle_draw self w h).
Proof.
  intros HT. unfold Circle_draw.
  apply frame_bind; [frame | intros o].
  destruct (negb (_is_dirty o)); [frame|].
  apply frame_bind; [frame | intros _].
  apply frame_bind; [frame | intros [[[x0 y0] r] fill]].
  apply frame_bind; [by apply frame_Circle_loop | intros _]. frame.
Qed.

Lemma frame_Triangle_draw T self w h :
  T self → preserves (touch T) (Triangle_draw self w h).
Proof.
  intros HT. unfold Triangle_draw, Triangle_scanline.
  apply frame_bind; [frame | intros o].
  destruct (negb (_is_dirty o)); [frame|].
  apply frame_bind; [frame | intros _].
  apply frame_bind; [frame | intros [[[[[[x1 y1] x2] y2] x3] y3] fill]].
  frame.
Qed.

Lemma frame_Rectangle_draw T self w h :
  T self → preserves (touch T) (Rectangle_draw self w h).
Proof.
  intros HT. unfold Rectangle_draw.
  apply frame_bind; [frame | intros o].
  destruct (negb (_is_dirty o)); [frame|].
  apply frame_bind; [frame | intros _].
  apply frame_bind; [frame | intros [[[[x y] ww] hh] fill]].
  frame.
Qed.

Lemma frame_DrawableText_draw T self w h :
  T self → preserves (touch T) (DrawableText_draw self w h).
Proof.
  intros HT. unfold DrawableText_draw.
  apply frame_bind; [frame | intros o].
  destruct (negb (_is_dirty o)); [frame|].
  apply frame_bind; [frame | intros _].
  apply frame_bind; [frame | intros [[[text font] x] y]].
  frame.
Qed.

Lemma frame_draw_method T c w h : T c → preserves (touch T) (draw_method c w h).
Proof.
  intros HT. unfold draw_method.
  apply frame_bind; [frame | intros o].
  destruct (kind o); [frame | frame | | | | |].
  - by apply frame_Line_draw.
  - by apply frame_Circle_draw.
  - by apply frame_Triangle_draw.
  - by apply frame_Rectangle_draw.
  - by apply frame_DrawableText_draw.
Qed.


(** ** Arrays *)

Lemma getitem_is_Some a i j :
  np.wf a → 0 ≤ i < Z.of_nat (np.nrows a) → 0 ≤ j < Z.of_nat (np.ncols a) →
  is_Some (np.getitem a i j).
Proof.
  intros [Hr Hc] Hi Hj. unfold np.getitem.
  destruct (lookup_lt_is_Some_2 (np.cells a) (Z.to_nat i)) as [row Hrow]; [lia|].
  rewrite Hrow. simpl.
  apply lookup_lt_is_Some_2.
  rewrite Forall_forall in Hc. rewrite (Hc row); [lia|].
  by eapply list_elem_of_lookup_2.
Qed.

Lemma getitem_setitem_eq a i j v w :
  np.getitem a i j = Some w → np.getitem (np.setitem a i j v) i j = Some v.
Proof.
  unfold np.getitem, np.setitem. simpl.
  destruct (np.cells a !! Z.to_nat i) as [row|] eqn:E; simpl; [|done].
  intros Hj. rewrite list_lookup_alter_eq, E. simpl.
  apply list_lookup_insert_eq. by eapply lookup_lt_Some.
Qed.

Lemma getitem_setitem_ne a i j v i' j' :
  (Z.to_nat i, Z.to_nat j) ≠ (Z.to_nat i', Z.to_nat j') →
  np.getitem (np.setitem a i j v) i' j' = np.getitem a i' j'.
Proof.
  intros Hne. unfold np.getitem, np.setitem. simpl.
  destruct (decide (Z.to_nat i = Z.to_nat i')) as [Ei|Ei].
  - rewrite <- Ei, list_lookup_alter_eq.
    destruct (np.cells a !! Z.to_nat i) as [row|]; simpl; [|done].
    apply list_lookup_insert_ne. congruence.
  - by rewrite list_lookup_alter_ne.
Qed.

Lemma wf_setitem a i j v : np.wf a → np.wf (np.setitem a i j v).
Proof.
  intros [Hr Hc]. split; simpl.
  - by rewrite length_alter.
  - rewrite Forall_forall in *. intros row Hin.
    apply list_elem_of_lookup in Hin. destruct Hin as [k Hk].
    destruct (decide (k = Z.to_nat i)) as [->|Hne].
    + rewrite list_lookup_alter_eq in Hk.
      destruct (np.cells a !! Z.to_nat i) as [row0|] eqn:E; simpl in Hk; [|done].
      injection Hk as <-. rewrite length_insert. apply Hc.
      by eapply list_elem_of_lookup_2.
    + rewrite list_lookup_alter_ne in Hk by done.
      apply Hc. by eapply list_elem_of_lookup_2.
Qed.

(** ** Bits *)

Lemma land_shiftr_1 (w b : Z) : 0 ≤ b → Z.land (Z.shiftr w b) 1 = Z.b2z (Z.testbit w b).
Proof.
  intros Hb. change 1 with (Z.ones 1). rewrite Z.land_ones by lia.
  change (2 ^ 1) with 2. rewrite <- Z.bit0_mod, Z.shiftr_spec by lia.
  by rewrite Z.add_0_l.
Qed.

Lemma testbit_mask (bit b : Z) : 0 ≤ bit → Z.testbit (Z.shiftl 1 bit) b = (bit =? b).
Proof. intros Hb. rewrite Z.shiftl_1_l. by apply Z.pow2_bits_eqb. Qed.

Lemma testbit_set_bit (w bit b : Z) (v : bool) :
  0 ≤ bit → 0 ≤ b →
  Z.testbit (if v then Z.lor w (Z.shiftl 1 bit) else Z.land w (Z.lnot (Z.shiftl 1 bit))) b
  = if bit =? b then v else Z.testbit w b.
Proof.
  intros Hbit Hb. destruct v.
  - rewrite Z.lor_spec, testbit_mask by done.
    destruct (bit =? b); [apply orb_true_r | apply orb_false_r].
  - rewrite Z.land_spec, Z.lnot_spec, testbit_mask by done.
    destruct (bit =? b); [apply andb_false_r | apply andb_true_r].
Qed.

Lemma testbit_low16 (value b : Z) : 0 ≤ b < 16 → Z.testbit (Z.land value 65535) b = Z.testbit value b.
Proof.
  intros Hb. change 65535 with (Z.ones 16).
  rewrite Z.land_spec, Z.ones_spec_low by lia. apply andb_true_r.
Qed.


(** ** Parent chains and [dirty] *)

Lemma parents_touch T h h' : touch T h h' → parents h' = parents h.
Proof.
  intros [L H]. apply list_eq. intros r. unfold parents. rewrite !list_lookup_fmap.
  destruct (h !! r) as [o|] eqn:E.
  - destruct (H r o E) as (o' & -> & (_ & _ & Hp & _) & _). simpl. by rewrite Hp.
  - apply lookup_ge_None in E. rewrite lookup_ge_None_2 by lia. done.
Qed.

Lemma chain_ok_touch T h h' r : touch T h h' → chain_ok h r → chain_ok h' r.
Proof.
  intros Ht. unfold chain_ok. rewrite (parents_touch _ _ _ Ht).
  destruct Ht as [-> _]. done.
Qed.

Lemma dirty_rec_ok fuel r h :
  rooted fuel (parents h) r = true → ∃ h', dirty_rec fuel r h = (Ok tt, h').
Proof.
  revert r h. induction fuel as [|fuel IH]; intros r h; simpl; [done|].
  unfold parents. rewrite list_lookup_fmap.
  unfold bind, get_obj, put_obj.
  destruct (h !! r) as [o|] eqn:E; simpl; [|done].
  destruct (_parent o) as [p|] eqn:Ep; [|eauto].
  intros Hroot. apply IH.
  rewrite (parents_touch (fun _ => False) h); [done|].
  by apply touch_insert_flag.
Qed.

Lemma dirty_ok h r : chain_ok h r → ∃ h', dirty r h = (Ok tt, h').
Proof. apply dirty_rec_ok. Qed.

(** What [dirty] leaves: the same objects, with no flag cleared, and the
    flag set on the object it is called on and on all above it. *)
Lemma dirty_rec_flags fuel r h h' :
  dirty_rec fuel r h = (Ok tt, h') →
  ∀ a, ancestor h r a → ∃ o, h' !! a = Some o ∧ _is_dirty o = true.
Proof.
  revert r h h'. induction fuel as [|fuel IH]; intros r h h'; simpl; [done|].
  unfold bind, get_obj, put_obj.
  destruct (h !! r) as [o|] eqn:E; simpl; [|done].
  set (h1 := <[r := with_dirty o true]> h).
  assert (Hr1 : h1 !! r = Some (with_dirty o true)).
  { apply list_lookup_insert_eq. by eapply lookup_lt_Some. }
  assert (Ht1 : touch (fun _ => False) h h1) by (by apply touch_insert_flag).
  intros Hrun a Ha.
  assert (Hmono : touch (fun _ => False) h1 h').
  { destruct (_parent o); [|injection Hrun as <-; apply touch_refl].
    pose proof (frame_dirty_rec (fun _ => False) fuel n h1) as Hf.
    by rewrite Hrun in Hf. }
  inversion Ha as [|r0 p a0 o0 Hr0 Hp0 Hup]; subst.
  - destruct Hmono as [_ Hm]. destruct (Hm a _ Hr1) as (o' & Ho' & _ & Hfl).
    exists o'. split; [done|]. apply Hfl; [tauto | done].
  - assert (o0 = o) as -> by congruence. rewrite Hp0 in Hrun.
    apply (IH p h1 h' Hrun).
    clear -Hup Ht1. induction Hup as [|r2 p2 a2 o2 Hr2 Hp2 _ IHa]; [constructor|].
    destruct Ht1 as [_ Hm].
    destruct (Hm r2 o2 Hr2) as (o' & Ho' & (_ & _ & Hp' & _) & _).
    apply (ancestor_up h1 r2 p2 a2 o'); [exact Ho' | congruence | exact IHa].
Qed.


(** ** Pixels and words of a surface *)

Lemma in_bounds_static o o' x y : static o o' → in_bounds o' x y = in_bounds o x y.
Proof. intros (Hw & Hh & _). unfold in_bounds. by rewrite Hw, Hh. Qed.

Lemma word_in_bounds_static o o' v hh :
  static o o' → word_in_bounds o' v hh = word_in_bounds o v hh.
Proof. intros (Hw & Hh & _). unfold word_in_bounds. by rewrite Hw, Hh. Qed.

Lemma in_bounds_word o x y :
  width o mod 16 = 0 → in_bounds o x y = true → word_in_bounds o y (x / 16) = true.
Proof.
  unfold in_bounds, word_in_bounds. intros Hm Hb.
  apply andb_prop in Hb as [Hb Hy2]. apply andb_prop in Hb as [Hb Hy1].
  apply andb_prop in Hb as [Hx1 Hx2].
  apply Z.leb_le in Hx1, Hy1. apply Z.ltb_lt in Hx2, Hy2.
  rewrite !andb_true_iff, !Z.leb_le, !Z.ltb_lt.
  repeat split; try lia.
  - apply Z.div_pos; lia.
  - apply Z.div_lt_upper_bound; [lia|].
    pose proof (Z.div_mod (width o) 16 ltac:(lia)). lia.
Qed.

Lemma word_getitem o v hh :
  surface_ok o → word_in_bounds o v hh = true → is_Some (np.getitem (words o) v hh).
Proof.
  intros (_ & Hwf & Hr & Hc). unfold word_in_bounds.
  rewrite !andb_true_iff, !Z.leb_le, !Z.ltb_lt. intros [[[? ?] ?] ?].
  apply getitem_is_Some; [done | lia | lia].
Qed.

Lemma in_bounds_getitem o x y :
  surface_ok o → in_bounds o x y = true → is_Some (np.getitem (words o) y (x / 16)).
Proof.
  intros Hs Hb. apply word_getitem; [done|]. apply in_bounds_word; [apply Hs | done].
Qed.

Lemma surface_ok_setitem o o' i j v :
  surface_ok o → static o o' → words o' = np.setitem (words o) i j v → surface_ok o'.
Proof.
  intros (Hm & Hwf & Hr & Hc) (Hw & Hh & _) E. unfold surface_ok.
  rewrite E, Hw, Hh. simpl.
  split; [done|]. split; [by apply wf_setitem|]. by split.
Qed.

(** Reading a pixel is reading its bit. *)
Lemma get_pixel_pixel h self o x y :
  h !! self = Some o → surface_ok o → get_pixel self x y h = (Ok (pixel o x y), h).
Proof.
  intros Hself Hs. unfold get_pixel, pixel, bind, get_obj. rewrite Hself. simpl.
  destruct (in_bounds o x y) eqn:Hb; simpl; [|done].
  destruct (in_bounds_getitem o x y Hs Hb) as [w ->]. done.
Qed.

Lemma in_bounds_bit o x y : in_bounds o x y = true → 0 ≤ 15 - x mod 16 < 16.
Proof.
  intros _. pose proof (Z.mod_pos_bound x 16 ltac:(lia)). lia.
Qed.

(** The pixels after one word has been replaced. *)
Lemma pixel_setitem o o' v hh w :
  surface_ok o → static o o' → word_in_bounds o v hh = true →
  words o' = np.setitem (words o) v hh w →
  ∀ x y, in_bounds o x y = true →
    pixel o' x y = if (v =? y) && (hh =? x / 16)
                   then Z.b2z (Z.testbit w (15 - x mod 16))
                   else pixel o x y.
Proof.
  intros Hs Hst Hwb E x y Hb. unfold pixel.
  rewrite (in_bounds_static o o') by done. rewrite Hb, E.
  pose proof (in_bounds_bit o x y Hb) as Hbit.
  pose proof (in_bounds_word o x y (proj1 Hs) Hb) as Hxw.
  destruct (word_getitem o v hh Hs Hwb) as [w0 Hw0].
  unfold word_in_bounds in Hwb, Hxw.
  rewrite !andb_true_iff, !Z.leb_le, !Z.ltb_lt in Hwb, Hxw.
  destruct ((v =? y) && (hh =? x / 16)) eqn:Heq.
  - apply andb_prop in Heq as [Hv Hh]. apply Z.eqb_eq in Hv, Hh. subst v hh.
    rewrite (getitem_setitem_eq _ _ _ _ _ Hw0). apply land_shiftr_1. lia.
  - rewrite getitem_setitem_ne; [done|].
    intros Hpair. injection Hpair as E1 E2.
    apply andb_false_iff in Heq as [Hv|Hh]; [apply Z.eqb_neq in Hv | apply Z.eqb_neq in Hh]; lia.
Qed.

(** ** [set_pixel] and [set_word] on a surface *)

Lemma put_then_dirty h self o o1 :
  h !! self = Some o → static o o1 → chain_ok h self →
  ∃ h' o', (put_obj self o1 ;; dirty self) h = (Ok tt, h')
           ∧ h' !! self = Some o' ∧ static o o' ∧ words o' = words o1
           ∧ _is_dirty o' = true.
Proof.
  intros Hself Hst Hch.
  set (h1 := <[self := o1]> h).
  assert (Ht1 : touch (eq self) h h1) by (by eapply touch_insert).
  assert (H1 : h1 !! self = Some o1).
  { apply list_lookup_insert_eq. by eapply lookup_lt_Some. }
  destruct (dirty_ok h1 self) as [h' Hd]; [by eapply chain_ok_touch|].
  pose proof (frame_dirty (fun _ => False) self h1) as Hf. rewrite Hd in Hf. simpl in Hf.
  destruct (proj2 Hf self o1 H1) as (o' & Ho' & Hs' & Hw').
  destruct (dirty_rec_flags _ _ _ _ Hd self (ancestor_self _ _)) as (o2 & Ho2 & Hfl).
  exists h', o'. unfold bind, put_obj. fold h1. rewrite Hd.
  repeat split; try done.
  - destruct Hst as (?&?&?&?&?), Hs' as (?&?&?&?&?). congruence.
  - destruct Hst as (?&?&?&?&?), Hs' as (?&?&?&?&?). congruence.
  - destruct Hst as (?&?&?&?&?), Hs' as (?&?&?&?&?). congruence.
  - destruct Hst as (?&?&?&?&?), Hs' as (?&?&?&?&?). congruence.
  - destruct Hst as (?&?&?&?&?), Hs' as (?&?&?&?&?). congruence.
  - apply Hw'. tauto.
  - congruence.
Qed.

(** The mask of a pixel is within uint16, its complement is negative. *)
Lemma lnot_mask_negative (bit : Z) : 0 ≤ bit → Z.lnot (Z.shiftl 1 bit) < 0.
Proof.
  intros Hb. rewrite Z.shiftl_1_l. unfold Z.lnot.
  pose proof (Z.pow_pos_nonneg 2 bit ltac:(lia) Hb). lia.
Qed.

(** [set_pixel] in bounds, when it sets the pixel or when NumPy 1 clears
    it: it returns, and the one word is changed. *)
Lemma set_pixel_under_in c h self o x y v :
  h !! self = Some o → surface_ok o → chain_ok h self → in_bounds o x y = true →
  v = true ∨ c = np.Legacy →
  ∃ w h' o',
    np.getitem (words o) y (x / 16) = Some w
    ∧ set_pixel_under c self x y v h = (Ok tt, h')
    ∧ h' !! self = Some o' ∧ static o o'
    ∧ words o' = np.setitem (words o) y (x / 16)
                   (if v then Z.lor w (Z.shiftl 1 (15 - x mod 16))
                    else Z.land w (Z.lnot (Z.shiftl 1 (15 - x mod 16)))).
Proof.
  intros Hself Hs Hch Hb Hv.
  destruct (in_bounds_getitem o x y Hs Hb) as [w Hw].
  set (m := Z.shiftl 1 (15 - x mod 16)).
  set (w' := if v then Z.lor w m else Z.land w (Z.lnot m)).
  assert (E0 : set_pixel_under c self x y v h
               = (put_obj self (with_words o (np.setitem (words o) y (x / 16) w')) ;;
                  dirty self) h).
  { unfold set_pixel_under. unfold bind at 1. unfold get_obj. rewrite Hself, Hb, Hw.
    cbn [negb]. unfold bind at 1, lift. fold m.
    destruct Hv as [-> | ->]; [done | by destruct v]. }
  edestruct (put_then_dirty h self o) as (h' & o' & E & Ho' & Hst & Hwd & _);
    [done | | done |].
  2:{ exists w, h', o'. rewrite E0, E. repeat split; try done; apply Hst. }
  by repeat split.
Qed.

(** NumPy 2 refuses to clear a pixel: [~mask] is negative. *)
Lemma set_pixel_overflows h self o x y :
  h !! self = Some o → surface_ok o → in_bounds o x y = true →
  set_pixel_under np.NEP50 self x y false h = (Raise OverflowError, h).
Proof.
  intros Hself Hs Hb.
  destruct (in_bounds_getitem o x y Hs Hb) as [w Hw].
  pose proof (in_bounds_bit o x y Hb) as Hbit.
  pose proof (lnot_mask_negative (15 - x mod 16) ltac:(lia)) as Hneg.
  unfold set_pixel_under. unfold bind at 1. unfold get_obj. rewrite Hself, Hb, Hw.
  cbn [negb]. unfold bind at 1, lift, np.and_int.
  assert (Hle : (0 <=? Z.lnot (Z.shiftl 1 (15 - x mod 16))) = false)
    by (apply Z.leb_gt; lia).
  by rewrite Hle.
Qed.

Lemma set_pixel_in h self o x y :
  h !! self = Some o → surface_ok o → chain_ok h self → in_bounds o x y = true →
  ∃ w h' o',
    np.getitem (words o) y (x / 16) = Some w
    ∧ set_pixel self x y true h = (Ok tt, h')
    ∧ h' !! self = Some o' ∧ static o o'
    ∧ words o' = np.setitem (words o) y (x / 16) (Z.lor w (Z.shiftl 1 (15 - x mod 16))).
Proof.
  intros Hself Hs Hch Hb.
  exact (set_pixel_under_in np.NEP50 h self o x y true Hself Hs Hch Hb (or_introl eq_refl)).
Qed.

Lemma set_pixel_under_out c h self o x y v :
  h !! self = Some o → in_bounds o x y = false →
  set_pixel_under c self x y v h = (Ok tt, h).
Proof.
  intros Hself Hb. unfold set_pixel_under, bind, get_obj. by rewrite Hself, Hb.
Qed.

Lemma set_pixel_out h self o x y v :
  h !! self = Some o → in_bounds o x y = false → set_pixel self x y v h = (Ok tt, h).
Proof. apply set_pixel_under_out. Qed.

(** Setting a pixel is the same call under both versions of NumPy. *)
Lemma set_pixel_under_true c self x y :
  set_pixel_under c self x y true = set_pixel self x y true.
Proof. reflexivity. Qed.

Lemma set_word_in h self o v hh value :
  h !! self = Some o → surface_ok o → chain_ok h self → word_in_bounds o v hh = true →
  ∃ h' o',
    set_word self v hh value h = (Ok tt, h')
    ∧ h' !! self = Some o' ∧ static o o'
    ∧ words o' = np.setitem (words o) v hh (Z.land value 65535).
Proof.
  intros Hself Hs Hch Hb.
  destruct (word_getitem o v hh Hs Hb) as [w Hw].
  unfold set_word. unfold bind at 1. unfold get_obj. rewrite Hself. simpl.
  unfold word_in_bounds in Hb. rewrite Hb, Hw.
  edestruct (put_then_dirty h self o) as (h' & o' & E & Ho' & Hst & Hwd & _);
    [done | | done |].
  2:{ exists h', o'. rewrite E. repeat split; try done; apply Hst. }
  by repeat split.
Qed.

Lemma set_word_out h self o v hh value :
  h !! self = Some o → word_in_bounds o v hh = false →
  set_word self v hh value h = (Ok tt, h).
Proof.
  intros Hself Hb. unfold set_word, bind, get_obj. rewrite Hself. simpl.
  unfold word_in_bounds in Hb. by rewrite Hb.
Qed.

Lemma touch_of_run {A} T (m : M A) h r h' :
  preserves (touch T) m → m h = (r, h') → touch T h h'.
Proof. intros Hp E. specialize (Hp h). by rewrite E in Hp. Qed.

Lemma frame_run_op T c self op : T self → preserves (touch T) (run_op c self op).
Proof.
  intros HT. destruct op; simpl; [by apply frame_set_pixel_under | by apply frame_set_word].
Qed.

(** One write on a surface: it returns, and the pixels of the surface are
    those it had, except the ones the write gives a value to. *)
Lemma run_op_spec c h self o op :
  h !! self = Some o → surface_ok o → chain_ok h self →
  c = np.Legacy ∨ clears o op = false →
  ∃ h' o',
    run_op c self op h = (Ok tt, h') ∧ h' !! self = Some o'
    ∧ static o o' ∧ surface_ok o' ∧ chain_ok h' self
    ∧ ∀ x y, in_bounds o x y = true →
        pixel o' x y = match written o op x y with
                       | Some b => Z.b2z b
                       | None => pixel o x y
                       end.
Proof.
  intros Hself Hs Hch Hc. destruct op as [x y v | v hh value]; simpl.
  - destruct (in_bounds o x y) eqn:Hb.
    + assert (Hv : v = true ∨ c = np.Legacy).
      { destruct Hc as [-> | Hc]; [by right|]. left. simpl in Hc.
        destruct v; [done|]. congruence. }
      destruct (set_pixel_under_in c h self o x y v)
        as (w & h' & o' & Hw & E & Ho' & Hst & Hwd); try done.
      exists h', o'. split; [done|]. split; [done|]. split; [done|].
      split; [by eapply surface_ok_setitem|].
      split.
      { eapply chain_ok_touch; [|done].
        eapply (touch_of_run (eq self)); [|exact E]. by apply frame_set_pixel_under. }
      intros x' y' Hb'.
      rewrite (pixel_setitem o o' y (x / 16) _ Hs Hst (in_bounds_word _ _ _ (proj1 Hs) Hb) Hwd)
        by done.
      pose proof (in_bounds_bit o x y Hb) as Hbit.
      pose proof (in_bounds_bit o x' y' Hb') as Hbit'.
      rewrite testbit_set_bit by lia.
      destruct (y =? y') eqn:Ey; simpl; [|by rewrite andb_false_r].
      apply Z.eqb_eq in Ey. subst y'. rewrite andb_true_r.
      destruct (x =? x') eqn:Ex.
      { apply Z.eqb_eq in Ex. subst x'. by rewrite !Z.eqb_refl. }
      apply Z.eqb_neq in Ex.
      destruct (x / 16 =? x' / 16) eqn:Ew; [|done].
      apply Z.eqb_eq in Ew.
      assert (Hne : 15 - x mod 16 ≠ 15 - x' mod 16).
      { pose proof (Z.div_mod x 16 ltac:(lia)). pose proof (Z.div_mod x' 16 ltac:(lia)). lia. }
      apply Z.eqb_neq in Hne. rewrite Hne.
      unfold pixel. rewrite Hb', <- Ew, Hw. symmetry. apply land_shiftr_1. lia.
    + exists h, o. rewrite (set_pixel_under_out c h self o) by done.
      repeat split; try done; try apply Hs.
  - destruct (word_in_bounds o v hh) eqn:Hb.
    + destruct (set_word_in h self o v hh value) as (h' & o' & E & Ho' & Hst & Hwd);
        try done.
      exists h', o'. split; [done|]. split; [done|]. split; [done|].
      split; [by eapply surface_ok_setitem|].
      split.
      { eapply chain_ok_touch; [|done].
        eapply (touch_of_run (eq self)); [|exact E]. by apply frame_set_word. }
      intros x' y' Hb'.
      rewrite (pixel_setitem o o' v hh _ Hs Hst Hb Hwd) by done. simpl.
      destruct ((v =? y') && (hh =? x' / 16)); [|done].
      rewrite testbit_low16; [done|]. by eapply in_bounds_bit.
    + exists h, o. rewrite (set_word_out h self o) by done.
      repeat split; try done; try apply Hs.
Qed.

(** A sequence of writes: the pixel read afterwards is the last value
    written to it, or the one it had when nothing wrote it. *)
Lemma run_ops_spec c ops : ∀ h self o,
  h !! self = Some o → surface_ok o → chain_ok h self →
  c = np.Legacy ∨ Forall (fun op => clears o op = false) ops →
  ∃ h' o',
    run_ops c self ops h = (Ok tt, h') ∧ h' !! self = Some o'
    ∧ static o o' ∧ surface_ok o'
    ∧ ∀ x y, in_bounds o x y = true →
        pixel o' x y = match last_written o ops x y with
                       | Some b => Z.b2z b
                       | None => pixel o x y
                       end.
Proof.
  induction ops as [|op ops IH]; intros h self o Hself Hs Hch Hc.
  - exists h, o. repeat split; try done; try apply Hs.
  - destruct (run_op_spec c h self o op)
      as (h1 & o1 & E1 & Ho1 & Hst1 & Hs1 & Hch1 & Hpx1); try done.
    { destruct Hc as [-> | Hc]; [by left|]. right. by apply Forall_cons in Hc as [Hc _]. }
    destruct (IH h1 self o1) as (h' & o' & E & Ho' & Hst & Hs' & Hpx); try done.
    { destruct Hc as [-> | Hc]; [by left|]. right. apply Forall_cons in Hc as [_ Hc].
      eapply Forall_impl; [exact Hc|]. intros [x0 y0 [|]|] Hcl; simpl in *; try done.
      by rewrite (in_bounds_static o o1). }
    exists h', o'. unfold run_ops in *. simpl. rewrite (bind_ok _ _ _ _ _ E1).
    split; [done|]. split; [done|]. split; [by eapply static_trans|]. split; [done|].
    intros x y Hb. rewrite Hpx by (by rewrite (in_bounds_static o o1)).
    assert (Hlw : last_written o1 ops x y = last_written o ops x y).
    { clear -Hst1. induction ops as [|[x' y' v'|v' h' val'] ops IHo]; simpl; [done| |].
      - rewrite IHo. by rewrite (in_bounds_static o o1).
      - rewrite IHo. by rewrite (word_in_bounds_static o o1). }
    rewrite Hlw. destruct (last_written o ops x y); [done|]. by apply Hpx1.
Qed.


(** ** The driver *)

Lemma sent_sent d l1 l2 : sent (sent d l1) l2 = sent d (l1 ++ l2).
Proof. unfold sent. simpl. by rewrite app_assoc. Qed.

Lemma sent_nil d : sent d [] = d.
Proof. destruct d. unfold sent. simpl. by rewrite app_nil_r. Qed.

Lemma _send_sent b is_data d : _send b is_data d = (Ok tt, sent d [spi_frame b is_data]).
Proof. reflexivity. Qed.

Lemma set_gdram_address_ok d row col :
  0 ≤ row < lcd_height d → 0 ≤ col < lcd_width d / 16 →
  set_gdram_address row col d = (Ok tt, sent d (address_set row col)).
Proof.
  intros Hr Hc. unfold set_gdram_address, bind, get_driver.
  assert (E1 : (0 <=? row) && (row <? lcd_height d) = true).
  { apply andb_true_intro. split; [apply Z.leb_le | apply Z.ltb_lt]; lia. }
  assert (E2 : (0 <=? col) && (col <? lcd_width d / 16) = true).
  { apply andb_true_intro. split; [apply Z.leb_le | apply Z.ltb_lt]; lia. }
  rewrite E1, E2. simpl. unfold address_set.
  destruct (row >=? 32); unfold _send_cmd, _send, writebytes, sent; cbn [spi];
    by rewrite <- app_assoc.
Qed.

Lemma write_gdram_word_ok d w :
  write_gdram_word w d = (Ok tt, sent d (word_write w)).
Proof.
  unfold write_gdram_word, bind, _send_data, _send, writebytes, sent, word_write.
  cbn [spi]. by rewrite <- app_assoc.
Qed.

(** A word that differs from the baseline, or any word when there is no
    baseline, is transmitted. *)
Lemma write_changed_word_send d h bmp o row col w :
  h !! bmp = Some o → np.getitem (words o) row col = Some w →
  match old_buffer d with
  | None => True
  | Some b => ∃ ob w', h !! b = Some ob ∧ np.getitem (words ob) row col = Some w' ∧ w' ≠ w
  end →
  0 ≤ row < lcd_height d → 0 ≤ col < lcd_width d / 16 →
  write_changed_word bmp row col (d, h) = (Ok tt, (sent d (transmission row col w), h)).
Proof.
  intros Hb Hw Hold Hr Hc.
  unfold write_changed_word, read_word, on_heap, on_driver, get_obj, get_driver, bind.
  cbn [fst snd]. rewrite Hb. cbn [fst snd]. rewrite Hw. cbn [fst snd ret].
  destruct (old_buffer d) as [b|] eqn:Eo; cbn [fst snd ret].
  - destruct Hold as (ob & w' & Hob & Hw' & Hne). rewrite Hob. rewrite Hw'. cbn [ret].
    rewrite bool_decide_eq_false_2 by congruence. cbn [negb].
    rewrite set_gdram_address_ok by done. cbn [fst snd].
    rewrite write_gdram_word_ok. cbn [fst snd]. by rewrite sent_sent.
  - rewrite bool_decide_eq_false_2 by congruence. cbn [negb].
    rewrite set_gdram_address_ok by done. cbn [fst snd].
    rewrite write_gdram_word_ok. cbn [fst snd]. by rewrite sent_sent.
Qed.

(** A word equal to the baseline's is not transmitted. *)
Lemma write_changed_word_skip d h bmp o b ob row col w :
  h !! bmp = Some o → np.getitem (words o) row col = Some w →
  old_buffer d = Some b → h !! b = Some ob → np.getitem (words ob) row col = Some w →
  write_changed_word bmp row col (d, h) = (Ok tt, (d, h)).
Proof.
  intros Hb Hw Eo Hob Hw'.
  unfold write_changed_word, read_word, on_heap, on_driver, get_obj, get_driver, bind.
  cbn [fst snd]. rewrite Hb. cbn [fst snd]. rewrite Hw. cbn [fst snd ret].
  rewrite Eo. cbn [fst snd]. rewrite Hob. cbn [fst snd]. rewrite Hw'.
  cbn [fst snd ret]. by rewrite bool_decide_eq_true_2.
Qed.

Lemma word_at_getitem o row col :
  surface_ok o → 0 ≤ row < height o → 0 ≤ col < width o / 16 →
  np.getitem (words o) row col = Some (word_at o row col).
Proof.
  intros Hs Hr Hc. unfold word_at.
  destruct (word_getitem o row col Hs) as [w ->]; [|done].
  unfold word_in_bounds. rewrite !andb_true_iff, !Z.leb_le, !Z.ltb_lt. lia.
Qed.

Lemma flat_map_snoc {A B} (f : A → list B) l a :
  flat_map f (l ++ [a]) = flat_map f l ++ f a.
Proof. rewrite flat_map_app. simpl. by rewrite app_nil_r. Qed.

Lemma flat_map_all_nil {A B} (f : A → list B) l :
  (∀ a, a ∈ l → f a = []) → flat_map f l = [].
Proof.
  induction l as [|a l IH]; intros Hf; simpl; [done|].
  rewrite Hf by left. simpl. apply IH. intros b Hb. apply Hf. by right.
Qed.

(** Only the element [c] of a range contributes. *)
Lemma flat_map_only {B} (f : Z → list B) (c n : Z) :
  0 ≤ c < n → (∀ x, x ≠ c → f x = []) → flat_map f (seqZ 0 n) = f c.
Proof.
  intros Hc Hf.
  replace n with (c + (1 + (n - c - 1))) by lia.
  rewrite seqZ_app by lia. rewrite (seqZ_app (0 + c) 1) by lia.
  rewrite !flat_map_app.
  rewrite (flat_map_all_nil f (seqZ 0 c)).
  2:{ intros x Hx. apply elem_of_seqZ in Hx. apply Hf. lia. }
  rewrite (flat_map_all_nil f (seqZ (0 + c + 1) _)).
  2:{ intros x Hx. apply elem_of_seqZ in Hx. apply Hf. lia. }
  rewrite seqZ_cons by lia. rewrite seqZ_nil by lia. simpl.
  rewrite !app_nil_r. f_equal.
Qed.

(** The two loops of [write_gdram_buffer], when every word is handled
    without error. *)
Lemma scan_spec d h bmp o (tx : Z → Z → list (list Z)) :
  (∀ row col l, 0 ≤ row < height o → 0 ≤ col < width o / 16 →
     write_changed_word bmp row col (sent d l, h)
     = (Ok tt, (sent d (l ++ tx row col), h))) →
  for_range 0 (height o)
    (fun row => for_range 0 (width o / 16)
       (fun col_word => write_changed_word bmp row col_word)) (d, h)
  = (Ok tt, (sent d (scan o tx), h)).
Proof.
  intros Hword. unfold for_range, scan. rewrite !Z.sub_0_r.
  destruct (for_each_total
              (fun done s => s = (sent d (flat_map (fun row => flat_map (tx row)
                                                      (seqZ 0 (width o / 16))) done), h))
              (seqZ 0 (height o))
              (fun row => for_each (seqZ 0 (width o / 16))
                            (fun col_word => write_changed_word bmp row col_word))
              (d, h)) as (s' & E & ->).
  - simpl. by rewrite sent_nil.
  - intros done row s1 Hrow ->. apply elem_of_seqZ in Hrow.
    set (L := flat_map _ done).
    destruct (for_each_total
                (fun done' s => s = (sent d (L ++ flat_map (tx row) done'), h))
                (seqZ 0 (width o / 16))
                (fun col_word => write_changed_word bmp row col_word)
                (sent d L, h)) as (s2 & E2 & ->).
    + simpl. by rewrite app_nil_r.
    + intros done' col s3 Hcol ->. apply elem_of_seqZ in Hcol.
      eexists. split; [apply Hword; lia|].
      by rewrite flat_map_snoc, app_assoc.
    + eexists. split; [exact E2|]. by rewrite flat_map_snoc.
  - exact E.
Qed.

Lemma write_gdram_buffer_spec d h bmp o (tx : Z → Z → list (list Z)) :
  h !! bmp = Some o →
  (∀ row col l, 0 ≤ row < height o → 0 ≤ col < width o / 16 →
     write_changed_word bmp row col (sent d l, h)
     = (Ok tt, (sent d (l ++ tx row col), h))) →
  write_gdram_buffer bmp (d, h)
  = (Ok tt, (with_old_buffer (sent d (scan o tx)) (Some (bmp + length h)%nat),
             h ++ (shift_refs (length h) <$> h))).
Proof.
  intros Hb Hword. unfold write_gdram_buffer.
  unfold bind at 1. unfold on_heap at 1. unfold get_obj. cbn [fst snd]. rewrite Hb.
  rewrite (bind_ok _ _ _ _ _ (scan_spec d h bmp o tx Hword)).
  unfold bind, on_heap, on_driver, deepcopy, set_old_buffer. cbn [fst snd].
  by rewrite Hb.
Qed.

(** The scan reads the store and writes to the bus: the store stays, and
    so does the size of the display. *)
Lemma keeps_bind {S A B X} (f : S → X) (m : St S A) (k : A → St S B) :
  keeps f m → (∀ a, keeps f (k a)) → keeps f (bind m k).
Proof.
  intros Hm Hk s. unfold bind. specialize (Hm s).
  destruct (m s) as [[a|e] s1]; simpl in *; [|done].
  rewrite <- Hm. apply Hk.
Qed.

Lemma keeps_ret {S A X} (f : S → X) (a : A) : keeps f (ret a).
Proof. by intros s. Qed.

Lemma keeps_raise {S A X} (f : S → X) e : keeps f (raise (A := A) e).
Proof. by intros s. Qed.

Lemma keeps_for_each {S A X} (f : S → X) (l : list A) body :
  (∀ a, keeps f (body a)) → keeps f (for_each l body).
Proof.
  intros Hb. induction l as [|a l IH]; simpl; [apply keeps_ret|].
  apply keeps_bind; [apply Hb | intros _; apply IH].
Qed.

Lemma keeps_for_range {S X} (f : S → X) lo hi body :
  (∀ a, keeps f (body a)) → keeps f (for_range lo hi body).
Proof. apply keeps_for_each. Qed.

Lemma keeps_heap_on_driver {A} (m : D A) : keeps (S := ST7920 * heap) snd (on_driver m).
Proof. intros [d h]. unfold on_driver. simpl. by destruct (m d). Qed.

Lemma keeps_size_on_heap {A} (m : M A) :
  keeps (S := ST7920 * heap) (fun s => lcd_size s.1) (on_heap m).
Proof. intros [d h]. unfold on_heap. simpl. by destruct (m h). Qed.

Lemma keeps_size_on_driver {A} (m : D A) :
  keeps lcd_size m → keeps (S := ST7920 * heap) (fun s => lcd_size s.1) (on_driver m).
Proof. intros Hm [d h]. unfold on_driver. simpl. specialize (Hm d). by destruct (m d). Qed.

Lemma keeps_heap_read_word bmp row col :
  keeps (S := ST7920 * heap) snd (on_heap (read_word bmp row col)).
Proof.
  intros [d h]. unfold on_heap, read_word, bind, get_obj. simpl.
  destruct (h !! bmp) as [o|]; simpl; [|done].
  by destruct (np.getitem (words o) row col).
Qed.

Lemma keeps_size_set_gdram_address row col : keeps lcd_size (set_gdram_address row col).
Proof.
  unfold set_gdram_address. apply keeps_bind; [done | intros d].
  destruct (negb _); [apply keeps_raise|]. destruct (negb _); [apply keeps_raise|].
  destruct (row >=? 32); (apply keeps_bind; [done | intros; done]).
Qed.

Lemma keeps_size_write_gdram_word w : keeps lcd_size (write_gdram_word w).
Proof. unfold write_gdram_word. apply keeps_bind; [done | intros; done]. Qed.

Lemma keeps_heap_write_changed_word bmp row col :
  keeps snd (write_changed_word bmp row col).
Proof.
  unfold write_changed_word.
  apply keeps_bind; [apply keeps_heap_read_word | intros w].
  apply keeps_bind; [apply keeps_heap_on_driver | intros d0].
  apply keeps_bind.
  - destruct (old_buffer d0); [|apply keeps_ret].
    apply keeps_bind; [apply keeps_heap_read_word | intros; apply keeps_ret].
  - intros ow. destruct (negb _); [|apply keeps_ret].
    apply keeps_bind; [apply keeps_heap_on_driver | intros; apply keeps_heap_on_driver].
Qed.

Lemma keeps_size_write_changed_word bmp row col :
  keeps (fun s => lcd_size s.1) (write_changed_word bmp row col).
Proof.
  unfold write_changed_word.
  apply keeps_bind; [apply keeps_size_on_heap | intros w].
  apply keeps_bind; [by apply keeps_size_on_driver | intros d0].
  apply keeps_bind.
  - destruct (old_buffer d0); [|apply keeps_ret].
    apply keeps_bind; [apply keeps_size_on_heap | intros; apply keeps_ret].
  - intros ow. destruct (negb _); [|apply keeps_ret].
    apply keeps_bind; [apply keeps_size_on_driver, keeps_size_set_gdram_address|].
    intros. apply keeps_size_on_driver, keeps_size_write_gdram_word.
Qed.

(** What a returning [write_gdram_buffer] leaves: the store with the
    copies behind it, and the copy of the surface as the baseline. *)
Lemma write_gdram_buffer_inv d h bmp d1 h1 :
  write_gdram_buffer bmp (d, h) = (Ok tt, (d1, h1)) →
  h1 = h ++ (shift_refs (length h) <$> h)
  ∧ old_buffer d1 = Some (bmp + length h)%nat
  ∧ lcd_size d1 = lcd_size d
  ∧ is_Some (h !! bmp).
Proof.
  unfold write_gdram_buffer. intros E.
  apply bind_inv_ok in E as (o & [d0 h0] & E0 & E).
  unfold on_heap, get_obj in E0. cbn [fst snd] in E0.
  destruct (h !! bmp) as [o'|] eqn:Hb; [|done].
  injection E0 as Eo Ed Eh. subst o d0 h0. rename o' into o.
  apply bind_inv_ok in E as ([] & [d2 h2] & Eloop & E).
  assert (h2 = h) as ->.
  { assert (Hc : keeps snd
              (for_range 0 (height o)
                 (fun row => for_range 0 (width o / 16)
                    (fun col_word => write_changed_word bmp row col_word)))).
    { apply keeps_for_range. intros row. apply keeps_for_range. intros col.
      apply keeps_heap_write_changed_word. }
    specialize (Hc (d, h)). by rewrite Eloop in Hc. }
  assert (Hsize : lcd_size d2 = lcd_size d).
  { assert (Hc : keeps (fun s : ST7920 * heap => lcd_size s.1)
              (for_range 0 (height o)
                 (fun row => for_range 0 (width o / 16)
                    (fun col_word => write_changed_word bmp row col_word)))).
    { apply keeps_for_range. intros row. apply keeps_for_range. intros col.
      apply keeps_size_write_changed_word. }
    specialize (Hc (d, h)). by rewrite Eloop in Hc. }
  unfold bind, on_heap, on_driver, deepcopy, set_old_buffer in E. cbn [fst snd] in E.
  rewrite Hb in E. injection E as <- <-. simpl. by rewrite <- Hsize.
Qed.

(** ** Mutations touch the surface they are called on *)

Lemma frame_reverse T self : T self → preserves (touch T) (reverse self).
Proof.
  intros HT. unfold reverse, GraphicsBuffer_reverse, Bitmap_reverse.
  apply frame_bind; [frame | intros o]. destruct (kind o); frame.
Qed.

Lemma frame_run_mutation T c self m :
  T self → preserves (touch T) (run_mutation c self m).
Proof.
  intros HT. destruct m; simpl.
  - by apply frame_set_pixel_under.
  - by apply frame_set_word.
  - by apply frame_reset.
  - by apply frame_reverse.
Qed.

(** ** The draw methods return the object they are called on *)

Lemma returns_bind {A B} (P : B → Prop) (m : M A) (f : A → M B) :
  (∀ a, returns P (f a)) → returns P (bind m f).
Proof.
  intros Hf h b h' E. apply bind_inv_ok in E as (a & h1 & _ & E). by eapply Hf.
Qed.

Lemma returns_ret {A} (P : A → Prop) (a : A) : P a → returns P (ret a).
Proof. intros Ha h b h'. by intros [= <- <-]. Qed.

Lemma returns_raise {A} (P : A → Prop) e : returns P (raise e).
Proof. by intros h b h'. Qed.

Ltac returns_self :=
  repeat first
    [ apply returns_ret; reflexivity
    | apply returns_raise
    | apply returns_bind; intros ?
    | match goal with
      | |- returns _ (if ?b then _ else _) => destruct b
      | |- returns _ (match ?x with _ => _ end) => destruct x
      end ].

Lemma draw_method_returns_self c w h : returns (eq c) (draw_method c w h).
Proof.
  unfold draw_method. apply returns_bind. intros o.
  destruct (kind o); [apply returns_raise | apply returns_raise | | | | |].
  - unfold Line_draw. returns_self.
  - unfold Circle_draw. returns_self.
  - unfold Triangle_draw. returns_self.
  - unfold Rectangle_draw. returns_self.
  - unfold DrawableText_draw. returns_self.
Qed.

(** The compositor's call on a child that is a container raises. *)
Lemma draw_method_container c w hh h o cs :
  h !! c = Some o → kind o = KGraphicsBuffer cs →
  draw_method c w hh h = (Raise TypeError, h).
Proof.
  intros Hc Hk. unfold draw_method, bind, get_obj. by rewrite Hc, Hk.
Qed.

(** ** The compositor's loop *)

Lemma frame_compose_child T g c : T g → T c → preserves (touch T) (compose_child g c).
Proof.
  intros Hg Hc. unfold compose_child.
  apply frame_bind; [frame | intros co].
  apply frame_bind; [frame | intros o].
  apply frame_bind; [by apply frame_draw_method | intros d].
  apply frame_bind; [frame | intros dobj].
  by apply frame_update_words.
Qed.

Lemma frame_compose_loop g cs :
  preserves (touch (fun r => r = g ∨ r ∈ cs)) (for_each cs (compose_child g)).
Proof.
  apply preserves_for_each; [apply _ | apply _ |].
  intros c Hc. apply frame_compose_child; auto.
Qed.

Lemma update_words_inv self f h h' :
  update_words self f h = (Ok tt, h') →
  ∃ o a, h !! self = Some o ∧ f (words o) = Ok a ∧ h' = <[self := with_words o a]> h.
Proof.
  unfold update_words, bind, get_obj, lift, put_obj.
  destruct (h !! self) as [o|]; [|done].
  destruct (f (words o)) as [a|e] eqn:Ef; [|done].
  intros [= <-]. by exists o, a.
Qed.

Lemma get_obj_inv r h o h' : get_obj r h = (Ok o, h') → h !! r = Some o ∧ h' = h.
Proof. unfold get_obj. destruct (h !! r); [|done]. by intros [= -> ->]. Qed.

(** One step of the loop: the child is drawn, then its surface is
    combined into the accumulator by the operator of its blend mode. *)
Lemma compose_child_inv g c h h1 og csg :
  h !! g = Some og → kind og = KGraphicsBuffer csg →
  compose_child g c h = (Ok tt, h1) →
  c ≠ g ∧ ∃ oc og2 a,
    h1 !! c = Some oc ∧ static og og2
    ∧ blend_words (_blend_mode oc) (words og) (words oc) = Ok a
    ∧ h1 !! g = Some (with_words og2 a).
Proof.
  intros Hg Hk E. unfold compose_child in E.
  apply bind_inv_ok in E as (co & h0 & E0 & E). apply get_obj_inv in E0 as [Hco ->].
  apply bind_inv_ok in E as (og0 & h0 & E0 & E). apply get_obj_inv in E0 as [Hg0 ->].
  assert (og0 = og) as -> by congruence.
  apply bind_inv_ok in E as (d & h2 & Edraw & E).
  assert (d = c) as -> by (symmetry; by eapply draw_method_returns_self).
  assert (Hne : c ≠ g).
  { intros ->. rewrite (draw_method_container g _ _ h og csg) in Edraw; done. }
  split; [done|].
  apply bind_inv_ok in E as (dobj & h3 & E0 & E). apply get_obj_inv in E0 as [Hd ->].
  apply update_words_inv in E as (og2 & a & Hg2 & Hbl & ->).
  pose proof (touch_of_run (eq c) _ _ _ _ (frame_draw_method (eq c) c _ _ eq_refl) Edraw)
    as [Hlen Ht].
  destruct (Ht g og Hg) as (og2' & Hg2' & Hst & Hw).
  assert (og2' = og2) as -> by congruence.
  destruct Hw as [Hw _]; [congruence|].
  destruct (Ht c co Hco) as (dobj' & Hd' & Hstc & _).
  assert (dobj' = dobj) as -> by congruence.
  assert (Hbm : _blend_mode dobj = _blend_mode co) by apply Hstc.
  exists dobj, og2, a.
  split; [by rewrite list_lookup_insert_ne|]. split; [done|].
  split; [by rewrite Hbm, <- Hw|].
  apply list_lookup_insert_eq. by eapply lookup_lt_Some.
Qed.

(** The loop, from any accumulator: what the container holds afterwards
    is the children combined in the order of the list. *)
Lemma compose_loop g csg cs : ∀ h h' og,
  NoDup cs → h !! g = Some og → kind og = KGraphicsBuffer csg →
  for_each cs (compose_child g) h = (Ok tt, h') →
  ∃ og', h' !! g = Some og' ∧ static og og'
         ∧ compose_children h' (words og) cs = Ok (words og').
Proof.
  induction cs as [|c rest IH]; intros h h' og Hnd Hg Hk E; simpl in *.
  - injection E as <-. exists og. split; [done|]. split; [apply static_refl | done].
  - apply NoDup_cons in Hnd as [Hnotin Hnd].
    apply bind_inv_ok in E as ([] & h1 & Estep & Erest).
    destruct (compose_child_inv g c h h1 og csg Hg Hk Estep)
      as (Hne & oc & og2 & a & Hc1 & Hst2 & Hbl & Hg1).
    assert (Hk2 : kind (with_words og2 a) = KGraphicsBuffer csg).
    { simpl. by destruct Hst2 as (_ & _ & _ & _ & ->). }
    destruct (IH h1 h' (with_words og2 a) Hnd Hg1 Hk2 Erest)
      as (og' & Hg' & Hst' & Hcomp).
    exists og'. split; [done|]. split.
    { eapply static_trans; [|exact Hst'].
      destruct Hst2 as (?&?&?&?&?). by repeat split. }
    pose proof (touch_of_run _ _ _ _ _ (frame_compose_loop g rest) Erest) as [_ Ht].
    destruct (Ht c oc Hc1) as (oc' & Hc' & Hstc & Hw).
    destruct Hw as [Hw _]; [intros [?|?]; done|].
    rewrite Hc'. destruct Hstc as (_ & _ & _ & -> & _). rewrite Hw, Hbl. exact Hcomp.
Qed.

(** ** The operators on same-shaped arrays, word by word *)

Lemma inplace_same_shape f a b :
  np.wf a → np.wf b → np.nrows b = np.nrows a → np.ncols b = np.ncols a →
  ∃ a', np.inplace f a b = Ok a'
        ∧ ∀ i j w c, np.getitem a i j = Some w → np.getitem b i j = Some c →
            np.getitem a' i j = Some (f w c).
Proof.
  intros [Hra Hca] [Hrb Hcb] Er Ec. unfold np.inplace, np.broadcastable.
  rewrite (bool_decide_eq_true_2 _ Er), (bool_decide_eq_true_2 _ Ec). simpl.
  eexists. split; [reflexivity|].
  intros i j w c. unfold np.getitem. simpl.
  destruct (np.cells a !! Z.to_nat i) as [ra|] eqn:Era; simpl; [|done].
  destruct (np.cells b !! Z.to_nat i) as [rb|] eqn:Erb; simpl; [|done].
  intros Hw Hc. rewrite list_lookup_imap, Era. simpl.
  assert (Ei : np.bcast_index (np.nrows b) (Z.to_nat i) = Z.to_nat i).
  { unfold np.bcast_index. case_bool_decide as H1; [|done].
    apply lookup_lt_Some in Erb. lia. }
  rewrite Ei, Erb. unfold np.bcast_row. rewrite list_lookup_imap, Hw. simpl.
  assert (Ej : np.bcast_index (np.ncols b) (Z.to_nat j) = Z.to_nat j).
  { unfold np.bcast_index. case_bool_decide as H1; [|done].
    apply lookup_lt_Some in Hc. rewrite Forall_forall in Hcb.
    rewrite (Hcb rb) in Hc; [lia|]. by eapply list_elem_of_lookup_2. }
  by rewrite Ej, Hc.
Qed.

Lemma wf_invert a : np.wf a → np.wf (np.invert a).
Proof.
  intros [Hr Hc]. split; simpl; [by rewrite length_map|].
  rewrite Forall_forall in *. intros row Hin.
  apply list_elem_of_In, in_map_iff in Hin as (row0 & <- & Hin0).
  rewrite length_map. apply Hc. by apply list_elem_of_In.
Qed.

Lemma getitem_invert a i j :
  np.getitem (np.invert a) i j = (fun w => Z.lxor w 65535) <$> np.getitem a i j.
Proof.
  unfold np.getitem, np.invert. simpl.
  change (map (map (fun w => Z.lxor w 65535)) (np.cells a))
    with (fmap (M := list) (fmap (M := list) (fun w => Z.lxor w 65535)) (np.cells a)).
  rewrite list_lookup_fmap.
  destruct (np.cells a !! Z.to_nat i) as [row|]; simpl; [|done].
  by rewrite list_lookup_fmap.
Qed.

(** On arrays of one shape every operator returns, and combines each bit
    of a word of the accumulator with the same bit of the child's word by
    the rule of the blend mode. *)
Lemma blend_words_bits bm acc drawn :
  np.wf acc → np.wf drawn →
  np.nrows drawn = np.nrows acc → np.ncols drawn = np.ncols acc →
  ∃ a, blend_words bm acc drawn = Ok a
       ∧ ∀ i j w c, np.getitem acc i j = Some w → np.getitem drawn i j = Some c →
           ∃ w', np.getitem a i j = Some w'
                 ∧ ∀ b, 0 ≤ b < 16 →
                     Z.testbit w' b = blend_bit bm (Z.testbit w b) (Z.testbit c b).
Proof.
  intros Hwa Hwd Er Ec. destruct bm; simpl.
  - destruct (inplace_same_shape Z.lor acc drawn) as (a & E & Hget); try done.
    exists a. split; [done|]. intros i j w c Hw Hc. eexists. split; [by eapply Hget|].
    intros b _. apply Z.lor_spec.
  - destruct (inplace_same_shape Z.land acc (np.invert drawn)) as (a & E & Hget);
      try done; [by apply wf_invert|].
    exists a. split; [done|]. intros i j w c Hw Hc. eexists. split.
    + eapply Hget; [done|]. by rewrite getitem_invert, Hc.
    + intros b Hb. rewrite Z.land_spec, Z.lxor_spec. change 65535 with (Z.ones 16).
      rewrite Z.ones_spec_low by lia. by rewrite xorb_true_r.
  - destruct (inplace_same_shape Z.lxor acc drawn) as (a & E & Hget); try done.
    exists a. split; [done|]. intros i j w c Hw Hc. eexists. split; [by eapply Hget|].
    intros b _. apply Z.lxor_spec.
Qed.

(** ** The container's flag *)

Lemma flag_kept_refl g h : flag_kept g h h.
Proof. intros o Hg. exists o. split; [done|]. split; [apply static_refl | done]. Qed.

Lemma flag_kept_trans g h1 h2 h3 : flag_kept g h1 h2 → flag_kept g h2 h3 → flag_kept g h1 h3.
Proof.
  intros H1 H2 o Hg. destruct (H1 o Hg) as (o2 & Hg2 & S2 & F2).
  destruct (H2 o2 Hg2) as (o3 & Hg3 & S3 & F3).
  exists o3. split; [done|]. split; [by eapply static_trans | auto].
Qed.

#[export] Instance flag_kept_reflexive g : Reflexive (flag_kept g).
Proof. intros h. apply flag_kept_refl. Qed.

#[export] Instance flag_kept_transitive g : Transitive (flag_kept g).
Proof. intros h1 h2 h3. apply flag_kept_trans. Qed.

Lemma touch_flag_kept T g h h' : ¬ T g → touch T h h' → flag_kept g h h'.
Proof.
  intros HT [_ Ht] o Hg. destruct (Ht g o Hg) as (o' & Hg' & Hs & Hf).
  exists o'. split; [done|]. split; [done|]. by apply Hf.
Qed.

Lemma preserves_weaken {A} (R R' : heap → heap → Prop) (m : M A) :
  (∀ h h', R h h' → R' h h') → preserves R m → preserves R' m.
Proof. intros HR Hm h. apply HR, Hm. Qed.

Lemma flag_kept_update_words g self f : preserves (flag_kept g) (update_words self f).
Proof.
  intros h. unfold update_words, bind, get_obj, lift, put_obj.
  destruct (h !! self) as [o|] eqn:E; simpl; [|apply flag_kept_refl].
  destruct (f (words o)) as [a|e]; simpl; [|apply flag_kept_refl].
  intros og Hg. destruct (decide (g = self)) as [->|Hne].
  - assert (og = o) as -> by congruence. exists (with_words o a).
    split; [apply list_lookup_insert_eq; by eapply lookup_lt_Some|].
    split; [by repeat split | done].
  - exists og. rewrite list_lookup_insert_ne by done.
    split; [done|]. split; [apply static_refl | done].
Qed.

Lemma flag_kept_reset g self : preserves (flag_kept g) (reset self).
Proof.
  intros h. unfold reset, modify_obj, bind, get_obj, put_obj.
  destruct (h !! self) as [o|] eqn:E; simpl; [|apply flag_kept_refl].
  intros og Hg. destruct (decide (g = self)) as [->|Hne].
  - assert (og = o) as -> by congruence. eexists.
    split; [apply list_lookup_insert_eq; by eapply lookup_lt_Some|].
    split; [by repeat split | done].
  - exists og. rewrite list_lookup_insert_ne by done.
    split; [done|]. split; [apply static_refl | done].
Qed.

(** The step of the loop on a child that is a container raises and leaves
    the store as it is. *)
Lemma compose_child_container g c h oc ccs :
  h !! c = Some oc → kind oc = KGraphicsBuffer ccs →
  ∃ e, compose_child g c h = (Raise e, h).
Proof.
  intros Hc Hk. unfold compose_child.
  rewrite (bind_ok _ _ h oc h) by (unfold get_obj; by rewrite Hc).
  destruct (h !! g) as [og|] eqn:Hg.
  - rewrite (bind_ok _ _ h og h) by (unfold get_obj; by rewrite Hg).
    exists TypeError. apply bind_raise. by eapply draw_method_container.
  - exists InvalidRef. apply bind_raise. unfold get_obj. by rewrite Hg.
Qed.

(** A step of the compositor's loop never clears the container's flag. *)
Lemma flag_kept_compose_child g c h og cs :
  h !! g = Some og → kind og = KGraphicsBuffer cs →
  flag_kept g h (snd (compose_child g c h)).
Proof.
  intros Hg Hk. destruct (decide (c = g)) as [->|Hne].
  - destruct (compose_child_container g g h og cs Hg Hk) as [e ->]. apply flag_kept_refl.
  - assert (Hp : preserves (flag_kept g) (compose_child g c)); [|by apply Hp].
    unfold compose_child.
    apply preserves_bind; [apply _ | apply _ | | intros co].
    { apply (preserves_weaken (touch (eq c))); [intros ? ?; by apply touch_flag_kept | frame]. }
    apply preserves_bind; [apply _ | apply _ | | intros o].
    { apply (preserves_weaken (touch (eq c))); [intros ? ?; by apply touch_flag_kept | frame]. }
    apply preserves_bind; [apply _ | apply _ | | intros d].
    { apply (preserves_weaken (touch (eq c))); [intros ? ?; by apply touch_flag_kept |].
      by apply frame_draw_method. }
    apply preserves_bind; [apply _ | apply _ | | intros dobj].
    { apply (preserves_weaken (touch (eq c))); [intros ? ?; by apply touch_flag_kept | frame]. }
    apply flag_kept_update_words.
Qed.

Lemma flag_kept_compose_loop g cs0 cs : ∀ h og,
  h !! g = Some og → kind og = KGraphicsBuffer cs0 →
  flag_kept g h (snd (for_each cs (compose_child g) h)).
Proof.
  induction cs as [|c rest IH]; intros h og Hg Hk; simpl; [apply flag_kept_refl|].
  pose proof (flag_kept_compose_child g c h og cs0 Hg Hk) as Hstep.
  unfold bind. destruct (compose_child g c h) as [[[]|e] h1]; simpl in *; [|done].
  destruct (Hstep og Hg) as (og1 & Hg1 & Hst & _).
  eapply flag_kept_trans; [exact Hstep|].
  apply (IH h1 og1 Hg1). destruct Hst as (_ & _ & _ & _ & ->). done.
Qed.

(** [GraphicsBuffer.draw] on a dirty container leaves it dirty, whether
    it returns or raises. *)
Lemma GraphicsBuffer_draw_stays_dirty h g og cs :
  h !! g = Some og → kind og = KGraphicsBuffer cs → _is_dirty og = true →
  ∃ og', snd (GraphicsBuffer_draw g h) !! g = Some og' ∧ _is_dirty og' = true.
Proof.
  intros Hg Hk Hd.
  assert (Hkept : flag_kept g h (snd (GraphicsBuffer_draw g h))).
  { unfold GraphicsBuffer_draw, bind at 1, get_obj. rewrite Hg, Hd. simpl.
    pose proof (flag_kept_reset g g h) as Hreset.
    unfold bind at 1. destruct (reset g h) as [[[]|e] h1] eqn:Er; simpl in *; [|done].
    destruct (Hreset og Hg) as (og1 & Hg1 & Hst & _).
    eapply flag_kept_trans; [exact Hreset|].
    rewrite Hk. simpl. unfold bind at 1. simpl.
    pose proof (flag_kept_compose_loop g cs cs h1 og1 Hg1) as Hloop.
    unfold bind. destruct (for_each cs (compose_child g) h1) as [[[]|e] h2]; simpl in *.
    - apply Hloop. destruct Hst as (_ & _ & _ & _ & ->). done.
    - apply Hloop. destruct Hst as (_ & _ & _ & _ & ->). done. }
  destruct (Hkept og Hg) as (og' & Hg' & _ & Hf). exists og'. split; [done | auto].
Qed.

(** A container among the children makes the loop raise. *)
Lemma compose_loop_container g c ccs cs : ∀ h oc,
  c ∈ cs → h !! c = Some oc → kind oc = KGraphicsBuffer ccs →
  is_ok (fst (for_each cs (compose_child g) h)) = false.
Proof.
  induction cs as [|c' rest IH]; intros h oc Hin Hc Hk; [by apply elem_of_nil in Hin|].
  simpl. unfold bind.
  destruct (compose_child g c' h) as [[[]|e] h1] eqn:Estep; simpl; [|done].
  destruct (decide (c' = c)) as [->|Hne].
  - exfalso. destruct (compose_child_container g c h oc ccs Hc Hk) as [e He]. congruence.
  - apply elem_of_cons in Hin as [->|Hin]; [done|].
    pose proof (touch_of_run _ _ _ _ _
                  (frame_compose_child (fun _ => True) g c' I I) Estep) as [_ Ht].
    destruct (Ht c oc Hc) as (oc1 & Hc1 & Hst & _).
    apply (IH h1 oc1 Hin Hc1). destruct Hst as (_ & _ & _ & _ & ->). done.
Qed.

(** ** Setters *)

Lemma ancestor_parents h h' r a :
  parents h' = parents h → ancestor h r a → ancestor h' r a.
Proof.
  intros Hp Ha. induction Ha as [|r p a o Hr Hpo _ IH]; [constructor|].
  assert (Hl : parents h' !! r = Some (Some p)).
  { rewrite Hp. unfold parents. by rewrite list_lookup_fmap, Hr, <- Hpo. }
  unfold parents in Hl. rewrite list_lookup_fmap in Hl.
  destruct (h' !! r) as [o'|] eqn:Hr'; [|done]. simpl in Hl.
  apply (ancestor_up h' r p a o'); [done | congruence | done].
Qed.

(** A setter returns and leaves the flag set on its object and on every
    container above it. *)
Lemma set_geometry_spec h self o upd k :
  h !! self = Some o → upd (kind o) = Some k → chain_ok h self →
  ∃ h', set_geometry self upd h = (Ok tt, h')
        ∧ ∀ a, ancestor h self a → flag_of h' a = Some true.
Proof.
  intros Hself Hupd Hch.
  unfold set_geometry, bind at 1, get_obj. rewrite Hself, Hupd. simpl.
  unfold bind at 1, ret. unfold bind, put_obj.
  set (h1 := <[self := with_kind o k]> h).
  assert (Hp : parents h1 = parents h).
  { unfold parents, h1. rewrite list_fmap_insert. simpl.
    apply list_insert_id. by rewrite list_lookup_fmap, Hself. }
  assert (Hch1 : chain_ok h1 self).
  { unfold chain_ok. rewrite Hp. unfold h1. by rewrite length_insert. }
  destruct (dirty_ok h1 self Hch1) as [h' Hd]. exists h'. split; [done|].
  intros a Ha. unfold flag_of.
  destruct (dirty_rec_flags _ _ _ _ Hd a (ancestor_parents h h1 _ _ Hp Ha))
    as (oa & -> & Hfl).
  simpl. by rewrite Hfl.
Qed.

(** [dirty()] itself, likewise. *)
Lemma dirty_spec h self :
  chain_ok h self →
  ∃ h', dirty self h = (Ok tt, h') ∧ ∀ a, ancestor h self a → flag_of h' a = Some true.
Proof.
  intros Hch. destruct (dirty_ok h self Hch) as [h' Hd]. exists h'. split; [done|].
  intros a Ha. unfold flag_of.
  destruct (dirty_rec_flags _ _ _ _ Hd a Ha) as (oa & -> & Hfl). simpl. by rewrite Hfl.
Qed.

(** ** The shapes clear their flag *)

Lemma modify_obj_inv r f h h' :
  modify_obj r f h = (Ok tt, h') → ∃ o, h !! r = Some o ∧ h' = <[r := f o]> h.
Proof.
  unfold modify_obj, bind, get_obj, put_obj. destruct (h !! r) as [o|]; [|done].
  intros [= <-]. by exists o.
Qed.

(** The end of every shape's [draw]: [self._is_dirty = False; return self]. *)
Lemma clear_and_return self h r h' :
  (modify_obj self (fun o => with_dirty o false) ;; ret self) h = (Ok r, h') →
  flag_of h' self = Some false.
Proof.
  intros E. apply bind_inv_ok in E as ([] & h1 & Em & E). injection E as <- <-.
  apply modify_obj_inv in Em as (o & Ho & ->). unfold flag_of.
  rewrite list_lookup_insert_eq by (by eapply lookup_lt_Some). done.
Qed.

Ltac peel E :=
  repeat match type of E with
         | bind (modify_obj _ _) _ _ = _ => fail 1
         | bind _ _ _ = (Ok _, _) =>
             let a := fresh "a" in let h := fresh "h" in let E0 := fresh "E0" in
             apply bind_inv_ok in E as (a & h & E0 & E)
         | (let '(_, _) := ?p in _) _ = _ => destruct p
         end.

Lemma shape_draw_clears c w hh h r h' :
  draw_method c w hh h = (Ok r, h') → flag_of h' c = Some false.
Proof.
  unfold draw_method. intros E.
  apply bind_inv_ok in E as (o & h0 & E0 & E). apply get_obj_inv in E0 as [Hc ->].
  assert (Hclean : _is_dirty o = false → flag_of h c = Some false).
  { intros Hf. unfold flag_of. by rewrite Hc, <- Hf. }
  destruct (kind o); [done | done | | | | |].
  - unfold Line_draw in E.
    apply bind_inv_ok in E as (o1 & hh1 & E1 & E). apply get_obj_inv in E1 as [Hc1 ->].
    assert (o1 = o) as -> by congruence.
    destruct (_is_dirty o); simpl in E; [|injection E as <- <-; auto].
    peel E. by eapply clear_and_return.
  - unfold Circle_draw in E.
    apply bind_inv_ok in E as (o1 & hh1 & E1 & E). apply get_obj_inv in E1 as [Hc1 ->].
    assert (o1 = o) as -> by congruence.
    destruct (_is_dirty o); simpl in E; [|injection E as <- <-; auto].
    peel E. by eapply clear_and_return.
  - unfold Triangle_draw in E.
    apply bind_inv_ok in E as (o1 & hh1 & E1 & E). apply get_obj_inv in E1 as [Hc1 ->].
    assert (o1 = o) as -> by congruence.
    destruct (_is_dirty o); simpl in E; [|injection E as <- <-; auto].
    peel E. by eapply clear_and_return.
  - unfold Rectangle_draw in E.
    apply bind_inv_ok in E as (o1 & hh1 & E1 & E). apply get_obj_inv in E1 as [Hc1 ->].
    assert (o1 = o) as -> by congruence.
    destruct (_is_dirty o); simpl in E; [|injection E as <- <-; auto].
    peel E. by eapply clear_and_return.
  - unfold DrawableText_draw in E.
    apply bind_inv_ok in E as (o1 & hh1 & E1 & E). apply get_obj_inv in E1 as [Hc1 ->].
    assert (o1 = o) as -> by congruence.
    destruct (_is_dirty o); simpl in E; [|injection E as <- <-; auto].
    peel E. by eapply clear_and_return.
Qed.

(** A shape that is not dirty returns itself and leaves the store alone. *)
Lemma shape_draw_cached c w hh h o :
  h !! c = Some o → _is_dirty o = false →
  kind o ≠ KBitmap → (∀ cs, kind o ≠ KGraphicsBuffer cs) →
  draw_method c w hh h = (Ok c, h).
Proof.
  intros Hc Hf Hnb Hng. unfold draw_method.
  rewrite (bind_ok _ _ h o h) by (unfold get_obj; by rewrite Hc).
  destruct (kind o) eqn:Hk; [done | by destruct (Hng children) | | | | |].
  all: unfold Line_draw, Circle_draw, Triangle_draw, Rectangle_draw, DrawableText_draw.
  all: rewrite (bind_ok _ _ h o h) by (unfold get_obj; by rewrite Hc).
  all: by rewrite Hf.
Qed.

(** * The claims *)

(** ** C9: the prerequisite of the graphics sub-mode *)

(** C9. [set_instruction_set(extended, graphics)] raises (a ValueError)
    exactly when [graphics] is true and [extended] is false, and returns
    otherwise; the raising call leaves the driver's [graphics] attribute
    as it was, so a flag that was false remains false. *)
Theorem C9_set_instruction_set_prerequisite :
  ∀ (d : ST7920) (ext gr : bool),
    let r := fst (set_instruction_set ext gr d) in
    let d' := snd (set_instruction_set ext gr d) in
    (r = Raise ValueError ↔ gr = true ∧ ext = false)
    ∧ (r = Ok tt ↔ ¬ (gr = true ∧ ext = false))
    ∧ (r = Raise ValueError →
       graphics d' = graphics d ∧ (graphics d = false → graphics d' = false)).
Proof.
  intros d ext gr. destruct ext, gr; cbn; intuition congruence.
Qed.

Lemma C9_witness :
  fst (set_instruction_set false true (ST7920_init 128 64)) = Raise ValueError
  ∧ graphics (snd (set_instruction_set false true (ST7920_init 128 64))) = false.
Proof.
  destruct (C9_set_instruction_set_prerequisite (ST7920_init 128 64) false true)
    as (H1 & _ & H3).
  split; [reflexivity|]. apply H3; reflexivity.
Defined.

(** ** C10: adding a child *)

(** C10. [GraphicsBuffer.add(drawable)] returns, appends the drawable to
    the end of the container's children and makes the container the
    drawable's parent; the container's dirty flag and words are what
    they were. *)
Theorem C10_add_appends_without_dirtying :
  ∀ (h : heap) (g d : ref) (og od : Bitmap) (cs : list ref),
    h !! g = Some og → kind og = KGraphicsBuffer cs → h !! d = Some od →
    ∃ h' og' od',
      GraphicsBuffer_add g d h = (Ok tt, h')
      ∧ h' !! g = Some og' ∧ h' !! d = Some od'
      ∧ kind og' = KGraphicsBuffer (cs ++ [d])
      ∧ _parent od' = Some g
      ∧ _is_dirty og' = _is_dirty og
      ∧ words og' = words og.
Proof.
  intros h g d og od cs Hg Hk Hd.
  assert (Lg : (g < length h)%nat) by (by eapply lookup_lt_Some).
  assert (Ld : (d < length h)%nat) by (by eapply lookup_lt_Some).
  unfold GraphicsBuffer_add, modify_obj, bind, get_obj, put_obj. rewrite Hd. simpl.
  destruct (decide (d = g)) as [->|Hne].
  - assert (od = og) as -> by congruence.
    rewrite list_lookup_insert_eq by done. simpl. rewrite Hk. simpl.
    eexists _, _, _. split; [reflexivity|].
    rewrite !list_lookup_insert_eq by (by rewrite ?length_insert).
    repeat split.
  - rewrite list_lookup_insert_ne by done. rewrite Hg. simpl. rewrite Hk. simpl.
    eexists _, _, _. split; [reflexivity|].
    rewrite list_lookup_insert_eq by (by rewrite ?length_insert).
    rewrite list_lookup_insert_ne by done.
    rewrite list_lookup_insert_eq by done.
    repeat split.
Qed.

Lemma C10_witness :
  ∃ h' og' od',
    GraphicsBuffer_add 0%nat 1%nat scene_two_buffers = (Ok tt, h')
    ∧ h' !! 0%nat = Some og' ∧ h' !! 1%nat = Some od'
    ∧ kind og' = KGraphicsBuffer ([] ++ [1%nat])
    ∧ _parent od' = Some 0%nat
    ∧ _is_dirty og' = true
    ∧ np.cells (words og') = [[0]].
Proof.
  destruct (C10_add_appends_without_dirtying scene_two_buffers 0%nat 1%nat
              (mkBitmap 16 1 (np.mk 1 1 [[0]]) true None ON (KGraphicsBuffer []))
              (mkBitmap 16 1 (np.mk 1 1 [[0]]) true None ON (KGraphicsBuffer []))
              [] eq_refl eq_refl eq_refl)
    as (h' & og' & od' & E & Hg & Hd & Hk & Hp & Hf & Hw).
  exists h', og', od'. rewrite Hf, Hw. repeat split; assumption.
Defined.

(** ** C6: writing and reading a surface *)

(** C6. On a surface ([height] rows of [width / 16] words, [width] a
    multiple of 16) whose parent chain ends.

    Under NumPy 2 the claim fails where a pixel is cleared: for every
    pixel of the surface [set_pixel(x, y, False)] raises OverflowError
    and leaves the store as it is, because [~mask] is a negative Python
    integer; so after [set_pixel(x, y)] the call [set_pixel(x, y, False)]
    raises and [get_pixel(x, y)] still returns 1.

    What the claim says holds under NumPy 1 for every sequence of
    [set_pixel] and [set_word] calls, and under NumPy 2 for the sequences
    that clear no pixel of the surface:
    - the sequence returns, and [get_pixel] at in-bounds coordinates then
      returns the last value written to that pixel (the value it had,
      when nothing wrote it);
    - an in-bounds [set_pixel] changes, in the one word of the pixel, the
      one bit of the pixel, and an in-bounds [set_word] replaces that one
      word by the low sixteen bits of the value; all other words stay;
    - out of bounds, [set_pixel] and [set_word] return and leave the whole
      store as it is;
    - out of bounds, [get_pixel] returns 0, whatever was written before. *)
Theorem C6_clearing_a_pixel_overflows :
  ∀ (h : heap) (self : ref) (o : Bitmap),
    h !! self = Some o →
    (surface_ok o → chain_ok h self →
       (∀ x y, in_bounds o x y = true →
          set_pixel_under np.NEP50 self x y false h = (Raise OverflowError, h))
       ∧ (∀ x y, in_bounds o x y = true →
          ∃ h', set_pixel_under np.NEP50 self x y true h = (Ok tt, h')
                ∧ set_pixel_under np.NEP50 self x y false h' = (Raise OverflowError, h')
                ∧ get_pixel self x y h' = (Ok 1, h'))
       ∧ (∀ c ops, c = np.Legacy ∨ Forall (fun op => clears o op = false) ops →
          (∀ x y, in_bounds o x y = true →
             ∃ h', run_ops c self ops h = (Ok tt, h')
                   ∧ get_pixel self x y h'
                     = (Ok (match last_written o ops x y with
                            | Some b => Z.b2z b
                            | None => pixel o x y
                            end), h'))
          ∧ (∀ x y, in_bounds o x y = false →
             ∃ h', run_ops c self ops h = (Ok tt, h')
                   ∧ get_pixel self x y h' = (Ok 0, h')))
       ∧ (∀ c x y v, in_bounds o x y = true → v = true ∨ c = np.Legacy →
          ∃ w w' h' o',
            set_pixel_under c self x y v h = (Ok tt, h') ∧ h' !! self = Some o'
            ∧ np.getitem (words o) y (x / 16) = Some w
            ∧ np.getitem (words o') y (x / 16) = Some w'
            ∧ (∀ b, 0 ≤ b →
                 Z.testbit w' b = if 15 - x mod 16 =? b then v else Z.testbit w b)
            ∧ (∀ i j, word_in_bounds o i j = true → (i, j) ≠ (y, x / 16) →
                 np.getitem (words o') i j = np.getitem (words o) i j))
       ∧ (∀ v hh value, word_in_bounds o v hh = true →
          ∃ h' o',
            set_word self v hh value h = (Ok tt, h') ∧ h' !! self = Some o'
            ∧ np.getitem (words o') v hh = Some (Z.land value 65535)
            ∧ (∀ i j, word_in_bounds o i j = true → (i, j) ≠ (v, hh) →
                 np.getitem (words o') i j = np.getitem (words o) i j)))
    ∧ (∀ c x y v, in_bounds o x y = false →
         set_pixel_under c self x y v h = (Ok tt, h))
    ∧ (∀ v hh value, word_in_bounds o v hh = false →
         set_word self v hh value h = (Ok tt, h))
    ∧ (∀ x y, in_bounds o x y = false → get_pixel self x y h = (Ok 0, h)).
Proof.
  intros h self o Hself. split; [intros Hs Hch; repeat apply conj|repeat apply conj].
  - intros x y Hb. by apply (set_pixel_overflows h self o).
  - intros x y Hb.
    destruct (run_op_spec np.NEP50 h self o (SetPixel x y true))
      as (h' & o' & E & Ho' & Hst & Hs' & Hch' & Hpx); try done; [by right|].
    exists h'. split; [exact E|]. split.
    + apply (set_pixel_overflows h' self o'); [done | done |].
      by rewrite (in_bounds_static o o').
    + rewrite (get_pixel_pixel h' self o') by done. rewrite Hpx by done.
      simpl. by rewrite Hb, !Z.eqb_refl.
  - intros c ops Hc.
    destruct (run_ops_spec c ops h self o) as (h' & o' & E & Ho' & Hst & Hs' & Hpx); try done.
    split; intros x y Hb; exists h'; (split; [done|]);
      rewrite (get_pixel_pixel h' self o') by done.
    + by rewrite Hpx.
    + unfold pixel. by rewrite (in_bounds_static o o'), Hb.
  - intros c x y v Hb Hv.
    destruct (set_pixel_under_in c h self o x y v)
      as (w & h' & o' & Hw & E & Ho' & Hst & Hwd); try done.
    pose proof (in_bounds_bit o x y Hb) as Hbit.
    eexists w, _, h', o'. split; [done|]. split; [done|]. split; [done|].
    split; [rewrite Hwd; by eapply getitem_setitem_eq|].
    split; [intros b Hb0; apply testbit_set_bit; lia|].
    intros i j Hij Hne. rewrite Hwd. apply getitem_setitem_ne.
    pose proof (in_bounds_word o x y (proj1 Hs) Hb) as Hxw.
    unfold word_in_bounds in Hij, Hxw.
    rewrite !andb_true_iff, !Z.leb_le, !Z.ltb_lt in Hij, Hxw.
    intros Hpair. injection Hpair as E1 E2. apply Hne. f_equal; lia.
  - intros v hh value Hb.
    destruct (set_word_in h self o v hh value) as (h' & o' & E & Ho' & Hst & Hwd);
      try done.
    destruct (word_getitem o v hh Hs Hb) as [w Hw].
    exists h', o'. split; [done|]. split; [done|].
    split; [rewrite Hwd; by eapply getitem_setitem_eq|].
    intros i j Hij Hne. rewrite Hwd. apply getitem_setitem_ne.
    unfold word_in_bounds in Hij, Hb.
    rewrite !andb_true_iff, !Z.leb_le, !Z.ltb_lt in Hij, Hb.
    intros Hpair. injection Hpair as E1 E2. apply Hne. f_equal; lia.
  - intros c x y v Hb. by eapply set_pixel_under_out.
  - intros v hh value Hb. by eapply set_word_out.
  - intros x y Hb. unfold get_pixel, bind, get_obj. by rewrite Hself, Hb.
Qed.

Lemma scene_two_buffers_surface_ok :
  surface_ok (mkBitmap 16 1 (np.mk 1 1 [[0]]) true None ON (KGraphicsBuffer [])).
Proof.
  unfold surface_ok, np.wf. simpl. repeat split; try reflexivity.
  repeat constructor.
Qed.

Lemma C6_witness :
  ∃ h', set_pixel_under np.NEP50 0%nat 8 0 true scene_two_buffers = (Ok tt, h')
        ∧ set_pixel_under np.NEP50 0%nat 8 0 false h' = (Raise OverflowError, h')
        ∧ get_pixel 0%nat 8 0 h' = (Ok 1, h').
Proof.
  destruct (C6_clearing_a_pixel_overflows scene_two_buffers 0%nat _ eq_refl) as [H _].
  destruct (H scene_two_buffers_surface_ok eq_refl) as (_ & HB & _).
  exact (HB 8 0 eq_refl).
Defined.

(** ** C2: the differential writer transmits what changed *)

(** C2. For a surface [bmp] that fits the display:
    - with no baseline, [write_gdram_buffer] returns and puts on the bus
      exactly one address-set and word-write per word of the surface,
      rows in order and words of a row in order;
    - a second [write_gdram_buffer] of the same, unchanged surface
      returns and puts nothing on the bus;
    - when the surface differs from the baseline in exactly the word at
      [(r, c)], the write returns and puts on the bus exactly the
      address-set for [(r, c)] and the word-write of the new word. *)
Theorem C2_differential_minimality :
  ∀ (d : ST7920) (h : heap) (bmp : ref) (o : Bitmap),
    h !! bmp = Some o → surface_ok o →
    (old_buffer d = None → fits d o →
       ∃ d' h', write_gdram_buffer bmp (d, h) = (Ok tt, (d', h'))
                ∧ spi d' = spi d ++ full_scan o)
    ∧ (∀ d1 h1, write_gdram_buffer bmp (d, h) = (Ok tt, (d1, h1)) →
       ∃ d2 h2, write_gdram_buffer bmp (d1, h1) = (Ok tt, (d2, h2))
                ∧ spi d2 = spi d1)
    ∧ (∀ b ob r c,
         old_buffer d = Some b → h !! b = Some ob →
         0 ≤ r < height o → 0 ≤ c < width o / 16 →
         r < lcd_height d → c < lcd_width d / 16 →
         is_Some (np.getitem (words ob) r c) →
         np.getitem (words ob) r c ≠ np.getitem (words o) r c →
         (∀ i j, 0 ≤ i < height o → 0 ≤ j < width o / 16 → (i, j) ≠ (r, c) →
            np.getitem (words ob) i j = np.getitem (words o) i j) →
         ∃ d' h', write_gdram_buffer bmp (d, h) = (Ok tt, (d', h'))
                  ∧ spi d' = spi d ++ transmission r c (word_at o r c)).
Proof.
  intros d h bmp o Hb Hs. repeat apply conj.
  - intros Hnone [Hfh Hfw].
    eexists _, _. split.
    + apply (write_gdram_buffer_spec d h bmp o
               (fun row col => transmission row col (word_at o row col))); [done|].
      intros row col l Hr Hc. rewrite <- sent_sent.
      apply (write_changed_word_send (sent d l) h bmp o row col (word_at o row col));
        simpl; try done; try lia.
      * by apply word_at_getitem.
      * by rewrite Hnone.
    + reflexivity.
  - intros d1 h1 E1.
    destruct (write_gdram_buffer_inv _ _ _ _ _ E1) as (-> & Hold & Hsize & _).
    assert (Hb1 : (h ++ (shift_refs (length h) <$> h)) !! bmp = Some o).
    { rewrite lookup_app_l; [done | by eapply lookup_lt_Some]. }
    assert (Hc1 : (h ++ (shift_refs (length h) <$> h)) !! (bmp + length h)%nat
                  = Some (shift_refs (length h) o)).
    { rewrite lookup_app_r by lia.
      replace (bmp + length h - length h)%nat with bmp by lia.
      by rewrite list_lookup_fmap, Hb. }
    eexists _, _. split.
    + apply (write_gdram_buffer_spec d1 _ bmp o (fun _ _ => [])); [done|].
      intros row col l Hr Hc. rewrite app_nil_r.
      apply (write_changed_word_skip (sent d1 l) _ bmp o (bmp + length h)%nat
               (shift_refs (length h) o) row col (word_at o row col));
        simpl; try done; by apply word_at_getitem.
    + simpl. unfold scan.
      rewrite flat_map_all_nil; [by rewrite app_nil_r|].
      intros row _. by apply flat_map_all_nil.
  - intros b ob r c Hold Hob Hr Hc Hrd Hcd [w' Hw'] Hne Hsame.
    set (tx := fun row col => if (row =? r) && (col =? c)
                              then transmission r c (word_at o r c) else []).
    eexists _, _. split.
    + apply (write_gdram_buffer_spec d h bmp o tx); [done|].
      intros row col l Hrow Hcol. unfold tx.
      destruct ((row =? r) && (col =? c)) eqn:Heq.
      * apply andb_prop in Heq as [Er Ec]. apply Z.eqb_eq in Er, Ec. subst row col.
        rewrite <- sent_sent.
        apply (write_changed_word_send (sent d l) h bmp o r c (word_at o r c));
          simpl; try done; try lia.
        { by apply word_at_getitem. }
        rewrite Hold. exists ob, w'. split; [done|]. split; [done|].
        intros ->. apply Hne. rewrite Hw'. symmetry. by apply word_at_getitem.
      * rewrite app_nil_r.
        apply (write_changed_word_skip (sent d l) h bmp o b ob row col
                 (word_at o row col)); simpl; try done.
        { by apply word_at_getitem. }
        rewrite Hsame; [by apply word_at_getitem | done | done |].
        intros [= -> ->]. by rewrite !Z.eqb_refl in Heq.
    + simpl. f_equal. unfold scan.
      rewrite (flat_map_only _ r); [|lia|].
      * rewrite (flat_map_only _ c); [|lia|].
        -- unfold tx. by rewrite !Z.eqb_refl.
        -- intros x Hx. unfold tx. apply Z.eqb_neq in Hx. rewrite Hx.
           by rewrite andb_false_r.
      * intros x Hx. apply flat_map_all_nil. intros col _. unfold tx.
        apply Z.eqb_neq in Hx. by rewrite Hx.
Qed.

Lemma scene_32x2_surface_ok ws :
  surface_ok (mkBitmap 32 2 (np.mk 2 2 [[0; 0]; ws]) true None ON (KGraphicsBuffer []))
  ↔ length ws = 2%nat.
Proof.
  unfold surface_ok, np.wf. simpl. split.
  - intros (_ & (_ & Hf) & _). by inversion Hf as [|? ? ? Hf']; inversion Hf'.
  - intros Hl. repeat split; try reflexivity. by repeat constructor.
Qed.

Lemma first_write_32x2 :
  write_gdram_buffer 0%nat (lcd_32x2, scene_32x2) = (Ok tt, (lcd_written, scene_written)).
Proof. vm_compute. reflexivity. Qed.

Lemma C2_witness :
  (∃ d' h', write_gdram_buffer 0%nat (lcd_32x2, scene_32x2) = (Ok tt, (d', h'))
            ∧ spi d' = spi lcd_32x2 ++ full_scan
                         (mkBitmap 32 2 (np.mk 2 2 [[0; 0]; [0; 0]]) true None ON
                                   (KGraphicsBuffer [])))
  ∧ (∃ d2 h2, write_gdram_buffer 0%nat (lcd_written, scene_written) = (Ok tt, (d2, h2))
              ∧ spi d2 = spi lcd_written)
  ∧ (∃ d' h', write_gdram_buffer 0%nat (lcd_written, scene_changed) = (Ok tt, (d', h'))
              ∧ spi d' = spi lcd_written
                         ++ transmission 1 1
                              (word_at (mkBitmap 32 2 (np.mk 2 2 [[0; 0]; [0; 48879]]) true
                                                 None ON (KGraphicsBuffer [])) 1 1)).
Proof.
  split; [|split].
  - destruct (C2_differential_minimality lcd_32x2 scene_32x2 0%nat _ eq_refl
                (proj2 (scene_32x2_surface_ok [0; 0]) eq_refl)) as (H1 & _ & _).
    apply H1; [reflexivity | split; simpl; lia].
  - destruct (C2_differential_minimality lcd_32x2 scene_32x2 0%nat _ eq_refl
                (proj2 (scene_32x2_surface_ok [0; 0]) eq_refl)) as (_ & H2 & _).
    apply (H2 lcd_written scene_written first_write_32x2).
  - destruct (C2_differential_minimality lcd_written scene_changed 0%nat _ eq_refl
                (proj2 (scene_32x2_surface_ok [0; 48879]) eq_refl)) as (_ & _ & H3).
    apply (H3 1%nat (mkBitmap 32 2 (np.mk 2 2 [[0; 0]; [0; 0]]) true None ON
                              (KGraphicsBuffer [])) 1 1);
      [reflexivity | reflexivity | by vm_compute | by vm_compute | by vm_compute
      | by vm_compute | | | ].
    + by eexists.
    + discriminate.
    + intros i j Hi Hj Hne. cbn [height width] in Hi, Hj.
      change (32 / 16) with 2 in Hj.
      assert (Ei : i = 0 ∨ i = 1) by lia. assert (Ej : j = 0 ∨ j = 1) by lia.
      destruct Ei as [-> | ->], Ej as [-> | ->]; try reflexivity. by destruct Hne.
Defined.

(** ** C7: the baseline is a copy of its own *)

(** C7. When [write_gdram_buffer(S)] returns, the driver's baseline is an
    object other than [S] holding the words [S] has at that moment; [S]
    itself is as it was; and whatever [set_pixel], [set_word], [reset]
    and [reverse] calls are then made on [S], in any number and order,
    returning or raising, under either version of NumPy, the baseline
    still holds those words. *)
Theorem C7_baseline_is_independent :
  ∀ (d : ST7920) (h : heap) (s : ref) (o : Bitmap) (d' : ST7920) (h' : heap),
    h !! s = Some o →
    write_gdram_buffer s (d, h) = (Ok tt, (d', h')) →
    ∃ b ob,
      old_buffer d' = Some b ∧ b ≠ s
      ∧ h' !! b = Some ob ∧ words ob = words o
      ∧ h' !! s = Some o
      ∧ ∀ (c : np.casting) (ms : list mutation) r h'',
          for_each ms (run_mutation c s) h' = (r, h'') →
          ∃ ob', h'' !! b = Some ob' ∧ words ob' = words o.
Proof.
  intros d h s o d' h' Hs E.
  destruct (write_gdram_buffer_inv _ _ _ _ _ E) as (-> & Hold & _ & _).
  assert (Ls : (s < length h)%nat) by (by eapply lookup_lt_Some).
  assert (Hb : (h ++ (shift_refs (length h) <$> h)) !! (s + length h)%nat
               = Some (shift_refs (length h) o)).
  { rewrite lookup_app_r by lia.
    replace (s + length h - length h)%nat with s by lia.
    by rewrite list_lookup_fmap, Hs. }
  exists (s + length h)%nat, (shift_refs (length h) o).
  split; [done|]. split; [lia|]. split; [done|]. split; [done|].
  split; [by rewrite lookup_app_l|].
  intros c ms r h'' Erun.
  assert (Ht : touch (eq s) (h ++ (shift_refs (length h) <$> h)) h'').
  { eapply touch_of_run; [|exact Erun].
    apply frame_for_each. intros m. by apply frame_run_mutation. }
  destruct (proj2 Ht _ _ Hb) as (ob' & Hob' & _ & Hw).
  exists ob'. split; [done|]. destruct Hw as [Hw _]; [lia|]. by rewrite Hw.
Qed.

Lemma C7_witness :
  ∃ b ob,
    old_buffer lcd_written = Some b ∧ b ≠ 0%nat
    ∧ scene_written !! b = Some ob
    ∧ np.cells (words ob) = [[0; 0]; [0; 0]]
    ∧ ∃ ob', snd (for_each [MSetPixel 0 0 true; MSetWord 1 1 48879; MReverse; MReset]
                    (run_mutation np.NEP50 0%nat) scene_written) !! b
             = Some ob'
             ∧ np.cells (words ob') = [[0; 0]; [0; 0]].
Proof.
  destruct (C7_baseline_is_independent lcd_32x2 scene_32x2 0%nat _ lcd_written
              scene_written eq_refl first_write_32x2)
    as (b & ob & Hold & Hne & Hob & Hw & _ & Hmut).
  exists b, ob. split; [exact Hold|]. split; [exact Hne|]. split; [exact Hob|].
  split; [by rewrite Hw|].
  destruct (Hmut np.NEP50 [MSetPixel 0 0 true; MSetWord 1 1 48879; MReverse; MReset] _ _
              (surjective_pairing _)) as (ob' & Hob' & Hw').
  exists ob'. split; [exact Hob'|]. by rewrite Hw'.
Defined.

(** ** C5: composition in insertion order *)

(** C5. When [GraphicsBuffer.draw()] returns on a dirty container (whose
    list of children names no child twice), the container's words are
    the zeroed accumulator with the children combined into it one after
    the other in insertion order, each child with its own blend mode and
    the surface its [draw] left: [|=] for ON, [&= ~] for OFF, [^=] for
    XOR.  On surfaces of one shape these operators act bit by bit: ON
    gives [acc or child], OFF gives [acc and not child], XOR gives
    [acc xor child].  The order matters: the lines A = (0,0)–(3,0) with
    mode ON and B = (2,0)–(5,0) with mode OFF overlap (both cover pixel
    (2,0)), and drawing the container with children [A, B] leaves a
    surface other than drawing it with children [B, A]. *)
Theorem C5_compose_in_insertion_order :
  (∀ (h : heap) (g : ref) (og : Bitmap) (cs : list ref) (r : ref) (h' : heap),
     h !! g = Some og → kind og = KGraphicsBuffer cs → _is_dirty og = true →
     NoDup cs →
     GraphicsBuffer_draw g h = (Ok r, h') →
     ∃ og', h' !! g = Some og'
            ∧ compose_children h' (np.fill0 (words og)) cs = Ok (words og'))
  ∧ (∀ bm acc drawn,
       np.wf acc → np.wf drawn →
       np.nrows drawn = np.nrows acc → np.ncols drawn = np.ncols acc →
       ∃ a, blend_words bm acc drawn = Ok a
            ∧ ∀ i j w c, np.getitem acc i j = Some w → np.getitem drawn i j = Some c →
                ∃ w', np.getitem a i j = Some w'
                      ∧ ∀ b, 0 ≤ b < 16 →
                          Z.testbit w' b = blend_bit bm (Z.testbit w b) (Z.testbit c b))
  ∧ (fst (scene_blend true) = Ok 0%nat ∧ fst (scene_blend false) = Ok 0%nat
     ∧ fst (get_pixel 1%nat 2 0 (snd (scene_blend true))) = Ok 1
     ∧ fst (get_pixel 2%nat 2 0 (snd (scene_blend true))) = Ok 1
     ∧ words_of (snd (scene_blend true)) 1%nat = words_of (snd (scene_blend false)) 1%nat
     ∧ words_of (snd (scene_blend true)) 2%nat = words_of (snd (scene_blend false)) 2%nat
     ∧ words_of (snd (scene_blend true)) 0%nat ≠ words_of (snd (scene_blend false)) 0%nat).
Proof.
  split; [|split].
  - intros h g og cs r h' Hg Hk Hd Hnd E.
    unfold GraphicsBuffer_draw in E.
    apply bind_inv_ok in E as (og0 & h0 & E0 & E). apply get_obj_inv in E0 as [Hg0 ->].
    assert (og0 = og) as -> by congruence. rewrite Hd in E. simpl in E.
    apply bind_inv_ok in E as ([] & h1 & Ereset & E).
    unfold reset, modify_obj, bind, get_obj, put_obj in Ereset. rewrite Hg in Ereset.
    injection Ereset as <-.
    rewrite Hk in E. simpl in E. unfold bind at 1 in E. simpl in E.
    apply bind_inv_ok in E as ([] & h2 & Eloop & E). injection E as <- <-.
    destruct (compose_loop g cs cs (<[g := with_words og (np.fill0 (words og))]> h) h2
                (with_words og (np.fill0 (words og))) Hnd)
      as (og' & Hg' & _ & Hcomp); try done.
    { apply list_lookup_insert_eq. by eapply lookup_lt_Some. }
    by exists og'.
  - apply blend_words_bits.
  - vm_compute. repeat split; discriminate.
Qed.

Lemma scene_blend_true_run :
  GraphicsBuffer_draw 0%nat (scene_blend_added true) = (Ok 0%nat, snd (scene_blend true)).
Proof. vm_compute. reflexivity. Qed.

Lemma NoDup_1_2 : NoDup [1%nat; 2%nat].
Proof.
  apply NoDup_cons. split; [|apply NoDup_singleton].
  intros Hin. apply list_elem_of_singleton in Hin. discriminate.
Qed.

Lemma C5_witness :
  ∃ og', snd (scene_blend true) !! 0%nat = Some og'
         ∧ compose_children (snd (scene_blend true)) (np.mk 1 1 [[0]]) [1%nat; 2%nat]
           = Ok (words og')
         ∧ np.cells (words og') = [[49152]].
Proof.
  destruct C5_compose_in_insertion_order as (H & _ & _).
  destruct (H (scene_blend_added true) 0%nat
              (mkBitmap 16 1 (np.mk 1 1 [[0]]) true None ON (KGraphicsBuffer [1%nat; 2%nat]))
              [1%nat; 2%nat] 0%nat (snd (scene_blend true))
              eq_refl eq_refl eq_refl NoDup_1_2 scene_blend_true_run) as (og' & Hg & Hc).
  exists og'. split; [exact Hg|]. split; [exact Hc|].
  vm_compute in Hg. by injection Hg as <-.
Defined.

(** ** C1: a second [draw()] *)

(** C1.  What the code does.  A shape's [draw] that returns leaves the
    shape's dirty flag cleared, and the next [draw] returns the shape
    with the store untouched.  [GraphicsBuffer.draw], however, has no
    [self._is_dirty = False]: on a dirty container it leaves the flag
    set, whether it returns or raises.  On the 16×1 container holding
    the line (0,0)–(3,0): [draw()] returns the container, its flag is
    still set (the line's is cleared), and a second [draw()] composes
    again: after [draw(); reverse(); draw()] the surface is the one of
    the first [draw()], not the reversed one a cached surface would be. *)
Theorem C1_container_draw_keeps_dirty_flag :
  (∀ (h : heap) (c : ref) (w hh : Z) (r : ref) (h' : heap),
     draw_method c w hh h = (Ok r, h') →
     flag_of h' c = Some false ∧ draw_method c w hh h' = (Ok c, h'))
  ∧ (∀ (h : heap) (g : ref) (og : Bitmap) (cs : list ref),
       h !! g = Some og → kind og = KGraphicsBuffer cs → _is_dirty og = true →
       flag_of (snd (GraphicsBuffer_draw g h)) g = Some true)
  ∧ (fst (GraphicsBuffer_draw 0%nat scene_line) = Ok 0%nat
     ∧ flag_of (snd (GraphicsBuffer_draw 0%nat scene_line)) 0%nat = Some true
     ∧ flag_of (snd (GraphicsBuffer_draw 0%nat scene_line)) 1%nat = Some false
     ∧ words_of (snd (GraphicsBuffer_draw 0%nat scene_line)) 0%nat = Some [[61440]]
     ∧ words_of (snd ((GraphicsBuffer_draw 0%nat ;; reverse 0%nat) scene_line)) 0%nat
       = Some [[4095]]
     ∧ words_of (snd ((GraphicsBuffer_draw 0%nat ;; reverse 0%nat ;;
                       GraphicsBuffer_draw 0%nat) scene_line)) 0%nat
       = Some [[61440]]).
Proof.
  split; [|split].
  - intros h c w hh r h' E.
    pose proof (shape_draw_clears _ _ _ _ _ _ E) as Hf. split; [done|].
    pose proof (touch_of_run (eq c) _ _ _ _ (frame_draw_method (eq c) c w hh eq_refl) E)
      as [_ Ht].
    unfold draw_method in E.
    apply bind_inv_ok in E as (o & h0 & E0 & E). apply get_obj_inv in E0 as [Hc ->].
    destruct (Ht c o Hc) as (o' & Hc' & (_ & _ & _ & _ & Hk) & _).
    unfold flag_of in Hf. rewrite Hc' in Hf. injection Hf as Hf.
    apply (shape_draw_cached c w hh h' o' Hc' Hf).
    + rewrite Hk. intros Hk'. by rewrite Hk' in E.
    + intros cs. rewrite Hk. intros Hk'. by rewrite Hk' in E.
  - intros h g og cs Hg Hk Hd.
    destruct (GraphicsBuffer_draw_stays_dirty h g og cs Hg Hk Hd) as (og' & Hg' & Hf).
    unfold flag_of. by rewrite Hg', <- Hf.
  - vm_compute. repeat split.
Qed.

Lemma C1_witness :
  flag_of (snd (GraphicsBuffer_draw 0%nat scene_line)) 0%nat = Some true
  ∧ flag_of (snd (draw_method 1%nat 16 1 scene_line)) 1%nat = Some false.
Proof.
  destruct C1_container_draw_keeps_dirty_flag as (Hshape & Hcont & _).
  split.
  - apply (Hcont scene_line 0%nat _ [1%nat] eq_refl eq_refl eq_refl).
  - apply (Hshape scene_line 1%nat 16 1 1%nat _ eq_refl).
Defined.

(** ** C3: dirty propagation *)

(** C3.  What the code does.  [dirty()] and every setter (each is
    [set_geometry] with the attribute it stores), called on an object
    whose parent chain ends, return and leave the dirty flag set on the
    object and on every container above it.  After [draw()] on the root
    the flags are not all false.  With one level (a container holding a
    line): [draw()] returns, the line's flag is false and the root's is
    still true.  With two levels (a container holding a container
    holding a line, all flags cleared, then [line.x1 = 7]): the three
    flags are set, [draw()] on the root raises TypeError at the inner
    container, and the three flags stay set. *)
Theorem C3_dirty_propagates_but_draw_leaves_flags :
  (∀ (h : heap) (self : ref),
     chain_ok h self →
     ∃ h', dirty self h = (Ok tt, h')
           ∧ ∀ a, ancestor h self a → flag_of h' a = Some true)
  ∧ (∀ (h : heap) (self : ref) (o : Bitmap) (upd : Kind → option Kind) (k : Kind),
       h !! self = Some o → upd (kind o) = Some k → chain_ok h self →
       ∃ h', set_geometry self upd h = (Ok tt, h')
             ∧ ∀ a, ancestor h self a → flag_of h' a = Some true)
  ∧ (fst (GraphicsBuffer_draw 0%nat scene_line) = Ok 0%nat
     ∧ flag_of (snd (GraphicsBuffer_draw 0%nat scene_line)) 1%nat = Some false
     ∧ flag_of (snd (GraphicsBuffer_draw 0%nat scene_line)) 0%nat = Some true)
  ∧ (flag_of scene_nested_clean 0%nat = Some false
     ∧ flag_of scene_nested_clean 1%nat = Some false
     ∧ flag_of scene_nested_clean 2%nat = Some false
     ∧ fst (Line_x1_setter 2%nat 7 scene_nested_clean) = Ok tt
     ∧ flag_of (snd (Line_x1_setter 2%nat 7 scene_nested_clean)) 0%nat = Some true
     ∧ flag_of (snd (Line_x1_setter 2%nat 7 scene_nested_clean)) 1%nat = Some true
     ∧ flag_of (snd (Line_x1_setter 2%nat 7 scene_nested_clean)) 2%nat = Some true
     ∧ fst ((Line_x1_setter 2%nat 7 ;; GraphicsBuffer_draw 0%nat) scene_nested_clean)
       = Raise TypeError
     ∧ flag_of (snd ((Line_x1_setter 2%nat 7 ;; GraphicsBuffer_draw 0%nat)
                       scene_nested_clean)) 0%nat = Some true
     ∧ flag_of (snd ((Line_x1_setter 2%nat 7 ;; GraphicsBuffer_draw 0%nat)
                       scene_nested_clean)) 1%nat = Some true
     ∧ flag_of (snd ((Line_x1_setter 2%nat 7 ;; GraphicsBuffer_draw 0%nat)
                       scene_nested_clean)) 2%nat = Some true).
Proof.
  split; [|split; [|split]].
  - apply dirty_spec.
  - apply set_geometry_spec.
  - vm_compute. repeat split.
  - vm_compute. repeat split.
Qed.

Lemma C3_witness :
  ∃ h', Line_x1_setter 2%nat 7 scene_nested_clean = (Ok tt, h')
        ∧ flag_of h' 0%nat = Some true ∧ flag_of h' 1%nat = Some true
        ∧ flag_of h' 2%nat = Some true.
Proof.
  destruct C3_dirty_propagates_but_draw_leaves_flags as (_ & Hset & _).
  destruct (Hset scene_nested_clean 2%nat _
              (fun k => match k with KLine _ b c d => Some (KLine 7 b c d) | _ => None end)
              _ eq_refl eq_refl eq_refl) as (h' & E & Hfl).
  exists h'. split; [exact E|].
  assert (A2 : ancestor scene_nested_clean 2%nat 2%nat) by constructor.
  assert (A1 : ancestor scene_nested_clean 2%nat 1%nat).
  { eapply ancestor_up; [reflexivity | reflexivity | constructor]. }
  assert (A0 : ancestor scene_nested_clean 2%nat 0%nat).
  { eapply ancestor_up; [reflexivity | reflexivity |].
    eapply ancestor_up; [reflexivity | reflexivity | constructor]. }
  split; [by apply Hfl|]. split; by apply Hfl.
Defined.

(** ** C4: a container inside a container *)

(** C4.  What the code does.  [GraphicsBuffer.draw(self)] takes no size,
    and the compositor calls every child as [c.draw(width, height)]: on
    a dirty container one of whose children is a container, [draw()]
    never returns; on a container holding a container holding a line it
    raises TypeError, and the inner container's surface is not composed
    (the accumulator stays zero). *)
Theorem C4_nested_container_draw_raises :
  (∀ (h : heap) (g c : ref) (og oc : Bitmap) (cs ccs : list ref),
     h !! g = Some og → kind og = KGraphicsBuffer cs → _is_dirty og = true →
     c ∈ cs → h !! c = Some oc → kind oc = KGraphicsBuffer ccs →
     is_ok (fst (GraphicsBuffer_draw g h)) = false)
  ∧ (fst (GraphicsBuffer_draw 0%nat scene_nested) = Raise TypeError
     ∧ words_of (snd (GraphicsBuffer_draw 0%nat scene_nested)) 0%nat = Some [[0]]).
Proof.
  split.
  - intros h g c og oc cs ccs Hg Hk Hd Hin Hc Hkc.
    unfold GraphicsBuffer_draw.
    rewrite (bind_ok _ _ h og h) by (unfold get_obj; by rewrite Hg).
    rewrite Hd. simpl.
    unfold bind at 1. destruct (reset g h) as [[[]|e] h1] eqn:Er; [|done].
    rewrite Hk. simpl. unfold bind at 1. simpl.
    pose proof (touch_of_run _ _ _ _ _ (frame_reset (eq g) g eq_refl) Er) as [_ Ht].
    destruct (Ht c oc Hc) as (oc1 & Hc1 & (_ & _ & _ & _ & Hk1) & _).
    pose proof (compose_loop_container g c ccs cs h1 oc1 Hin Hc1) as Hloop.
    unfold bind. destruct (for_each cs (compose_child g) h1) as [[[]|e] h2]; simpl in *.
    + apply Hloop. congruence.
    + done.
  - vm_compute. repeat split.
Qed.

Lemma C4_witness :
  is_ok (fst (GraphicsBuffer_draw 0%nat scene_nested)) = false.
Proof.
  destruct C4_nested_container_draw_raises as [H _].
  apply (H scene_nested 0%nat 1%nat
           (mkBitmap 16 1 (np.mk 1 1 [[0]]) true None ON (KGraphicsBuffer [1%nat]))
           (mkBitmap 16 1 (np.mk 1 1 [[0]]) true (Some 0%nat) ON (KGraphicsBuffer [2%nat]))
           [1%nat] [2%nat] eq_refl eq_refl eq_refl).
  - by left.
  - reflexivity.
  - reflexivity.
Defined.

(** * Further properties of the code *)

(** ** Painting a surface pixel by pixel *)

Lemma existsb_seqZ (f : Z → bool) (lo n : Z) :
  existsb f (seqZ lo n) = true ↔ ∃ a, lo ≤ a < lo + n ∧ f a = true.
Proof.
  rewrite existsb_exists. split.
  - intros (a & Hin & Hf). exists a. split; [|done].
    by apply elem_of_seqZ, list_elem_of_In.
  - intros (a & Hr & Hf). exists a. split; [|done].
    by apply list_elem_of_In, elem_of_seqZ.
Qed.

Lemma painted_ext self o ink ink' h :
  (∀ x y, in_bounds o x y = true → ink x y = ink' x y) →
  painted self o ink h → painted self o ink' h.
Proof.
  intros Hext (o' & Ho' & Hst & Hs & Hch & Hpx). exists o'.
  repeat (split; [done|]). intros x y Hb. rewrite Hpx by done. by rewrite Hext.
Qed.

(** One [set_pixel(x, y)]: it returns and adds the pixel. *)
Lemma painted_set_pixel self o ink h x y :
  painted self o ink h →
  ∃ h', set_pixel self x y true h = (Ok tt, h')
        ∧ painted self o (fun x' y' => ink x' y' || ((x' =? x) && (y' =? y))) h'.
Proof.
  intros (o' & Ho' & Hst & Hs & Hch & Hpx).
  destruct (run_op_spec np.NEP50 h self o' (SetPixel x y true) Ho' Hs Hch
              (or_intror eq_refl))
    as (h' & o2 & E & Ho2 & Hst2 & Hs2 & Hch2 & Hpx2).
  exists h'. split; [exact E|]. exists o2.
  split; [done|]. split; [by eapply static_trans|]. split; [done|]. split; [done|].
  intros x' y' Hb.
  rewrite Hpx2 by (by rewrite (in_bounds_static o o')). simpl.
  rewrite (in_bounds_static o o') by done.
  destruct ((x' =? x) && (y' =? y)) eqn:Heq.
  - apply andb_prop in Heq as [Ex Ey]. apply Z.eqb_eq in Ex, Ey. subst x' y'.
    rewrite Hb, !Z.eqb_refl. simpl. by rewrite orb_true_r.
  - rewrite orb_false_r.
    assert (Hno : in_bounds o x y && (x =? x') && (y =? y') = false).
    { rewrite <- andb_assoc. apply andb_false_iff. right.
      rewrite (Z.eqb_sym x x'), (Z.eqb_sym y y'). exact Heq. }
    rewrite Hno. by apply Hpx.
Qed.

(** A loop each of whose rounds returns and adds the pixels [f a]. *)
Lemma painted_for_each {A} self o (f : A → Z → Z → bool) (body : A → M unit) l :
  (∀ a ink h, a ∈ l → painted self o ink h →
     ∃ h', body a h = (Ok tt, h') ∧ painted self o (fun x y => ink x y || f a x y) h') →
  ∀ ink h, painted self o ink h →
    ∃ h', for_each l body h = (Ok tt, h')
          ∧ painted self o (fun x y => ink x y || existsb (fun a => f a x y) l) h'.
Proof.
  induction l as [|a l IH]; intros Hbody ink h Hp; simpl.
  - exists h. split; [done|]. eapply painted_ext; [|exact Hp].
    intros x y _. by rewrite orb_false_r.
  - destruct (Hbody a ink h ltac:(left) Hp) as (h1 & E1 & Hp1).
    destruct (IH ltac:(intros b ink' h0 Hb; apply Hbody; by right) _ h1 Hp1)
      as (h' & E & Hp').
    exists h'. rewrite (bind_ok _ _ _ _ _ E1). split; [done|].
    eapply painted_ext; [|exact Hp']. intros x y _. simpl. by rewrite orb_assoc.
Qed.

Lemma getitem_fill0 a i j : np.getitem (np.fill0 a) i j = (fun _ => 0) <$> np.getitem a i j.
Proof.
  unfold np.getitem, np.fill0. simpl.
  change (map (map (fun _ : Z => 0)) (np.cells a))
    with (fmap (M := list) (fmap (M := list) (fun _ : Z => 0)) (np.cells a)).
  rewrite list_lookup_fmap.
  destruct (np.cells a !! Z.to_nat i) as [row|]; simpl; [|done].
  by rewrite list_lookup_fmap.
Qed.

Lemma wf_fill0 a : np.wf a → np.wf (np.fill0 a).
Proof.
  intros [Hr Hc]. split; simpl; [by rewrite length_map|].
  rewrite Forall_forall in *. intros row Hin.
  apply list_elem_of_In, in_map_iff in Hin as (row0 & <- & Hin0).
  rewrite length_map. apply Hc. by apply list_elem_of_In.
Qed.

(** [reset] returns and leaves the surface blank; nothing else changes,
    the dirty flags included. *)
Lemma painted_reset self o h :
  h !! self = Some o → surface_ok o → chain_ok h self →
  reset self h = (Ok tt, <[self := with_words o (np.fill0 (words o))]> h)
  ∧ painted self o (fun _ _ => false) (<[self := with_words o (np.fill0 (words o))]> h).
Proof.
  intros Ho Hs Hch. split.
  { unfold reset, modify_obj, bind, get_obj, put_obj. by rewrite Ho. }
  exists (with_words o (np.fill0 (words o))).
  split; [apply list_lookup_insert_eq; by eapply lookup_lt_Some|].
  split; [by repeat split|]. split.
  { destruct Hs as (Hm & Hwf & Hr & Hc). split; [done|]. split; [by apply wf_fill0|].
    by split. }
  split.
  { eapply chain_ok_touch; [|done]. eapply (touch_insert (eq self)); [done | | done].
    by repeat split. }
  intros x y Hb. unfold pixel.
  rewrite (in_bounds_static o (with_words o (np.fill0 (words o)))) by (by repeat split).
  cbn [words with_words]. rewrite Hb, getitem_fill0.
  destruct (np.getitem (words o) y (x / 16)); simpl; [|done].
  by rewrite Z.shiftr_0_l.
Qed.

(** The end of a shape's [draw]: the flag is cleared, the pixels stay. *)
Lemma painted_clear_flag self o ink h :
  painted self o ink h →
  ∃ h' o', (modify_obj self (fun o => with_dirty o false) ;; ret self) h = (Ok self, h')
           ∧ h' !! self = Some o' ∧ static o o' ∧ _is_dirty o' = false
           ∧ ∀ x y, in_bounds o x y = true → pixel o' x y = Z.b2z (ink x y).
Proof.
  intros (o' & Ho' & Hst & Hs & Hch & Hpx).
  exists (<[self := with_dirty o' false]> h), (with_dirty o' false).
  split.
  { unfold bind, modify_obj, bind, get_obj, put_obj. by rewrite Ho'. }
  split; [apply list_lookup_insert_eq; by eapply lookup_lt_Some|].
  split; [destruct Hst as (?&?&?&?&?); by repeat split|].
  split; [done|]. exact Hpx.
Qed.

(** The same, with the shape of the surface. *)
Lemma painted_clear_flag_ok self o ink h :
  painted self o ink h →
  ∃ h' o', (modify_obj self (fun o => with_dirty o false) ;; ret self) h = (Ok self, h')
           ∧ h' !! self = Some o' ∧ static o o' ∧ _is_dirty o' = false ∧ surface_ok o'
           ∧ ∀ x y, in_bounds o x y = true → pixel o' x y = Z.b2z (ink x y).
Proof.
  intros (o' & Ho' & Hst & Hs & Hch & Hpx).
  exists (<[self := with_dirty o' false]> h), (with_dirty o' false).
  split.
  { unfold bind, modify_obj, bind, get_obj, put_obj. by rewrite Ho'. }
  split; [apply list_lookup_insert_eq; by eapply lookup_lt_Some|].
  split; [destruct Hst as (?&?&?&?&?); by repeat split|].
  split; [done|]. split; [exact Hs|]. exact Hpx.
Qed.

Lemma bind_ret_l {S A B} (a : A) (f : A → St S B) s : bind (ret a) f s = f a s.
Proof. reflexivity. Qed.

Lemma existsb_seqZ_eqb (p lo n : Z) (g : Z → bool) :
  existsb (fun a => (p =? a) && g a) (seqZ lo n) = (lo <=? p) && (p <? lo + n) && g p.
Proof.
  apply eq_true_iff_eq. rewrite existsb_seqZ, !andb_true_iff, Z.leb_le, Z.ltb_lt. split.
  - intros (a & Hr & Ha). apply andb_prop in Ha as [Ea Hg]. apply Z.eqb_eq in Ea. subst a.
    split; [lia | done].
  - intros [Hr Hg]. exists p. split; [lia|]. by rewrite Z.eqb_refl.
Qed.

Lemma existsb_pointwise {A} (f g : A → bool) l :
  (∀ a, f a = g a) → existsb f l = existsb g l.
Proof. intros Hfg. induction l as [|a l IH]; simpl; [done|]. by rewrite Hfg, IH. Qed.

Lemma existsb_grid (px py x nx y ny : Z) :
  existsb (fun yy => existsb (fun xx => (px =? xx) && (py =? yy)) (seqZ x nx)) (seqZ y ny)
  = in_rect x y nx ny px py.
Proof.
  unfold in_rect.
  transitivity (existsb (fun yy => (py =? yy) && ((x <=? px) && (px <? x + nx)))
                        (seqZ y ny)).
  - apply existsb_pointwise. intros yy.
    rewrite (existsb_seqZ_eqb px x nx (fun _ => py =? yy)). apply andb_comm.
  - rewrite (existsb_seqZ_eqb py y ny (fun _ => (x <=? px) && (px <? x + nx))).
    destruct (x <=? px), (px <? x + nx), (y <=? py), (py <? y + ny); reflexivity.
Qed.

(** ** Filled rectangles *)

(** [Rectangle.draw] on a dirty filled rectangle. *)
Lemma Rectangle_fill_paints :
  ∀ (h : heap) (self : ref) (o : Bitmap) (x y w hh width height : Z),
    h !! self = Some o → kind o = KRectangle x y w hh true →
    _is_dirty o = true → surface_ok o → chain_ok h self →
    ∃ h' o',
      Rectangle_draw self width height h = (Ok self, h')
      ∧ h' !! self = Some o' ∧ static o o' ∧ surface_ok o'
      ∧ _is_dirty o' = false
      ∧ ∀ px py, in_bounds o px py = true →
          pixel o' px py = Z.b2z (in_rect x y w hh px py).
Proof.
  intros h self o x y w hh width height Ho Hk Hd Hs Hch.
  destruct (painted_reset self o h Ho Hs Hch) as [Ereset Hp0].
  set (h0 := <[self := with_words o (np.fill0 (words o))]> h) in *.
  destruct (painted_for_each self o
              (fun yy px py => existsb (fun xx => (px =? xx) && (py =? yy))
                                       (seqZ x (x + w - x)))
              (fun yy => for_range x (x + w) (fun xx => set_pixel self xx yy true))
              (seqZ y (y + hh - y))) with (ink := fun (_ _ : Z) => false) (h := h0)
    as (h1 & Eloop & Hp1); [|exact Hp0|].
  { intros yy ink h2 _ Hp2.
    apply (painted_for_each self o (fun xx px py => (px =? xx) && (py =? yy))
             (fun xx => set_pixel self xx yy true)); [|exact Hp2].
    intros xx ink' h3 _ Hp3. by apply painted_set_pixel. }
  destruct (painted_clear_flag_ok self o _ h1 Hp1)
    as (h' & o' & Eend & Ho' & Hst & Hfl & Hs' & Hpx).
  exists h', o'. split.
  { unfold Rectangle_draw.
    rewrite (bind_ok _ _ h o h) by (unfold get_obj; by rewrite Ho).
    rewrite Hd. cbn [negb]. rewrite (bind_ok _ _ _ _ _ Ereset).
    rewrite Hk. cbn [expect]. rewrite bind_ret_l. cbn [negb].
    unfold for_range at 1. rewrite (bind_ok _ _ _ _ _ Eloop). exact Eend. }
  do 4 (split; [done|]).
  intros px py Hb. rewrite Hpx by done. f_equal. cbn [orb].
  rewrite existsb_grid. by rewrite !Z.add_simpl_l.
Qed.

(** X1. [Rectangle.draw] on a dirty filled rectangle (on a well-formed
    surface whose parent chain ends) returns the rectangle with its flag
    cleared, and the pixels of its surface that are set are exactly those
    of [[x, x + w) × [y, y + h)] that lie on the surface; with [w ≤ 0] or
    [h ≤ 0] that is no pixel at all. *)
Theorem X1_filled_rectangle_exact :
  ∀ (h : heap) (self : ref) (o : Bitmap) (x y w hh width height : Z),
    h !! self = Some o → kind o = KRectangle x y w hh true →
    _is_dirty o = true → surface_ok o → chain_ok h self →
    ∃ h' o',
      Rectangle_draw self width height h = (Ok self, h')
      ∧ h' !! self = Some o' ∧ _is_dirty o' = false
      ∧ ∀ px py, in_bounds o px py = true →
          pixel o' px py = Z.b2z (in_rect x y w hh px py).
Proof.
  intros h self o x y w hh width height Ho Hk Hd Hs Hch.
  destruct (Rectangle_fill_paints h self o x y w hh width height Ho Hk Hd Hs Hch)
    as (h' & o' & E & Ho' & _ & _ & Hfl & Hpx).
  by exists h', o'.
Qed.

(** ** Text *)

(** [DrawableText.draw] on a dirty text. *)
Lemma DrawableText_paints :
  ∀ (h : heap) (self : ref) (o : Bitmap) (text : string) (font : Font)
    (x y width height : Z),
    h !! self = Some o → kind o = KDrawableText text font x y →
    _is_dirty o = true → surface_ok o → chain_ok h self →
    0 ≤ width → 0 ≤ height →
    ∃ h' o',
      DrawableText_draw self width height h = (Ok self, h')
      ∧ h' !! self = Some o' ∧ static o o' ∧ surface_ok o'
      ∧ _is_dirty o' = false
      ∧ ∀ px py, in_bounds o px py = true →
          pixel o' px py = Z.b2z (text_ink font text x y width height px py).
Proof.
  intros h self o text font x y width height Ho Hk Hd Hs Hch Hw Hh.
  destruct (painted_reset self o h Ho Hs Hch) as [Ereset Hp0].
  set (h0 := <[self := with_words o (np.fill0 (words o))]> h) in *.
  destruct (painted_for_each self o
              (fun j px py =>
                 existsb (fun i => (px =? i) && ((py =? j)
                                                 && ink font text x y width height i j))
                         (seqZ 0 (width - 0)))
              (fun j => for_range 0 width
                 (fun i => if ink font text x y width height i j
                           then set_pixel self i j true else ret tt))
              (seqZ 0 (height - 0))) with (ink := fun (_ _ : Z) => false) (h := h0)
    as (h1 & Eloop & Hp1); [|exact Hp0|].
  { intros j ink0 h2 _ Hp2.
    apply (painted_for_each self o
             (fun i px py => (px =? i) && ((py =? j)
                                           && ink font text x y width height i j))
             (fun i => if ink font text x y width height i j
                       then set_pixel self i j true else ret tt)); [|exact Hp2].
    intros i ink' h3 _ Hp3.
    destruct (ink font text x y width height i j).
    - destruct (painted_set_pixel self o ink' h3 i j Hp3) as (h4 & E4 & Hp4).
      exists h4. split; [done|]. eapply painted_ext; [|exact Hp4].
      intros px py _. by rewrite andb_true_r.
    - exists h3. split; [done|]. eapply painted_ext; [|exact Hp3].
      intros px py _. by rewrite !andb_false_r, orb_false_r. }
  destruct (painted_clear_flag_ok self o _ h1 Hp1)
    as (h' & o' & Eend & Ho' & Hst & Hfl & Hs' & Hpx).
  exists h', o'. split.
  { unfold DrawableText_draw.
    rewrite (bind_ok _ _ h o h) by (unfold get_obj; by rewrite Ho).
    rewrite Hd. cbn [negb]. rewrite (bind_ok _ _ _ _ _ Ereset).
    rewrite Hk. cbn [expect]. rewrite bind_ret_l.
    assert (Hsz : (width <? 0) || (height <? 0) = false).
    { apply orb_false_iff. split; apply Z.ltb_ge; lia. }
    rewrite Hsz. rewrite bind_ret_l.
    unfold for_range at 1. rewrite (bind_ok _ _ _ _ _ Eloop). exact Eend. }
  do 4 (split; [done|]).
  intros px py Hb. rewrite Hpx by done. f_equal. cbn [orb]. unfold text_ink.
  rewrite !Z.sub_0_r.
  rewrite (existsb_pointwise _
             (fun j => (py =? j) && ((0 <=? px) && (px <? 0 + width)
                                     && ink font text x y width height px j))).
  2:{ intros j.
      rewrite (existsb_seqZ_eqb px 0 width
                 (fun i => (py =? j) && ink font text x y width height i j)).
      destruct (py =? j), (0 <=? px), (px <? 0 + width); reflexivity. }
  rewrite (existsb_seqZ_eqb py 0 height
             (fun j => (0 <=? px) && (px <? 0 + width)
                       && ink font text x y width height px j)).
  rewrite !Z.add_0_l.
  destruct (0 <=? px), (px <? width), (0 <=? py), (py <? height); reflexivity.
Qed.

(** X2. [DrawableText.draw] for a non-negative image size, on a dirty
    text (well-formed surface, parent chain that ends), returns the text
    with its flag cleared; a pixel of its surface is set exactly when it
    lies within the [width × height] image and the font put ink there. *)
Theorem X2_text_pixels_are_the_ink :
  ∀ (h : heap) (self : ref) (o : Bitmap) (text : string) (font : Font)
    (x y width height : Z),
    h !! self = Some o → kind o = KDrawableText text font x y →
    _is_dirty o = true → surface_ok o → chain_ok h self →
    0 ≤ width → 0 ≤ height →
    ∃ h' o',
      DrawableText_draw self width height h = (Ok self, h')
      ∧ h' !! self = Some o' ∧ _is_dirty o' = false
      ∧ ∀ px py, in_bounds o px py = true →
          pixel o' px py = Z.b2z (text_ink font text x y width height px py).
Proof.
  intros h self o text font x y width height Ho Hk Hd Hs Hch Hw Hh.
  destruct (DrawableText_paints h self o text font x y width height Ho Hk Hd Hs Hch Hw Hh)
    as (h' & o' & E & Ho' & _ & _ & Hfl & Hpx).
  by exists h', o'.
Qed.

(** ** Filled triangles *)

(** [Triangle.draw] on a dirty filled triangle. *)
Lemma Triangle_fill_paints :
  ∀ (h : heap) (self : ref) (o : Bitmap) (x1 y1 x2 y2 x3 y3 width height : Z),
    h !! self = Some o → kind o = KTriangle x1 y1 x2 y2 x3 y3 true →
    _is_dirty o = true → surface_ok o → chain_ok h self →
    (∀ yy, Z.min y1 (Z.min y2 y3) ≤ yy ≤ Z.max y1 (Z.max y2 y3) →
       is_ok (scanline_span yy (x1, y1) (x2, y2) (x3, y3)) = true) →
    ∃ h' o',
      Triangle_draw self width height h = (Ok self, h')
      ∧ h' !! self = Some o' ∧ static o o' ∧ surface_ok o' ∧ _is_dirty o' = false
      ∧ ∀ px py, in_bounds o px py = true →
          pixel o' px py = Z.b2z (in_spans (x1, y1) (x2, y2) (x3, y3) px py).
Proof.
  intros h self o x1 y1 x2 y2 x3 y3 width height Ho Hk Hd Hs Hch Hfin.
  set (ymin := Z.min y1 (Z.min y2 y3)) in *. set (ymax := Z.max y1 (Z.max y2 y3)) in *.
  destruct (painted_reset self o h Ho Hs Hch) as [Ereset Hp0].
  set (h0 := <[self := with_words o (np.fill0 (words o))]> h) in *.
  set (row := fun yy px py =>
         (py =? yy) && match scanline_span yy (x1, y1) (x2, y2) (x3, y3) with
                       | Ok (Some (l, r)) => (l <=? px) && (px <=? r)
                       | _ => false
                       end).
  destruct (painted_for_each self o row
              (Triangle_scanline self (x1, y1) (x2, y2) (x3, y3))
              (seqZ ymin (ymax + 1 - ymin))) with (ink := fun (_ _ : Z) => false) (h := h0)
    as (h1 & Eloop & Hp1); [|exact Hp0|].
  { intros yy ink0 h2 Hyy Hp2. apply elem_of_seqZ in Hyy.
    specialize (Hfin yy ltac:(lia)). unfold Triangle_scanline, row.
    destruct (scanline_span yy (x1, y1) (x2, y2) (x3, y3)) as [[[l r]|]|e]; [| |done].
    - cbn [lift]. rewrite (bind_ok _ _ h2 (Some (l, r)) h2) by done.
      destruct (painted_for_each self o (fun xx px py => (px =? xx) && (py =? yy))
                  (fun xx => set_pixel self xx yy true) (seqZ l (r + 1 - l)))
        with (ink := ink0) (h := h2) as (h3 & E3 & Hp3); [|exact Hp2|].
      { intros xx ink' h4 _ Hp4. by apply painted_set_pixel. }
      exists h3. split; [exact E3|]. eapply painted_ext; [|exact Hp3].
      intros px py _. cbv beta. f_equal.
      rewrite (existsb_seqZ_eqb px l (r + 1 - l) (fun _ => py =? yy)).
      replace (px <? l + (r + 1 - l)) with (px <=? r).
      2:{ destruct (Z.leb_spec px r), (Z.ltb_spec px (l + (r + 1 - l))); (done || lia). }
      apply andb_comm.
    - exists h2. split; [done|]. eapply painted_ext; [|exact Hp2].
      intros px py _. by rewrite andb_false_r, orb_false_r. }
  destruct (painted_clear_flag_ok self o _ h1 Hp1)
    as (h' & o' & Eend & Ho' & Hst & Hfl & Hs' & Hpx).
  exists h', o'. split.
  { unfold Triangle_draw.
    rewrite (bind_ok _ _ h o h) by (unfold get_obj; by rewrite Ho).
    rewrite Hd. cbn [negb]. rewrite (bind_ok _ _ _ _ _ Ereset).
    rewrite Hk. cbn [expect]. rewrite bind_ret_l. cbn [negb].
    unfold for_range at 1. fold ymin ymax. rewrite (bind_ok _ _ _ _ _ Eloop). exact Eend. }
  do 4 (split; [done|]).
  intros px py Hb. rewrite Hpx by done. f_equal. cbn [orb]. unfold in_spans, row.
  cbn [snd]. fold ymin ymax.
  rewrite (existsb_seqZ_eqb py ymin (ymax + 1 - ymin)
             (fun yy => match scanline_span yy (x1, y1) (x2, y2) (x3, y3) with
                        | Ok (Some (l, r)) => (l <=? px) && (px <=? r)
                        | _ => false
                        end)).
  replace (py <? ymin + (ymax + 1 - ymin)) with (py <=? ymax); [done|].
  destruct (Z.leb_spec py ymax), (Z.ltb_spec py (ymin + (ymax + 1 - ymin))); (done || lia).
Qed.

(** ** The scanline fill *)

Lemma SFadd_is_finite x y :
  is_finite (SFadd 53 1024 x y) = true → is_finite x = true ∧ is_finite y = true.
Proof.
  intros H. destruct x as [sx|sx| |sx mx ex], y as [sy|sy| |sy my ey];
    try (split; reflexivity); exfalso; revert H; unfold SFadd;
    try destruct sx; try destruct sy; discriminate.
Qed.

Lemma SFmul_is_finite x y :
  is_finite (SFmul 53 1024 x y) = true → is_finite x = true ∧ is_finite y = true.
Proof.
  intros H. destruct x as [sx|sx| |sx mx ex], y as [sy|sy| |sy my ey];
    try (split; reflexivity); exfalso; revert H; unfold SFmul; discriminate.
Qed.

Lemma finite_is_finite x : is_finite x = true → pyfloat.finite x = Ok x.
Proof. by destruct x. Qed.

(** The loop body over the edges computes the crossing of an edge that
    crosses the row, and nothing for another edge. *)
Lemma edge_xint_spec (y : Z) (v0 v1 : vertex) :
  (crosses y (v0, v1) = true → is_finite (crossing y (v0, v1)) = true) →
  edge_xint y v0 v1
  = Ok (if crosses y (v0, v1) then Some (crossing y (v0, v1)) else None).
Proof.
  destruct v0 as [x0 y0], v1 as [x1 y1]. unfold crosses, crossing, edge_xint.
  cbn [fst snd].
  destruct (y0 =? y1); cbn [negb andb]; [done|].
  destruct ((Z.min y0 y1 <=? y) && (y <=? Z.max y0 y1)); [|done].
  intros Hfin. specialize (Hfin eq_refl).
  apply SFadd_is_finite in Hfin as [Ha Hm].
  apply SFmul_is_finite in Hm as [Ht Hd].
  unfold pyfloat.truediv, pyfloat.of_int, pyfloat.add, pyfloat.mul.
  unfold pyfloat.prec, pyfloat.emax. unfold float_of in *.
  by rewrite (finite_is_finite _ Ht), (finite_is_finite _ Hd), (finite_is_finite _ Ha).
Qed.

Lemma collect_xints_spec (y : Z) (v0 v1 v2 : vertex) :
  (∀ x, x ∈ crossings y v0 v1 v2 → is_finite x = true) →
  collect_xints y (triangle_edges v0 v1 v2) = Ok (crossings y v0 v1 v2).
Proof.
  intros Hfin. unfold triangle_edges, crossings in *. cbn [collect_xints flat_map] in *.
  destruct (crosses y (v0, v1)) eqn:E1, (crosses y (v1, v2)) eqn:E2,
    (crosses y (v2, v0)) eqn:E3;
    rewrite (edge_xint_spec y v0 v1), (edge_xint_spec y v1 v2), (edge_xint_spec y v2 v0);
    rewrite ?E1, ?E2, ?E3; try done;
    intros _; apply Hfin; simpl; repeat constructor.
Qed.

Lemma crossings_length (y : Z) (v0 v1 v2 : vertex) :
  (length (crossings y v0 v1 v2) ≤ 3)%nat.
Proof.
  unfold crossings. cbn [flat_map].
  destruct (crosses y (v0, v1)), (crosses y (v1, v2)), (crosses y (v2, v0)); simpl; lia.
Qed.

(** The order of the floats: [x < y] excludes [y < x]. *)
Lemma SFltb_asym x y : SFltb x y = true → SFltb y x = false.
Proof.
  unfold SFltb, SFcompare.
  destruct x as [sx|sx| |sx mx ex], y as [sy|sy| |sy my ey];
    try destruct sx; try destruct sy; try done.
  - rewrite (Z.compare_antisym ex ey). destruct (ex ?= ey) eqn:Ee; simpl; try done.
    rewrite !Pos.compare_cont_spec. rewrite (Pos.compare_antisym mx my). simpl.
    by destruct (mx ?= my)%positive.
  - rewrite (Z.compare_antisym ex ey). destruct (ex ?= ey) eqn:Ee; simpl; try done.
    rewrite !Pos.compare_cont_spec. rewrite (Pos.compare_antisym mx my). simpl.
    by destruct (mx ?= my)%positive.
Qed.

(** [sorted] on two or three numbers begins with the two smallest. *)
Lemma sorted_two_smallest (xs : list spec_float) :
  (2 ≤ length xs ≤ 3)%nat →
  ∃ (i j : nat) (a b : spec_float) (rest : list spec_float),
    pyfloat.sorted xs = a :: b :: rest
    ∧ i ≠ j ∧ xs !! i = Some a ∧ xs !! j = Some b ∧ fle a b
    ∧ ∀ k c, k ≠ i → k ≠ j → xs !! k = Some c → fle b c.
Proof.
  intros Hlen. unfold fle.
  destruct xs as [|x [|y [|z [|? ?]]]]; simpl in Hlen; try lia.
  - unfold pyfloat.sorted. cbn [fold_left pyfloat.insert]. unfold pyfloat.ltb.
    destruct (SFltb y x) eqn:Eyx.
    + exists 1%nat, 0%nat, y, x, []. split; [done|]. split; [done|].
      split; [done|]. split; [done|]. split; [by apply SFltb_asym|].
      intros [|[|k]] c; try done.
    + exists 0%nat, 1%nat, x, y, []. split; [done|]. split; [done|].
      split; [done|]. split; [done|]. split; [done|].
      intros [|[|k]] c; try done.
  - unfold pyfloat.sorted. cbn [fold_left pyfloat.insert]. unfold pyfloat.ltb.
    destruct (SFltb y x) eqn:Eyx; cbn [pyfloat.insert]; unfold pyfloat.ltb.
    + destruct (SFltb z y) eqn:Ezy; [|destruct (SFltb z x) eqn:Ezx].
      * exists 2%nat, 1%nat, z, y, [x]. split; [done|]. split; [done|].
        split; [done|]. split; [done|]. split; [by apply SFltb_asym|].
        intros [|[|[|k]]] c; try done. intros _ _ [= <-]. by apply SFltb_asym.
      * exists 1%nat, 2%nat, y, z, [x]. split; [done|]. split; [done|].
        split; [done|]. split; [done|]. split; [done|].
        intros [|[|[|k]]] c; try done. intros _ _ [= <-]. by apply SFltb_asym.
      * exists 1%nat, 0%nat, y, x, [z]. split; [done|]. split; [done|].
        split; [done|]. split; [done|]. split; [by apply SFltb_asym|].
        intros [|[|[|k]]] c; try done. intros _ _ [= <-]. done.
    + destruct (SFltb z x) eqn:Ezx; [|destruct (SFltb z y) eqn:Ezy].
      * exists 2%nat, 0%nat, z, x, [y]. split; [done|]. split; [done|].
        split; [done|]. split; [done|]. split; [by apply SFltb_asym|].
        intros [|[|[|k]]] c; try done. intros _ _ [= <-]. done.
      * exists 0%nat, 2%nat, x, z, [y]. split; [done|]. split; [done|].
        split; [done|]. split; [done|]. split; [done|].
        intros [|[|[|k]]] c; try done. intros _ _ [= <-]. by apply SFltb_asym.
      * exists 0%nat, 1%nat, x, y, [z]. split; [done|]. split; [done|].
        split; [done|]. split; [done|]. split; [done|].
        intros [|[|[|k]]] c; try done. intros _ _ [= <-]. done.
Qed.

(** [round] gives the nearest integer, the even one at a tie. *)
Lemma round_nearest_even (x : spec_float) :
  is_finite x = true → ∃ n, pyfloat.round x = Ok n ∧ nearest_even x n.
Proof.
  destruct x as [s|s| |s m e]; try done; intros _.
  - by exists 0.
  - unfold pyfloat.round, nearest_even. eexists. split; [reflexivity|].
    destruct (0 <=? e) eqn:Ee.
    + destruct s; lia.
    + apply Z.leb_gt in Ee.
      set (d := 2 ^ (- e)).
      assert (Hd : 0 < d) by (apply Z.pow_pos_nonneg; lia).
      pose proof (Z.div_mod (Z.pos m) d ltac:(lia)) as Hdm.
      pose proof (Z.mod_pos_bound (Z.pos m) d Hd) as Hr.
      set (q := Z.pos m / d) in *. set (r := Z.pos m mod d) in *.
      assert (Hqd : q * d = d * q) by lia.
      destruct (Z.compare_spec (2 * r) d) as [Heq|Hlt|Hgt].
      * destruct (Z.even q) eqn:Hev.
        -- destruct s; (split; [lia|]); intros _; [by rewrite Z.even_opp | done].
        -- assert (Hev1 : Z.even (q + 1) = true).
           { rewrite Z.even_add, Hev. reflexivity. }
           destruct s; (split; [lia|]); intros _; [by rewrite Z.even_opp | done].
      * destruct s; (split; [lia|]); intros Habs; lia.
      * destruct s; (split; [lia|]); intros Habs; lia.
Qed.

(** The span of a row, from its intersections. *)
Lemma scanline_span_spec (y : Z) (v0 v1 v2 : vertex) :
  (∀ x, x ∈ crossings y v0 v1 v2 → is_finite x = true) →
  ((length (crossings y v0 v1 v2) < 2)%nat → scanline_span y v0 v1 v2 = Ok None)
  ∧ ((2 ≤ length (crossings y v0 v1 v2))%nat →
     ∃ (i j : nat) (a b : spec_float) (l r : Z),
       scanline_span y v0 v1 v2 = Ok (Some (l, r))
       ∧ i ≠ j
       ∧ crossings y v0 v1 v2 !! i = Some a ∧ crossings y v0 v1 v2 !! j = Some b
       ∧ fle a b
       ∧ (∀ k c, k ≠ i → k ≠ j → crossings y v0 v1 v2 !! k = Some c → fle b c)
       ∧ nearest_even a l ∧ nearest_even b r).
Proof.
  intros Hfin. unfold scanline_span. rewrite (collect_xints_spec y v0 v1 v2 Hfin).
  pose proof (crossings_length y v0 v1 v2) as Hle.
  set (xs := crossings y v0 v1 v2) in *. split.
  - intros Hlt. by rewrite (proj2 (Nat.leb_gt 2 (length xs)) Hlt).
  - intros Hge. rewrite (proj2 (Nat.leb_le 2 (length xs)) Hge).
    destruct (sorted_two_smallest xs (conj Hge Hle))
      as (i & j & a & b & rest & -> & Hij & Hi & Hj & Hab & Hothers).
    destruct (round_nearest_even a) as (l & -> & Hl).
    { apply Hfin. by eapply list_elem_of_lookup_2. }
    destruct (round_nearest_even b) as (r & -> & Hr).
    { apply Hfin. by eapply list_elem_of_lookup_2. }
    by exists i, j, a, b, l, r.
Qed.

(** C8. [Triangle.draw] on a dirty filled triangle (well-formed surface,
    parent chain that ends).

    When the rows from the lowest to the highest vertex meet the edges in
    floats that are numbers, the call returns the triangle with its flag
    cleared, and afterwards:
    - no pixel is set in a row below the lowest or above the highest
      vertex;
    - the intersections of a row are those with the edges that are not
      horizontal and reach the row; a row with fewer than two of them has
      no pixel set;
    - a row with at least two has two of its intersections, [a ≤ b] at
      different places of the list, such that every other intersection is
      not below [b] (the two smallest), and the pixels set in the row are
      exactly those from [l] to [r], both included, where [l] and [r] are
      the integers nearest to [a] and to [b], the even one at a tie.

    When the three vertices are on one row, whatever the coordinates, no
    row has an intersection, the call returns the triangle with its flag
    cleared, and no pixel is set. *)
Theorem C8_triangle_scanline_fill :
  ∀ (h : heap) (self : ref) (o : Bitmap) (x1 y1 x2 y2 x3 y3 width height : Z),
    h !! self = Some o → kind o = KTriangle x1 y1 x2 y2 x3 y3 true →
    _is_dirty o = true → surface_ok o → chain_ok h self →
    ((∀ y x, Z.min y1 (Z.min y2 y3) ≤ y ≤ Z.max y1 (Z.max y2 y3) →
        x ∈ crossings y (x1, y1) (x2, y2) (x3, y3) → is_finite x = true) →
     ∃ h' o',
       Triangle_draw self width height h = (Ok self, h')
       ∧ h' !! self = Some o' ∧ _is_dirty o' = false
       ∧ (∀ px py, in_bounds o px py = true →
            ¬ (Z.min y1 (Z.min y2 y3) ≤ py ≤ Z.max y1 (Z.max y2 y3)) →
            pixel o' px py = 0)
       ∧ (∀ py, Z.min y1 (Z.min y2 y3) ≤ py ≤ Z.max y1 (Z.max y2 y3) →
            (length (crossings py (x1, y1) (x2, y2) (x3, y3)) < 2)%nat →
            ∀ px, in_bounds o px py = true → pixel o' px py = 0)
       ∧ (∀ py, Z.min y1 (Z.min y2 y3) ≤ py ≤ Z.max y1 (Z.max y2 y3) →
            (2 ≤ length (crossings py (x1, y1) (x2, y2) (x3, y3)))%nat →
            ∃ (i j : nat) (a b : spec_float) (l r : Z),
              i ≠ j
              ∧ crossings py (x1, y1) (x2, y2) (x3, y3) !! i = Some a
              ∧ crossings py (x1, y1) (x2, y2) (x3, y3) !! j = Some b
              ∧ fle a b
              ∧ (∀ k c, k ≠ i → k ≠ j →
                   crossings py (x1, y1) (x2, y2) (x3, y3) !! k = Some c → fle b c)
              ∧ nearest_even a l ∧ nearest_even b r
              ∧ ∀ px, in_bounds o px py = true →
                  pixel o' px py = Z.b2z ((l <=? px) && (px <=? r))))
    ∧ (y1 = y2 → y2 = y3 →
       (∀ y, crossings y (x1, y1) (x2, y2) (x3, y3) = [])
       ∧ ∃ h' o',
           Triangle_draw self width height h = (Ok self, h')
           ∧ h' !! self = Some o' ∧ _is_dirty o' = false
           ∧ ∀ px py, in_bounds o px py = true → pixel o' px py = 0).
Proof.
  intros h self o x1 y1 x2 y2 x3 y3 width height Ho Hk Hd Hs Hch.
  set (ymin := Z.min y1 (Z.min y2 y3)) in *. set (ymax := Z.max y1 (Z.max y2 y3)) in *.
  assert (Hmain : (∀ y x, ymin ≤ y ≤ ymax →
                     x ∈ crossings y (x1, y1) (x2, y2) (x3, y3) → is_finite x = true) →
            ∃ h' o',
              Triangle_draw self width height h = (Ok self, h')
              ∧ h' !! self = Some o' ∧ _is_dirty o' = false
              ∧ ∀ px py, in_bounds o px py = true →
                  pixel o' px py
                  = Z.b2z ((ymin <=? py) && (py <=? ymax)
                           && match scanline_span py (x1, y1) (x2, y2) (x3, y3) with
                              | Ok (Some (l, r)) => (l <=? px) && (px <=? r)
                              | _ => false
                              end)).
  { intros Hfin.
    destruct (Triangle_fill_paints h self o x1 y1 x2 y2 x3 y3 width height
                Ho Hk Hd Hs Hch) as (h' & o' & E & Ho' & _ & _ & Hfl & Hpx).
    { intros yy Hyy. fold ymin ymax in Hyy.
      destruct (scanline_span_spec yy (x1, y1) (x2, y2) (x3, y3) (fun x => Hfin yy x Hyy))
        as [Hfew Hmany].
      destruct (le_lt_dec 2 (length (crossings yy (x1, y1) (x2, y2) (x3, y3))))
        as [Hge|Hlt].
      - destruct (Hmany Hge) as (i & j & a & b & l & r & -> & _). done.
      - by rewrite (Hfew Hlt). }
    exists h', o'. do 3 (split; [done|]). exact Hpx. }
  assert (Hrow : ∀ py, ymin ≤ py ≤ ymax → (ymin <=? py) && (py <=? ymax) = true).
  { intros py Hpy. apply andb_true_intro. split; apply Z.leb_le; lia. }
  split.
  - intros Hfin. destruct (Hmain Hfin) as (h' & o' & E & Ho' & Hfl & Hpx).
    exists h', o'. split; [done|]. split; [done|]. split; [done|].
    split; [|split].
    + intros px py Hb Hout. rewrite (Hpx px py Hb).
      destruct (Z.leb_spec ymin py); [|done]. destruct (Z.leb_spec py ymax); [|done]. lia.
    + intros py Hpy Hlt px Hb. rewrite (Hpx px py Hb), (Hrow py Hpy).
      destruct (scanline_span_spec py (x1, y1) (x2, y2) (x3, y3) (fun x => Hfin py x Hpy))
        as [Hfew _].
      by rewrite (Hfew Hlt).
    + intros py Hpy Hge.
      destruct (scanline_span_spec py (x1, y1) (x2, y2) (x3, y3) (fun x => Hfin py x Hpy))
        as [_ Hmany].
      destruct (Hmany Hge)
        as (i & j & a & b & l & r & E' & Hij & Hi & Hj & Hab & Hoth & Hl & Hr).
      exists i, j, a, b, l, r. do 6 (split; [done|]). split; [done|].
      intros px Hb. by rewrite (Hpx px py Hb), (Hrow py Hpy), E'.
  - intros E12 E23.
    assert (Hnone : ∀ y, crossings y (x1, y1) (x2, y2) (x3, y3) = []).
    { intros y. subst y1 y2. unfold crossings, crosses. cbn [flat_map fst snd].
      by rewrite Z.eqb_refl. }
    split; [exact Hnone|].
    assert (Hfin : ∀ y x, ymin ≤ y ≤ ymax →
              x ∈ crossings y (x1, y1) (x2, y2) (x3, y3) → is_finite x = true).
    { intros y x _ Hx. rewrite Hnone in Hx. by apply elem_of_nil in Hx. }
    destruct (Hmain Hfin) as (h' & o' & E & Ho' & Hfl & Hpx).
    exists h', o'. do 3 (split; [done|]).
    intros px py Hb. rewrite (Hpx px py Hb).
    destruct ((ymin <=? py) && (py <=? ymax)) eqn:Erow; [|done].
    apply andb_prop in Erow as [E1 E2]. apply Z.leb_le in E1, E2.
    destruct (scanline_span_spec py (x1, y1) (x2, y2) (x3, y3)
                (fun x => Hfin py x (conj E1 E2))) as [Hfew _].
    rewrite Hfew; [done|]. rewrite Hnone. simpl. lia.
Qed.

(** ** Lines *)

(** The loop of [Line.draw] makes the calls [line_points] lists. *)
Lemma Line_loop_points self fuel : ∀ x1 y1 x2 y2 dx dy sx sy err pts h,
  line_points fuel x1 y1 x2 y2 dx dy sx sy err = Some pts →
  Line_loop fuel self x1 y1 x2 y2 dx dy sx sy err h
  = for_each pts (fun p => set_pixel self (fst p) (snd p) true) h.
Proof.
  induction fuel as [|fuel IH]; intros x1 y1 x2 y2 dx dy sx sy err pts h; simpl; [done|].
  destruct ((x1 =? x2) && (y1 =? y2)).
  - intros [= <-]. reflexivity.
  - destruct (2 * err >=? dy), (2 * err <=? dx); simpl.
    all: match goal with
         | |- cons _ <$> ?lp = _ → _ => destruct lp as [pts'|] eqn:E; simpl; [|done]
         end.
    all: intros [= <-]; simpl; unfold bind;
      destruct (set_pixel self x1 y1 true h) as [[[]|e] h1]; [|done].
    all: by apply IH.
Qed.

(** Bresenham's loop from the state reached after [i] steps in x and [j]
    steps in y: within the budget it reaches the end point, never leaves
    the box of the two end points, and steps along the longer side at
    every round. *)
Lemma line_points_inv (x0 y0 x2 y2 dx a sx sy : Z) :
  0 ≤ dx → 0 ≤ a → (sx = 1 ∨ sx = -1) → (sy = 1 ∨ sy = -1) →
  x2 = x0 + sx * dx → y2 = y0 + sy * a →
  ∀ fuel i j,
    0 ≤ i ≤ dx → 0 ≤ j ≤ a →
    (a ≤ dx → - a ≤ 2 * (dx - a - i * a + j * dx)) →
    (dx ≤ a → 2 * (dx - a - i * a + j * dx) ≤ dx) →
    (Z.to_nat (dx - i + (a - j)) < fuel)%nat →
    ∃ pts,
      line_points fuel (x0 + sx * i) (y0 + sy * j) x2 y2 dx (- a) sx sy
                  (dx - a - i * a + j * dx) = Some pts
      ∧ (x0 + sx * i, y0 + sy * j) ∈ pts
      ∧ (x2, y2) ∈ pts
      ∧ (∀ p, p ∈ pts →
           ∃ i' j', i ≤ i' ≤ dx ∧ j ≤ j' ≤ a ∧ p = (x0 + sx * i', y0 + sy * j'))
      ∧ (a ≤ dx → ∀ k, i ≤ k ≤ dx → ∃ j', (x0 + sx * k, y0 + sy * j') ∈ pts)
      ∧ (dx ≤ a → ∀ k, j ≤ k ≤ a → ∃ i', (x0 + sx * i', y0 + sy * k) ∈ pts).
Proof.
  intros Hdx Ha Hsx Hsy Ex2 Ey2.
  induction fuel as [|fuel IH]; intros i j Hi Hj Hxm Hym Hfuel; [lia|].
  cbn [line_points].
  destruct ((x0 + sx * i =? x2) && (y0 + sy * j =? y2)) eqn:Hdone.
  - apply andb_prop in Hdone as [Ex Ey]. apply Z.eqb_eq in Ex, Ey.
    assert (i = dx) as -> by nia. assert (j = a) as -> by nia.
    exists [(x0 + sx * dx, y0 + sy * a)].
    split; [done|]. split; [by left|]. split; [rewrite Ex2, Ey2; by left|].
    split; [|split].
    + intros p Hp. apply list_elem_of_singleton in Hp. exists dx, a. by repeat split; try lia.
    + intros _ k Hk. assert (k = dx) as -> by lia. exists a. by left.
    + intros _ k Hk. assert (k = a) as -> by lia. exists dx. by left.
  - assert (Hnot : i < dx ∨ j < a).
    { apply andb_false_iff in Hdone as [Hne|Hne]; apply Z.eqb_neq in Hne; subst.
      - left. destruct (decide (i = dx)); [subst; lia | lia].
      - right. destruct (decide (j = a)); [subst; lia | lia]. }
    set (err := dx - a - i * a + j * dx) in *.
    assert (Hx_ok : - a ≤ 2 * err → i < dx).
    { intros H2. destruct (decide (i = dx)) as [->|]; [|lia]. exfalso.
      assert (j < a) by lia. unfold err in H2. nia. }
    assert (Hy_ok : 2 * err ≤ dx → j < a).
    { intros H2. destruct (decide (j = a)) as [->|]; [|lia]. exfalso.
      assert (i < dx) by lia. unfold err in H2. nia. }
    destruct (2 * err >=? - a) eqn:Hx; destruct (2 * err <=? dx) eqn:Hy.
    all: try apply Z.geb_le in Hx; try apply Z.leb_le in Hy.
    all: try (rewrite Z.geb_leb in Hx; apply Z.leb_gt in Hx).
    all: try apply Z.leb_gt in Hy.
    + (* a step in x and in y *)
      specialize (Hx_ok Hx). specialize (Hy_ok Hy).
      destruct (IH (i + 1) (j + 1)) as (pts & E & Hhd & Hend & Hbox & Hcx & Hcy);
        try lia; try (intros; unfold err in *; nia).
      replace (x0 + sx * (i + 1)) with (x0 + sx * i + sx) in E by ring.
      replace (y0 + sy * (j + 1)) with (y0 + sy * j + sy) in E by ring.
      replace (dx - a - (i + 1) * a + (j + 1) * dx) with (err + - a + dx) in E
        by (unfold err; ring).
      rewrite E. cbn [fmap option_fmap option_map].
      eexists. split; [reflexivity|]. split; [by left|]. split; [by right|].
      split; [|split].
      * intros p Hp. apply elem_of_cons in Hp as [->|Hp].
        -- exists i, j. repeat split; lia.
        -- destruct (Hbox p Hp) as (i' & j' & ? & ? & ->). exists i', j'.
           repeat split; lia.
      * intros Hm k Hk. destruct (decide (k = i)) as [->|].
        -- exists j. by left.
        -- destruct (Hcx Hm k ltac:(lia)) as [j' Hj']. exists j'. by right.
      * intros Hm k Hk. destruct (decide (k = j)) as [->|].
        -- exists i. by left.
        -- destruct (Hcy Hm k ltac:(lia)) as [i' Hi']. exists i'. by right.
    + (* a step in x only *)
      specialize (Hx_ok Hx).
      destruct (IH (i + 1) j) as (pts & E & Hhd & Hend & Hbox & Hcx & Hcy);
        try lia; try (intros; unfold err in *; nia).
      replace (x0 + sx * (i + 1)) with (x0 + sx * i + sx) in E by ring.
      replace (dx - a - (i + 1) * a + j * dx) with (err + - a) in E
        by (unfold err; ring).
      rewrite E. cbn [fmap option_fmap option_map].
      eexists. split; [reflexivity|]. split; [by left|]. split; [by right|].
      split; [|split].
      * intros p Hp. apply elem_of_cons in Hp as [->|Hp].
        -- exists i, j. repeat split; lia.
        -- destruct (Hbox p Hp) as (i' & j' & ? & ? & ->). exists i', j'.
           repeat split; lia.
      * intros Hm k Hk. destruct (decide (k = i)) as [->|].
        -- exists j. by left.
        -- destruct (Hcx Hm k ltac:(lia)) as [j' Hj']. exists j'. by right.
      * intros Hm k Hk. exfalso. specialize (Hym Hm). lia.
    + (* a step in y only *)
      specialize (Hy_ok Hy).
      destruct (IH i (j + 1)) as (pts & E & Hhd & Hend & Hbox & Hcx & Hcy);
        try lia; try (intros; unfold err in *; nia).
      replace (y0 + sy * (j + 1)) with (y0 + sy * j + sy) in E by ring.
      replace (dx - a - i * a + (j + 1) * dx) with (err + dx) in E
        by (unfold err; ring).
      rewrite E. cbn [fmap option_fmap option_map].
      eexists. split; [reflexivity|]. split; [by left|]. split; [by right|].
      split; [|split].
      * intros p Hp. apply elem_of_cons in Hp as [->|Hp].
        -- exists i, j. repeat split; lia.
        -- destruct (Hbox p Hp) as (i' & j' & ? & ? & ->). exists i', j'.
           repeat split; lia.
      * intros Hm k Hk. exfalso. specialize (Hxm Hm). lia.
      * intros Hm k Hk. destruct (decide (k = j)) as [->|].
        -- exists i. by left.
        -- destruct (Hcy Hm k ltac:(lia)) as [i' Hi']. exists i'. by right.
    + (* no step: impossible *)
      exfalso. lia.
Qed.

Lemma on_trace_elem pts px py : on_trace pts px py = true ↔ (px, py) ∈ pts.
Proof.
  unfold on_trace. rewrite existsb_exists. split.
  - intros ([qx qy] & Hin & Heq). apply list_elem_of_In in Hin.
    apply andb_prop in Heq as [Ex Ey]. apply Z.eqb_eq in Ex, Ey. simpl in *. by subst.
  - intros Hin. exists (px, py). split; [by apply list_elem_of_In|].
    simpl. by rewrite !Z.eqb_refl.
Qed.

(** The loop of [Line.draw] ends within its budget, whatever the end
    points; the positions it visits start and end at the end points, stay
    in their box and leave no gap along the longer side. *)
Lemma line_trace_spec (x1 y1 x2 y2 : Z) :
  ∃ pts,
    line_trace x1 y1 x2 y2 = Some pts
    ∧ (x1, y1) ∈ pts ∧ (x2, y2) ∈ pts
    ∧ (∀ px py, (px, py) ∈ pts → between x1 x2 px ∧ between y1 y2 py)
    ∧ (Z.abs (y2 - y1) ≤ Z.abs (x2 - x1) →
       ∀ px, between x1 x2 px → ∃ py, (px, py) ∈ pts)
    ∧ (Z.abs (x2 - x1) ≤ Z.abs (y2 - y1) →
       ∀ py, between y1 y2 py → ∃ px, (px, py) ∈ pts).
Proof.
  unfold line_trace.
  set (dx := Z.abs (x2 - x1)). set (a := Z.abs (y2 - y1)).
  set (sx := if x1 <? x2 then 1 else -1). set (sy := if y1 <? y2 then 1 else -1).
  assert (Hdx : 0 ≤ dx) by apply Z.abs_nonneg.
  assert (Ha : 0 ≤ a) by apply Z.abs_nonneg.
  assert (Hsx : (sx = 1 ∨ sx = -1) ∧ x2 = x1 + sx * dx).
  { unfold sx, dx. destruct (x1 <? x2) eqn:E; [apply Z.ltb_lt in E|apply Z.ltb_ge in E];
      split; auto; lia. }
  assert (Hsy : (sy = 1 ∨ sy = -1) ∧ y2 = y1 + sy * a).
  { unfold sy, a. destruct (y1 <? y2) eqn:E; [apply Z.ltb_lt in E|apply Z.ltb_ge in E];
      split; auto; lia. }
  destruct Hsx as [Hsx Ex2], Hsy as [Hsy Ey2].
  destruct (line_points_inv x1 y1 x2 y2 dx a sx sy Hdx Ha Hsx Hsy Ex2 Ey2
              (S (Z.to_nat (dx - - a))) 0 0)
    as (pts & E & Hhd & Hend & Hbox & Hcx & Hcy); try lia.
  replace (x1 + sx * 0) with x1 in * by ring.
  replace (y1 + sy * 0) with y1 in * by ring.
  replace (dx - a - 0 * a + 0 * dx) with (dx + - a) in E by ring.
  exists pts. split; [exact E|]. split; [done|]. split; [done|]. split; [|split].
  - intros px py Hp. destruct (Hbox _ Hp) as (i & j & Hi & Hj & Heq).
    injection Heq as -> ->. unfold between. split; nia.
  - intros Hm px Hpx. unfold between in Hpx.
    destruct (Hcx Hm (Z.abs (px - x1)) ltac:(lia)) as [j Hj].
    exists (y1 + sy * j).
    replace (x1 + sx * Z.abs (px - x1)) with px in Hj; [done|].
    destruct Hsx as [-> | ->]; lia.
  - intros Hm py Hpy. unfold between in Hpy.
    destruct (Hcy Hm (Z.abs (py - y1)) ltac:(lia)) as [i Hi].
    exists (x1 + sx * i).
    replace (y1 + sy * Z.abs (py - y1)) with py in Hi; [done|].
    destruct Hsy as [-> | ->]; lia.
Qed.

(** [Line.draw] on a dirty line: it returns, and the surface shows the
    positions of the trace. *)
Lemma Line_draw_paints (h : heap) (self : ref) (o : Bitmap)
    (x1 y1 x2 y2 width height : Z) pts :
  h !! self = Some o → kind o = KLine x1 y1 x2 y2 →
  _is_dirty o = true → surface_ok o → chain_ok h self →
  line_trace x1 y1 x2 y2 = Some pts →
  ∃ h' o',
    Line_draw self width height h = (Ok self, h')
    ∧ h' !! self = Some o' ∧ static o o' ∧ _is_dirty o' = false ∧ surface_ok o'
    ∧ ∀ px py, in_bounds o px py = true → pixel o' px py = Z.b2z (on_trace pts px py).
Proof.
  intros Ho Hk Hd Hs Hch Etr.
  destruct (painted_reset self o h Ho Hs Hch) as [Ereset Hp0].
  set (h0 := <[self := with_words o (np.fill0 (words o))]> h) in *.
  destruct (painted_for_each self o
              (fun (p : Z * Z) px py => (px =? fst p) && (py =? snd p))
              (fun p => set_pixel self (fst p) (snd p) true) pts)
    with (ink := fun (_ _ : Z) => false) (h := h0) as (h1 & Eloop & Hp1);
    [|exact Hp0|].
  { intros p ink h2 _ Hp2. by apply painted_set_pixel. }
  destruct (painted_clear_flag_ok self o _ h1 Hp1)
    as (h' & o' & Eend & Ho' & Hst & Hfl & Hs' & Hpx).
  exists h', o'. split.
  { unfold Line_draw.
    rewrite (bind_ok _ _ h o h) by (unfold get_obj; by rewrite Ho).
    rewrite Hd. cbn [negb]. rewrite (bind_ok _ _ _ _ _ Ereset).
    rewrite Hk. cbn [expect]. rewrite bind_ret_l.
    rewrite (bind_ok _ _ h0 tt h1); [exact Eend|].
    rewrite <- Eloop. by apply Line_loop_points. }
  split; [done|]. split; [done|]. split; [done|]. split; [done|].
  intros px py Hb. by rewrite Hpx.
Qed.

(** X4. [Line.draw] on a dirty line (well-formed surface, parent chain
    that ends) always returns, whatever the end points: Bresenham's loop
    ends.  The flag is cleared and the pixels set are those of the
    positions the loop visits, cut to the surface.  These positions
    contain both end points, lie in the box the end points span, and
    meet every column of the box when the line is wider than high, every
    row when it is higher than wide. *)
Theorem X4_line_draw_terminates_and_connects :
  ∀ (h : heap) (self : ref) (o : Bitmap) (x1 y1 x2 y2 width height : Z),
    h !! self = Some o → kind o = KLine x1 y1 x2 y2 →
    _is_dirty o = true → surface_ok o → chain_ok h self →
    ∃ pts h' o',
      line_trace x1 y1 x2 y2 = Some pts
      ∧ Line_draw self width height h = (Ok self, h')
      ∧ h' !! self = Some o' ∧ _is_dirty o' = false
      ∧ (∀ px py, in_bounds o px py = true →
           pixel o' px py = Z.b2z (on_trace pts px py))
      ∧ on_trace pts x1 y1 = true ∧ on_trace pts x2 y2 = true
      ∧ (∀ px py, on_trace pts px py = true → between x1 x2 px ∧ between y1 y2 py)
      ∧ (Z.abs (y2 - y1) ≤ Z.abs (x2 - x1) →
         ∀ px, between x1 x2 px → ∃ py, on_trace pts px py = true)
      ∧ (Z.abs (x2 - x1) ≤ Z.abs (y2 - y1) →
         ∀ py, between y1 y2 py → ∃ px, on_trace pts px py = true).
Proof.
  intros h self o x1 y1 x2 y2 width height Ho Hk Hd Hs Hch.
  destruct (line_trace_spec x1 y1 x2 y2) as (pts & Etr & H1 & H2 & Hbox & Hcx & Hcy).
  destruct (Line_draw_paints h self o x1 y1 x2 y2 width height pts Ho Hk Hd Hs Hch Etr)
    as (h' & o' & E & Ho' & _ & Hfl & _ & Hpx).
  exists pts, h', o'. do 5 (split; [done|]).
  split; [by apply on_trace_elem|]. split; [by apply on_trace_elem|].
  split; [|split].
  - intros px py Hp. apply Hbox. by apply on_trace_elem.
  - intros Hm px Hpx'. destruct (Hcx Hm px Hpx') as [py Hpy]. exists py.
    by apply on_trace_elem.
  - intros Hm py Hpy'. destruct (Hcy Hm py Hpy') as [px Hpx']. exists px.
    by apply on_trace_elem.
Qed.

(** ** Circles *)

Lemma paints_ext self o m f f' :
  (∀ x y, in_bounds o x y = true → f x y = f' x y) →
  paints self o m f → paints self o m f'.
Proof.
  intros Hext Hm ink h Hp. destruct (Hm ink h Hp) as (h' & E & Hp').
  exists h'. split; [done|]. eapply painted_ext; [|exact Hp'].
  intros x y Hb. simpl. by rewrite Hext.
Qed.

Lemma paints_set_pixel self o x y :
  paints self o (set_pixel self x y true) (fun x' y' => (x' =? x) && (y' =? y)).
Proof. intros ink h Hp. by apply painted_set_pixel. Qed.

Lemma paints_seq self o m1 m2 f1 f2 :
  paints self o m1 f1 → paints self o m2 f2 →
  paints self o (m1 ;; m2) (fun x y => f1 x y || f2 x y).
Proof.
  intros H1 H2 ink h Hp.
  destruct (H1 ink h Hp) as (h1 & E1 & Hp1).
  destruct (H2 _ h1 Hp1) as (h2 & E2 & Hp2).
  exists h2. rewrite (bind_ok _ _ _ _ _ E1). split; [done|].
  eapply painted_ext; [|exact Hp2]. intros x y _. simpl. by rewrite orb_assoc.
Qed.

Lemma paints_for_each {A} self o (f : A → Z → Z → bool) (body : A → M unit) l :
  (∀ a, a ∈ l → paints self o (body a) (f a)) →
  paints self o (for_each l body) (fun x y => existsb (fun a => f a x y) l).
Proof.
  intros Hbody ink h Hp. apply (painted_for_each self o f body l); [|done].
  intros a ink' h' Ha Hp'. by apply Hbody.
Qed.

(** [circle_points] sets its eight positions. *)
Lemma paints_circle_points self o xc yc x y :
  paints self o (circle_points self xc yc x y)
         (fun px py => on_octants xc yc px py (x, y)).
Proof.
  unfold circle_points, on_octants, on_trace, octants.
  apply (paints_for_each self o (fun (p : Z * Z) px py => (px =? fst p) && (py =? snd p))).
  intros p _. apply paints_set_pixel.
Qed.

(** [circle_fill] sets its four chords. *)
Lemma paints_circle_fill self o xc yc x y :
  paints self o (circle_fill self xc yc x y)
         (fun px py => in_chords xc yc px py (x, y)).
Proof.
  unfold circle_fill, for_range.
  eapply paints_ext; [|apply paints_seq;
    [apply (paints_for_each self o
              (fun i px py => (px =? i) && (py =? yc + y) || (px =? i) && (py =? yc - y)))
    |apply (paints_for_each self o
              (fun i px py => (px =? i) && (py =? yc + x) || (px =? i) && (py =? yc - x)))]].
  - intros px py _. cbv beta. unfold in_chords.
    rewrite (existsb_pointwise _ (fun i => (px =? i) && ((py =? yc + y) || (py =? yc - y))))
      by (intros i; by rewrite andb_orb_distrib_r).
    rewrite (existsb_pointwise (fun i => _ || _)
               (fun i => (px =? i) && ((py =? yc + x) || (py =? yc - x))))
      by (intros i; by rewrite andb_orb_distrib_r).
    rewrite (existsb_seqZ_eqb px _ _ (fun _ => (py =? yc + y) || (py =? yc - y))).
    rewrite (existsb_seqZ_eqb px _ _ (fun _ => (py =? yc + x) || (py =? yc - x))).
    replace (px <? xc - x + (xc + x + 1 - (xc - x))) with (px <=? xc + x)
      by (apply eq_true_iff_eq; rewrite Z.leb_le, Z.ltb_lt; lia).
    replace (px <? xc - y + (xc + y + 1 - (xc - y))) with (px <=? xc + y)
      by (apply eq_true_iff_eq; rewrite Z.leb_le, Z.ltb_lt; lia).
    reflexivity.
  - intros i _. apply paints_seq; apply paints_set_pixel.
  - intros i _. apply paints_seq; apply paints_set_pixel.
Qed.

(** The loop of [Circle.draw] makes the calls [circle_steps] lists. *)
Lemma Circle_loop_steps self fill x0 y0 fuel : ∀ x y d steps h,
  circle_steps fuel x y d = Some steps →
  Circle_loop fuel self fill x0 y0 x y d h
  = for_each steps
      (fun p => if fill then circle_fill self x0 y0 (fst p) (snd p)
                else circle_points self x0 y0 (fst p) (snd p)) h.
Proof.
  induction fuel as [|fuel IH]; intros x y d steps h E; simpl in *.
  - destruct (x <=? y); [done|]. by injection E as <-.
  - destruct (x <=? y); [|by injection E as <-].
    destruct (d <? 0).
    + destruct (circle_steps fuel (x + 1) y (d + (2 * x + 3))) as [rest|] eqn:Er;
        [|done].
      injection E as <-. cbn [for_each fst snd]. unfold bind.
      destruct fill.
      * destruct (circle_fill self x0 y0 x y h) as [[[]|e] h1]; [|done]. by apply IH.
      * destruct (circle_points self x0 y0 x y h) as [[[]|e] h1]; [|done]. by apply IH.
    + destruct (circle_steps fuel (x + 1) (y - 1) (d + (2 * (x - y) + 5)))
        as [rest|] eqn:Er; [|done].
      injection E as <-. cbn [for_each fst snd]. unfold bind.
      destruct fill.
      * destruct (circle_fill self x0 y0 x y h) as [[[]|e] h1]; [|done]. by apply IH.
      * destruct (circle_points self x0 y0 x y h) as [[[]|e] h1]; [|done]. by apply IH.
Qed.

Lemma sq_le_le (a b : Z) : 0 ≤ b → a * a ≤ b * b → a ≤ b.
Proof. nia. Qed.

Lemma sq_lt_lt (a b : Z) : 0 ≤ b → a * a < b * b → a < b.
Proof. nia. Qed.

(** The midpoint loop from the state [(x, y, d)]: [d] is the circle's
    equation at the next midpoint, the steps stay within [y] of the
    circle, and the chords of the steps cover every row from [x] to [y]
    up to the circle. *)
Lemma circle_steps_inv (r : Z) : ∀ fuel x y d,
  0 ≤ x → y ≤ r →
  d = x * x + y * y - r * r + 2 * x - y + 1 →
  (x ≤ y → - y ≤ x * x + y * y - r * r ≤ y) →
  (Z.to_nat (y - x + 1) ≤ fuel)%nat →
  ∃ steps,
    circle_steps fuel x y d = Some steps
    ∧ (∀ p, p ∈ steps →
         x ≤ fst p ≤ snd p ∧ snd p ≤ y
         ∧ - snd p ≤ fst p * fst p + snd p * snd p - r * r ≤ snd p)
    ∧ (x ≤ y → (x, y) ∈ steps)
    ∧ (∀ a b, 0 ≤ a → x ≤ b ≤ y → a * a + b * b ≤ r * r - r →
         ∃ p, p ∈ steps ∧ ((a ≤ fst p ∧ b = snd p) ∨ (a ≤ snd p ∧ b = fst p))).
Proof.
  induction fuel as [|fuel IH]; intros x y d Hx Hy Hd Hinv Hfuel.
  - exists []. assert (y < x) by lia.
    simpl. rewrite (proj2 (Z.leb_gt x y)) by done.
    split; [done|]. split; [by intros p Hp; apply elem_of_nil in Hp|].
    split; [lia|]. intros a b _ Hb. lia.
  - cbn [circle_steps]. destruct (x <=? y) eqn:Hxy.
    2:{ apply Z.leb_gt in Hxy. exists [].
        split; [done|]. split; [by intros p Hp; apply elem_of_nil in Hp|].
        split; [lia|]. intros a b _ Hb. lia. }
    apply Z.leb_le in Hxy. specialize (Hinv Hxy).
    destruct (d <? 0) eqn:Hd0; [apply Z.ltb_lt in Hd0|apply Z.ltb_ge in Hd0].
    + destruct (IH (x + 1) y (d + (2 * x + 3))) as (steps & E & Hnear & _ & Hcov);
        try lia.
      rewrite E. cbn [fmap option_fmap option_map].
      eexists. split; [reflexivity|]. split; [|split; [intros _; by left|]].
      * intros p Hp. apply elem_of_cons in Hp as [->|Hp]; [simpl; lia|].
        specialize (Hnear p Hp). lia.
      * intros a b Ha Hb Hin. destruct (decide (b = x)) as [->|].
        -- exists (x, y). split; [by left|]. right. split; [|done]. simpl.
           apply sq_le_le; lia.
        -- destruct (Hcov a b Ha ltac:(lia) Hin) as (p & Hp & Hc).
           exists p. split; [by right|done].
    + destruct (IH (x + 1) (y - 1) (d + (2 * (x - y) + 5)))
        as (steps & E & Hnear & _ & Hcov); try lia.
      rewrite E. cbn [fmap option_fmap option_map].
      eexists. split; [reflexivity|]. split; [|split; [intros _; by left|]].
      * intros p Hp. apply elem_of_cons in Hp as [->|Hp]; [simpl; lia|].
        specialize (Hnear p Hp). lia.
      * intros a b Ha Hb Hin. destruct (decide (b = x)) as [->|].
        -- exists (x, y). split; [by left|]. right. split; [|done]. simpl.
           apply sq_le_le; lia.
        -- destruct (decide (b = y)) as [->|].
           ++ exists (x, y). split; [by left|]. left. split; [|done]. simpl.
              assert (a < x + 1); [|lia]. apply sq_lt_lt; lia.
           ++ destruct (Hcov a b Ha ltac:(lia) Hin) as (p & Hp & Hc).
              exists p. split; [by right|done].
Qed.

(** The loop of [Circle.draw] ends within its budget, for every radius. *)
Lemma circle_trace_spec (r : Z) :
  ∃ steps,
    circle_trace r = Some steps
    ∧ (∀ p, p ∈ steps →
         0 ≤ fst p ≤ snd p ∧ snd p ≤ r
         ∧ - snd p ≤ fst p * fst p + snd p * snd p - r * r ≤ snd p)
    ∧ (0 ≤ r → (0, r) ∈ steps)
    ∧ (∀ a b, 0 ≤ a → 0 ≤ b → a * a + b * b ≤ r * r - r → 0 ≤ r →
         ∃ p, p ∈ steps ∧ ((a ≤ fst p ∧ b = snd p) ∨ (a ≤ snd p ∧ b = fst p))).
Proof.
  destruct (circle_steps_inv r (Z.to_nat (r + 1)) 0 r (1 - r))
    as (steps & E & Hnear & Hfirst & Hcov); try lia.
  exists steps. split; [exact E|]. split; [exact Hnear|]. split; [exact Hfirst|].
  intros a b Ha Hb Hin Hr. apply Hcov; [done| |done]. split; [done|].
  apply sq_le_le; [done|]. nia.
Qed.

(** [Circle.draw] on a dirty circle: it returns, and the surface shows
    the union of what the calls of the loop set. *)
Lemma Circle_draw_paints (h : heap) (self : ref) (o : Bitmap)
    (xc yc r : Z) (fill : bool) (width height : Z) steps :
  h !! self = Some o → kind o = KCircle xc yc r fill →
  _is_dirty o = true → surface_ok o → chain_ok h self →
  circle_trace r = Some steps →
  ∃ h' o',
    Circle_draw self width height h = (Ok self, h')
    ∧ h' !! self = Some o' ∧ static o o' ∧ surface_ok o' ∧ _is_dirty o' = false
    ∧ ∀ px py, in_bounds o px py = true →
        pixel o' px py
        = Z.b2z (existsb (if fill then in_chords xc yc px py else on_octants xc yc px py)
                         steps).
Proof.
  intros Ho Hk Hd Hs Hch Etr.
  destruct (painted_reset self o h Ho Hs Hch) as [Ereset Hp0].
  set (h0 := <[self := with_words o (np.fill0 (words o))]> h) in *.
  destruct (paints_for_each self o
              (fun (p : Z * Z) px py =>
                 if fill then in_chords xc yc px py p else on_octants xc yc px py p)
              (fun p => if fill then circle_fill self xc yc (fst p) (snd p)
                        else circle_points self xc yc (fst p) (snd p)) steps)
    with (ink := fun (_ _ : Z) => false) (h := h0) as (h1 & Eloop & Hp1);
    [|exact Hp0|].
  { intros [x y] _. destruct fill; simpl.
    - apply paints_circle_fill.
    - apply paints_circle_points. }
  destruct (painted_clear_flag_ok self o _ h1 Hp1)
    as (h' & o' & Eend & Ho' & Hst & Hfl & Hs' & Hpx).
  exists h', o'. split.
  { unfold Circle_draw.
    rewrite (bind_ok _ _ h o h) by (unfold get_obj; by rewrite Ho).
    rewrite Hd. cbn [negb]. rewrite (bind_ok _ _ _ _ _ Ereset).
    rewrite Hk. cbn [expect]. rewrite bind_ret_l.
    rewrite (bind_ok _ _ h0 tt h1); [exact Eend|].
    rewrite <- Eloop. by apply Circle_loop_steps. }
  do 4 (split; [done|]).
  intros px py Hb. rewrite Hpx by done. cbn [orb]. by destruct fill.
Qed.

Lemma on_octants_elem xc yc px py x y :
  on_octants xc yc px py (x, y) = true →
  dist2 xc yc px py = x * x + y * y
  ∧ (Z.abs (px - xc) = Z.abs x ∧ Z.abs (py - yc) = Z.abs y
     ∨ Z.abs (px - xc) = Z.abs y ∧ Z.abs (py - yc) = Z.abs x).
Proof.
  unfold on_octants. rewrite on_trace_elem. unfold octants, dist2. intros Hin.
  repeat (apply elem_of_cons in Hin as [[= -> ->]|Hin]; [split; [ring | lia]|]).
  by apply elem_of_nil in Hin.
Qed.

Lemma in_chords_elem xc yc px py x y :
  in_chords xc yc px py (x, y) = true ↔
  (Z.abs (px - xc) ≤ x ∧ Z.abs (py - yc) = Z.abs y)
  ∨ (Z.abs (px - xc) ≤ y ∧ Z.abs (py - yc) = Z.abs x).
Proof.
  unfold in_chords.
  rewrite orb_true_iff, !andb_true_iff, !orb_true_iff, !Z.leb_le, !Z.eqb_eq. lia.
Qed.

(** X5. [Circle.draw] on a dirty outlined circle (well-formed surface,
    parent chain that ends) returns for every radius: the midpoint loop
    ends.  The flag is cleared and the pixels set are those of the eight
    reflections of the steps of the loop, cut to the surface.  Each of
    them is within [r] of the circle, in squared distance; for [0 ≤ r]
    the four points at distance [r] on the axes are among them, and for a
    negative radius there are none. *)
Theorem X5_circle_outline_near_the_circle :
  ∀ (h : heap) (self : ref) (o : Bitmap) (xc yc r width height : Z),
    h !! self = Some o → kind o = KCircle xc yc r false →
    _is_dirty o = true → surface_ok o → chain_ok h self →
    ∃ steps h' o',
      circle_trace r = Some steps
      ∧ Circle_draw self width height h = (Ok self, h')
      ∧ h' !! self = Some o' ∧ _is_dirty o' = false
      ∧ (∀ px py, in_bounds o px py = true →
           pixel o' px py = Z.b2z (existsb (on_octants xc yc px py) steps))
      ∧ (∀ px py, existsb (on_octants xc yc px py) steps = true →
           Z.abs (dist2 xc yc px py - r * r) ≤ r)
      ∧ (0 ≤ r →
         existsb (on_octants xc yc (xc + r) yc) steps = true
         ∧ existsb (on_octants xc yc (xc - r) yc) steps = true
         ∧ existsb (on_octants xc yc xc (yc + r)) steps = true
         ∧ existsb (on_octants xc yc xc (yc - r)) steps = true)
      ∧ (r < 0 → steps = []).
Proof.
  intros h self o xc yc r width height Ho Hk Hd Hs Hch.
  destruct (circle_trace_spec r) as (steps & Etr & Hnear & Hfirst & _).
  destruct (Circle_draw_paints h self o xc yc r false width height steps
              Ho Hk Hd Hs Hch Etr) as (h' & o' & Erun & Ho' & _ & _ & Hfl & Hpx).
  exists steps, h', o'. repeat (split; [done|]). split; [|split].
  - intros px py Hon. apply existsb_exists in Hon as ([x y] & Hin & Hon).
    apply list_elem_of_In in Hin. specialize (Hnear _ Hin). simpl in Hnear.
    apply on_octants_elem in Hon as [-> _]. lia.
  - intros Hr. specialize (Hfirst Hr). apply list_elem_of_In in Hfirst.
    repeat split; apply existsb_exists; exists (0, r); (split; [done|]);
      unfold on_octants; apply on_trace_elem; unfold octants;
      replace (xc - 0) with xc by ring; replace (xc + 0) with xc by ring;
      replace (yc - 0) with yc by ring; replace (yc + 0) with yc by ring.
    + do 4 right. by left.
    + do 5 right. by left.
    + by left.
    + do 2 right. by left.
  - intros Hr. destruct steps as [|p steps]; [done|].
    specialize (Hnear p ltac:(by left)). lia.
Qed.

(** X6. [Circle.draw] on a dirty filled circle (well-formed surface,
    parent chain that ends) returns and clears the flag; the pixels set
    are those of the chords of the steps of the loop, cut to the surface.
    They form the disc, up to [r] in squared distance: none is farther
    than [r * r + r] from the centre, and for [0 ≤ r] every position
    within [r * r - r] is among them.  The outline's pixels are among
    them too. *)
Theorem X6_filled_circle_is_the_disc :
  ∀ (h : heap) (self : ref) (o : Bitmap) (xc yc r width height : Z),
    h !! self = Some o → kind o = KCircle xc yc r true →
    _is_dirty o = true → surface_ok o → chain_ok h self →
    ∃ steps h' o',
      circle_trace r = Some steps
      ∧ Circle_draw self width height h = (Ok self, h')
      ∧ h' !! self = Some o' ∧ _is_dirty o' = false
      ∧ (∀ px py, in_bounds o px py = true →
           pixel o' px py = Z.b2z (existsb (in_chords xc yc px py) steps))
      ∧ (∀ px py, existsb (in_chords xc yc px py) steps = true →
           dist2 xc yc px py ≤ r * r + r)
      ∧ (0 ≤ r → ∀ px py, dist2 xc yc px py ≤ r * r - r →
           existsb (in_chords xc yc px py) steps = true)
      ∧ (∀ px py, existsb (on_octants xc yc px py) steps = true →
           existsb (in_chords xc yc px py) steps = true).
Proof.
  intros h self o xc yc r width height Ho Hk Hd Hs Hch.
  destruct (circle_trace_spec r) as (steps & Etr & Hnear & Hfirst & Hcov).
  destruct (Circle_draw_paints h self o xc yc r true width height steps
              Ho Hk Hd Hs Hch Etr) as (h' & o' & Erun & Ho' & _ & _ & Hfl & Hpx).
  exists steps, h', o'. repeat (split; [done|]). split; [|split].
  - intros px py Hon. apply existsb_exists in Hon as ([x y] & Hin & Hon).
    apply list_elem_of_In in Hin. specialize (Hnear _ Hin). simpl in Hnear.
    apply in_chords_elem in Hon. unfold dist2.
    assert (Hsq : ∀ u v, Z.abs u ≤ v → u * u ≤ v * v) by (intros; nia).
    assert (Hsq' : ∀ u v, Z.abs u = Z.abs v → u * u = v * v) by (intros; nia).
    destruct Hon as [[H1 H2]|[H1 H2]];
      apply Hsq in H1; apply Hsq' in H2; lia.
  - intros Hr px py Hin. unfold dist2 in Hin.
    assert (Hin' : Z.abs (px - xc) * Z.abs (px - xc)
                   + Z.abs (py - yc) * Z.abs (py - yc) ≤ r * r - r).
    { replace (Z.abs (px - xc) * Z.abs (px - xc)) with ((px - xc) * (px - xc)) by nia.
      replace (Z.abs (py - yc) * Z.abs (py - yc)) with ((py - yc) * (py - yc)) by nia.
      exact Hin. }
    destruct (Hcov (Z.abs (px - xc)) (Z.abs (py - yc)) ltac:(lia) ltac:(lia) Hin' Hr)
      as ([x y] & Hp & Hc).
    apply existsb_exists. exists (x, y). split; [by apply list_elem_of_In|].
    specialize (Hnear _ Hp). simpl in *. apply in_chords_elem. lia.
  - intros px py Hon. apply existsb_exists in Hon as ([x y] & Hin & Hon).
    apply existsb_exists. exists (x, y). split; [done|].
    apply list_elem_of_In in Hin. specialize (Hnear _ Hin). simpl in Hnear.
    apply on_octants_elem in Hon as [_ Hon]. apply in_chords_elem. lia.
Qed.

(** ** The properties at work on small shapes *)

Lemma fresh_16x4_built k :
  Bitmap_init 16 4 None ON k [] = (Ok 0%nat, [fresh_16x4 k]).
Proof. reflexivity. Qed.

Lemma fresh_16x4_surface_ok k : surface_ok (fresh_16x4 k).
Proof.
  unfold surface_ok, np.wf. simpl. repeat split; try reflexivity.
  repeat constructor.
Qed.

Lemma fresh_16x4_chain_ok k : chain_ok [fresh_16x4 k] 0%nat.
Proof. reflexivity. Qed.

Lemma X1_witness :
  ∃ h' o', Rectangle_draw 0%nat 16 4 [fresh_16x4 (KRectangle 2 1 3 2 true)] = (Ok 0%nat, h')
           ∧ h' !! 0%nat = Some o' ∧ _is_dirty o' = false
           ∧ pixel o' 4 2 = 1 ∧ pixel o' 5 2 = 0.
Proof.
  destruct (X1_filled_rectangle_exact [fresh_16x4 (KRectangle 2 1 3 2 true)] 0%nat
              (fresh_16x4 (KRectangle 2 1 3 2 true)) 2 1 3 2 16 4
              eq_refl eq_refl eq_refl (fresh_16x4_surface_ok _) (fresh_16x4_chain_ok _))
    as (h' & o' & E & Ho' & Hfl & Hpx).
  exists h', o'. split; [exact E|]. split; [exact Ho'|]. split; [exact Hfl|].
  split; [exact (Hpx 4 2 eq_refl) | exact (Hpx 5 2 eq_refl)].
Defined.

Lemma X2_witness :
  ∃ h' o', DrawableText_draw 0%nat 16 4 [fresh_16x4 (KDrawableText "abc" font_dots 1 2)]
           = (Ok 0%nat, h')
           ∧ h' !! 0%nat = Some o' ∧ _is_dirty o' = false
           ∧ pixel o' 3 2 = 1 ∧ pixel o' 4 2 = 0.
Proof.
  destruct (X2_text_pixels_are_the_ink [fresh_16x4 (KDrawableText "abc" font_dots 1 2)]
              0%nat (fresh_16x4 (KDrawableText "abc" font_dots 1 2)) "abc" font_dots
              1 2 16 4 eq_refl eq_refl eq_refl
              (fresh_16x4_surface_ok _) (fresh_16x4_chain_ok _))
    as (h' & o' & E & Ho' & Hfl & Hpx); [lia | lia |].
  exists h', o'. split; [exact E|]. split; [exact Ho'|]. split; [exact Hfl|].
  split; [exact (Hpx 3 2 eq_refl) | exact (Hpx 4 2 eq_refl)].
Defined.

Lemma scene_triangle_draw :
  Triangle_draw 0%nat 16 4 scene_triangle = (Ok 0%nat, scene_triangle_drawn).
Proof. vm_compute. reflexivity. Qed.

Lemma scene_triangle_finite (y : Z) (x : spec_float) :
  Z.min 0 (Z.min 3 1) ≤ y ≤ Z.max 0 (Z.max 3 1) →
  x ∈ crossings y (5, 0) (0, 3) (0, 1) → is_finite x = true.
Proof.
  intros Hy Hx.
  assert (Hc : y = 0 ∨ y = 1 ∨ y = 2 ∨ y = 3) by lia.
  destruct Hc as [->|[->|[->| ->]]]; vm_compute in Hx;
    repeat (apply elem_of_cons in Hx as [-> | Hx]; [reflexivity|]);
    by apply elem_of_nil in Hx.
Qed.

Lemma C8_witness :
  ∃ h' o', Triangle_draw 0%nat 16 4 scene_triangle = (Ok 0%nat, h')
           ∧ h' !! 0%nat = Some o' ∧ _is_dirty o' = false
           ∧ length (crossings 1 (5, 0) (0, 3) (0, 1)) = 3%nat
           ∧ pixel o' 0 1 = 1 ∧ pixel o' 2 1 = 0
           ∧ pixel o' 2 2 = 1 ∧ pixel o' 3 2 = 0.
Proof.
  destruct (C8_triangle_scanline_fill scene_triangle 0%nat _ 5 0 0 3 0 1 16 4
              eq_refl eq_refl eq_refl (fresh_16x4_surface_ok _) eq_refl)
    as [Hfill _].
  destruct (Hfill scene_triangle_finite) as (h' & o' & E & Ho' & Hfl & _).
  pose proof E as E'. rewrite scene_triangle_draw in E'. injection E' as <-.
  pose proof Ho' as Ho''. vm_compute in Ho''. injection Ho'' as <-.
  eexists scene_triangle_drawn, _. split; [exact E|]. split; [exact Ho'|].
  split; [reflexivity|]. split; [reflexivity|]. split; [reflexivity|].
  split; [reflexivity|]. split; reflexivity.
Defined.

Lemma X4_witness :
  ∃ pts h' o', line_trace 1 0 9 3 = Some pts
               ∧ Line_draw 0%nat 16 4 [fresh_16x4 (KLine 1 0 9 3)] = (Ok 0%nat, h')
               ∧ h' !! 0%nat = Some o' ∧ _is_dirty o' = false
               ∧ pixel o' 1 0 = 1 ∧ pixel o' 9 3 = 1 ∧ pixel o' 9 0 = 0.
Proof.
  destruct (X4_line_draw_terminates_and_connects [fresh_16x4 (KLine 1 0 9 3)] 0%nat
              (fresh_16x4 (KLine 1 0 9 3)) 1 0 9 3 16 4 eq_refl eq_refl eq_refl
              (fresh_16x4_surface_ok _) (fresh_16x4_chain_ok _))
    as (pts & h' & o' & Etr & E & Ho' & Hfl & Hpx & Hfirst & Hlast & Hbox & _).
  exists pts, h', o'. split; [exact Etr|]. split; [exact E|]. split; [exact Ho'|].
  split; [exact Hfl|]. split; [|split].
  - rewrite (Hpx 1 0 eq_refl), Hfirst. reflexivity.
  - rewrite (Hpx 9 3 eq_refl), Hlast. reflexivity.
  - rewrite (Hpx 9 0 eq_refl).
    injection Etr as <-. reflexivity.
Defined.

Lemma X5_witness :
  ∃ steps h' o', circle_trace 1 = Some steps
                 ∧ Circle_draw 0%nat 16 4 [fresh_16x4 (KCircle 5 2 1 false)] = (Ok 0%nat, h')
                 ∧ h' !! 0%nat = Some o' ∧ _is_dirty o' = false
                 ∧ pixel o' 6 2 = 1 ∧ pixel o' 5 2 = 0.
Proof.
  destruct (X5_circle_outline_near_the_circle [fresh_16x4 (KCircle 5 2 1 false)] 0%nat
              (fresh_16x4 (KCircle 5 2 1 false)) 5 2 1 16 4 eq_refl eq_refl eq_refl
              (fresh_16x4_surface_ok _) (fresh_16x4_chain_ok _))
    as (steps & h' & o' & Etr & E & Ho' & Hfl & Hpx & _).
  exists steps, h', o'. split; [exact Etr|]. split; [exact E|]. split; [exact Ho'|].
  split; [exact Hfl|]. injection Etr as <-.
  split; [exact (Hpx 6 2 eq_refl) | exact (Hpx 5 2 eq_refl)].
Defined.

Lemma X6_witness :
  ∃ steps h' o', circle_trace 1 = Some steps
                 ∧ Circle_draw 0%nat 16 4 [fresh_16x4 (KCircle 5 2 1 true)] = (Ok 0%nat, h')
                 ∧ h' !! 0%nat = Some o' ∧ _is_dirty o' = false
                 ∧ pixel o' 5 2 = 1 ∧ pixel o' 7 2 = 0.
Proof.
  destruct (X6_filled_circle_is_the_disc [fresh_16x4 (KCircle 5 2 1 true)] 0%nat
              (fresh_16x4 (KCircle 5 2 1 true)) 5 2 1 16 4 eq_refl eq_refl eq_refl
              (fresh_16x4_surface_ok _) (fresh_16x4_chain_ok _))
    as (steps & h' & o' & Etr & E & Ho' & Hfl & Hpx & _).
  exists steps, h', o'. split; [exact Etr|]. split; [exact E|]. split; [exact Ho'|].
  split; [exact Hfl|]. injection Etr as <-.
  split; [exact (Hpx 5 2 eq_refl) | exact (Hpx 7 2 eq_refl)].
Defined.

(** ** The bytes on the bus *)

Lemma testbit_240 (n : Z) : 0 ≤ n → Z.testbit 240 n = (4 <=? n) && (n <? 8).
Proof.
  intros Hn. change 240 with (Z.shiftl (Z.ones 4) 4). rewrite Z.shiftl_spec by lia.
  destruct (Z.leb_spec 4 n); destruct (Z.ltb_spec n 8); simpl.
  - apply Z.ones_spec_low. lia.
  - apply Z.ones_spec_high. lia.
  - apply Z.testbit_neg_r. lia.
  - apply Z.testbit_neg_r. lia.
Qed.

(** The two nibbles [_send] transmits make up the low eight bits. *)
Lemma nibbles_byte (b : Z) :
  Z.lor (Z.land b 240) (Z.shiftr (Z.land (Z.shiftl b 4) 240) 4) = b mod 256.
Proof.
  change 256 with (2 ^ 8). rewrite <- Z.land_ones by lia.
  apply Z.bits_inj'. intros n Hn.
  rewrite Z.lor_spec, Z.shiftr_spec, !Z.land_spec, Z.shiftl_spec by lia.
  rewrite !testbit_240 by lia. replace (n + 4 - 4) with n by ring.
  destruct (Z.ltb_spec n 8).
  - rewrite Z.ones_spec_low by lia.
    destruct (Z.leb_spec 4 n); destruct (Z.leb_spec 4 (n + 4));
      destruct (Z.ltb_spec (n + 4) 8); try lia; simpl;
      by rewrite ?andb_true_r, ?andb_false_r, ?orb_false_r.
  - rewrite Z.ones_spec_high by lia.
    destruct (Z.ltb_spec (n + 4) 8); [lia|].
    by rewrite !andb_false_r.
Qed.

Lemma land_is_byte (b m : Z) : Z.land m 255 = m → is_byte (Z.land b m).
Proof.
  intros Hm. unfold is_byte.
  assert (E : Z.land b m = Z.land b m mod 256).
  { change 256 with (2 ^ 8). rewrite <- Z.land_ones by lia.
    change (Z.ones 8) with 255. by rewrite <- Z.land_assoc, Hm. }
  pose proof (Z.mod_pos_bound (Z.land b m) 256 ltac:(lia)). lia.
Qed.

Lemma spi_frame_spec (byte : Z) (is_data : bool) :
  Forall is_byte (spi_frame byte is_data)
  ∧ frame_byte (spi_frame byte is_data) = Some (byte mod 256)
  ∧ frame_is_data (spi_frame byte is_data) = Some is_data.
Proof.
  unfold spi_frame. split; [|split].
  - apply Forall_cons. split; [|apply Forall_cons; split; [|apply Forall_cons; split]].
    + destruct is_data; vm_compute; by split.
    + by apply land_is_byte.
    + by apply land_is_byte.
    + apply Forall_nil_2.
  - cbn [frame_byte]. by rewrite nibbles_byte.
  - by destruct is_data.
Qed.

(** X7. [_send] always returns and puts one transfer of three bytes on
    the bus, whatever integer it is given: each of the three is a byte
    [spi.writebytes] accepts, the transfer is marked as data or command
    as asked, and the byte it carries is the low eight bits of the
    argument. *)
Theorem X7_send_carries_the_low_byte :
  ∀ (byte : Z) (is_data : bool) (d : ST7920),
    ∃ fr, _send byte is_data d = (Ok tt, sent d [fr])
          ∧ length fr = 3%nat ∧ Forall is_byte fr
          ∧ frame_byte fr = Some (byte mod 256)
          ∧ frame_is_data fr = Some is_data.
Proof.
  intros byte is_data d. exists (spi_frame byte is_data).
  destruct (spi_frame_spec byte is_data) as (Hb & Hv & Hd).
  by repeat split.
Qed.

(** X8. [write_gdram_word] always returns and puts two data transfers on
    the bus, the high byte first; read back, the two bytes make up the
    low sixteen bits of the argument, so a uint16 word arrives as it is. *)
Theorem X8_write_gdram_word_round_trip :
  ∀ (word16 : Z) (d : ST7920),
    ∃ f1 f2 hi lo,
      write_gdram_word word16 d = (Ok tt, sent d [f1; f2])
      ∧ frame_is_data f1 = Some true ∧ frame_is_data f2 = Some true
      ∧ frame_byte f1 = Some hi ∧ frame_byte f2 = Some lo
      ∧ is_byte hi ∧ is_byte lo
      ∧ 256 * hi + lo = word16 mod 65536
      ∧ (0 ≤ word16 < 65536 → 256 * hi + lo = word16).
Proof.
  intros w d.
  destruct (spi_frame_spec (Z.land (Z.shiftr w 8) 255) true) as (_ & Hv1 & Hd1).
  destruct (spi_frame_spec (Z.land w 255) true) as (_ & Hv2 & Hd2).
  assert (Hhi : Z.land (Z.shiftr w 8) 255 = (w / 256) mod 256).
  { change 255 with (Z.ones 8). rewrite Z.land_ones, Z.shiftr_div_pow2 by lia. done. }
  assert (Hlo : Z.land w 255 = w mod 256).
  { change 255 with (Z.ones 8). by rewrite Z.land_ones by lia. }
  pose proof (Z.mod_pos_bound (w / 256) 256 ltac:(lia)) as B1.
  pose proof (Z.mod_pos_bound w 256 ltac:(lia)) as B2.
  assert (Hsum : 256 * ((w / 256) mod 256) + w mod 256 = w mod 65536).
  { change 65536 with (256 * 256). rewrite Z.rem_mul_r by lia. lia. }
  exists (spi_frame (Z.land (Z.shiftr w 8) 255) true), (spi_frame (Z.land w 255) true),
         ((w / 256) mod 256), (w mod 256).
  split; [apply write_gdram_word_ok|]. split; [done|]. split; [done|].
  split; [rewrite Hv1, Hhi; f_equal; apply Z.mod_small; lia|].
  split; [rewrite Hv2, Hlo; f_equal; apply Z.mod_small; lia|].
  split; [unfold is_byte; lia|]. split; [unfold is_byte; lia|].
  split; [exact Hsum|]. intros Hw. rewrite Hsum. apply Z.mod_small. lia.
Qed.

Lemma lor_128 (x : Z) : 0 ≤ x < 128 → Z.lor 128 x = 128 + x.
Proof.
  intros Hx. pose proof (Z.add_lor_land 128 x) as E.
  assert (Z.land 128 x = 0); [|lia].
  rewrite <- (Z.mod_small x 128) by lia. change 128 with (2 ^ 7) at 2.
  rewrite <- Z.land_ones by lia. rewrite (Z.land_comm x), Z.land_assoc.
  change (Z.land 128 (Z.ones 7)) with 0. apply Z.land_0_l.
Qed.

(** Outside the display [set_gdram_address] raises before it sends
    anything. *)
Lemma set_gdram_address_raise d row col :
  ¬ (0 ≤ row < lcd_height d ∧ 0 ≤ col < lcd_width d / 16) →
  set_gdram_address row col d = (Raise ValueError, d).
Proof.
  intros Hout. unfold set_gdram_address, bind, get_driver.
  destruct ((0 <=? row) && (row <? lcd_height d)) eqn:E1; [|done].
  destruct ((0 <=? col) && (col <? lcd_width d / 16)) eqn:E2; [|done].
  exfalso. apply Hout.
  apply andb_prop in E1 as [A B], E2 as [C D].
  apply Z.leb_le in A, C. apply Z.ltb_lt in B, D. lia.
Qed.

Lemma X8_witness :
  ∃ f1 f2 hi lo,
    write_gdram_word 48879 (ST7920_init 128 64)
    = (Ok tt, sent (ST7920_init 128 64) [f1; f2])
    ∧ frame_byte f1 = Some hi ∧ frame_byte f2 = Some lo ∧ 256 * hi + lo = 48879.
Proof.
  destruct (X8_write_gdram_word_round_trip 48879 (ST7920_init 128 64))
    as (f1 & f2 & hi & lo & E & _ & _ & H1 & H2 & _ & _ & _ & Hw).
  exists f1, f2, hi, lo. split; [exact E|]. split; [exact H1|]. split; [exact H2|].
  apply Hw. lia.
Defined.

(** X9. [set_gdram_address(row, col_word)] raises ValueError, before
    anything goes on the bus, when the position is not one of the
    display.  For a position of a display of up to 64 rows of up to 8
    words it returns and sends two commands, the vertical address first;
    read back, the two address bytes name the position asked for, the
    rows from 32 on being sent as the words 8 to 15 of the rows 0 to 31:
    no two positions share an address. *)
Theorem X9_set_gdram_address_names_the_position :
  ∀ (row col_word : Z) (d : ST7920),
    (¬ (0 ≤ row < lcd_height d ∧ 0 ≤ col_word < lcd_width d / 16) →
     set_gdram_address row col_word d = (Raise ValueError, d))
    ∧ (0 ≤ row < lcd_height d → 0 ≤ col_word < lcd_width d / 16 →
       lcd_height d ≤ 64 → lcd_width d / 16 ≤ 8 →
       ∃ f1 f2 vertical horizontal,
         set_gdram_address row col_word d = (Ok tt, sent d [f1; f2])
         ∧ frame_is_data f1 = Some false ∧ frame_is_data f2 = Some false
         ∧ frame_byte f1 = Some vertical ∧ frame_byte f2 = Some horizontal
         ∧ 128 ≤ vertical < 160 ∧ 128 ≤ horizontal < 144
         ∧ gdram_position vertical horizontal = (row, col_word)).
Proof.
  intros row col d. split; [apply set_gdram_address_raise|].
  intros Hr Hc Hh Hw. rewrite set_gdram_address_ok by done. unfold address_set.
  destruct (row >=? 32) eqn:E; [apply Z.geb_le in E|rewrite Z.geb_leb in E; apply Z.leb_gt in E].
  - rewrite !lor_128 by lia.
    destruct (spi_frame_spec (128 + (row - 32)) false) as (_ & Hv1 & Hd1).
    destruct (spi_frame_spec (128 + (col + 8)) false) as (_ & Hv2 & Hd2).
    rewrite Z.mod_small in Hv1 by lia. rewrite Z.mod_small in Hv2 by lia.
    eexists _, _, _, _. split; [reflexivity|]. split; [exact Hd1|]. split; [exact Hd2|].
    split; [exact Hv1|]. split; [exact Hv2|]. split; [lia|]. split; [lia|].
    unfold gdram_position.
    replace (128 + (col + 8) - 128 >=? 8) with true
      by (symmetry; apply Z.geb_le; lia).
    f_equal; lia.
  - rewrite !lor_128 by lia.
    destruct (spi_frame_spec (128 + row) false) as (_ & Hv1 & Hd1).
    destruct (spi_frame_spec (128 + col) false) as (_ & Hv2 & Hd2).
    rewrite Z.mod_small in Hv1 by lia. rewrite Z.mod_small in Hv2 by lia.
    eexists _, _, _, _. split; [reflexivity|]. split; [exact Hd1|]. split; [exact Hd2|].
    split; [exact Hv1|]. split; [exact Hv2|]. split; [lia|]. split; [lia|].
    unfold gdram_position.
    replace (128 + col - 128 >=? 8) with false
      by (symmetry; rewrite Z.geb_leb; apply Z.leb_gt; lia).
    f_equal; lia.
Qed.

Lemma X9_witness :
  set_gdram_address 64 0 (ST7920_init 128 64)
  = (Raise ValueError, ST7920_init 128 64)
  ∧ ∃ f1 f2 vertical horizontal,
      set_gdram_address 40 3 (ST7920_init 128 64)
      = (Ok tt, sent (ST7920_init 128 64) [f1; f2])
      ∧ frame_byte f1 = Some vertical ∧ frame_byte f2 = Some horizontal
      ∧ gdram_position vertical horizontal = (40, 3).
Proof.
  split.
  - apply (X9_set_gdram_address_names_the_position 64 0 (ST7920_init 128 64)).
    intros [[_ H] _]. vm_compute in H. discriminate H.
  - destruct (X9_set_gdram_address_names_the_position 40 3 (ST7920_init 128 64))
      as [_ H].
    destruct H as (f1 & f2 & v & hz & E & _ & _ & H1 & H2 & _ & _ & Hp);
      try (by vm_compute).
    exists f1, f2, v, hz. by repeat split.
Defined.

(** A loop on the driver each of whose rounds returns and sends [tx a]. *)
Lemma for_each_sent {A} (l : list A) (body : A → D unit) (tx : A → list (list Z)) d :
  (∀ a l0, a ∈ l → body a (sent d l0) = (Ok tt, sent d (l0 ++ tx a))) →
  ∀ l0, for_each l body (sent d l0) = (Ok tt, sent d (l0 ++ flat_map tx l)).
Proof.
  induction l as [|a l IH]; intros Hbody l0; simpl.
  - by rewrite app_nil_r.
  - rewrite (bind_ok _ _ _ _ _ (Hbody a l0 ltac:(left))).
    rewrite IH by (intros b l1 Hb; apply Hbody; by right).
    by rewrite <- app_assoc.
Qed.

(** One round of [clear_gdram] on a row of the display. *)
Lemma clear_row_ok d row l0 :
  0 ≤ row < lcd_height d → 16 ≤ lcd_width d →
  (set_gdram_address row 0 ;; for_range 0 8 (fun _ => write_gdram_word 0)) (sent d l0)
  = (Ok tt, sent d (l0 ++ clear_row row)).
Proof.
  intros Hr Hw.
  assert (Hc : 0 < lcd_width d / 16) by (apply Z.div_str_pos; lia).
  rewrite (bind_ok _ _ _ tt (sent d (l0 ++ address_set row 0))).
  2:{ rewrite set_gdram_address_ok by (simpl; lia). by rewrite sent_sent. }
  unfold for_range.
  rewrite (for_each_sent _ _ (fun _ => word_write 0)).
  - unfold clear_row. by rewrite app_assoc.
  - intros a l1 _. by rewrite write_gdram_word_ok, sent_sent.
Qed.

Lemma for_each_sent_all {A} (l : list A) (body : A → D unit) (tx : A → list (list Z)) d :
  (∀ a l0, a ∈ l → body a (sent d l0) = (Ok tt, sent d (l0 ++ tx a))) →
  for_each l body d = (Ok tt, sent d (flat_map tx l)).
Proof.
  intros Hbody. pose proof (for_each_sent l body tx d Hbody []) as E.
  by rewrite sent_nil in E.
Qed.

(** The rounds of [clear_gdram] on the first [n] rows of the display. *)
Lemma clear_rows_ok d n :
  0 ≤ n ≤ lcd_height d → 16 ≤ lcd_width d →
  for_each (seqZ 0 n)
    (fun row => set_gdram_address row 0 ;; for_range 0 8 (fun _ => write_gdram_word 0)) d
  = (Ok tt, sent d (flat_map clear_row (seqZ 0 n))).
Proof.
  intros Hn Hw. apply for_each_sent_all. intros row l0 Hrow.
  apply elem_of_seqZ in Hrow. apply clear_row_ok; lia.
Qed.

(** X10. [clear_gdram] takes the display to have 64 rows of 8 words,
    whatever size the driver was built for.  On a display of at least 64
    rows and one word it returns, having sent for each of the rows 0 to
    63 the address of its first word and eight zero words, and forgets
    the baseline.  On a display with fewer rows it clears the rows there
    are and then raises ValueError at the first row that is not, and on
    a display without a whole word it raises at once; either way the
    baseline stays what it was. *)
Theorem X10_clear_gdram_assumes_64_rows :
  ∀ (d : ST7920),
    (64 ≤ lcd_height d → 16 ≤ lcd_width d →
     clear_gdram d
     = (Ok tt, with_old_buffer (sent d (flat_map clear_row (seqZ 0 64))) None))
    ∧ (0 ≤ lcd_height d < 64 → 16 ≤ lcd_width d →
       clear_gdram d
       = (Raise ValueError, sent d (flat_map clear_row (seqZ 0 (lcd_height d)))))
    ∧ (lcd_width d < 16 → clear_gdram d = (Raise ValueError, d)).
Proof.
  intros d. split; [|split].
  - intros Hh Hw. unfold clear_gdram. unfold for_range at 1. change (64 - 0) with 64.
    rewrite (bind_ok _ _ _ _ _ (clear_rows_ok d 64 ltac:(lia) Hw)). reflexivity.
  - intros Hh Hw. unfold clear_gdram. unfold for_range at 1. change (64 - 0) with 64.
    apply bind_raise.
    replace 64 with (lcd_height d + (64 - lcd_height d)) by ring.
    rewrite seqZ_app by lia. rewrite for_each_app.
    rewrite (bind_ok _ _ _ _ _ (clear_rows_ok d (lcd_height d) ltac:(lia) Hw)).
    rewrite Z.add_0_l, seqZ_cons by lia. cbn [for_each].
    apply bind_raise, bind_raise. apply set_gdram_address_raise. simpl. lia.
  - intros Hw. unfold clear_gdram. unfold for_range at 1.
    apply bind_raise. change (64 - 0) with 64. rewrite seqZ_cons by lia.
    cbn [for_each]. apply bind_raise, bind_raise. apply set_gdram_address_raise.
    assert (lcd_width d / 16 ≤ 0); [|lia].
    apply Z.lt_succ_r, Z.div_lt_upper_bound; lia.
Qed.

Lemma X10_witness :
  clear_gdram (ST7920_init 128 64)
  = (Ok tt, with_old_buffer (sent (ST7920_init 128 64) (flat_map clear_row (seqZ 0 64)))
                            None)
  ∧ clear_gdram (ST7920_init 128 32)
    = (Raise ValueError, sent (ST7920_init 128 32) (flat_map clear_row (seqZ 0 32)))
  ∧ clear_gdram (ST7920_init 8 64) = (Raise ValueError, ST7920_init 8 64).
Proof.
  split; [|split].
  - apply (X10_clear_gdram_assumes_64_rows (ST7920_init 128 64)); by vm_compute.
  - apply (X10_clear_gdram_assumes_64_rows (ST7920_init 128 32)); by vm_compute.
  - apply (X10_clear_gdram_assumes_64_rows (ST7920_init 8 64)); by vm_compute.
Defined.

(** X11. [write_str] always returns and sends one data transfer per
    character, in the order of the string; the byte a transfer carries is
    the character's code modulo 256, so a character beyond U+00FF goes
    out as its low byte and nothing is raised. *)
Theorem X11_write_str_sends_low_bytes :
  ∀ (s : list Z) (d : ST7920),
    ∃ frames,
      write_str s d = (Ok tt, sent d frames)
      ∧ frame_byte <$> frames = (fun c => Some (c mod 256)) <$> s
      ∧ Forall (fun fr => frame_is_data fr = Some true ∧ Forall is_byte fr) frames.
Proof.
  intros s d. exists ((fun c => spi_frame c true) <$> s). split; [|split].
  - unfold write_str.
    rewrite (for_each_sent_all s _ (fun c => [spi_frame c true])).
    + assert (E : flat_map (fun c => [spi_frame c true]) s
                  = (fun c => spi_frame c true) <$> s).
      { clear. induction s as [|c s IH]; simpl; [done|]. by rewrite IH. }
      by rewrite E.
    + intros c l0 _. unfold _send_data. by rewrite _send_sent, sent_sent.
  - rewrite <- list_fmap_compose. apply list_fmap_ext. intros i c _.
    cbn [compose]. apply spi_frame_spec.
  - apply Forall_fmap, Forall_forall. intros c _. simpl.
    destruct (spi_frame_spec c true) as (Hb & _ & Hd). by split.
Qed.

(** X12. [set_ddram_address] always returns and sends one command whose
    byte is 128 plus the address modulo 128: bit 7 marks the command and
    the address keeps its low seven bits, so [0x80] names the cell 0. *)
Theorem X12_set_ddram_address_keeps_seven_bits :
  ∀ (addr : Z) (d : ST7920),
    ∃ fr, set_ddram_address addr d = (Ok tt, sent d [fr])
          ∧ frame_is_data fr = Some false
          ∧ frame_byte fr = Some (128 + addr mod 128)
          ∧ set_ddram_address (addr + 128) d = set_ddram_address addr d.
Proof.
  intros addr d.
  assert (E : ∀ a, Z.lor (Z.land a 127) 128 = 128 + a mod 128).
  { intros a. change 127 with (Z.ones 7). rewrite Z.land_ones by lia.
    rewrite Z.lor_comm. apply lor_128. change (2 ^ 7) with 128.
    apply Z.mod_pos_bound. lia. }
  exists (spi_frame (128 + addr mod 128) false).
  destruct (spi_frame_spec (128 + addr mod 128) false) as (_ & Hv & Hd).
  pose proof (Z.mod_pos_bound addr 128 ltac:(lia)) as B.
  unfold set_ddram_address, _send_cmd. rewrite !E, !_send_sent.
  split; [done|]. split; [done|]. split.
  - rewrite Hv. f_equal. apply Z.mod_small. lia.
  - replace ((addr + 128) mod 128) with (addr mod 128); [done|].
    rewrite <- (Z.mul_1_l 128) at 2. by rewrite Z.mod_add by lia.
Qed.

(** X13. Whatever its arguments and whether it raises or not,
    [set_instruction_set] records [extended] as given and sends the
    function-set command for it first ([0x34] extended, [0x30] basic);
    only a call with both arguments true sends a second command, [0x36].
    It never clears [graphics]: the attribute is set by a call with both
    arguments true and keeps its value in every other call, also in one
    that goes back to the basic set. *)
Theorem X13_set_instruction_set_never_clears_graphics :
  ∀ (ext gr : bool) (d : ST7920),
    ∃ f rest,
      snd (set_instruction_set ext gr d)
      = mkST7920 (lcd_width d) (lcd_height d) ext (graphics d || (gr && ext))
                 (old_buffer d) (spi d ++ f :: rest)
      ∧ frame_is_data f = Some false
      ∧ frame_byte f = Some (if ext then 52 else 48)
      ∧ rest = (if gr && ext then [spi_frame 54 false] else []).
Proof.
  intros ext gr d. destruct d as [w hh e g ob bus].
  destruct ext, gr; eexists _, _; (split; [|split; [|split]]);
    try reflexivity; cbn; rewrite ?orb_true_r, ?orb_false_r, <- ?app_assoc;
    reflexivity.
Qed.

(** ** A write that fails *)

Lemma bus_only_refl s : bus_only s s.
Proof. repeat split. exists []. by rewrite app_nil_r. Qed.

Lemma bus_only_trans s1 s2 s3 : bus_only s1 s2 → bus_only s2 s3 → bus_only s1 s3.
Proof.
  intros (A1 & B1 & C1 & D1 & E1 & l1 & F1) (A2 & B2 & C2 & D2 & E2 & l2 & F2).
  repeat split; try congruence. exists (l1 ++ l2). by rewrite F2, F1, app_assoc.
Qed.

Lemma bus_only_sent d l h : bus_only (d, h) (sent d l, h).
Proof. repeat split. by exists l. Qed.

Lemma stays_bind {S A B} (R : S → S → Prop) (m : St S A) (k : A → St S B) :
  (∀ s1 s2 s3, R s1 s2 → R s2 s3 → R s1 s3) →
  stays R m → (∀ a, stays R (k a)) → stays R (bind m k).
Proof.
  intros Htr Hm Hk s. unfold bind. specialize (Hm s).
  destruct (m s) as [[a|e] s1]; simpl in *; [|done].
  eapply Htr; [exact Hm | apply Hk].
Qed.

Lemma stays_for_each {S A} (R : S → S → Prop) (l : list A) body :
  (∀ s, R s s) → (∀ s1 s2 s3, R s1 s2 → R s2 s3 → R s1 s3) →
  (∀ a, stays R (body a)) → stays R (for_each l body).
Proof.
  intros Hrefl Htr Hb. induction l as [|a l IH]; simpl.
  - intros s. apply Hrefl.
  - apply stays_bind; [done | apply Hb | intros _; apply IH].
Qed.

Lemma stays_read_word bmp row col : stays bus_only (on_heap (read_word bmp row col)).
Proof.
  intros [d h]. unfold on_heap, read_word, bind, get_obj. cbn [fst snd].
  destruct (h !! bmp) as [o|]; cbn [fst snd]; [|apply bus_only_refl].
  destruct (np.getitem (words o) row col); apply bus_only_refl.
Qed.

Lemma stays_set_gdram_address row col :
  stays bus_only (on_driver (set_gdram_address row col)).
Proof.
  intros [d h]. unfold on_driver. cbn [fst snd].
  destruct (on_display d row col) eqn:E.
  - unfold on_display in E. rewrite !andb_true_iff, !Z.leb_le, !Z.ltb_lt in E.
    rewrite set_gdram_address_ok by lia. apply bus_only_sent.
  - rewrite set_gdram_address_raise; [apply bus_only_refl|].
    intros H. unfold on_display in E.
    rewrite !andb_false_iff, !Z.leb_gt, !Z.ltb_ge in E. lia.
Qed.

Lemma stays_write_gdram_word w : stays bus_only (on_driver (write_gdram_word w)).
Proof.
  intros [d h]. unfold on_driver. cbn [fst snd]. rewrite write_gdram_word_ok.
  apply bus_only_sent.
Qed.

Lemma stays_write_changed_word bmp row col :
  stays bus_only (write_changed_word bmp row col).
Proof.
  unfold write_changed_word.
  apply stays_bind; [apply bus_only_trans | apply stays_read_word | intros w].
  apply stays_bind; [apply bus_only_trans | intros [d h]; apply bus_only_refl | intros d0].
  apply stays_bind; [apply bus_only_trans | |].
  - destruct (old_buffer d0); [|intros [d h]; apply bus_only_refl].
    apply stays_bind; [apply bus_only_trans | apply stays_read_word |].
    intros w' [d h]. apply bus_only_refl.
  - intros ow. destruct (negb _); [|intros [d h]; apply bus_only_refl].
    apply stays_bind; [apply bus_only_trans | apply stays_set_gdram_address |].
    intros _. apply stays_write_gdram_word.
Qed.

Lemma stays_scan bmp (o : Bitmap) :
  stays bus_only
    (for_range 0 (height o)
       (fun row => for_range 0 (width o / 16)
          (fun col_word => write_changed_word bmp row col_word))).
Proof.
  apply stays_for_each; [apply bus_only_refl | apply bus_only_trans | intros row].
  apply stays_for_each; [apply bus_only_refl | apply bus_only_trans | intros col].
  apply stays_write_changed_word.
Qed.

(** A loop whose rounds return on the elements that satisfy [P] and
    raise [e] on the others returns when all satisfy [P] and raises [e]
    otherwise. *)
Lemma for_each_classify {S A} (I : S → Prop) (P : A → bool) (e : exn)
    (l : list A) (body : A → St S unit) :
  (∀ a s, a ∈ l → I s →
     ∃ s', I s' ∧ body a s = (if P a then Ok tt else Raise e, s')) →
  ∀ s, I s →
    ∃ s', I s' ∧ for_each l body s = (if forallb P l then Ok tt else Raise e, s').
Proof.
  induction l as [|a l IH]; intros Hbody s Hs; simpl.
  - by exists s.
  - destruct (Hbody a s ltac:(left) Hs) as (s1 & Hs1 & E1).
    unfold bind. rewrite E1. destruct (P a); simpl.
    + apply IH; [|done]. intros b s2 Hb. apply Hbody. by right.
    + by exists s1.
Qed.

(** Without a baseline every word is transmitted: the word of a
    position of the display goes out, that of another position raises. *)
Lemma write_changed_word_fresh d h bmp o row col l :
  h !! bmp = Some o → surface_ok o → old_buffer d = None →
  0 ≤ row < height o → 0 ≤ col < width o / 16 →
  ∃ l', write_changed_word bmp row col (sent d l, h)
        = (if on_display d row col then Ok tt else Raise ValueError, (sent d l', h)).
Proof.
  intros Hb Hs Hnone Hr Hc.
  pose proof (word_at_getitem o row col Hs Hr Hc) as Hw.
  destruct (on_display d row col) eqn:E.
  - exists (l ++ transmission row col (word_at o row col)). rewrite <- sent_sent.
    unfold on_display in E. rewrite !andb_true_iff, !Z.leb_le, !Z.ltb_lt in E.
    apply (write_changed_word_send (sent d l) h bmp o row col (word_at o row col));
      simpl; try done; try lia. by rewrite Hnone.
  - exists l.
    unfold write_changed_word, read_word, on_heap, on_driver, get_obj, get_driver, bind.
    cbn [fst snd]. rewrite Hb. cbn [fst snd]. rewrite Hw. cbn [fst snd ret].
    cbn [old_buffer sent]. rewrite Hnone. cbn [fst snd ret].
    rewrite bool_decide_eq_false_2 by done. cbn [negb fst snd].
    rewrite set_gdram_address_raise; [done|].
    intros H. unfold on_display in E.
    rewrite !andb_false_iff, !Z.leb_gt, !Z.ltb_ge in E. simpl in H. lia.
Qed.

(** X14. Whatever [write_gdram_buffer] is given and however it ends, it
    changes no object of the store, nor the driver's size and modes, and
    what was on the bus is still there, followed by what the call sent.
    When it does not return, nothing was created and the baseline is the
    one before the call, although words may have gone out.  Without a
    baseline, a non-empty surface is written if and only if it fits the
    display: a surface with more rows or more words per row than the
    display raises ValueError. *)
Theorem X14_failed_write_keeps_the_baseline :
  ∀ (bmp : ref) (d : ST7920) (h : heap) (r : result unit) (d' : ST7920) (h' : heap),
    write_gdram_buffer bmp (d, h) = (r, (d', h')) →
    (∀ i o, h !! i = Some o → h' !! i = Some o)
    ∧ lcd_size d' = lcd_size d ∧ extended d' = extended d ∧ graphics d' = graphics d
    ∧ (∃ l, spi d' = spi d ++ l)
    ∧ (r ≠ Ok tt → h' = h ∧ old_buffer d' = old_buffer d)
    ∧ (∀ o, h !! bmp = Some o → surface_ok o → old_buffer d = None →
         0 < height o → 0 < width o / 16 →
         (r = Ok tt ↔ fits d o) ∧ (r = Raise ValueError ↔ ¬ fits d o)).
Proof.
  intros bmp d h r d' h' E. unfold write_gdram_buffer in E.
  unfold bind at 1 in E. unfold on_heap at 1 in E. unfold get_obj in E.
  cbn [fst snd] in E.
  destruct (h !! bmp) as [o|] eqn:Hb.
  2:{ injection E as <- <- <-. repeat split; try done.
      - exists []. by rewrite app_nil_r. }
  pose proof (stays_scan bmp o (d, h)) as Hst.
  unfold bind at 1 in E.
  destruct (for_range 0 (height o) _ (d, h)) as [[[]|e] [d2 h2]] eqn:Eloop.
  - (* the scan returned *)
    destruct Hst as (Hh & Hsz & Hex & Hgr & Hob & l & Hl). cbn [fst snd] in *. subst h2.
    unfold bind, on_heap, on_driver, deepcopy, set_old_buffer in E. cbn [fst snd] in E.
    rewrite Hb in E. injection E as <- <- <-. cbn [lcd_size lcd_width lcd_height extended graphics spi].
    split; [intros i oi Hi; rewrite lookup_app_l; [done | by eapply lookup_lt_Some]|].
    split; [done|]. split; [done|]. split; [done|]. split; [by exists l|].
    split; [done|].
    intros o0 [= <-] Hs Hnone Hrows Hcols.
    assert (Hfit : fits d o); [|by split; split].
    destruct (for_each_classify
                (fun s : ST7920 * heap => ∃ l, s = (sent d l, h))
                (fun row => forallb (on_display d row) (seqZ 0 (width o / 16)))
                ValueError (seqZ 0 (height o))
                (fun row => for_range 0 (width o / 16)
                              (fun col_word => write_changed_word bmp row col_word)))
      with (s := (d, h)) as (s' & _ & Ecl).
    { intros row s Hrow [l0 ->]. apply elem_of_seqZ in Hrow.
      destruct (for_each_classify
                  (fun s : ST7920 * heap => ∃ l, s = (sent d l, h))
                  (on_display d row) ValueError (seqZ 0 (width o / 16))
                  (fun col_word => write_changed_word bmp row col_word))
        with (s := (sent d l0, h)) as (s' & Hs' & Ecl); [|by eexists|].
      - intros col s Hcol [l1 ->]. apply elem_of_seqZ in Hcol.
        destruct (write_changed_word_fresh d h bmp o row col l1) as [l2 El2];
          try done; try lia.
        exists (sent d l2, h). split; [by eexists | done].
      - exists s'. split; [done|]. unfold for_range. by rewrite Z.sub_0_r. }
    { exists []. by rewrite sent_nil. }
    unfold for_range at 1 in Eloop. rewrite Z.sub_0_r in Eloop. rewrite Eloop in Ecl.
    destruct (forallb _ (seqZ 0 (height o))) eqn:Hall; [|done].
    rewrite forallb_forall in Hall.
    specialize (Hall (height o - 1)
                  ltac:(apply list_elem_of_In, elem_of_seqZ; lia)).
    rewrite forallb_forall in Hall.
    specialize (Hall (width o / 16 - 1)
                  ltac:(apply list_elem_of_In, elem_of_seqZ; lia)).
    unfold on_display in Hall. rewrite !andb_true_iff, !Z.leb_le, !Z.ltb_lt in Hall.
    split; lia.
  - (* the scan raised *)
    injection E as <- <- <-.
    destruct Hst as (Hh & Hsz & Hex & Hgr & Hob & l & Hl). cbn [fst snd] in *. subst h2.
    split; [done|]. split; [done|]. split; [done|]. split; [done|].
    split; [by exists l|]. split; [done|].
    intros o0 [= <-] Hs Hnone Hrows Hcols.
    destruct (for_each_classify
                (fun s : ST7920 * heap => ∃ l, s = (sent d l, h))
                (fun row => forallb (on_display d row) (seqZ 0 (width o / 16)))
                ValueError (seqZ 0 (height o))
                (fun row => for_range 0 (width o / 16)
                              (fun col_word => write_changed_word bmp row col_word)))
      with (s := (d, h)) as (s' & _ & Ecl).
    { intros row s Hrow [l0 ->]. apply elem_of_seqZ in Hrow.
      destruct (for_each_classify
                  (fun s : ST7920 * heap => ∃ l, s = (sent d l, h))
                  (on_display d row) ValueError (seqZ 0 (width o / 16))
                  (fun col_word => write_changed_word bmp row col_word))
        with (s := (sent d l0, h)) as (s' & Hs' & Ecl); [|by eexists|].
      - intros col s Hcol [l1 ->]. apply elem_of_seqZ in Hcol.
        destruct (write_changed_word_fresh d h bmp o row col l1) as [l2 El2];
          try done; try lia.
        exists (sent d l2, h). split; [by eexists | done].
      - exists s'. split; [done|]. unfold for_range. by rewrite Z.sub_0_r. }
    { exists []. by rewrite sent_nil. }
    unfold for_range at 1 in Eloop. rewrite Z.sub_0_r in Eloop. rewrite Eloop in Ecl.
    destruct (forallb _ (seqZ 0 (height o))) eqn:Hall; [done|].
    injection Ecl as -> _.
    assert (Hnofit : ¬ fits d o); [|by split; split].
    intros [Hfh Hfw].
    assert (Hall' : forallb (fun row => forallb (on_display d row) (seqZ 0 (width o / 16)))
                            (seqZ 0 (height o)) = true); [|congruence].
    apply forallb_forall. intros row Hrow.
    apply list_elem_of_In, elem_of_seqZ in Hrow.
    apply forallb_forall. intros col Hcol.
    apply list_elem_of_In, elem_of_seqZ in Hcol.
    unfold on_display. rewrite !andb_true_iff, !Z.leb_le, !Z.ltb_lt. lia.
Qed.

Lemma failed_write_16x2 :
  write_gdram_buffer 0%nat (lcd_16x2, scene_32x2)
  = (Raise ValueError, (lcd_16x2_failed, scene_32x2)).
Proof. vm_compute. reflexivity. Qed.

Lemma X14_witness :
  old_buffer lcd_16x2_failed = None
  ∧ ∃ l, spi lcd_16x2_failed = spi lcd_16x2 ++ l.
Proof.
  destruct (X14_failed_write_keeps_the_baseline 0%nat lcd_16x2 scene_32x2
              (Raise ValueError) lcd_16x2_failed scene_32x2 failed_write_16x2)
    as (_ & _ & _ & _ & Hbus & Hkeep & _).
  split; [|exact Hbus].
  destruct Hkeep as [_ Hold]; [discriminate|]. exact Hold.
Defined.

(** ** The constructor and the last word of a row *)

Lemma getitem_zeros (r c : Z) (a : np.ndarray) (i j : Z) :
  np.zeros r c = Ok a → 0 ≤ i → 0 ≤ j →
  np.getitem a i j = if (i <? r) && (j <? c) then Some 0 else None.
Proof.
  unfold np.zeros. destruct ((r <? 0) || (c <? 0)) eqn:E; [done|].
  apply orb_false_elim in E as [Hr Hc]. apply Z.ltb_ge in Hr, Hc.
  intros [= <-] Hi Hj. unfold np.getitem. cbn [np.cells].
  destruct (Z.ltb_spec i r).
  - rewrite lookup_replicate_2 by lia. cbn [andb mbind option_bind].
    destruct (Z.ltb_spec j c).
    + by rewrite lookup_replicate_2 by lia.
    + apply lookup_replicate_None. lia.
  - cbn [andb].
    assert (E : replicate (Z.to_nat r) (replicate (Z.to_nat c) 0) !! Z.to_nat i = None)
      by (apply lookup_replicate_None; lia).
    by rewrite E.
Qed.

Lemma wf_zeros (r c : Z) (a : np.ndarray) :
  np.zeros r c = Ok a →
  np.wf a ∧ Z.of_nat (np.nrows a) = r ∧ Z.of_nat (np.ncols a) = c.
Proof.
  unfold np.zeros. destruct ((r <? 0) || (c <? 0)) eqn:E; [done|].
  apply orb_false_elim in E as [Hr Hc]. apply Z.ltb_ge in Hr, Hc.
  intros [= <-]. simpl. split; [|lia]. split; simpl.
  - by rewrite length_replicate.
  - apply Forall_replicate. by rewrite length_replicate.
Qed.

(** X15. [Bitmap.__init__] raises ValueError for a negative width or
    height.  Otherwise it creates a dirty object with [height] rows of
    [width // 16] words, all zero.  The pixels of the whole words read 0;
    when the width is not a multiple of 16, the remaining pixels of a row
    pass the bounds test of [get_pixel] and [set_pixel] but have no word:
    both methods raise IndexError on them, and [set_pixel] changes
    nothing, under either version of NumPy. *)
Theorem X15_pixels_beyond_the_last_word :
  ∀ (w hh : Z) (parent : option ref) (bm : BlendMode) (k : Kind) (h : heap),
    (w < 0 ∨ hh < 0 → Bitmap_init w hh parent bm k h = (Raise ValueError, h))
    ∧ (0 ≤ w → 0 ≤ hh →
       ∃ o, Bitmap_init w hh parent bm k h = (Ok (length h), h ++ [o])
            ∧ width o = w ∧ height o = hh ∧ _is_dirty o = true
            ∧ _parent o = parent ∧ _blend_mode o = bm ∧ kind o = k
            ∧ (w mod 16 = 0 → surface_ok o)
            ∧ (∀ x y, in_bounds o x y = true →
                 get_pixel (length h) x y (h ++ [o])
                 = (if x <? 16 * (w / 16) then Ok 0 else Raise IndexError, h ++ [o]))
            ∧ (∀ c x y v, in_bounds o x y = true → 16 * (w / 16) ≤ x →
                 set_pixel_under c (length h) x y v (h ++ [o])
                 = (Raise IndexError, h ++ [o]))).
Proof.
  intros w hh parent bm k h. split.
  - intros Hneg. unfold Bitmap_init, bind, lift, np.zeros.
    assert (E : (hh <? 0) || (w / 16 <? 0) = true).
    { apply orb_true_iff. rewrite !Z.ltb_lt. Z.div_mod_to_equations. lia. }
    by rewrite E.
  - intros Hw Hh.
    destruct (np.zeros hh (w / 16)) as [a|e] eqn:Ez.
    2:{ unfold np.zeros in Ez.
        assert (E : (hh <? 0) || (w / 16 <? 0) = false).
        { apply orb_false_iff. rewrite !Z.ltb_ge. Z.div_mod_to_equations. lia. }
        by rewrite E in Ez. }
    destruct (wf_zeros _ _ _ Ez) as (Hwf & Hr & Hc).
    exists (mkBitmap w hh a true parent bm k).
    assert (Hl : (h ++ [mkBitmap w hh a true parent bm k]) !! length h
                 = Some (mkBitmap w hh a true parent bm k)).
    { rewrite lookup_app_r by lia. by rewrite Nat.sub_diag. }
    split; [unfold Bitmap_init, bind, lift, alloc; by rewrite Ez|].
    do 6 (split; [done|]).
    split; [intros Hm; exact (conj Hm (conj Hwf (conj Hr Hc)))|]. split.
    + intros x y Hb. unfold get_pixel, bind, get_obj. rewrite Hl, Hb. cbn [negb words].
      unfold in_bounds in Hb. cbn [width height] in Hb.
      rewrite !andb_true_iff, !Z.leb_le, !Z.ltb_lt in Hb.
      rewrite (getitem_zeros _ _ _ y (x / 16) Ez) by (Z.div_mod_to_equations; lia).
      rewrite (proj2 (Z.ltb_lt y hh)) by lia. cbn [andb].
      destruct (Z.ltb_spec x (16 * (w / 16))).
      * rewrite (proj2 (Z.ltb_lt (x / 16) (w / 16)))
          by (Z.div_mod_to_equations; lia).
        unfold ret. by rewrite Z.shiftr_0_l.
      * rewrite (proj2 (Z.ltb_ge (x / 16) (w / 16)))
          by (Z.div_mod_to_equations; lia). done.
    + intros c x y v Hb Hx. unfold set_pixel_under, bind, get_obj.
      rewrite Hl, Hb. cbn [negb words].
      unfold in_bounds in Hb. cbn [width height] in Hb.
      rewrite !andb_true_iff, !Z.leb_le, !Z.ltb_lt in Hb.
      rewrite (getitem_zeros _ _ _ y (x / 16) Ez) by (Z.div_mod_to_equations; lia).
      rewrite (proj2 (Z.ltb_ge (x / 16) (w / 16))) by (Z.div_mod_to_equations; lia).
      by rewrite andb_false_r.
Qed.

Lemma X15_witness :
  Bitmap_init (-1) 4 None ON KBitmap [] = (Raise ValueError, [])
  ∧ ∃ o, Bitmap_init 20 1 None ON KBitmap [] = (Ok 0%nat, [o])
         ∧ get_pixel 0%nat 15 0 [o] = (Ok 0, [o])
         ∧ get_pixel 0%nat 17 0 [o] = (Raise IndexError, [o])
         ∧ set_pixel 0%nat 17 0 true [o] = (Raise IndexError, [o]).
Proof.
  split.
  - apply (X15_pixels_beyond_the_last_word (-1) 4 None ON KBitmap []). lia.
  - destruct (X15_pixels_beyond_the_last_word 20 1 None ON KBitmap []) as [_ H].
    destruct H as (o & E & Hw & Hh & _ & _ & _ & _ & _ & Hget & Hset); [lia | lia |].
    exists o. split; [exact E|].
    assert (B15 : in_bounds o 15 0 = true) by (unfold in_bounds; by rewrite Hw, Hh).
    assert (B17 : in_bounds o 17 0 = true) by (unfold in_bounds; by rewrite Hw, Hh).
    split; [exact (Hget 15 0 B15)|]. split; [exact (Hget 17 0 B17)|].
    apply (Hset np.NEP50 17 0 true B17). by vm_compute.
Defined.

(** ** Cycles of containers *)

(** On a chain of parents that runs into a cycle [dirty] never ends. *)
Lemma dirty_rec_cycle fuel : ∀ r h a oa p,
  ancestor h r a → h !! a = Some oa → _parent oa = Some p → ancestor h p a →
  ∃ h', dirty_rec fuel r h = (Raise RecursionError, h').
Proof.
  induction fuel as [|fuel IH]; intros r h a oa p Hra Ha Hp Hpa; simpl.
  - by exists h.
  - assert (Hr : ∃ o q, h !! r = Some o ∧ _parent o = Some q ∧ ancestor h q a).
    { destruct Hra as [r|r q a o Hr Hq Hqa].
      - by exists oa, p.
      - by exists o, q. }
    destruct Hr as (o & q & Hr & Hq & Hqa).
    unfold bind, get_obj, put_obj. rewrite Hr. cbn [fst snd]. rewrite Hq.
    set (h1 := <[r := with_dirty o true]> h).
    assert (Ht : touch (fun _ => False) h h1) by (by apply touch_insert_flag).
    pose proof (parents_touch _ _ _ Ht) as Hps.
    destruct Ht as [_ Ht]. destruct (Ht a oa Ha) as (oa' & Ha' & Hst & _).
    apply (IH q h1 a oa' p).
    + by apply (ancestor_parents h).
    + done.
    + destruct Hst as (_ & _ & Hpar & _). congruence.
    + by apply (ancestor_parents h).
Qed.

(** X16. [dirty] follows the parents until an object has none.  When the
    chain of parents of an object runs into a cycle, [dirty] on it does
    not return: it raises RecursionError.  [add] makes such cycles: it
    accepts the container itself as the drawable, and after [g.add(g)]
    every [g.dirty()] raises. *)
Theorem X16_dirty_on_a_cycle_raises :
  ∀ (h : heap),
    (∀ r a oa p,
       ancestor h r a → h !! a = Some oa → _parent oa = Some p → ancestor h p a →
       ∃ h', dirty r h = (Raise RecursionError, h'))
    ∧ (∀ g og cs,
         h !! g = Some og → kind og = KGraphicsBuffer cs →
         ∃ h1 h2, GraphicsBuffer_add g g h = (Ok tt, h1)
                  ∧ dirty g h1 = (Raise RecursionError, h2)).
Proof.
  intros h. split.
  - intros r a oa p Hra Ha Hp Hpa. unfold dirty. by eapply dirty_rec_cycle.
  - intros g og cs Hg Hk.
    assert (Lg : (g < length h)%nat) by (by eapply lookup_lt_Some).
    set (og1 := with_parent og (Some g)).
    set (og2 := with_kind og1 (KGraphicsBuffer (cs ++ [g]))).
    assert (E : GraphicsBuffer_add g g h = (Ok tt, <[g := og2]> (<[g := og1]> h))).
    { unfold GraphicsBuffer_add, modify_obj, bind, get_obj, put_obj.
      rewrite Hg. cbn [fst snd]. rewrite list_lookup_insert_eq by done.
      cbn [kind with_parent]. rewrite Hk. reflexivity. }
    set (h1 := <[g := og2]> (<[g := og1]> h)) in *.
    assert (Hg1 : h1 !! g = Some og2).
    { apply list_lookup_insert_eq. by rewrite length_insert. }
    assert (Hanc : ancestor h1 g g) by constructor.
    destruct (dirty_rec_cycle (S (length h1)) g h1 g og2 g Hanc Hg1 eq_refl Hanc)
      as [h2 E2].
    by exists h1, h2.
Qed.

Lemma X16_witness :
  ∃ h1 h2, GraphicsBuffer_add 0%nat 0%nat scene_32x2 = (Ok tt, h1)
           ∧ dirty 0%nat h1 = (Raise RecursionError, h2).
Proof.
  destruct (X16_dirty_on_a_cycle_raises scene_32x2) as [_ H].
  exact (H 0%nat _ [] eq_refl eq_refl).
Defined.

(** ** A drawable in two containers *)

(** X17. [add] never takes a drawable away from the container it was in.
    After [g1.add(c)] and [g2.add(c)] the drawable is a child of both
    containers, drawn by both, but its parent is the last one: a later
    [c.dirty()] (here with [g2] at the top of its chain) returns with the
    flag set on [c] and on [g2], and leaves the flag of [g1] as it was. *)
Theorem X17_add_keeps_the_former_container :
  ∀ (h : heap) (g1 g2 c : ref) (og1 og2 oc : Bitmap) (cs1 cs2 : list ref),
    h !! g1 = Some og1 → h !! g2 = Some og2 → h !! c = Some oc →
    kind og1 = KGraphicsBuffer cs1 → kind og2 = KGraphicsBuffer cs2 →
    g1 ≠ g2 → c ≠ g1 → c ≠ g2 → _parent og2 = None →
    ∃ h' og1' og2' oc',
      (GraphicsBuffer_add g1 c ;; GraphicsBuffer_add g2 c ;; dirty c) h = (Ok tt, h')
      ∧ h' !! g1 = Some og1' ∧ h' !! g2 = Some og2' ∧ h' !! c = Some oc'
      ∧ kind og1' = KGraphicsBuffer (cs1 ++ [c])
      ∧ kind og2' = KGraphicsBuffer (cs2 ++ [c])
      ∧ _parent oc' = Some g2
      ∧ _is_dirty oc' = true ∧ _is_dirty og2' = true
      ∧ _is_dirty og1' = _is_dirty og1.
Proof.
  intros h g1 g2 c og1 og2 oc cs1 cs2 Hg1 Hg2 Hc Hk1 Hk2 N12 Nc1 Nc2 Hroot.
  assert (L1 : (g1 < length h)%nat) by (by eapply lookup_lt_Some).
  assert (L2 : (g2 < length h)%nat) by (by eapply lookup_lt_Some).
  assert (Lc : (c < length h)%nat) by (by eapply lookup_lt_Some).
  set (oc1 := with_parent oc (Some g1)).
  set (og1' := with_kind og1 (KGraphicsBuffer (cs1 ++ [c]))).
  set (ha := <[g1 := og1']> (<[c := oc1]> h)).
  assert (Ea : GraphicsBuffer_add g1 c h = (Ok tt, ha)).
  { unfold GraphicsBuffer_add, modify_obj, bind, get_obj, put_obj.
    rewrite Hc. cbn [fst snd]. rewrite list_lookup_insert_ne by done.
    rewrite Hg1. cbn [fst snd]. rewrite Hk1. reflexivity. }
  assert (Hca : ha !! c = Some oc1).
  { unfold ha. rewrite list_lookup_insert_ne by done.
    by apply list_lookup_insert_eq. }
  assert (H2a : ha !! g2 = Some og2).
  { unfold ha. by rewrite !list_lookup_insert_ne by done. }
  assert (H1a : ha !! g1 = Some og1').
  { unfold ha. apply list_lookup_insert_eq. by rewrite length_insert. }
  assert (La : length ha = length h) by (unfold ha; by rewrite !length_insert).
  set (oc2 := with_parent oc1 (Some g2)).
  set (og2' := with_kind og2 (KGraphicsBuffer (cs2 ++ [c]))).
  set (hb := <[g2 := og2']> (<[c := oc2]> ha)).
  assert (Eb : GraphicsBuffer_add g2 c ha = (Ok tt, hb)).
  { unfold GraphicsBuffer_add, modify_obj, bind, get_obj, put_obj.
    rewrite Hca. cbn [fst snd]. rewrite list_lookup_insert_ne by done.
    rewrite H2a. cbn [fst snd]. rewrite Hk2. reflexivity. }
  assert (Hcb : hb !! c = Some oc2).
  { unfold hb. rewrite list_lookup_insert_ne by done.
    apply list_lookup_insert_eq. lia. }
  assert (H2b : hb !! g2 = Some og2').
  { unfold hb. apply list_lookup_insert_eq. rewrite length_insert. lia. }
  assert (H1b : hb !! g1 = Some og1').
  { unfold hb. by rewrite !list_lookup_insert_ne by done. }
  assert (Lb : length hb = length h) by (unfold hb; rewrite !length_insert; lia).
  set (hc := <[g2 := with_dirty og2' true]> (<[c := with_dirty oc2 true]> hb)).
  assert (Ed : dirty c hb = (Ok tt, hc)).
  { unfold dirty. rewrite Lb.
    destruct (length h) as [|[|n]] eqn:El; [lia | lia |].
    cbn [dirty_rec]. unfold bind, get_obj, put_obj.
    rewrite Hcb. cbn [fst snd _parent with_parent oc2].
    rewrite list_lookup_insert_ne by done. rewrite H2b. cbn [fst snd].
    cbn [_parent with_kind og2']. rewrite Hroot. reflexivity. }
  exists hc, og1', (with_dirty og2' true), (with_dirty oc2 true).
  split.
  { rewrite (bind_ok _ _ _ _ _ Ea). rewrite (bind_ok _ _ _ _ _ Eb). exact Ed. }
  split; [unfold hc; by rewrite !list_lookup_insert_ne by done|].
  split; [unfold hc; apply list_lookup_insert_eq; rewrite length_insert; lia|].
  split.
  { unfold hc. rewrite list_lookup_insert_ne by done.
    apply list_lookup_insert_eq. lia. }
  by repeat split.
Qed.

Lemma X17_witness :
  ∃ h' og1' og2' oc',
    (GraphicsBuffer_add 0%nat 2%nat ;; GraphicsBuffer_add 1%nat 2%nat ;; dirty 2%nat)
      [mkBitmap 16 1 (np.mk 1 1 [[0]]) false None ON (KGraphicsBuffer []);
       mkBitmap 16 1 (np.mk 1 1 [[0]]) false None ON (KGraphicsBuffer []);
       mkBitmap 16 1 (np.mk 1 1 [[0]]) false None ON (KLine 0 0 3 0)]
    = (Ok tt, h')
    ∧ h' !! 0%nat = Some og1' ∧ h' !! 1%nat = Some og2' ∧ h' !! 2%nat = Some oc'
    ∧ _parent oc' = Some 1%nat ∧ _is_dirty og2' = true ∧ _is_dirty og1' = false.
Proof.
  destruct (X17_add_keeps_the_former_container
              [mkBitmap 16 1 (np.mk 1 1 [[0]]) false None ON (KGraphicsBuffer []);
               mkBitmap 16 1 (np.mk 1 1 [[0]]) false None ON (KGraphicsBuffer []);
               mkBitmap 16 1 (np.mk 1 1 [[0]]) false None ON (KLine 0 0 3 0)]
              0%nat 1%nat 2%nat _ _ _ [] [] eq_refl eq_refl eq_refl eq_refl eq_refl)
    as (h' & og1' & og2' & oc' & E & H1 & H2 & Hc & _ & _ & Hp & _ & Hd2 & Hd1);
    try lia; try reflexivity.
  exists h', og1', og2', oc'. by repeat split.
Defined.

(** ** Reversing a surface *)

Lemma getitem_None a i j :
  np.wf a → 0 ≤ i → 0 ≤ j →
  Z.of_nat (np.nrows a) ≤ i ∨ Z.of_nat (np.ncols a) ≤ j →
  np.getitem a i j = None.
Proof.
  intros [Hr Hc] Hi Hj Hout. unfold np.getitem.
  destruct (np.cells a !! Z.to_nat i) as [row|] eqn:E; [|done]. simpl.
  apply lookup_ge_None.
  rewrite Forall_forall in Hc. rewrite (Hc row) by (by eapply list_elem_of_lookup_2).
  apply lookup_lt_Some in E. lia.
Qed.

(** Two well-formed arrays of one shape with the same cells are equal. *)
Lemma ndarray_ext a b :
  np.wf a → np.wf b → np.nrows a = np.nrows b → np.ncols a = np.ncols b →
  (∀ i j, 0 ≤ i → 0 ≤ j → np.getitem a i j = np.getitem b i j) →
  a = b.
Proof.
  destruct a as [ra ca la], b as [rb cb lb]. unfold np.wf, np.getitem. simpl.
  intros [Hra Hca] [Hrb Hcb] -> -> Hget. f_equal.
  apply list_eq. intros i.
  destruct (la !! i) as [rowa|] eqn:Ea, (lb !! i) as [rowb|] eqn:Eb.
  - f_equal. apply list_eq. intros j.
    specialize (Hget (Z.of_nat i) (Z.of_nat j) ltac:(lia) ltac:(lia)).
    by rewrite !Nat2Z.id, Ea, Eb in Hget.
  - apply lookup_lt_Some in Ea. apply lookup_ge_None in Eb. lia.
  - apply lookup_ge_None in Ea. apply lookup_lt_Some in Eb. lia.
  - done.
Qed.

(** A counting loop whose rounds return and take the invariant from
    [k] to [k + 1]. *)
Lemma for_range_total {S} (I : Z → S → Prop) (lo hi : Z) (body : Z → St S unit) s :
  lo ≤ hi → I lo s →
  (∀ k s1, lo ≤ k < hi → I k s1 → ∃ s2, body k s1 = (Ok tt, s2) ∧ I (k + 1) s2) →
  ∃ s', for_range lo hi body s = (Ok tt, s') ∧ I hi s'.
Proof.
  unfold for_range. intros Hle.
  remember (Z.to_nat (hi - lo)) as n eqn:En. revert lo s Hle En.
  induction n as [|n IH]; intros lo s Hle En H0 Hstep.
  - assert (hi = lo) as -> by lia. rewrite Z.sub_diag. by exists s.
  - rewrite seqZ_cons by lia. cbn [for_each].
    destruct (Hstep lo s ltac:(lia) H0) as (s1 & E1 & H1).
    rewrite (bind_ok _ _ _ _ _ E1).
    replace (Z.succ lo) with (lo + 1) by lia.
    replace (Z.pred (hi - lo)) with (hi - (lo + 1)) by lia.
    apply IH; [lia | lia | done |].
    intros k s2 Hk. apply Hstep. lia.
Qed.

Lemma insert_same_object (h : heap) (self : ref) (o : Bitmap) :
  h !! self = Some o → <[self := with_words o (words o)]> h = h.
Proof. intros Ho. destruct o. by apply list_insert_id. Qed.

(** The two loops of [GraphicsBuffer.reverse] complement every word. *)
Lemma GraphicsBuffer_reverse_spec (h : heap) (self : ref) (o : Bitmap) :
  h !! self = Some o → surface_ok o →
  GraphicsBuffer_reverse self h
  = (Ok tt, <[self := with_words o (np.invert (words o))]> h).
Proof.
  intros Ho (Hm & Hwf & Hr & Hc).
  assert (Ls : (self < length h)%nat) by (by eapply lookup_lt_Some).
  set (a := words o) in *.
  set (flipped := fun (r c i j : Z) => (i <? r) || ((i =? r) && (j <? c))).
  set (Inv := fun (r c : Z) (s : heap) =>
                ∃ a', s = <[self := with_words o a']> h ∧ np.wf a'
                      ∧ np.nrows a' = np.nrows a ∧ np.ncols a' = np.ncols a
                      ∧ ∀ i j, 0 ≤ i → 0 ≤ j →
                          np.getitem a' i j
                          = if flipped r c i j
                            then (fun w => Z.lxor w 65535) <$> np.getitem a i j
                            else np.getitem a i j).
  unfold GraphicsBuffer_reverse.
  rewrite (bind_ok _ _ h o h) by (unfold get_obj; by rewrite Ho).
  destruct (for_range_total (fun r => Inv r 0) 0 (height o)
              (fun r => for_range 0 (width o / 16)
                          (fun w => update_words self
                                      (fun a0 => match np.getitem a0 r w with
                                                 | None => Raise IndexError
                                                 | Some v =>
                                                     Ok (np.setitem a0 r w (Z.lxor v 65535))
                                                 end))) h)
    as (h' & E & a' & -> & Hwf' & Hr' & Hc' & Hget); [lia| |..].
  - exists a. split; [by rewrite insert_same_object|]. repeat (split; [done|]).
    intros i j Hi Hj. unfold flipped.
    rewrite (proj2 (Z.ltb_ge i 0)) by lia. rewrite (proj2 (Z.ltb_ge j 0)) by lia.
    by rewrite andb_false_r.
  - intros r s1 Hrow Hs1.
    destruct (for_range_total (fun c => Inv r c) 0 (width o / 16)
                (fun w => update_words self
                            (fun a0 => match np.getitem a0 r w with
                                       | None => Raise IndexError
                                       | Some v => Ok (np.setitem a0 r w (Z.lxor v 65535))
                                       end)) s1)
      as (s2 & E2 & a2 & -> & Hwf2 & Hr2 & Hc2 & Hget2); [lia | done | |].
    + intros c s3 Hcol (a3 & -> & Hwf3 & Hr3 & Hc3 & Hget3).
      destruct (getitem_is_Some a r c Hwf ltac:(lia) ltac:(lia)) as [v Hv].
      assert (Hv3 : np.getitem a3 r c = Some v).
      { rewrite Hget3 by lia. unfold flipped.
        rewrite Z.ltb_irrefl, Z.eqb_refl, Z.ltb_irrefl. done. }
      exists (<[self := with_words o (np.setitem a3 r c (Z.lxor v 65535))]> h). split.
      * unfold update_words, bind, get_obj, put_obj, lift.
        rewrite list_lookup_insert_eq by done. cbn [fst snd words with_words].
        rewrite Hv3. cbn [fst snd]. by rewrite list_insert_insert_eq.
      * exists (np.setitem a3 r c (Z.lxor v 65535)). split; [done|].
        split; [by apply wf_setitem|]. split; [done|]. split; [done|].
        intros i j Hi Hj.
        destruct (decide (i = r ∧ j = c)) as [[-> ->]|Hne].
        -- rewrite (getitem_setitem_eq _ _ _ _ _ Hv3). unfold flipped.
           rewrite Z.eqb_refl, (proj2 (Z.ltb_lt c (c + 1))) by lia.
           rewrite orb_true_r, Hv. done.
        -- rewrite getitem_setitem_ne by (intros [= ? ?]; lia).
           rewrite Hget3 by done. unfold flipped.
           destruct (Z.eqb_spec i r) as [->|]; [|done].
           replace (j <? c + 1) with (j <? c); [done|].
           apply eq_true_iff_eq. rewrite !Z.ltb_lt. lia.
    + exists (<[self := with_words o a2]> h). split; [done|].
      exists a2. repeat (split; [done|]).
      intros i j Hi Hj. rewrite Hget2 by done. unfold flipped.
      destruct (Z.ltb_spec i r); [by rewrite (proj2 (Z.ltb_lt i (r + 1))) by lia|].
      destruct (Z.eqb_spec i r) as [->|].
      * rewrite (proj2 (Z.ltb_lt r (r + 1))) by lia. cbn [orb andb].
        destruct (Z.ltb_spec j (width o / 16)); [done|].
        rewrite (getitem_None a r j) by (try done; lia). done.
      * rewrite (proj2 (Z.ltb_ge i (r + 1))) by lia.
        rewrite (proj2 (Z.ltb_ge j 0)) by lia. by rewrite andb_false_r.
  - rewrite E. f_equal. f_equal. f_equal.
    apply ndarray_ext; [done | by apply wf_invert | done | done |].
    intros i j Hi Hj. rewrite Hget, getitem_invert by done. unfold flipped.
    rewrite (proj2 (Z.ltb_ge j 0)) by lia. rewrite andb_false_r, orb_false_r.
    destruct (Z.ltb_spec i (height o)); [done|].
    rewrite (getitem_None a i j) by (try done; lia). done.
Qed.

Lemma invert_invert a : np.invert (np.invert a) = a.
Proof.
  destruct a as [r c l]. unfold np.invert. simpl. f_equal.
  rewrite map_map. rewrite <- (map_id l) at 2. apply map_ext. intros row.
  rewrite map_map. rewrite <- (map_id row) at 2. apply map_ext. intros w.
  by rewrite Z.lxor_assoc, Z.lxor_nilpotent, Z.lxor_0_r.
Qed.

Lemma surface_ok_invert o : surface_ok o → surface_ok (with_words o (np.invert (words o))).
Proof.
  intros (Hm & Hwf & Hr & Hc). split; [done|]. split; [by apply wf_invert|]. by split.
Qed.

(** X18. On a well-formed surface [reverse] returns, whichever class the
    object has: the loop over the words of [GraphicsBuffer.reverse] and
    the single [^=] of [Bitmap.reverse] leave the same store.  Every
    pixel of the surface is inverted and nothing else changes: the dirty
    flags are what they were, so no container learns of the change.  A
    second [reverse] gives back the store before the first. *)
Theorem X18_reverse_inverts_every_pixel :
  ∀ (h : heap) (self : ref) (o : Bitmap),
    h !! self = Some o → surface_ok o →
    ∃ o',
      Bitmap_reverse self h = (Ok tt, <[self := o']> h)
      ∧ GraphicsBuffer_reverse self h = (Ok tt, <[self := o']> h)
      ∧ reverse self h = (Ok tt, <[self := o']> h)
      ∧ static o o' ∧ _is_dirty o' = _is_dirty o
      ∧ (∀ x y, in_bounds o x y = true → pixel o' x y = 1 - pixel o x y)
      ∧ reverse self (<[self := o']> h) = (Ok tt, h).
Proof.
  intros h self o Ho Hs.
  assert (Ls : (self < length h)%nat) by (by eapply lookup_lt_Some).
  set (o' := with_words o (np.invert (words o))).
  assert (EB : ∀ h0 o0, h0 !! self = Some o0 →
            Bitmap_reverse self h0
            = (Ok tt, <[self := with_words o0 (np.invert (words o0))]> h0)).
  { intros h0 o0 H0. unfold Bitmap_reverse, update_words, bind, get_obj, lift, put_obj.
    by rewrite H0. }
  assert (ER : ∀ h0 o0, h0 !! self = Some o0 → surface_ok o0 →
            reverse self h0
            = (Ok tt, <[self := with_words o0 (np.invert (words o0))]> h0)).
  { intros h0 o0 H0 Hs0. unfold reverse.
    rewrite (bind_ok _ _ h0 o0 h0) by (unfold get_obj; by rewrite H0).
    destruct (kind o0); try by apply EB. by apply GraphicsBuffer_reverse_spec. }
  exists o'. split; [by apply EB|]. split; [by apply GraphicsBuffer_reverse_spec|].
  split; [by apply ER|]. split; [by repeat split|]. split; [done|]. split.
  - intros x y Hb. unfold pixel.
    rewrite (in_bounds_static o o') by (by repeat split). rewrite Hb.
    unfold o'. cbn [words with_words]. rewrite getitem_invert.
    destruct (in_bounds_getitem o x y Hs Hb) as [w ->]. cbn [fmap option_fmap option_map].
    pose proof (in_bounds_bit o x y Hb) as Hbit.
    rewrite !land_shiftr_1 by lia. rewrite Z.lxor_spec.
    change 65535 with (Z.ones 16). rewrite Z.ones_spec_low by lia.
    by destruct (Z.testbit w (15 - x mod 16)).
  - rewrite (ER (<[self := o']> h) o').
    + rewrite list_insert_insert_eq. unfold o'. cbn [words with_words].
      rewrite invert_invert.
      replace (with_words (with_words o (np.invert (words o))) (words o))
        with (with_words o (words o)) by done.
      by rewrite insert_same_object.
    + by apply list_lookup_insert_eq.
    + by apply surface_ok_invert.
Qed.

Lemma X18_witness :
  ∃ o', reverse 0%nat scene_32x2 = (Ok tt, <[0%nat := o']> scene_32x2)
        ∧ pixel o' 5 1 = 1
        ∧ reverse 0%nat (<[0%nat := o']> scene_32x2) = (Ok tt, scene_32x2).
Proof.
  destruct (X18_reverse_inverts_every_pixel scene_32x2 0%nat _ eq_refl
              (proj2 (scene_32x2_surface_ok [0; 0]) eq_refl))
    as (o' & _ & _ & E & _ & _ & Hpx & Einv).
  exists o'. split; [exact E|]. split; [|exact Einv].
  exact (Hpx 5 1 eq_refl).
Defined.

(** ** Outlines: lines drawn apart and combined *)

Lemma bind_lift {S A B} (r : result A) (f : A → St S B) s a :
  r = Ok a → bind (lift r) f s = f a s.
Proof. by intros ->. Qed.

Lemma bind_lift_raise {S A B} (r : result A) (f : A → St S B) s e :
  r = Raise e → bind (lift r) f s = (Raise e, s).
Proof. by intros ->. Qed.

Lemma shaped_getitem a width height px py :
  width mod 16 = 0 →
  shaped a width height → 0 ≤ px < width → 0 ≤ py < height →
  is_Some (np.getitem a py (px / 16)).
Proof.
  intros Hm (Hwf & Hr & Hc) Hpx Hpy. apply getitem_is_Some; [done | lia |].
  rewrite Hc. Z.div_mod_to_equations. lia.
Qed.

Lemma pixel_bit_at o px py :
  surface_ok o → in_bounds o px py = true →
  pixel o px py = Z.b2z (bit_at (words o) px py).
Proof.
  intros Hs Hb. unfold pixel, bit_at. rewrite Hb.
  destruct (in_bounds_getitem o px py Hs Hb) as [w ->].
  pose proof (in_bounds_bit o px py Hb). apply land_shiftr_1. lia.
Qed.

Lemma in_bounds_range o px py :
  in_bounds o px py = true ↔ 0 ≤ px < width o ∧ 0 ≤ py < height o.
Proof.
  unfold in_bounds. rewrite !andb_true_iff, !Z.leb_le, !Z.ltb_lt. lia.
Qed.

Lemma surface_ok_shaped o : surface_ok o → shaped (words o) (width o) (height o).
Proof. by intros (_ & Hwf & Hr & Hc). Qed.

(** A line drawn on a surface of its own. *)
Lemma Line_surface_spec x1 y1 x2 y2 bm width height pts :
  0 ≤ width → 0 ≤ height → width mod 16 = 0 →
  line_trace x1 y1 x2 y2 = Some pts →
  ∃ a, Line_surface x1 y1 x2 y2 bm width height = Ok a
       ∧ shaped a width height
       ∧ ∀ px py, 0 ≤ px < width → 0 ≤ py < height →
           bit_at a px py = on_trace pts px py.
Proof.
  intros Hw Hh Hm Etr.
  destruct (np.zeros height (width / 16)) as [z|e] eqn:Ez.
  2:{ unfold np.zeros in Ez.
      assert (E : (height <? 0) || (width / 16 <? 0) = false).
      { apply orb_false_iff. rewrite !Z.ltb_ge. Z.div_mod_to_equations. lia. }
      by rewrite E in Ez. }
  destruct (wf_zeros _ _ _ Ez) as (Hwf & Hr & Hc).
  set (o0 := mkBitmap width height z true None bm (KLine x1 y1 x2 y2)).
  assert (Hs0 : surface_ok o0) by exact (conj Hm (conj Hwf (conj Hr Hc))).
  destruct (Line_draw_paints [o0] 0%nat o0 x1 y1 x2 y2 width height pts
              eq_refl eq_refl eq_refl Hs0 eq_refl Etr)
    as (h' & o' & E & Ho' & Hst & Hfl & Hs' & Hpx).
  destruct Hst as (Hw' & Hh' & _).
  exists (words o'). split.
  { unfold Line_surface.
    rewrite (bind_ok _ _ [] 0%nat [o0])
      by (unfold Line_init, Bitmap_init, bind, lift, alloc; by rewrite Ez).
    rewrite (bind_ok _ _ _ _ _ E).
    rewrite (bind_ok _ _ h' o' h') by (unfold get_obj; by rewrite Ho').
    reflexivity. }
  split.
  { pose proof (surface_ok_shaped o' Hs') as Hsh. by rewrite Hw', Hh' in Hsh. }
  intros px py Hpx' Hpy'.
  assert (Hb0 : in_bounds o0 px py = true) by (by apply in_bounds_range).
  assert (Hb' : in_bounds o' px py = true).
  { apply in_bounds_range. rewrite Hw', Hh'. by apply in_bounds_range. }
  specialize (Hpx px py Hb0). rewrite (pixel_bit_at o' px py Hs' Hb') in Hpx.
  by destruct (bit_at (words o') px py), (on_trace pts px py).
Qed.

(** With a negative size no line surface is made. *)
Lemma Line_surface_negative x1 y1 x2 y2 bm width height :
  width < 0 ∨ height < 0 →
  Line_surface x1 y1 x2 y2 bm width height = Raise ValueError.
Proof.
  intros Hneg. unfold Line_surface, Line_init, Bitmap_init, np.zeros.
  assert (E : (height <? 0) || (width / 16 <? 0) = true).
  { apply orb_true_iff. rewrite !Z.ltb_lt. Z.div_mod_to_equations. lia. }
  unfold bind, lift. by rewrite E.
Qed.

Lemma wf_inplace f a b c :
  np.wf a → np.inplace f a b = Ok c →
  np.wf c ∧ np.nrows c = np.nrows a ∧ np.ncols c = np.ncols a.
Proof.
  intros [Hr Hc]. unfold np.inplace. destruct (np.broadcastable a b); [|done].
  intros [= <-]. simpl. split; [|done]. split; simpl.
  - by rewrite length_imap.
  - apply Forall_lookup. intros i row Hi. rewrite list_lookup_imap in Hi.
    destruct (np.cells a !! i) as [ra|] eqn:Ea; simpl in Hi; [|done].
    injection Hi as <-.
    assert (Hra : length ra = np.ncols a).
    { rewrite Forall_lookup in Hc. by apply (Hc i). }
    destruct (np.cells b !! _); [|done].
    unfold np.bcast_row. by rewrite length_imap.
Qed.

(** [|] and [|=] on two arrays of one shape: the bits are combined. *)
Lemma inplace_lor_bits a b width height :
  width mod 16 = 0 →
  shaped a width height → shaped b width height →
  ∃ c, np.inplace Z.lor a b = Ok c
       ∧ shaped c width height
       ∧ ∀ px py, 0 ≤ px < width → 0 ≤ py < height →
           bit_at c px py = bit_at a px py || bit_at b px py.
Proof.
  intros Hm Ha Hb.
  pose proof Ha as (Hwa & Hra & Hca). pose proof Hb as (Hwb & Hrb & Hcb).
  destruct (inplace_same_shape Z.lor a b) as (c & E & Hget); [done | done | lia | lia |].
  destruct (wf_inplace _ _ _ _ Hwa E) as (Hwc & Hrc & Hcc).
  exists c. split; [done|]. split; [split; [done|]; split; congruence|].
  intros px py Hpx Hpy. unfold bit_at.
  destruct (shaped_getitem a width height px py Hm Ha Hpx Hpy) as [wa Ea].
  destruct (shaped_getitem b width height px py Hm Hb Hpx Hpy) as [wb Eb].
  rewrite (Hget _ _ _ _ Ea Eb), Ea, Eb. apply Z.lor_spec.
Qed.

Lemma bit_at_fill0 a px py : bit_at (np.fill0 a) px py = false.
Proof.
  unfold bit_at. rewrite getitem_fill0.
  destruct (np.getitem a py (px / 16)); simpl; [apply Z.testbit_0_l | done].
Qed.

Lemma shaped_fill0 a width height : shaped a width height → shaped (np.fill0 a) width height.
Proof. intros (Hwf & Hr & Hc). split; [by apply wf_fill0 | by split]. Qed.

(** The end of an outlined shape's [draw]: the lines are combined into
    the blank surface and the flag is cleared. *)
Lemma outline_finish (h : heap) (self : ref) (o : Bitmap) (all : np.ndarray) :
  h !! self = Some o → surface_ok o → shaped all (width o) (height o) →
  ∃ h1 h' o',
    update_words self (fun a => np.inplace Z.lor a all)
                 (<[self := with_words o (np.fill0 (words o))]> h) = (Ok tt, h1)
    ∧ (modify_obj self (fun o => with_dirty o false) ;; ret self) h1 = (Ok self, h')
    ∧ h' !! self = Some o' ∧ static o o' ∧ surface_ok o' ∧ _is_dirty o' = false
    ∧ (∀ r, r ≠ self → h' !! r = h !! r)
    ∧ ∀ px py, in_bounds o px py = true → pixel o' px py = Z.b2z (bit_at all px py).
Proof.
  intros Ho Hs Hall.
  assert (Ls : (self < length h)%nat) by (by eapply lookup_lt_Some).
  destruct (inplace_lor_bits (np.fill0 (words o)) all (width o) (height o))
    as (c & Ec & Hc & Hbits);
    [apply Hs | by apply shaped_fill0, surface_ok_shaped | done |].
  set (o1 := with_words (with_words o (np.fill0 (words o))) c).
  exists (<[self := o1]> h), (<[self := with_dirty o1 false]> h), (with_dirty o1 false).
  split.
  { unfold update_words, bind, get_obj, lift, put_obj.
    rewrite list_lookup_insert_eq by done. cbn [words with_words fst snd].
    rewrite Ec. cbn [fst snd]. by rewrite list_insert_insert_eq. }
  split.
  { unfold modify_obj, bind, get_obj, put_obj.
    rewrite list_lookup_insert_eq by done. cbn [fst snd].
    by rewrite list_insert_insert_eq. }
  assert (Hs1 : surface_ok (with_dirty o1 false)).
  { destruct Hs as (Hm & _). destruct Hc as (Hwc & Hrc & Hcc).
    exact (conj Hm (conj Hwc (conj Hrc Hcc))). }
  split; [by apply list_lookup_insert_eq|]. split; [by repeat split|].
  split; [done|]. split; [done|].
  split; [intros r Hr; by apply list_lookup_insert_ne|].
  intros px py Hb.
  rewrite (pixel_bit_at _ px py Hs1) by done. cbn [words with_dirty o1 with_words].
  apply in_bounds_range in Hb as [Hpx Hpy].
  by rewrite Hbits, bit_at_fill0.
Qed.

Lemma betweenb_between a b v : betweenb a b v = true ↔ between a b v.
Proof. unfold betweenb, between. rewrite andb_true_iff, !Z.leb_le. done. Qed.

(** A line along a row or along a column is the segment between its
    end points. *)
Lemma on_trace_horizontal x1 x2 y pts px py :
  line_trace x1 y x2 y = Some pts →
  on_trace pts px py = (py =? y) && betweenb x1 x2 px.
Proof.
  intros Etr.
  destruct (line_trace_spec x1 y x2 y) as (pts' & Etr' & _ & _ & Hbox & Hcx & _).
  assert (pts' = pts) as -> by congruence.
  apply eq_true_iff_eq. rewrite on_trace_elem, andb_true_iff, Z.eqb_eq, betweenb_between.
  split.
  - intros Hin. destruct (Hbox px py Hin) as [Hx Hy]. unfold between in Hy. split; [lia|done].
  - intros [-> Hx]. destruct (Hcx ltac:(lia) px Hx) as [py' Hin].
    destruct (Hbox px py' Hin) as [_ Hy]. unfold between in Hy.
    by replace y with py' by lia.
Qed.

Lemma on_trace_vertical x y1 y2 pts px py :
  line_trace x y1 x y2 = Some pts →
  on_trace pts px py = (px =? x) && betweenb y1 y2 py.
Proof.
  intros Etr.
  destruct (line_trace_spec x y1 x y2) as (pts' & Etr' & _ & _ & Hbox & _ & Hcy).
  assert (pts' = pts) as -> by congruence.
  apply eq_true_iff_eq. rewrite on_trace_elem, andb_true_iff, Z.eqb_eq, betweenb_between.
  split.
  - intros Hin. destruct (Hbox px py Hin) as [Hx Hy]. unfold between in Hx. split; [lia|done].
  - intros [-> Hy]. destruct (Hcy ltac:(lia) py Hy) as [px' Hin].
    destruct (Hbox px' py Hin) as [Hx _]. unfold between in Hx.
    by replace x with px' by lia.
Qed.

Lemma surface_ok_nonneg o : surface_ok o → 0 ≤ width o ∧ 0 ≤ height o.
Proof.
  intros (Hm & _ & Hr & Hc). split; [|lia].
  assert (0 ≤ width o / 16) by lia. Z.div_mod_to_equations. lia.
Qed.

Lemma reset_run (h : heap) (self : ref) (o : Bitmap) :
  h !! self = Some o →
  reset self h = (Ok tt, <[self := with_words o (np.fill0 (words o))]> h).
Proof. intros Ho. unfold reset, modify_obj, bind, get_obj, put_obj. by rewrite Ho. Qed.

(** [Rectangle.draw] on a dirty outlined rectangle, with the size of its
    own surface. *)
Lemma Rectangle_outline_paints (h : heap) (self : ref) (o : Bitmap) (x y w hh : Z) :
  h !! self = Some o → kind o = KRectangle x y w hh false →
  _is_dirty o = true → surface_ok o →
  ∃ h' o',
    Rectangle_draw self (width o) (height o) h = (Ok self, h')
    ∧ h' !! self = Some o' ∧ static o o' ∧ surface_ok o' ∧ _is_dirty o' = false
    ∧ (∀ r, r ≠ self → h' !! r = h !! r)
    ∧ ∀ px py, in_bounds o px py = true →
        pixel o' px py = Z.b2z (on_border x y w hh px py).
Proof.
  intros Ho Hk Hd Hs.
  destruct (surface_ok_nonneg o Hs) as [Hw Hh]. pose proof Hs as (Hm & _).
  set (bm := _blend_mode o).
  destruct (line_trace_spec x y (x + w - 1) y) as (top & Et & _).
  destruct (line_trace_spec x y x (y + hh - 1)) as (left & El & _).
  destruct (line_trace_spec (x + w - 1) y (x + w - 1) (y + hh - 1)) as (right & Er & _).
  destruct (line_trace_spec x (y + hh - 1) (x + w - 1) (y + hh - 1)) as (bottom & Eb & _).
  destruct (Line_surface_spec _ _ _ _ bm _ _ top Hw Hh Hm Et) as (at_ & Eat & Sat & Bat).
  destruct (Line_surface_spec _ _ _ _ bm _ _ left Hw Hh Hm El) as (al & Eal & Sal & Bal).
  destruct (Line_surface_spec _ _ _ _ bm _ _ right Hw Hh Hm Er) as (ar & Ear & Sar & Bar).
  destruct (Line_surface_spec _ _ _ _ bm _ _ bottom Hw Hh Hm Eb)
    as (ab & Eab & Sab & Bab).
  destruct (inplace_lor_bits at_ al _ _ Hm Sat Sal) as (tl & Etl & Stl & Btl).
  destruct (inplace_lor_bits tl ar _ _ Hm Stl Sar) as (tlr & Etlr & Stlr & Btlr).
  destruct (inplace_lor_bits tlr ab _ _ Hm Stlr Sab) as (all & Eall & Sall & Ball).
  destruct (outline_finish h self o all Ho Hs Sall)
    as (h1 & h' & o' & Eup & Eend & Ho' & Hst & Hs' & Hfl & Hother & Hpx).
  exists h', o'. split.
  { unfold Rectangle_draw.
    rewrite (bind_ok _ _ h o h) by (unfold get_obj; by rewrite Ho).
    rewrite Hd. cbn [negb]. rewrite (bind_ok _ _ _ _ _ (reset_run h self o Ho)).
    rewrite Hk. cbn [expect]. rewrite bind_ret_l. cbn [negb].
    rewrite (bind_ok _ _ _ tt h1); [exact Eend|].
    fold bm. rewrite (bind_lift _ _ _ _ Eat), (bind_lift _ _ _ _ Eal).
    rewrite (bind_lift _ _ _ _ Ear), (bind_lift _ _ _ _ Eab).
    unfold np.bitor_same.
    rewrite (bind_lift _ _ _ _ Etl), (bind_lift _ _ _ _ Etlr), (bind_lift _ _ _ _ Eall).
    exact Eup. }
  do 5 (split; [done|]).
  intros px py Hb. rewrite Hpx by done. f_equal.
  apply in_bounds_range in Hb as [Hpx' Hpy'].
  rewrite Ball, Btlr, Btl, Bat, Bal, Bar, Bab by done.
  rewrite (on_trace_horizontal _ _ _ _ _ _ Et), (on_trace_vertical _ _ _ _ _ _ El).
  rewrite (on_trace_vertical _ _ _ _ _ _ Er), (on_trace_horizontal _ _ _ _ _ _ Eb).
  reflexivity.
Qed.

(** X19. [Rectangle.draw] on a dirty outlined rectangle, called with the
    size of the rectangle's own well-formed surface, returns and clears
    the flag; the four sides are drawn as lines on surfaces of their own
    and combined, and a pixel is set exactly when it is on one of the
    sides, each running from corner to corner.  For a width and a height
    of at least 1 these are the pixels of the filled rectangle that lie
    on its first or last column or row.  No [set_pixel] is made on the
    rectangle itself, so no parent is marked dirty and the chain of
    parents plays no part. *)
Theorem X19_outlined_rectangle_is_the_border :
  ∀ (h : heap) (self : ref) (o : Bitmap) (x y w hh : Z),
    h !! self = Some o → kind o = KRectangle x y w hh false →
    _is_dirty o = true → surface_ok o →
    (∃ h' o',
       Rectangle_draw self (width o) (height o) h = (Ok self, h')
       ∧ h' !! self = Some o' ∧ _is_dirty o' = false
       ∧ (∀ r, r ≠ self → h' !! r = h !! r)
       ∧ ∀ px py, in_bounds o px py = true →
           pixel o' px py = Z.b2z (on_border x y w hh px py))
    ∧ (1 ≤ w → 1 ≤ hh → ∀ px py,
         on_border x y w hh px py
         = in_rect x y w hh px py
           && ((px =? x) || (px =? x + w - 1) || (py =? y) || (py =? y + hh - 1))).
Proof.
  intros h self o x y w hh Ho Hk Hd Hs. split.
  - destruct (Rectangle_outline_paints h self o x y w hh Ho Hk Hd Hs)
      as (h' & o' & E & Ho' & _ & _ & Hfl & Hother & Hpx).
    by exists h', o'.
  - intros Hw Hh px py. unfold on_border, in_rect, betweenb.
    apply eq_true_iff_eq.
    repeat (rewrite orb_true_iff || rewrite andb_true_iff).
    rewrite !Z.eqb_eq, !Z.leb_le, !Z.ltb_lt. lia.
Qed.

Lemma X19_witness :
  ∃ h' o', Rectangle_draw 0%nat 16 4 [fresh_16x4 (KRectangle 2 0 5 3 false)]
           = (Ok 0%nat, h')
           ∧ h' !! 0%nat = Some o' ∧ _is_dirty o' = false
           ∧ pixel o' 6 1 = 1 ∧ pixel o' 4 1 = 0.
Proof.
  destruct (X19_outlined_rectangle_is_the_border
              [fresh_16x4 (KRectangle 2 0 5 3 false)] 0%nat
              (fresh_16x4 (KRectangle 2 0 5 3 false)) 2 0 5 3
              eq_refl eq_refl eq_refl (fresh_16x4_surface_ok _))
    as [(h' & o' & E & Ho' & Hfl & _ & Hpx) _].
  exists h', o'. split; [exact E|]. split; [exact Ho'|]. split; [exact Hfl|].
  split; [exact (Hpx 6 1 eq_refl) | exact (Hpx 4 1 eq_refl)].
Defined.

(** [Triangle.draw] on a dirty outlined triangle, with the size of its
    own surface. *)
Lemma Triangle_outline_paints (h : heap) (self : ref) (o : Bitmap)
    (x1 y1 x2 y2 x3 y3 : Z) t12 t23 t31 :
  h !! self = Some o → kind o = KTriangle x1 y1 x2 y2 x3 y3 false →
  _is_dirty o = true → surface_ok o →
  line_trace x1 y1 x2 y2 = Some t12 → line_trace x2 y2 x3 y3 = Some t23 →
  line_trace x3 y3 x1 y1 = Some t31 →
  ∃ h' o',
    Triangle_draw self (width o) (height o) h = (Ok self, h')
    ∧ h' !! self = Some o' ∧ static o o' ∧ surface_ok o' ∧ _is_dirty o' = false
    ∧ (∀ r, r ≠ self → h' !! r = h !! r)
    ∧ ∀ px py, in_bounds o px py = true →
        pixel o' px py
        = Z.b2z (on_trace t12 px py || on_trace t23 px py || on_trace t31 px py).
Proof.
  intros Ho Hk Hd Hs E12 E23 E31.
  destruct (surface_ok_nonneg o Hs) as [Hw Hh]. pose proof Hs as (Hm & _).
  set (bm := _blend_mode o).
  destruct (Line_surface_spec _ _ _ _ bm _ _ t12 Hw Hh Hm E12) as (a1 & Ea1 & S1 & B1).
  destruct (Line_surface_spec _ _ _ _ bm _ _ t23 Hw Hh Hm E23) as (a2 & Ea2 & S2 & B2).
  destruct (Line_surface_spec _ _ _ _ bm _ _ t31 Hw Hh Hm E31) as (a3 & Ea3 & S3 & B3).
  destruct (inplace_lor_bits a1 a2 _ _ Hm S1 S2) as (l12 & El12 & S12 & B12).
  destruct (inplace_lor_bits l12 a3 _ _ Hm S12 S3) as (all & Eall & Sall & Ball).
  destruct (outline_finish h self o all Ho Hs Sall)
    as (h1 & h' & o' & Eup & Eend & Ho' & Hst & Hs' & Hfl & Hother & Hpx).
  exists h', o'. split.
  { unfold Triangle_draw.
    rewrite (bind_ok _ _ h o h) by (unfold get_obj; by rewrite Ho).
    rewrite Hd. cbn [negb]. rewrite (bind_ok _ _ _ _ _ (reset_run h self o Ho)).
    rewrite Hk. cbn [expect]. rewrite bind_ret_l. cbn [negb].
    rewrite (bind_ok _ _ _ tt h1); [exact Eend|].
    fold bm. rewrite (bind_lift _ _ _ _ Ea1), (bind_lift _ _ _ _ Ea2).
    rewrite (bind_lift _ _ _ _ Ea3).
    unfold np.bitor_same.
    rewrite (bind_lift _ _ _ _ El12), (bind_lift _ _ _ _ Eall).
    exact Eup. }
  do 5 (split; [done|]).
  intros px py Hb. rewrite Hpx by done. f_equal.
  apply in_bounds_range in Hb as [Hpx' Hpy'].
  by rewrite Ball, B12, B1, B2, B3 by done.
Qed.

(** X20. [Triangle.draw] on a dirty outlined triangle, called with the
    size of the triangle's own well-formed surface, returns and clears
    the flag; a pixel is set exactly when one of the three lines from
    vertex to vertex visits it, and the three vertices are among them
    when they are on the surface. *)
Theorem X20_outlined_triangle_is_three_lines :
  ∀ (h : heap) (self : ref) (o : Bitmap) (x1 y1 x2 y2 x3 y3 : Z),
    h !! self = Some o → kind o = KTriangle x1 y1 x2 y2 x3 y3 false →
    _is_dirty o = true → surface_ok o →
    ∃ t12 t23 t31 h' o',
      line_trace x1 y1 x2 y2 = Some t12
      ∧ line_trace x2 y2 x3 y3 = Some t23
      ∧ line_trace x3 y3 x1 y1 = Some t31
      ∧ Triangle_draw self (width o) (height o) h = (Ok self, h')
      ∧ h' !! self = Some o' ∧ _is_dirty o' = false
      ∧ (∀ r, r ≠ self → h' !! r = h !! r)
      ∧ (∀ px py, in_bounds o px py = true →
           pixel o' px py
           = Z.b2z (on_trace t12 px py || on_trace t23 px py || on_trace t31 px py))
      ∧ (in_bounds o x1 y1 = true → pixel o' x1 y1 = 1)
      ∧ (in_bounds o x2 y2 = true → pixel o' x2 y2 = 1)
      ∧ (in_bounds o x3 y3 = true → pixel o' x3 y3 = 1).
Proof.
  intros h self o x1 y1 x2 y2 x3 y3 Ho Hk Hd Hs.
  destruct (line_trace_spec x1 y1 x2 y2) as (t12 & E12 & F12 & _).
  destruct (line_trace_spec x2 y2 x3 y3) as (t23 & E23 & F23 & _).
  destruct (line_trace_spec x3 y3 x1 y1) as (t31 & E31 & F31 & _).
  apply on_trace_elem in F12, F23, F31.
  destruct (Triangle_outline_paints h self o x1 y1 x2 y2 x3 y3 t12 t23 t31
              Ho Hk Hd Hs E12 E23 E31)
    as (h' & o' & E & Ho' & _ & _ & Hfl & Hother & Hpx).
  exists t12, t23, t31, h', o'. do 8 (split; [done|]). split; [|split].
  - intros Hb. by rewrite Hpx, F12 by done.
  - intros Hb. by rewrite Hpx, F23, orb_true_r by done.
  - intros Hb. by rewrite Hpx, F31, orb_true_r by done.
Qed.

Lemma X20_witness :
  ∃ t12 t23 t31 h' o',
    line_trace 1 0 9 0 = Some t12 ∧ line_trace 9 0 1 3 = Some t23
    ∧ line_trace 1 3 1 0 = Some t31
    ∧ Triangle_draw 0%nat 16 4 [fresh_16x4 (KTriangle 1 0 9 0 1 3 false)] = (Ok 0%nat, h')
    ∧ h' !! 0%nat = Some o' ∧ pixel o' 9 0 = 1 ∧ pixel o' 3 1 = 0.
Proof.
  destruct (X20_outlined_triangle_is_three_lines
              [fresh_16x4 (KTriangle 1 0 9 0 1 3 false)] 0%nat
              (fresh_16x4 (KTriangle 1 0 9 0 1 3 false)) 1 0 9 0 1 3
              eq_refl eq_refl eq_refl (fresh_16x4_surface_ok _))
    as (t12 & t23 & t31 & h' & o' & E12 & E23 & E31 & E & Ho' & _ & _ & Hpx & _ & H2 & _).
  exists t12, t23, t31, h', o'. do 5 (split; [done|]). split; [exact (H2 eq_refl)|].
  rewrite (Hpx 3 1 eq_refl).
  injection E12 as <-. injection E23 as <-. injection E31 as <-. reflexivity.
Defined.

(** An array of another shape, neither axis of which is one long, is not
    combined. *)
Lemma inplace_mismatch f a b width height width' height' :
  shaped a width height → shaped b width' height' →
  (height' ≠ height ∧ height' ≠ 1) ∨ (width' / 16 ≠ width / 16 ∧ width' / 16 ≠ 1) →
  np.inplace f a b = Raise ValueError.
Proof.
  intros (_ & Hra & Hca) (_ & Hrb & Hcb) Hne. unfold np.inplace, np.broadcastable.
  destruct Hne as [[H1 H2]|[H1 H2]].
  - rewrite (bool_decide_eq_false_2 (np.nrows b = np.nrows a)) by lia.
    rewrite (bool_decide_eq_false_2 (np.nrows b = 1%nat)) by lia. done.
  - rewrite (bool_decide_eq_false_2 (np.ncols b = np.ncols a)) by lia.
    rewrite (bool_decide_eq_false_2 (np.ncols b = 1%nat)) by lia.
    by rewrite andb_false_r.
Qed.



(** ** What a shape's draw leaves alone *)

(** X22. However [c.draw(width, height)] ends for a drawable [c] of any
    class, returning or raising, it creates no object and changes no
    object's size, parent, blend mode or geometry; every object other
    than [c] keeps its words, and no dirty flag of another object is
    cleared (the [set_pixel] calls of a shape may set those of its
    parents).  When the call returns, it returns [c] itself, with the
    flag of [c] cleared. *)
Theorem X22_draw_changes_only_the_drawable :
  ∀ (c : ref) (dw dh : Z) (h : heap),
    length (snd (draw_method c dw dh h)) = length h
    ∧ (∀ r o, h !! r = Some o →
         ∃ o', snd (draw_method c dw dh h) !! r = Some o' ∧ static o o'
               ∧ (r ≠ c → words o' = words o ∧ (_is_dirty o = true → _is_dirty o' = true)))
    ∧ (∀ r h', draw_method c dw dh h = (Ok r, h') → r = c ∧ flag_of h' c = Some false).
Proof.
  intros c dw dh h.
  destruct (frame_draw_method (eq c) c dw dh eq_refl h) as [Hlen Hobj].
  split; [done|]. split.
  - intros r o Hr. destruct (Hobj r o Hr) as (o' & Hr' & Hst & Hw).
    exists o'. split; [done|]. split; [done|]. intros Hne. apply Hw. congruence.
  - intros r h' E. split.
    + symmetry. by eapply draw_method_returns_self.
    + by eapply shape_draw_clears.
Qed.

Lemma X22_witness :
  ∃ o', snd (draw_method 1%nat 16 4
               [mkBitmap 16 4 (np.mk 4 1 [[0]; [0]; [0]; [0]]) true None ON
                         (KGraphicsBuffer [1%nat]);
                mkBitmap 16 4 (np.mk 4 1 [[0]; [0]; [0]; [0]]) true (Some 0%nat) ON
                         (KLine 1 0 9 3)]) !! 0%nat = Some o'
        ∧ words o' = np.mk 4 1 [[0]; [0]; [0]; [0]] ∧ _is_dirty o' = true.
Proof.
  destruct (X22_draw_changes_only_the_drawable 1%nat 16 4
              [mkBitmap 16 4 (np.mk 4 1 [[0]; [0]; [0]; [0]]) true None ON
                        (KGraphicsBuffer [1%nat]);
               mkBitmap 16 4 (np.mk 4 1 [[0]; [0]; [0]; [0]]) true (Some 0%nat) ON
                        (KLine 1 0 9 3)]) as (_ & H & _).
  destruct (H 0%nat _ eq_refl) as (o' & Ho' & _ & Hw).
  exists o'. split; [exact Ho'|]. destruct Hw as [Hw Hd]; [lia|].
  split; [exact Hw | exact (Hd eq_refl)].
Defined.

(** ** What each class renders *)

Lemma draw_method_class (h : heap) (c : ref) (oc : Bitmap) (dw dh : Z) :
  h !! c = Some oc →
  draw_method c dw dh h
  = match kind oc with
    | KBitmap => (Raise NotImplementedError, h)
    | KGraphicsBuffer _ => (Raise TypeError, h)
    | KLine _ _ _ _ => Line_draw c dw dh h
    | KCircle _ _ _ _ => Circle_draw c dw dh h
    | KTriangle _ _ _ _ _ _ _ => Triangle_draw c dw dh h
    | KRectangle _ _ _ _ _ => Rectangle_draw c dw dh h
    | KDrawableText _ _ _ _ => DrawableText_draw c dw dh h
    end.
Proof.
  intros Hc. unfold draw_method.
  rewrite (bind_ok _ _ h oc h) by (unfold get_obj; by rewrite Hc).
  by destruct (kind oc).
Qed.

Lemma renders_line (dw dh x1 y1 x2 y2 : Z) pts :
  line_trace x1 y1 x2 y2 = Some pts →
  renders dw dh (KLine x1 y1 x2 y2) (on_trace pts).
Proof.
  intros Etr h c oc Hc Hk Hd Hs _ _ Hch.
  rewrite (draw_method_class h c oc) by done. rewrite Hk.
  destruct (Line_draw_paints h c oc x1 y1 x2 y2 dw dh pts Hc Hk Hd Hs Hch Etr)
    as (h' & oc' & E & Hc' & Hst & Hfl & Hs' & Hpx).
  by exists h', oc'.
Qed.

Lemma renders_circle (dw dh xc yc r : Z) (fill : bool) steps :
  circle_trace r = Some steps →
  renders dw dh (KCircle xc yc r fill)
          (fun px py => existsb (if fill then in_chords xc yc px py
                                 else on_octants xc yc px py) steps).
Proof.
  intros Etr h c oc Hc Hk Hd Hs _ _ Hch.
  rewrite (draw_method_class h c oc) by done. rewrite Hk.
  destruct (Circle_draw_paints h c oc xc yc r fill dw dh steps Hc Hk Hd Hs Hch Etr)
    as (h' & oc' & E & Hc' & Hst & Hs' & Hfl & Hpx).
  by exists h', oc'.
Qed.

Lemma renders_filled_rectangle (dw dh x y w hh : Z) :
  renders dw dh (KRectangle x y w hh true) (in_rect x y w hh).
Proof.
  intros h c oc Hc Hk Hd Hs _ _ Hch.
  rewrite (draw_method_class h c oc) by done. rewrite Hk.
  destruct (Rectangle_fill_paints h c oc x y w hh dw dh Hc Hk Hd Hs Hch)
    as (h' & oc' & E & Hc' & Hst & Hs' & Hfl & Hpx).
  by exists h', oc'.
Qed.

Lemma renders_outlined_rectangle (dw dh x y w hh : Z) :
  renders dw dh (KRectangle x y w hh false) (on_border x y w hh).
Proof.
  intros h c oc Hc Hk Hd Hs <- <- Hch.
  rewrite (draw_method_class h c oc) by done. rewrite Hk.
  destruct (Rectangle_outline_paints h c oc x y w hh Hc Hk Hd Hs)
    as (h' & oc' & E & Hc' & Hst & Hs' & Hfl & _ & Hpx).
  by exists h', oc'.
Qed.

Lemma renders_outlined_triangle (dw dh x1 y1 x2 y2 x3 y3 : Z) t12 t23 t31 :
  line_trace x1 y1 x2 y2 = Some t12 → line_trace x2 y2 x3 y3 = Some t23 →
  line_trace x3 y3 x1 y1 = Some t31 →
  renders dw dh (KTriangle x1 y1 x2 y2 x3 y3 false)
          (fun px py => on_trace t12 px py || on_trace t23 px py || on_trace t31 px py).
Proof.
  intros E12 E23 E31 h c oc Hc Hk Hd Hs <- <- Hch.
  rewrite (draw_method_class h c oc) by done. rewrite Hk.
  destruct (Triangle_outline_paints h c oc x1 y1 x2 y2 x3 y3 t12 t23 t31
              Hc Hk Hd Hs E12 E23 E31)
    as (h' & oc' & E & Hc' & Hst & Hs' & Hfl & _ & Hpx).
  by exists h', oc'.
Qed.

Lemma renders_filled_triangle (dw dh x1 y1 x2 y2 x3 y3 : Z) :
  (∀ yy, Z.min y1 (Z.min y2 y3) ≤ yy ≤ Z.max y1 (Z.max y2 y3) →
     is_ok (scanline_span yy (x1, y1) (x2, y2) (x3, y3)) = true) →
  renders dw dh (KTriangle x1 y1 x2 y2 x3 y3 true)
          (in_spans (x1, y1) (x2, y2) (x3, y3)).
Proof.
  intros Hfin h c oc Hc Hk Hd Hs _ _ Hch.
  rewrite (draw_method_class h c oc) by done. rewrite Hk.
  destruct (Triangle_fill_paints h c oc x1 y1 x2 y2 x3 y3 dw dh Hc Hk Hd Hs Hch Hfin)
    as (h' & oc' & E & Hc' & Hst & Hs' & Hfl & Hpx).
  by exists h', oc'.
Qed.

Lemma renders_text (dw dh x y : Z) (text : string) (font : Font) :
  0 ≤ dw → 0 ≤ dh →
  renders dw dh (KDrawableText text font x y) (text_ink font text x y dw dh).
Proof.
  intros Hw Hh h c oc Hc Hk Hd Hs _ _ Hch.
  rewrite (draw_method_class h c oc) by done. rewrite Hk.
  destruct (DrawableText_paints h c oc text font x y dw dh Hc Hk Hd Hs Hch Hw Hh)
    as (h' & oc' & E & Hc' & Hst & Hs' & Hfl & Hpx).
  by exists h', oc'.
Qed.

(** ** The picture of a container *)

(** The three operators of the compositor on surfaces of one shape, bit
    by bit. *)
Lemma blend_bit_at bm acc drawn (dw dh : Z) :
  dw mod 16 = 0 → shaped acc dw dh → shaped drawn dw dh →
  ∃ a, blend_words bm acc drawn = Ok a
       ∧ shaped a dw dh
       ∧ ∀ px py, 0 ≤ px < dw → 0 ≤ py < dh →
           bit_at a px py = blend_bit bm (bit_at acc px py) (bit_at drawn px py).
Proof.
  intros Hm Ha Hd.
  pose proof Ha as (Hwa & Hra & Hca). pose proof Hd as (Hwd & Hrd & Hcd).
  destruct (blend_words_bits bm acc drawn Hwa Hwd ltac:(lia) ltac:(lia))
    as (a & E & Hbits).
  assert (Hsa : shaped a dw dh).
  { assert (Hw : np.wf a ∧ np.nrows a = np.nrows acc ∧ np.ncols a = np.ncols acc).
    { destruct bm; cbn [blend_words] in E; by eapply wf_inplace. }
    destruct Hw as (Hw & Hr & Hc). split; [done|]. split; congruence. }
  exists a. split; [done|]. split; [done|].
  intros px py Hpx Hpy. unfold bit_at.
  destruct (shaped_getitem acc dw dh px py Hm Ha Hpx Hpy) as [w Ew].
  destruct (shaped_getitem drawn dw dh px py Hm Hd Hpx Hpy) as [c Ec].
  destruct (Hbits _ _ _ _ Ew Ec) as (w' & Ew' & Hb).
  rewrite Ew, Ec, Ew'. apply Hb.
  pose proof (Z.mod_pos_bound px 16 ltac:(lia)). lia.
Qed.

Lemma pixel_same_words o o' px py :
  static o o' → words o' = words o → pixel o' px py = pixel o px py.
Proof.
  intros Hst Hw. unfold pixel. by rewrite (in_bounds_static o o'), Hw.
Qed.

(** One round of the compositor on a child that renders [ink]: a dirty
    child is drawn, a clean one that shows its ink is taken as it is. *)
Lemma compose_child_paints (g c : ref) (h : heap) (og oc : Bitmap)
    (acc ink : Z → Z → bool) :
  c ≠ g → h !! g = Some og → surface_ok og →
  h !! c = Some oc → surface_ok oc →
  width oc = width og → height oc = height og → chain_ok h c →
  kind oc ≠ KBitmap → (∀ cs', kind oc ≠ KGraphicsBuffer cs') →
  renders (width og) (height og) (kind oc) ink →
  (_is_dirty oc = false →
   ∀ px py, in_bounds oc px py = true → pixel oc px py = Z.b2z (ink px py)) →
  (∀ px py, in_bounds og px py = true → bit_at (words og) px py = acc px py) →
  ∃ h' og' oc',
    compose_child g c h = (Ok tt, h')
    ∧ h' !! g = Some og' ∧ static og og' ∧ surface_ok og'
    ∧ (_is_dirty og = true → _is_dirty og' = true)
    ∧ touch (fun r => r = c ∨ r = g) h h'
    ∧ h' !! c = Some oc' ∧ static oc oc' ∧ surface_ok oc'
    ∧ (∀ px py, in_bounds oc px py = true → pixel oc' px py = Z.b2z (ink px py))
    ∧ ∀ px py, in_bounds og px py = true →
        bit_at (words og') px py = blend_bit (_blend_mode oc) (acc px py) (ink px py).
Proof.
  intros Hne Hg Hsg Hc Hsc Hw Hh Hch Hnb Hnc Hren Hclean Hacc.
  assert (Hdrawn : ∃ h1 oc',
            draw_method c (width og) (height og) h = (Ok c, h1)
            ∧ h1 !! c = Some oc' ∧ static oc oc' ∧ surface_ok oc'
            ∧ ∀ px py, in_bounds oc px py = true → pixel oc' px py = Z.b2z (ink px py)).
  { destruct (_is_dirty oc) eqn:Hd.
    - destruct (Hren h c oc Hc eq_refl Hd Hsc Hw Hh Hch)
        as (h1 & oc' & Edraw & Hc1 & Hstc & Hsc' & _ & Hpx).
      by exists h1, oc'.
    - exists h, oc. split; [by apply (shape_draw_cached c _ _ h oc)|].
      split; [done|]. split; [apply static_refl|]. split; [done|]. by apply Hclean. }
  destruct Hdrawn as (h1 & oc' & Edraw & Hc1 & Hstc & Hsc' & Hpx).
  pose proof (touch_of_run (eq c) _ _ _ _
                (frame_draw_method (eq c) c (width og) (height og) eq_refl) Edraw)
    as Ht1.
  destruct Ht1 as [Hlen Hobj].
  destruct (Hobj g og Hg) as (og1 & Hg1 & Hstg & Hwg).
  destruct Hwg as [Hwg Hfg]; [congruence|].
  pose proof Hstc as (Hwc' & Hhc' & _ & Hbm & _).
  pose proof Hstg as (Hwg1 & Hhg1 & _).
  destruct (blend_bit_at (_blend_mode oc) (words og1) (words oc') (width og) (height og))
    as (a & Ea & Hsa & Hbits).
  { apply Hsg. }
  { rewrite Hwg. by apply surface_ok_shaped. }
  { pose proof (surface_ok_shaped oc' Hsc') as Hsh. by rewrite Hwc', Hhc', Hw, Hh in Hsh. }
  assert (Lg : (g < length h1)%nat) by (by eapply lookup_lt_Some).
  exists (<[g := with_words og1 a]> h1), (with_words og1 a), oc'. split.
  { unfold compose_child.
    rewrite (bind_ok _ _ h oc h) by (unfold get_obj; by rewrite Hc).
    rewrite (bind_ok _ _ h og h) by (unfold get_obj; by rewrite Hg).
    rewrite (bind_ok _ _ _ _ _ Edraw).
    rewrite (bind_ok _ _ h1 oc' h1) by (unfold get_obj; by rewrite Hc1).
    unfold update_words, bind, get_obj, lift, put_obj. rewrite Hg1. cbn [fst snd].
    by rewrite Ea. }
  split; [by apply list_lookup_insert_eq|].
  split; [destruct Hstg as (?&?&?&?&?); by repeat split|].
  split.
  { destruct Hsg as (Hm & _). destruct Hsa as (Hwa & Hra & Hca).
    split; [cbn; congruence|]. split; [done|]. split; cbn; congruence. }
  split; [done|]. split.
  { eapply touch_trans.
    - eapply touch_mono; [|exact (conj Hlen Hobj)]. intros r <-. by left.
    - eapply (touch_insert (fun r => r = c ∨ r = g)); [exact Hg1 | by repeat split | by right]. }
  split; [by rewrite list_lookup_insert_ne|]. do 3 (split; [done|]).
  intros px py Hb. cbn [words with_words].
  pose proof (proj1 (in_bounds_range og px py) Hb) as [Hpx' Hpy'].
  rewrite Hbits by done. f_equal.
  - rewrite Hwg. by apply Hacc.
  - assert (Hbc : in_bounds oc px py = true).
    { apply in_bounds_range. by rewrite Hw, Hh. }
    assert (Hbc' : in_bounds oc' px py = true).
    { apply in_bounds_range. by rewrite Hwc', Hhc', Hw, Hh. }
    specialize (Hpx px py Hbc). rewrite (pixel_bit_at oc' px py Hsc' Hbc') in Hpx.
    by destruct (bit_at (words oc') px py), (ink px py).
Qed.

(** The loop of the compositor over children that render their inks. *)
Lemma compose_loop_paints (g : ref) (inks : ref → Z → Z → bool)
    (bms : ref → BlendMode) (cs : list ref) :
  ∀ (h : heap) (og : Bitmap) (acc : Z → Z → bool),
    NoDup cs → g ∉ cs → h !! g = Some og → surface_ok og →
    (∀ px py, in_bounds og px py = true → bit_at (words og) px py = acc px py) →
    (∀ c, c ∈ cs →
       ∃ oc, h !! c = Some oc ∧ surface_ok oc
             ∧ width oc = width og ∧ height oc = height og ∧ chain_ok h c
             ∧ kind oc ≠ KBitmap ∧ (∀ cs', kind oc ≠ KGraphicsBuffer cs')
             ∧ renders (width og) (height og) (kind oc) (inks c)
             ∧ (_is_dirty oc = false →
                ∀ px py, in_bounds oc px py = true → pixel oc px py = Z.b2z (inks c px py))
             ∧ _blend_mode oc = bms c) →
    ∃ h' og',
      for_each cs (compose_child g) h = (Ok tt, h')
      ∧ h' !! g = Some og' ∧ static og og' ∧ surface_ok og'
      ∧ (_is_dirty og = true → _is_dirty og' = true)
      ∧ touch (fun r => r ∈ cs ∨ r = g) h h'
      ∧ (∀ c, c ∈ cs →
           ∃ oc', h' !! c = Some oc' ∧ surface_ok oc'
                  ∧ ∀ px py, in_bounds og px py = true →
                      pixel oc' px py = Z.b2z (inks c px py))
      ∧ ∀ px py, in_bounds og px py = true →
          bit_at (words og') px py
          = fold_left (fun a c => blend_bit (bms c) a (inks c px py)) cs (acc px py).
Proof.
  induction cs as [|c rest IH]; intros h og acc Hnd Hg_notin Hg Hsg Hacc Hcs.
  - exists h, og. split; [done|]. split; [done|]. split; [apply static_refl|].
    split; [done|]. split; [done|]. split; [apply touch_refl|].
    split; [|exact Hacc]. intros c Hc. by apply elem_of_nil in Hc.
  - apply NoDup_cons in Hnd as [Hc_notin Hnd].
    apply not_elem_of_cons in Hg_notin as [Hgc Hg_rest].
    destruct (Hcs c ltac:(left))
      as (oc & Hc & Hsc & Hw & Hh & Hch & Hnb & Hnc & Hren & Hclean & Hbm).
    destruct (compose_child_paints g c h og oc acc (inks c)
                (not_eq_sym Hgc) Hg Hsg Hc Hsc Hw Hh Hch Hnb Hnc Hren Hclean Hacc)
      as (h1 & og1 & oc1 & E1 & Hg1 & Hst1 & Hs1 & Hf1 & Ht1 & Hc1 & Hstc1 & Hsc1
          & Hshow1 & Hbits1).
    pose proof Hst1 as (Hw1 & Hh1 & _).
    assert (Hb1 : ∀ px py, in_bounds og1 px py = in_bounds og px py).
    { intros px py. by apply in_bounds_static. }
    destruct (IH h1 og1 (fun px py => blend_bit (bms c) (acc px py) (inks c px py)))
      as (h' & og' & E & Hg' & Hst' & Hs' & Hf' & Ht' & Hshow' & Hbits'); try done.
    { intros px py Hb. rewrite <- Hbm. apply Hbits1. by rewrite <- Hb1. }
    { intros c' Hc'.
      destruct (Hcs c' ltac:(by right))
        as (oc0 & Hc0 & Hsc0 & Hw0 & Hh0 & Hch0 & Hnb0 & Hnc0 & Hren0 & Hclean0 & Hbm0).
      pose proof Ht1 as [Hlen1 Hobj1].
      destruct (Hobj1 c' oc0 Hc0) as (oc' & Hc1' & Hstc & Hwc).
      destruct Hwc as [Hwc Hfc].
      { intros [-> | ->]; [by apply Hc_notin | by apply Hg_rest]. }
      pose proof Hstc as (Hwc1 & Hhc1 & _ & Hbmc & Hkc).
      exists oc'. split; [done|]. split.
      { destruct Hsc0 as (Hm0 & Hwf0 & Hr0 & Hc0').
        split; [congruence|]. rewrite Hwc. split; [done|]. split; congruence. }
      split; [congruence|]. split; [congruence|]. split.
      { eapply chain_ok_touch; [exact Ht1 | done]. }
      split; [congruence|]. split; [intros cs'; rewrite Hkc; apply Hnc0|].
      split; [rewrite Hw1, Hh1, Hkc; exact Hren0|]. split; [|congruence].
      intros Hfalse px py Hb.
      rewrite (pixel_same_words oc0 oc') by done.
      apply Hclean0.
      - destruct (_is_dirty oc0) eqn:Hd0; [|done]. rewrite Hfc in Hfalse; done.
      - by rewrite <- (in_bounds_static oc0 oc'). }
    exists h', og'. split.
    { cbn [for_each]. by rewrite (bind_ok _ _ _ _ _ E1). }
    split; [done|]. split; [by eapply static_trans|]. split; [done|].
    split; [auto|]. split.
    { eapply touch_trans.
      - eapply touch_mono; [|exact Ht1]. intros r [-> | ->]; [left; by left | by right].
      - eapply touch_mono; [|exact Ht']. intros r [Hr | ->]; [left; by right | by right]. }
    split.
    { intros c' Hc'. apply elem_of_cons in Hc' as [->|Hc'].
      - destruct Ht' as [Hlen' Hobj'].
        destruct (Hobj' c oc1 Hc1) as (oc2 & Hc2 & Hst2 & Hw2).
        destruct Hw2 as [Hw2 _].
        { intros [? | ->]; [by apply Hc_notin | by apply Hgc]. }
        exists oc2. split; [done|]. split.
        { destruct Hsc1 as (Hm1 & Hwf1 & Hr1 & Hcc1). destruct Hst2 as (Hww & Hhh & _).
          split; [congruence|]. rewrite Hw2. split; [done|]. split; congruence. }
        intros px py Hb. rewrite (pixel_same_words oc1 oc2) by done.
        apply Hshow1. apply in_bounds_range. rewrite Hw, Hh. by apply in_bounds_range.
      - destruct (Hshow' c' Hc') as (oc2 & Hc2 & Hs2 & Hshow2).
        exists oc2. split; [done|]. split; [done|].
        intros px py Hb. apply Hshow2. by rewrite Hb1. }
    intros px py Hb. cbn [fold_left]. apply Hbits'. by rewrite Hb1.
Qed.

(** What renders is a shape: neither a bare [Bitmap], whose [draw]
    raises, nor a container, whose [draw] takes no size. *)
Lemma renders_shape (dw dh : Z) ink (h : heap) (c : ref) (oc : Bitmap) :
  renders dw dh (kind oc) ink →
  h !! c = Some oc → _is_dirty oc = true → surface_ok oc →
  width oc = dw → height oc = dh → chain_ok h c →
  kind oc ≠ KBitmap ∧ ∀ cs, kind oc ≠ KGraphicsBuffer cs.
Proof.
  intros Hren Hc Hd Hs Hw Hh Hch.
  destruct (Hren h c oc Hc eq_refl Hd Hs Hw Hh Hch) as (h' & oc' & E & _).
  rewrite (draw_method_class h c oc) in E by done.
  split; [|intros cs]; intros Hk; by rewrite Hk in E.
Qed.

(** A child of a container without parent has a chain of parents that
    ends. *)
Lemma chain_ok_child (h : heap) (g c : ref) (og oc : Bitmap) :
  h !! g = Some og → _parent og = None → h !! c = Some oc → _parent oc = Some g →
  chain_ok h c.
Proof.
  intros Hg Hroot Hc Hp.
  assert (c ≠ g) by (intros ->; congruence).
  assert (Lg : (g < length h)%nat) by (by eapply lookup_lt_Some).
  assert (Lc : (c < length h)%nat) by (by eapply lookup_lt_Some).
  unfold chain_ok. destruct (length h) as [|[|n]] eqn:El; [lia | lia |].
  cbn [rooted]. unfold parents. rewrite list_lookup_fmap, Hc.
  cbn [fmap option_fmap option_map]. rewrite Hp.
  cbn [rooted]. rewrite list_lookup_fmap, Hg.
  cbn [fmap option_fmap option_map]. by rewrite Hroot.
Qed.

(** [GraphicsBuffer.draw()] on a dirty container whose children render
    their inks. *)
Lemma GraphicsBuffer_draw_paints (h : heap) (g : ref) (og : Bitmap) (cs : list ref)
    (inks : ref → Z → Z → bool) (bms : ref → BlendMode) :
  h !! g = Some og → kind og = KGraphicsBuffer cs → _is_dirty og = true →
  surface_ok og → NoDup cs → g ∉ cs →
  (∀ c, c ∈ cs →
     ∃ oc, h !! c = Some oc ∧ surface_ok oc
           ∧ width oc = width og ∧ height oc = height og ∧ chain_ok h c
           ∧ kind oc ≠ KBitmap ∧ (∀ cs', kind oc ≠ KGraphicsBuffer cs')
           ∧ renders (width og) (height og) (kind oc) (inks c)
           ∧ (_is_dirty oc = false →
              ∀ px py, in_bounds oc px py = true → pixel oc px py = Z.b2z (inks c px py))
           ∧ _blend_mode oc = bms c) →
  ∃ h' og',
    GraphicsBuffer_draw g h = (Ok g, h')
    ∧ h' !! g = Some og' ∧ static og og' ∧ surface_ok og' ∧ _is_dirty og' = true
    ∧ touch (fun r => r ∈ cs ∨ r = g) h h'
    ∧ (∀ c, c ∈ cs →
         ∃ oc', h' !! c = Some oc' ∧ surface_ok oc'
                ∧ ∀ px py, in_bounds og px py = true →
                    pixel oc' px py = Z.b2z (inks c px py))
    ∧ ∀ px py, in_bounds og px py = true →
        pixel og' px py
        = Z.b2z (fold_left (fun a c => blend_bit (bms c) a (inks c px py)) cs false).
Proof.
  intros Hg Hk Hd Hsg Hnd Hg_notin Hcs.
  assert (Lg : (g < length h)%nat) by (by eapply lookup_lt_Some).
  set (og0 := with_words og (np.fill0 (words og))).
  set (h0 := <[g := og0]> h).
  assert (Ht0 : touch (fun r => r ∈ cs ∨ r = g) h h0).
  { eapply (touch_insert (fun r => r ∈ cs ∨ r = g)); [exact Hg | by repeat split | by right]. }
  destruct (compose_loop_paints g inks bms cs h0 og0 (fun _ _ => false))
    as (h' & og' & Eloop & Hg' & Hst' & Hs' & Hf' & Ht' & Hshow & Hbits); try done.
  { by apply list_lookup_insert_eq. }
  { destruct Hsg as (Hm & Hwf & Hr & Hc). split; [done|].
    split; [by apply wf_fill0|]. by split. }
  { intros px py _. apply bit_at_fill0. }
  { intros c Hc_in.
    destruct (Hcs c Hc_in)
      as (oc & Hc & Hsc & Hw & Hh & Hch & Hnb & Hnc & Hren & Hclean & Hbm).
    assert (Hne : c ≠ g) by (intros ->; by apply Hg_notin).
    exists oc. split; [unfold h0; by rewrite list_lookup_insert_ne|].
    do 3 (split; [done|]). split; [by eapply chain_ok_touch|]. done. }
  exists h', og'. split.
  { unfold GraphicsBuffer_draw.
    rewrite (bind_ok _ _ h og h) by (unfold get_obj; by rewrite Hg).
    rewrite Hd. cbn [negb]. rewrite (bind_ok _ _ _ _ _ (reset_run h g og Hg)).
    rewrite Hk. cbn [expect]. rewrite bind_ret_l. fold og0 h0.
    by rewrite (bind_ok _ _ _ _ _ Eloop). }
  split; [done|]. split; [done|]. split; [done|]. split; [by apply Hf'|].
  split; [by eapply touch_trans|]. split; [done|].
  intros px py Hb.
  assert (Hb' : in_bounds og' px py = true).
  { rewrite (in_bounds_static og0 og') by done. exact Hb. }
  rewrite (pixel_bit_at og' px py Hs' Hb'). f_equal. by apply Hbits.
Qed.

(** The hypotheses of the loop, for dirty children of a container
    without parent. *)
Lemma dirty_children_ready (h : heap) (g : ref) (og : Bitmap) (cs : list ref)
    (inks : ref → Z → Z → bool) :
  h !! g = Some og → _parent og = None →
  (∀ c, c ∈ cs →
     ∃ oc, h !! c = Some oc ∧ _parent oc = Some g ∧ _is_dirty oc = true
           ∧ surface_ok oc ∧ width oc = width og ∧ height oc = height og
           ∧ renders (width og) (height og) (kind oc) (inks c)) →
  (g ∉ cs)
  ∧ ∀ c, c ∈ cs →
      ∃ oc, h !! c = Some oc ∧ surface_ok oc
            ∧ width oc = width og ∧ height oc = height og ∧ chain_ok h c
            ∧ kind oc ≠ KBitmap ∧ (∀ cs', kind oc ≠ KGraphicsBuffer cs')
            ∧ renders (width og) (height og) (kind oc) (inks c)
            ∧ (_is_dirty oc = false →
               ∀ px py, in_bounds oc px py = true → pixel oc px py = Z.b2z (inks c px py))
            ∧ _blend_mode oc = blend_of h c.
Proof.
  intros Hg Hroot Hcs. split.
  { intros Hin. destruct (Hcs g Hin) as (oc & Hc & Hp & _). congruence. }
  intros c Hc_in.
  destruct (Hcs c Hc_in) as (oc & Hc & Hp & Hdc & Hsc & Hw & Hh & Hren).
  pose proof (chain_ok_child h g c og oc Hg Hroot Hc Hp) as Hch.
  destruct (renders_shape _ _ _ h c oc Hren Hc Hdc Hsc Hw Hh Hch) as [Hnb Hnc].
  exists oc. do 8 (split; [done|]). split; [intros Hfalse; congruence|].
  unfold blend_of. by rewrite Hc.
Qed.

(** X23. [GraphicsBuffer.draw()] on a dirty container without parent,
    whose children are distinct dirty drawables of the container's size,
    each with the container as parent and of a class that renders, at
    that size, a known ink: the call returns the container, and a pixel
    of its surface is set exactly when the picture says so, the picture
    being the blank surface with the ink of each child blended in by the
    child's mode, in insertion order.  The container's flag is still set
    afterwards.  Every class renders: a line the positions of its
    Bresenham trace, a circle the reflections or chords of its midpoint
    steps, a filled rectangle its box, an outlined rectangle its border,
    an outlined triangle its three lines, a text (for a non-negative
    size) the ink of its font, a filled triangle (when no float
    overflows) its scanline spans. *)
Theorem X23_container_draws_the_picture :
  (∀ (h : heap) (g : ref) (og : Bitmap) (cs : list ref) (inks : ref → Z → Z → bool),
     h !! g = Some og → kind og = KGraphicsBuffer cs → _is_dirty og = true →
     surface_ok og → _parent og = None → NoDup cs →
     (∀ c, c ∈ cs →
        ∃ oc, h !! c = Some oc ∧ _parent oc = Some g ∧ _is_dirty oc = true
              ∧ surface_ok oc ∧ width oc = width og ∧ height oc = height og
              ∧ renders (width og) (height og) (kind oc) (inks c)) →
     ∃ h' og',
       GraphicsBuffer_draw g h = (Ok g, h')
       ∧ h' !! g = Some og' ∧ _is_dirty og' = true
       ∧ ∀ px py, in_bounds og px py = true →
           pixel og' px py = Z.b2z (picture h inks cs px py))
  ∧ (∀ dw dh : Z,
       (∀ x1 y1 x2 y2,
          ∃ pts, line_trace x1 y1 x2 y2 = Some pts
                 ∧ renders dw dh (KLine x1 y1 x2 y2) (on_trace pts))
       ∧ (∀ xc yc r fill,
            ∃ steps, circle_trace r = Some steps
                     ∧ renders dw dh (KCircle xc yc r fill)
                         (fun px py => existsb (if fill then in_chords xc yc px py
                                                else on_octants xc yc px py) steps))
       ∧ (∀ x y w hh, renders dw dh (KRectangle x y w hh true) (in_rect x y w hh))
       ∧ (∀ x y w hh, renders dw dh (KRectangle x y w hh false) (on_border x y w hh))
       ∧ (∀ x1 y1 x2 y2 x3 y3,
            ∃ t12 t23 t31,
              line_trace x1 y1 x2 y2 = Some t12 ∧ line_trace x2 y2 x3 y3 = Some t23
              ∧ line_trace x3 y3 x1 y1 = Some t31
              ∧ renders dw dh (KTriangle x1 y1 x2 y2 x3 y3 false)
                  (fun px py => on_trace t12 px py || on_trace t23 px py
                                || on_trace t31 px py))
       ∧ (∀ x1 y1 x2 y2 x3 y3,
            (∀ yy, Z.min y1 (Z.min y2 y3) ≤ yy ≤ Z.max y1 (Z.max y2 y3) →
               is_ok (scanline_span yy (x1, y1) (x2, y2) (x3, y3)) = true) →
            renders dw dh (KTriangle x1 y1 x2 y2 x3 y3 true)
                    (in_spans (x1, y1) (x2, y2) (x3, y3)))
       ∧ (∀ text font x y, 0 ≤ dw → 0 ≤ dh →
            renders dw dh (KDrawableText text font x y)
                    (text_ink font text x y dw dh))).
Proof.
  split.
  - intros h g og cs inks Hg Hk Hd Hsg Hroot Hnd Hcs.
    destruct (dirty_children_ready h g og cs inks Hg Hroot Hcs) as [Hg_notin Hready].
    destruct (GraphicsBuffer_draw_paints h g og cs inks (blend_of h)
                Hg Hk Hd Hsg Hnd Hg_notin Hready)
      as (h' & og' & E & Hg' & _ & _ & Hf' & _ & _ & Hpx).
    by exists h', og'.
  - intros dw dh. split.
    { intros x1 y1 x2 y2. destruct (line_trace_spec x1 y1 x2 y2) as (pts & E & _).
      exists pts. split; [done|]. by apply renders_line. }
    split.
    { intros xc yc r fill. destruct (circle_trace_spec r) as (steps & E & _).
      exists steps. split; [done|]. by apply renders_circle. }
    split; [intros; apply renders_filled_rectangle|].
    split; [intros; apply renders_outlined_rectangle|].
    split.
    { intros x1 y1 x2 y2 x3 y3.
      destruct (line_trace_spec x1 y1 x2 y2) as (t12 & E12 & _).
      destruct (line_trace_spec x2 y2 x3 y3) as (t23 & E23 & _).
      destruct (line_trace_spec x3 y3 x1 y1) as (t31 & E31 & _).
      exists t12, t23, t31. do 3 (split; [done|]). by apply renders_outlined_triangle. }
    split; [intros; by apply renders_filled_triangle|].
    intros. by apply renders_text.
Qed.

Lemma scene_picture_surface_ok (p : option ref) (bm : BlendMode) (k : Kind) :
  surface_ok (mkBitmap 16 4 (np.mk 4 1 [[0]; [0]; [0]; [0]]) true p bm k).
Proof.
  unfold surface_ok, np.wf. simpl. repeat split; try reflexivity.
  repeat constructor.
Qed.

Lemma X23_witness :
  ∃ h' og',
    GraphicsBuffer_draw 0%nat scene_picture = (Ok 0%nat, h')
    ∧ h' !! 0%nat = Some og' ∧ _is_dirty og' = true
    ∧ pixel og' 2 0 = 0 ∧ pixel og' 2 1 = 1 ∧ pixel og' 6 0 = 1.
Proof.
  destruct X23_container_draws_the_picture as [H _].
  destruct (H scene_picture 0%nat _ [1%nat; 2%nat] inks_picture eq_refl eq_refl eq_refl
              (scene_picture_surface_ok _ _ _) eq_refl NoDup_1_2)
    as (h' & og' & E & Hg' & Hfl & Hpx).
  - intros c Hc. apply elem_of_cons in Hc as [->|Hc];
      [|apply list_elem_of_singleton in Hc as ->].
    + eexists. split; [reflexivity|]. split; [reflexivity|]. split; [reflexivity|].
      split; [apply scene_picture_surface_ok|]. split; [reflexivity|].
      split; [reflexivity|].
      exact (renders_line 16 4 1 0 9 0 (default [] (line_trace 1 0 9 0)) eq_refl).
    + eexists. split; [reflexivity|]. split; [reflexivity|]. split; [reflexivity|].
      split; [apply scene_picture_surface_ok|]. split; [reflexivity|].
      split; [reflexivity|].
      exact (renders_filled_rectangle 16 4 0 0 4 2).
  - exists h', og'. split; [exact E|]. split; [exact Hg'|]. split; [exact Hfl|].
    split; [exact (Hpx 2 0 eq_refl)|]. split; [exact (Hpx 2 1 eq_refl)|].
    exact (Hpx 6 0 eq_refl).
Defined.

(** X24. A container composes its surface anew at every [draw()].  Under
    the conditions of X23 the first [draw()] returns; a second [draw()]
    right after it returns too and shows the same picture, pixel for
    pixel.  And whatever array of the surface's shape has been put in the
    container's words in between (as [reverse], [reset], [set_word] and
    [set_pixel] on the container do), the next [draw()] shows the picture
    of the children again: what was written on the container itself is
    lost. *)
Theorem X24_container_always_recomposes :
  ∀ (h : heap) (g : ref) (og : Bitmap) (cs : list ref) (inks : ref → Z → Z → bool),
    h !! g = Some og → kind og = KGraphicsBuffer cs → _is_dirty og = true →
    surface_ok og → _parent og = None → NoDup cs →
    (∀ c, c ∈ cs →
       ∃ oc, h !! c = Some oc ∧ _parent oc = Some g ∧ _is_dirty oc = true
             ∧ surface_ok oc ∧ width oc = width og ∧ height oc = height og
             ∧ renders (width og) (height og) (kind oc) (inks c)) →
    ∃ h1 og1,
      GraphicsBuffer_draw g h = (Ok g, h1) ∧ h1 !! g = Some og1
      ∧ (∃ h2 og2,
           GraphicsBuffer_draw g h1 = (Ok g, h2) ∧ h2 !! g = Some og2
           ∧ ∀ px py, in_bounds og px py = true → pixel og2 px py = pixel og1 px py)
      ∧ ∀ a, shaped a (width og) (height og) →
          ∃ h2 og2,
            GraphicsBuffer_draw g (<[g := with_words og1 a]> h1) = (Ok g, h2)
            ∧ h2 !! g = Some og2
            ∧ ∀ px py, in_bounds og px py = true →
                pixel og2 px py = Z.b2z (picture h inks cs px py).
Proof.
  intros h g og cs inks Hg Hk Hd Hsg Hroot Hnd Hcs.
  destruct (dirty_children_ready h g og cs inks Hg Hroot Hcs) as [Hg_notin Hready].
  destruct (GraphicsBuffer_draw_paints h g og cs inks (blend_of h)
              Hg Hk Hd Hsg Hnd Hg_notin Hready)
    as (h1 & og1 & E1 & Hg1 & Hst1 & Hs1 & Hf1 & Ht1 & Hshow1 & Hpx1).
  pose proof Hst1 as (Hw1 & Hh1 & _ & _ & Hk1).
  assert (Hagain : ∀ a, shaped a (width og) (height og) →
            ∃ h2 og2,
              GraphicsBuffer_draw g (<[g := with_words og1 a]> h1) = (Ok g, h2)
              ∧ h2 !! g = Some og2
              ∧ ∀ px py, in_bounds og px py = true →
                  pixel og2 px py = Z.b2z (picture h inks cs px py)).
  { intros a Ha.
    assert (Lg : (g < length h1)%nat) by (by eapply lookup_lt_Some).
    set (og1' := with_words og1 a). set (h1' := <[g := og1']> h1).
    assert (Ht1' : touch (fun r => r ∈ cs ∨ r = g) h1 h1').
    { eapply (touch_insert (fun r => r ∈ cs ∨ r = g));
        [exact Hg1 | by repeat split | by right]. }
    assert (Hs1' : surface_ok og1').
    { destruct Hsg as (Hm & _). destruct Ha as (Hwa & Hra & Hca).
      split; [cbn; congruence|]. split; [done|]. split; cbn; congruence. }
    destruct (GraphicsBuffer_draw_paints h1' g og1' cs inks (blend_of h))
      as (h2 & og2 & E2 & Hg2 & _ & _ & _ & _ & _ & Hpx2); try done.
    { by apply list_lookup_insert_eq. }
    { cbn. congruence. }
    { intros c Hc_in.
      destruct (Hready c Hc_in)
        as (oc & Hc & Hsc & Hw & Hh & Hch & Hnb & Hnc & Hren & _ & Hbm).
      assert (Hne : c ≠ g) by (intros ->; by apply Hg_notin).
      destruct (Hshow1 c Hc_in) as (oc1 & Hc1 & Hsc1 & Hshow).
      pose proof Ht1 as [_ Hobj1].
      destruct (Hobj1 c oc Hc) as (oc1' & Hc1' & Hstc & _).
      assert (oc1' = oc1) as -> by congruence.
      pose proof Hstc as (Hwc & Hhc & _ & Hbmc & Hkc).
      exists oc1. split; [unfold h1'; by rewrite list_lookup_insert_ne|].
      split; [done|]. split; [cbn; congruence|]. split; [cbn; congruence|].
      split.
      { eapply chain_ok_touch; [exact Ht1'|]. by eapply chain_ok_touch. }
      split; [congruence|]. split; [intros cs'; rewrite Hkc; apply Hnc|].
      split.
      { cbn [width height og1' with_words]. rewrite Hw1, Hh1, Hkc. exact Hren. }
      split; [|congruence].
      intros _ px py Hb. apply Hshow. apply in_bounds_range.
      apply in_bounds_range in Hb. lia. }
    exists h2, og2. split; [done|]. split; [done|].
    intros px py Hb. apply Hpx2.
    apply in_bounds_range. cbn [width height og1' with_words].
    rewrite Hw1, Hh1. by apply in_bounds_range. }
  exists h1, og1. split; [done|]. split; [done|]. split; [|exact Hagain].
  destruct (Hagain (words og1)) as (h2 & og2 & E2 & Hg2 & Hpx2).
  { pose proof (surface_ok_shaped og1 Hs1) as Hsh. by rewrite Hw1, Hh1 in Hsh. }
  rewrite insert_same_object in E2 by done.
  exists h2, og2. split; [done|]. split; [done|].
  intros px py Hb. rewrite Hpx2, Hpx1 by done. reflexivity.
Qed.

Lemma X24_witness :
  ∃ h1 og1 h2 og2,
    GraphicsBuffer_draw 0%nat scene_picture = (Ok 0%nat, h1) ∧ h1 !! 0%nat = Some og1
    ∧ GraphicsBuffer_draw 0%nat
        (<[0%nat := with_words og1 (np.mk 4 1 [[65535]; [65535]; [0]; [0]])]> h1)
      = (Ok 0%nat, h2)
    ∧ h2 !! 0%nat = Some og2
    ∧ pixel og2 2 0 = 0 ∧ pixel og2 2 1 = 1 ∧ pixel og2 12 0 = 0.
Proof.
  destruct (X24_container_always_recomposes scene_picture 0%nat _ [1%nat; 2%nat]
              inks_picture eq_refl eq_refl eq_refl
              (scene_picture_surface_ok _ _ _) eq_refl NoDup_1_2)
    as (h1 & og1 & E1 & Hg1 & _ & Hagain).
  - intros c Hc. apply elem_of_cons in Hc as [->|Hc];
      [|apply list_elem_of_singleton in Hc as ->].
    + eexists. split; [reflexivity|]. split; [reflexivity|]. split; [reflexivity|].
      split; [apply scene_picture_surface_ok|]. split; [reflexivity|].
      split; [reflexivity|].
      exact (renders_line 16 4 1 0 9 0 (default [] (line_trace 1 0 9 0)) eq_refl).
    + eexists. split; [reflexivity|]. split; [reflexivity|]. split; [reflexivity|].
      split; [apply scene_picture_surface_ok|]. split; [reflexivity|].
      split; [reflexivity|].
      exact (renders_filled_rectangle 16 4 0 0 4 2).
  - destruct (Hagain (np.mk 4 1 [[65535]; [65535]; [0]; [0]]))
      as (h2 & og2 & E2 & Hg2 & Hpx).
    { split; [|by split]. split; [reflexivity|]. by repeat constructor. }
    exists h1, og1, h2, og2. do 4 (split; [done|]).
    split; [exact (Hpx 2 0 eq_refl)|]. split; [exact (Hpx 2 1 eq_refl)|].
    exact (Hpx 12 0 eq_refl).
Defined.

(** ** What a draw leaves exactly as it was *)

Lemma up_closed_parents h h' T :
  parents h' = parents h → up_closed h T → up_closed h' T.
Proof.
  intros Hp Hup r o p HT Hr Hpo.
  assert (Hl : parents h !! r = Some (Some p)).
  { rewrite <- Hp. unfold parents. by rewrite list_lookup_fmap, Hr, <- Hpo. }
  unfold parents in Hl. rewrite list_lookup_fmap in Hl.
  destruct (h !! r) as [o0|] eqn:Hr0; [|done]. simpl in Hl.
  apply (Hup r o0 p); [done | done | congruence].
Qed.

Lemma within_refl T S h : within T S h h.
Proof. by intros _. Qed.

Lemma within_trans T S h1 h2 h3 :
  within T S h1 h2 → within T S h2 h3 → within T S h1 h3.
Proof.
  intros H12 H23 Hup. destruct (H12 Hup) as (Hl & Hp & Hout).
  destruct (H23 (up_closed_parents _ _ _ Hp Hup)) as (Hl' & Hp' & Hout').
  split; [congruence|]. split; [congruence|].
  intros r HT HS. by rewrite Hout', Hout.
Qed.

#[export] Instance within_reflexive T S : Reflexive (within T S).
Proof. intros h. apply within_refl. Qed.

#[export] Instance within_transitive T S : Transitive (within T S).
Proof. intros h1 h2 h3. apply within_trans. Qed.

Section within_rules.
Context (T S : ref → Prop).

Lemma wi_ret {A} (a : A) : preserves (within T S) (ret a).
Proof. apply preserves_ret, _. Qed.
Lemma wi_raise {A} e : preserves (within T S) (raise (A := A) e).
Proof. apply preserves_raise, _. Qed.
Lemma wi_lift {A} (r : result A) : preserves (within T S) (lift r).
Proof. apply preserves_lift, _. Qed.
Lemma wi_get_obj r : preserves (within T S) (get_obj r).
Proof. apply preserves_get_obj, _. Qed.
Lemma wi_expect {A} (o : option A) : preserves (within T S) (expect o).
Proof. apply preserves_expect, _. Qed.
Lemma wi_bind {A B} (m : M A) (f : A → M B) :
  preserves (within T S) m → (∀ a, preserves (within T S) (f a)) →
  preserves (within T S) (bind m f).
Proof. apply preserves_bind; apply _. Qed.
Lemma wi_for_each {A} (l : list A) body :
  (∀ a, preserves (within T S) (body a)) → preserves (within T S) (for_each l body).
Proof. intros Hb. apply preserves_for_each; [apply _ | apply _ | auto]. Qed.
Lemma wi_for_range lo hi body :
  (∀ i, preserves (within T S) (body i)) → preserves (within T S) (for_range lo hi body).
Proof. intros Hb. by apply wi_for_each. Qed.

Lemma within_insert h r o o' :
  h !! r = Some o → _parent o' = _parent o → T r ∨ S r →
  within T S h (<[r := o']> h).
Proof.
  intros Hr Hp Hin _. split; [apply length_insert|]. split.
  - unfold parents. rewrite list_fmap_insert. apply list_insert_id.
    by rewrite list_lookup_fmap, Hr, Hp.
  - intros r' HnT HnS. apply list_lookup_insert_ne. intros ->. by destruct Hin.
Qed.

Lemma wi_modify_obj self f :
  S self → (∀ o, _parent (f o) = _parent o) → preserves (within T S) (modify_obj self f).
Proof.
  intros HS Hf h. unfold modify_obj, bind, get_obj, put_obj.
  destruct (h !! self) as [o|] eqn:E; simpl; [|apply within_refl].
  eapply within_insert; [done | apply Hf | by right].
Qed.

Lemma wi_update_words self f : S self → preserves (within T S) (update_words self f).
Proof.
  intros HS h. unfold update_words, bind, get_obj, put_obj, lift.
  destruct (h !! self) as [o|] eqn:E; simpl; [|apply within_refl].
  destruct (f (words o)) as [a|e]; simpl; [|apply within_refl].
  eapply within_insert; [done | done | by right].
Qed.

Lemma wi_reset self : S self → preserves (within T S) (reset self).
Proof. intros HS. by apply wi_modify_obj. Qed.

Lemma wi_dirty_rec fuel : ∀ r, T r → preserves (within T S) (dirty_rec fuel r).
Proof.
  induction fuel as [|fuel IH]; intros r HT h; simpl; [apply within_refl|].
  unfold bind, get_obj, put_obj.
  destruct (h !! r) as [o|] eqn:E; simpl; [|apply within_refl].
  assert (Hins : within T S h (<[r := with_dirty o true]> h)).
  { eapply within_insert; [done | done | by left]. }
  destruct (_parent o) as [p|] eqn:Ep; simpl; [|done].
  intros Hup.
  assert (HTp : T p) by (by apply (Hup r o p)).
  revert Hup. eapply within_trans; [exact Hins | by apply IH].
Qed.

Lemma wi_dirty r : T r → preserves (within T S) (dirty r).
Proof. intros HT h. unfold dirty. by apply wi_dirty_rec. Qed.

Lemma wi_set_pixel_under c self x y v :
  T self → S self → preserves (within T S) (set_pixel_under c self x y v).
Proof.
  intros HT HS h. unfold set_pixel_under, bind, get_obj, lift.
  destruct (h !! self) as [o|] eqn:E; simpl; [|apply within_refl].
  destruct (negb (in_bounds o x y)); simpl; [apply within_refl|].
  destruct (np.getitem (words o) y (x / 16)) as [w|]; simpl; [|apply within_refl].
  destruct (if v then _ else _) as [w'|e]; simpl; [|apply within_refl].
  etransitivity; [|by apply wi_dirty].
  eapply within_insert; [done | done | by right].
Qed.

Lemma wi_set_pixel self x y v :
  T self → S self → preserves (within T S) (set_pixel self x y v).
Proof. apply wi_set_pixel_under. Qed.

End within_rules.

Ltac wi_step :=
  first
    [ apply wi_ret | apply wi_raise | apply wi_lift | apply wi_get_obj
    | apply wi_expect
    | apply wi_set_pixel; assumption
    | apply wi_reset; assumption
    | apply wi_update_words; assumption
    | apply wi_modify_obj; [assumption | intros ?; reflexivity]
    | apply wi_for_range; intros ?
    | apply wi_for_each; intros ?
    | apply wi_bind; [| intros ?] ].

Ltac wi :=
  repeat first
    [ wi_step
    | match goal with
      | |- preserves _ (if ?b then _ else _) => destruct b
      | |- preserves _ (match ?x with _ => _ end) => destruct x
      | |- preserves _ (let '(_, _) := ?x in _) => destruct x
      end ].

Lemma wi_Line_loop T S fuel self x1 y1 x2 y2 dx dy sx sy err :
  T self → S self →
  preserves (within T S) (Line_loop fuel self x1 y1 x2 y2 dx dy sx sy err).
Proof.
  intros HT HS. revert x1 y1 err. induction fuel as [|fuel IH]; intros x1 y1 err; simpl.
  - wi.
  - apply wi_bind; [wi | intros _].
    destruct (_ && _); [wi|].
    destruct (2 * err >=? dy), (2 * err <=? dx); apply IH.
Qed.

Lemma wi_Line_draw T S self w h :
  T self → S self → preserves (within T S) (Line_draw self w h).
Proof.
  intros HT HS. unfold Line_draw.
  apply wi_bind; [wi | intros o].
  destruct (negb (_is_dirty o)); [wi|].
  apply wi_bind; [wi | intros _].
  apply wi_bind; [wi | intros [[[x1 y1] x2] y2]].
  apply wi_bind; [by apply wi_Line_loop | intros _]. wi.
Qed.

Lemma wi_Circle_loop T S fuel self fill x0 y0 x y d :
  T self → S self → preserves (within T S) (Circle_loop fuel self fill x0 y0 x y d).
Proof.
  intros HT HS. revert x y d. induction fuel as [|fuel IH]; intros x y d; simpl.
  - wi.
  - destruct (x <=? y); [|wi].
    apply wi_bind; [unfold circle_fill, circle_points; wi | intros _].
    destruct (d <? 0); apply IH.
Qed.

Lemma wi_Circle_draw T S self w h :
  T self → S self → preserves (within T S) (Circle_draw self w h).
Proof.
  intros HT HS. unfold Circle_draw.
  apply wi_bind; [wi | intros o].
  destruct (negb (_is_dirty o)); [wi|].
  apply wi_bind; [wi | intros _].
  apply wi_bind; [wi | intros [[[x0 y0] r] fill]].
  apply wi_bind; [by apply wi_Circle_loop | intros _]. wi.
Qed.

Lemma wi_Triangle_draw T S self w h :
  T self → S self → preserves (within T S) (Triangle_draw self w h).
Proof.
  intros HT HS. unfold Triangle_draw, Triangle_scanline.
  apply wi_bind; [wi | intros o].
  destruct (negb (_is_dirty o)); [wi|].
  apply wi_bind; [wi | intros _].
  apply wi_bind; [wi | intros [[[[[[x1 y1] x2] y2] x3] y3] fill]].
  wi.
Qed.

Lemma wi_Rectangle_draw T S self w h :
  T self → S self → preserves (within T S) (Rectangle_draw self w h).
Proof.
  intros HT HS. unfold Rectangle_draw.
  apply wi_bind; [wi | intros o].
  destruct (negb (_is_dirty o)); [wi|].
  apply wi_bind; [wi | intros _].
  apply wi_bind; [wi | intros [[[[x y] ww] hh] fill]].
  wi.
Qed.

Lemma wi_DrawableText_draw T S self w h :
  T self → S self → preserves (within T S) (DrawableText_draw self w h).
Proof.
  intros HT HS. unfold DrawableText_draw.
  apply wi_bind; [wi | intros o].
  destruct (negb (_is_dirty o)); [wi|].
  apply wi_bind; [wi | intros _].
  apply wi_bind; [wi | intros [[[text font] x] y]].
  wi.
Qed.

Lemma wi_draw_method T S c w h :
  T c → S c → preserves (within T S) (draw_method c w h).
Proof.
  intros HT HS. unfold draw_method.
  apply wi_bind; [wi | intros o].
  destruct (kind o); [wi | wi | | | | |].
  - by apply wi_Line_draw.
  - by apply wi_Circle_draw.
  - by apply wi_Triangle_draw.
  - by apply wi_Rectangle_draw.
  - by apply wi_DrawableText_draw.
Qed.

Lemma wi_compose_child T S g c :
  T c → S c → S g → preserves (within T S) (compose_child g c).
Proof.
  intros HT HSc HSg. unfold compose_child.
  apply wi_bind; [wi | intros co].
  apply wi_bind; [wi | intros o].
  apply wi_bind; [by apply wi_draw_method | intros d].
  apply wi_bind; [wi | intros dobj].
  by apply wi_update_words.
Qed.

(** The objects reached from [c] by going to the parent have their
    parents among them. *)
Lemma ancestor_snoc h c r o p :
  ancestor h c r → h !! r = Some o → _parent o = Some p → ancestor h c p.
Proof.
  intros Ha Hr Hp. induction Ha as [r|r0 p0 a o0 Hr0 Hp0 _ IH].
  - eapply ancestor_up; [exact Hr | exact Hp | constructor].
  - eapply ancestor_up; [exact Hr0 | exact Hp0 | by apply IH].
Qed.

Lemma up_closed_ancestor h c : up_closed h (ancestor h c).
Proof. intros r o p Ha Hr Hp. by eapply ancestor_snoc. Qed.

(** X25. A drawable's [draw], [set_pixel] (under either version of
    NumPy) and [dirty] leave every object that is neither the drawable
    nor one of the containers above it exactly as it was, words and flag:
    a draw never marks a sibling. *)
Theorem X25_draw_leaves_the_rest_as_it_was :
  ∀ (h : heap) (c r : ref),
    ¬ ancestor h c r →
    (∀ dw dh, snd (draw_method c dw dh h) !! r = h !! r)
    ∧ (∀ nv x y v, snd (set_pixel_under nv c x y v h) !! r = h !! r)
    ∧ snd (dirty c h) !! r = h !! r.
Proof.
  intros h c r Hr.
  assert (Hne : ¬ (c = r)) by (intros ->; apply Hr; constructor).
  split; [|split].
  - intros dw dh.
    destruct (wi_draw_method (ancestor h c) (eq c) c dw dh (ancestor_self h c) eq_refl h
                (up_closed_ancestor h c)) as (_ & _ & Hout).
    by apply Hout.
  - intros nv x y v.
    destruct (wi_set_pixel_under (ancestor h c) (eq c) nv c x y v
                (ancestor_self h c) eq_refl h
                (up_closed_ancestor h c)) as (_ & _ & Hout).
    by apply Hout.
  - destruct (wi_dirty (ancestor h c) (eq c) c (ancestor_self h c) h
                (up_closed_ancestor h c)) as (_ & _ & Hout).
    by apply Hout.
Qed.

Lemma scene_picture_apart : ¬ ancestor scene_picture 1%nat 2%nat.
Proof.
  intros Ha. inversion Ha as [|r p a o Hr Hp Ha']; subst.
  vm_compute in Hr. injection Hr as <-. vm_compute in Hp. injection Hp as <-.
  inversion Ha' as [|r p a o Hr Hp Ha'']; subst.
  vm_compute in Hr. injection Hr as <-. vm_compute in Hp. discriminate Hp.
Qed.

Lemma X25_witness :
  snd (draw_method 1%nat 16 4 scene_picture) !! 2%nat = scene_picture !! 2%nat.
Proof.
  exact (proj1 (X25_draw_leaves_the_rest_as_it_was scene_picture 1%nat 2%nat
                  scene_picture_apart) 16 4).
Defined.

(** ** Drawing again *)

(** One step of the compositor's loop that returned. *)
Lemma compose_child_run g c h h1 og csg :
  h !! g = Some og → kind og = KGraphicsBuffer csg →
  compose_child g c h = (Ok tt, h1) →
  c ≠ g ∧ parents h1 = parents h
  ∧ ∃ oc og2 oc2 a,
      h !! c = Some oc ∧ static og og2
      ∧ h1 !! g = Some (with_words og2 a)
      ∧ h1 !! c = Some oc2 ∧ _is_dirty oc2 = false
      ∧ kind oc2 ≠ KBitmap ∧ ∀ cs', kind oc2 ≠ KGraphicsBuffer cs'.
Proof.
  intros Hg Hk E.
  pose proof (touch_of_run (fun _ => True) _ _ _ _
                (frame_compose_child (fun _ => True) g c I I) E) as Ht.
  split.
  { by destruct (compose_child_inv g c h h1 og csg Hg Hk E). }
  split; [by eapply parents_touch|].
  unfold compose_child in E.
  apply bind_inv_ok in E as (co & h0 & E0 & E). apply get_obj_inv in E0 as [Hco ->].
  apply bind_inv_ok in E as (og0 & h0 & E0 & E). apply get_obj_inv in E0 as [Hg0 ->].
  assert (og0 = og) as -> by congruence.
  apply bind_inv_ok in E as (d & h2 & Edraw & E).
  assert (d = c) as -> by (symmetry; by eapply draw_method_returns_self).
  assert (Hne : c ≠ g).
  { intros ->. rewrite (draw_method_container g _ _ h og csg) in Edraw; done. }
  assert (Hshape : kind co ≠ KBitmap ∧ ∀ cs', kind co ≠ KGraphicsBuffer cs').
  { split.
    - intros Hkb. unfold draw_method in Edraw.
      rewrite (bind_ok _ _ h co h) in Edraw by (unfold get_obj; by rewrite Hco).
      by rewrite Hkb in Edraw.
    - intros cs' Hkc. by rewrite (draw_method_container c _ _ h co cs') in Edraw. }
  pose proof (shape_draw_clears _ _ _ _ _ _ Edraw) as Hflag.
  apply bind_inv_ok in E as (dobj & h3 & E0 & E). apply get_obj_inv in E0 as [Hd ->].
  apply update_words_inv in E as (og2 & a & Hg2 & Hbl & ->).
  pose proof (touch_of_run (eq c) _ _ _ _ (frame_draw_method (eq c) c _ _ eq_refl) Edraw)
    as [Hlen Ht2].
  destruct (Ht2 g og Hg) as (og2' & Hg2' & Hst & _).
  assert (og2' = og2) as -> by congruence.
  destruct (Ht2 c co Hco) as (dobj' & Hd' & Hstc & _).
  assert (dobj' = dobj) as -> by congruence.
  exists co, og2, dobj, a. split; [done|]. split; [done|].
  split; [apply list_lookup_insert_eq; by eapply lookup_lt_Some|].
  split; [by rewrite list_lookup_insert_ne|].
  split; [unfold flag_of in Hflag; rewrite Hd in Hflag; by injection Hflag|].
  destruct Hstc as (_ & _ & _ & _ & ->). exact Hshape.
Qed.

(** The rest of the loop leaves a drawable that is not above any of the
    remaining children exactly as it was. *)
Lemma compose_loop_keeps g c csg : ∀ rest h h' og,
  h !! g = Some og → kind og = KGraphicsBuffer csg →
  for_each rest (compose_child g) h = (Ok tt, h') →
  c ≠ g → (∀ c', c' ∈ rest → ¬ ancestor h c' c) →
  h' !! c = h !! c.
Proof.
  induction rest as [|c' rest IH]; intros h h' og Hg Hk E Hne Hap; simpl in E.
  - by injection E as <-.
  - apply bind_inv_ok in E as ([] & h1 & Estep & Erest).
    destruct (compose_child_run g c' h h1 og csg Hg Hk Estep)
      as (Hne' & Hp & oc & og2 & oc2 & a & _ & Hst & Hg1 & _).
    assert (Hna : ¬ ancestor h c' c) by (apply Hap; left).
    assert (Hstep : h1 !! c = h !! c).
    { pose proof (wi_compose_child (ancestor h c') (fun r => r = c' ∨ r = g) g c'
                    (ancestor_self h c') (or_introl eq_refl) (or_intror eq_refl) h
                    (up_closed_ancestor h c')) as (_ & _ & Hout).
      rewrite Estep in Hout. apply Hout; [done|].
      intros [-> | ->]; [apply Hna; constructor | done]. }
    rewrite <- Hstep.
    apply (IH h1 h' (with_words og2 a)); [done | | done | done |].
    { simpl. by destruct Hst as (_ & _ & _ & _ & ->). }
    intros c'' Hin Ha. apply (Hap c''); [by right|].
    by apply (ancestor_parents h1 h).
Qed.

(** After the loop every child is a shape with its flag cleared. *)
Lemma compose_loop_clean g csg : ∀ cs h h' og,
  NoDup cs → h !! g = Some og → kind og = KGraphicsBuffer csg →
  (∀ c c', c ∈ cs → c' ∈ cs → c ≠ c' → ¬ ancestor h c c') →
  for_each cs (compose_child g) h = (Ok tt, h') →
  ∀ c, c ∈ cs →
    c ≠ g ∧ ∃ oc, h' !! c = Some oc ∧ _is_dirty oc = false
                  ∧ kind oc ≠ KBitmap ∧ ∀ cs', kind oc ≠ KGraphicsBuffer cs'.
Proof.
  induction cs as [|c0 rest IH]; intros h h' og Hnd Hg Hk Hap E c Hin; simpl in E.
  - by apply elem_of_nil in Hin.
  - apply NoDup_cons in Hnd as [Hnotin Hnd].
    apply bind_inv_ok in E as ([] & h1 & Estep & Erest).
    destruct (compose_child_run g c0 h h1 og csg Hg Hk Estep)
      as (Hne & Hp & oc & og2 & oc2 & a & _ & Hst & Hg1 & Hc1 & Hfl & Hshape).
    assert (Hk1 : kind (with_words og2 a) = KGraphicsBuffer csg).
    { simpl. by destruct Hst as (_ & _ & _ & _ & ->). }
    assert (Hap1 : ∀ c c', c ∈ c0 :: rest → c' ∈ c0 :: rest → c ≠ c' → ¬ ancestor h1 c c').
    { intros x y Hx Hy Hxy Ha. apply (Hap x y Hx Hy Hxy).
      by apply (ancestor_parents h1 h). }
    apply elem_of_cons in Hin as [-> | Hin].
    + split; [done|]. exists oc2.
      rewrite (compose_loop_keeps g c0 csg rest h1 h' _ Hg1 Hk1 Erest Hne); [done|].
      intros c' Hc'. apply Hap1; [by right | left |]. intros ->. done.
    + apply (IH h1 h' (with_words og2 a)); try done.
      intros x y Hx Hy. apply Hap1; by right.
Qed.

Lemma compose_children_ext h h' : ∀ cs acc,
  (∀ c, c ∈ cs → h' !! c = h !! c) →
  compose_children h' acc cs = compose_children h acc cs.
Proof.
  induction cs as [|c rest IH]; intros acc Hcs; simpl; [done|].
  rewrite (Hcs c) by left. destruct (h !! c) as [oc|]; [|done].
  destruct (blend_words _ acc (words oc)); [|done].
  apply IH. intros x Hx. apply Hcs. by right.
Qed.

Lemma map_imap_irrel {A B C} (k : B → C) (k' : A → C) (l : list A) :
  ∀ F : nat → A → B, (∀ i x, k (F i x) = k' x) → map k (imap F l) = map k' l.
Proof.
  induction l as [|x l IH]; intros F HF; simpl; [done|].
  rewrite HF. f_equal. apply IH. intros i y. apply HF.
Qed.

Lemma fill0_inplace f a b a' : np.inplace f a b = Ok a' → np.fill0 a' = np.fill0 a.
Proof.
  unfold np.inplace. destruct (np.broadcastable a b); [|done].
  intros [= <-]. unfold np.fill0. simpl. f_equal.
  apply map_imap_irrel. intros i ra.
  destruct (np.cells b !! _) as [rb|]; [|done].
  unfold np.bcast_row. by apply map_imap_irrel.
Qed.

Lemma fill0_blend bm acc drawn a :
  blend_words bm acc drawn = Ok a → np.fill0 a = np.fill0 acc.
Proof. destruct bm; apply fill0_inplace. Qed.

Lemma fill0_compose h : ∀ cs acc a,
  compose_children h acc cs = Ok a → np.fill0 a = np.fill0 acc.
Proof.
  induction cs as [|c rest IH]; intros acc a; simpl.
  - by intros [= <-].
  - destruct (h !! c) as [oc|]; [|done].
    destruct (blend_words _ acc (words oc)) as [a1|] eqn:Hbl; [|done].
    intros E. rewrite (IH _ _ E). by eapply fill0_blend.
Qed.

Lemma fill0_fill0 a : np.fill0 (np.fill0 a) = np.fill0 a.
Proof.
  unfold np.fill0. simpl. f_equal. rewrite map_map. apply map_ext.
  intros row. rewrite map_map. done.
Qed.

Lemma with_words_same o : with_words o (words o) = o.
Proof. by destruct o. Qed.

(** The loop over children that are not flagged: no child is drawn, and
    the container takes the combination of their surfaces. *)
Lemma compose_loop_cached g : ∀ cs h og a,
  h !! g = Some og →
  (∀ c, c ∈ cs →
     c ≠ g ∧ ∃ oc, h !! c = Some oc ∧ _is_dirty oc = false
                   ∧ kind oc ≠ KBitmap ∧ ∀ cs', kind oc ≠ KGraphicsBuffer cs') →
  compose_children h (words og) cs = Ok a →
  for_each cs (compose_child g) h = (Ok tt, <[g := with_words og a]> h).
Proof.
  induction cs as [|c rest IH]; intros h og a Hg Hcs Hcomp; simpl in *.
  - injection Hcomp as <-. rewrite with_words_same. by rewrite list_insert_id.
  - destruct (Hcs c) as (Hne & oc & Hc & Hfl & Hnb & Hnc); [left|].
    rewrite Hc in Hcomp.
    destruct (blend_words (_blend_mode oc) (words og) (words oc)) as [a1|] eqn:Hbl; [|done].
    set (h1 := <[g := with_words og a1]> h).
    assert (Estep : compose_child g c h = (Ok tt, h1)).
    { unfold compose_child.
      rewrite (bind_ok _ _ h oc h) by (unfold get_obj; by rewrite Hc).
      rewrite (bind_ok _ _ h og h) by (unfold get_obj; by rewrite Hg).
      rewrite (bind_ok _ _ h c h) by (by apply (shape_draw_cached c _ _ h oc)).
      rewrite (bind_ok _ _ h oc h) by (unfold get_obj; by rewrite Hc).
      unfold update_words, bind, get_obj, lift, put_obj. by rewrite Hg, Hbl. }
    rewrite (bind_ok _ _ _ _ _ Estep).
    rewrite (IH h1 (with_words og a1) a).
    + unfold h1. by rewrite list_insert_insert_eq.
    + apply list_lookup_insert_eq. by eapply lookup_lt_Some.
    + intros x Hx. destruct (Hcs x) as (Hxg & ox & Hox & Hrest); [by right|].
      split; [done|]. exists ox. split; [|done]. unfold h1. by rewrite list_lookup_insert_ne.
    + rewrite (compose_children_ext h h1); [done|].
      intros x Hx. destruct (Hcs x) as (Hxg & _); [by right|].
      unfold h1. by rewrite list_lookup_insert_ne.
Qed.

(** [draw()] on a composed container leaves the store as it is. *)
Lemma draw_composed h g og cs :
  composed h g og cs → GraphicsBuffer_draw g h = (Ok g, h).
Proof.
  intros (Hg & Hk & Hd & Hcs & Hcomp).
  set (og0 := with_words og (np.fill0 (words og))).
  set (h0 := <[g := og0]> h).
  unfold GraphicsBuffer_draw.
  rewrite (bind_ok _ _ h og h) by (unfold get_obj; by rewrite Hg).
  rewrite Hd. cbn [negb].
  rewrite (bind_ok _ _ h tt h0)
    by (unfold reset, modify_obj, bind, get_obj, put_obj; by rewrite Hg).
  rewrite Hk. rewrite (bind_ok _ _ h0 cs h0) by reflexivity.
  rewrite (bind_ok _ _ h0 tt h).
  - done.
  - rewrite (compose_loop_cached g cs h0 og0 (words og)).
    + unfold h0. rewrite list_insert_insert_eq. unfold og0.
      change (with_words (with_words og (np.fill0 (words og))) (words og))
        with (with_words og (words og)).
      by rewrite with_words_same, list_insert_id.
    + apply list_lookup_insert_eq. by eapply lookup_lt_Some.
    + intros c Hc. destruct (Hcs c Hc) as (Hne & oc & Hoc & Hrest).
      split; [done|]. exists oc. split; [|done]. unfold h0. by rewrite list_lookup_insert_ne.
    + rewrite (compose_children_ext h h0); [exact Hcomp|].
      intros c Hc. destruct (Hcs c Hc) as (Hne & _).
      unfold h0. by rewrite list_lookup_insert_ne.
Qed.

Lemma parents_insert_same h r o o' :
  h !! r = Some o → _parent o' = _parent o → parents (<[r := o']> h) = parents h.
Proof.
  intros Hr Hp. unfold parents. rewrite list_fmap_insert. apply list_insert_id.
  by rewrite list_lookup_fmap, Hr, Hp.
Qed.

(** A [draw()] that returns leaves the container composed. *)
Lemma draw_gives_composed h g og cs r h1 :
  h !! g = Some og → kind og = KGraphicsBuffer cs → _is_dirty og = true → NoDup cs →
  (∀ c c', c ∈ cs → c' ∈ cs → c ≠ c' → ¬ ancestor h c c') →
  GraphicsBuffer_draw g h = (Ok r, h1) →
  r = g ∧ ∃ og1, static og og1 ∧ np.fill0 (words og1) = np.fill0 (words og)
                 ∧ composed h1 g og1 cs.
Proof.
  intros Hg Hk Hd Hnd Hap E.
  destruct (GraphicsBuffer_draw_stays_dirty h g og cs Hg Hk Hd) as (ogd & Hgd & Hdd).
  rewrite E in Hgd. cbn [snd] in Hgd.
  unfold GraphicsBuffer_draw in E.
  apply bind_inv_ok in E as (o & h' & E0 & E). apply get_obj_inv in E0 as [Ho ->].
  assert (o = og) as -> by congruence.
  rewrite Hd in E. cbn [negb] in E.
  apply bind_inv_ok in E as ([] & h0 & Er & E).
  apply modify_obj_inv in Er as (o & Ho' & ->).
  assert (o = og) as -> by congruence.
  set (og0 := with_words og (np.fill0 (words og))) in *.
  rewrite Hk in E.
  apply bind_inv_ok in E as (cs' & h' & Ex & E). injection Ex as <- <-.
  apply bind_inv_ok in E as ([] & h' & Eloop & E). injection E as <- <-.
  split; [done|].
  assert (Hg0 : (<[g := og0]> h) !! g = Some og0).
  { apply list_lookup_insert_eq. by eapply lookup_lt_Some. }
  assert (Hp0 : parents (<[g := og0]> h) = parents h).
  { by apply (parents_insert_same h g og). }
  destruct (compose_loop g cs cs _ _ og0 Hnd Hg0 Hk Eloop) as (og1 & Hg1 & Hst & Hcomp).
  assert (ogd = og1) as -> by congruence.
  assert (Hfill : np.fill0 (words og1) = np.fill0 (words og)).
  { rewrite (fill0_compose _ _ _ _ Hcomp). apply fill0_fill0. }
  exists og1. split.
  { destruct Hst as (?&?&?&?&?). by repeat split. }
  split; [done|].
  split; [done|]. split; [by destruct Hst as (_ & _ & _ & _ & ->)|]. split; [done|].
  split.
  - apply (compose_loop_clean g cs cs _ _ og0 Hnd Hg0 Hk); [|done].
    intros c c' Hc Hc' Hne Ha. apply (Hap c c' Hc Hc' Hne).
    by apply (ancestor_parents (<[g := og0]> h) h).
  - by rewrite Hfill.
Qed.

Lemma composed_app h e g og cs : composed h g og cs → composed (h ++ e) g og cs.
Proof.
  intros (Hg & Hk & Hd & Hcs & Hcomp).
  split; [by apply lookup_app_l_Some|]. split; [done|]. split; [done|]. split.
  - intros c Hc. destruct (Hcs c Hc) as (Hne & oc & Hoc & Hrest).
    split; [done|]. exists oc. split; [by apply lookup_app_l_Some | done].
  - rewrite (compose_children_ext h (h ++ e)); [done|].
    intros c Hc. destruct (Hcs c Hc) as (_ & oc & Hoc & _).
    rewrite Hoc. by apply lookup_app_l_Some.
Qed.

(** The children of a container without parent, each with the container
    as parent: none is above another. *)
Lemma children_apart (h : heap) (g : ref) (og : Bitmap) (cs : list ref) :
  h !! g = Some og → _parent og = None →
  (∀ c, c ∈ cs → ∃ oc, h !! c = Some oc ∧ _parent oc = Some g) →
  ∀ c c', c ∈ cs → c' ∈ cs → c ≠ c' → ¬ ancestor h c c'.
Proof.
  intros Hg Hroot Hcs c c' Hc Hc' Hne Ha.
  destruct (Hcs c Hc) as (oc & Hoc & Hpc).
  destruct (Hcs c' Hc') as (oc' & Hoc' & Hpc').
  inversion Ha as [|r p a o Hr Hp Ha']; subst; [done|].
  assert (o = oc) as -> by congruence.
  assert (p = g) as -> by congruence.
  inversion Ha' as [|r p a o Hr' Hp' Ha'']; subst; congruence.
Qed.

(** After a [draw()] that returned, [draw()] leaves the store as it is,
    whatever objects have been created since. *)
Lemma draw_settles h g og cs r h1 :
  h !! g = Some og → kind og = KGraphicsBuffer cs → NoDup cs →
  (∀ c c', c ∈ cs → c' ∈ cs → c ≠ c' → ¬ ancestor h c c') →
  GraphicsBuffer_draw g h = (Ok r, h1) →
  r = g ∧ ∃ og1, h1 !! g = Some og1 ∧ static og og1
                 ∧ np.fill0 (words og1) = np.fill0 (words og)
                 ∧ ∀ e, GraphicsBuffer_draw g (h1 ++ e) = (Ok g, h1 ++ e).
Proof.
  intros Hg Hk Hnd Hap E. destruct (_is_dirty og) eqn:Hd.
  - destruct (draw_gives_composed h g og cs r h1 Hg Hk Hd Hnd Hap E)
      as (-> & og1 & Hst & Hfill & Hcomp).
    split; [done|]. exists og1. split; [apply Hcomp|]. split; [done|]. split; [done|].
    intros e. apply (draw_composed _ g og1 cs). by apply composed_app.
  - unfold GraphicsBuffer_draw in E.
    rewrite (bind_ok _ _ h og h) in E by (unfold get_obj; by rewrite Hg).
    rewrite Hd in E. injection E as <- <-.
    split; [done|]. exists og. split; [done|]. split; [apply static_refl|].
    split; [done|]. intros e. unfold GraphicsBuffer_draw.
    rewrite (bind_ok _ _ (h ++ e) og (h ++ e))
      by (unfold get_obj; by rewrite (lookup_app_l_Some _ _ _ _ Hg)).
    by rewrite Hd.
Qed.

Lemma surface_ok_fill0 o o' :
  static o o' → np.fill0 (words o') = np.fill0 (words o) → surface_ok o → surface_ok o'.
Proof.
  intros (Hw & Hh & _) Hfill (Hm & [Hlen Hrows] & Hr & Hc).
  unfold np.fill0 in Hfill. injection Hfill as Hnr Hnc Hcells.
  split; [congruence|]. split; [|split; congruence].
  split.
  - apply (f_equal length) in Hcells. rewrite !length_map in Hcells. congruence.
  - apply Forall_lookup. intros i row' Hi.
    assert (Hl : map (map (fun _ : Z => 0)) (np.cells (words o)) !! i
                 = Some (map (fun _ : Z => 0) row')).
    { rewrite <- Hcells. by rewrite list_lookup_fmap, Hi. }
    rewrite list_lookup_fmap in Hl.
    destruct (np.cells (words o) !! i) as [row|] eqn:Hrow; [|done].
    injection Hl as Hl. apply (f_equal length) in Hl. rewrite !length_map in Hl.
    rewrite Forall_lookup in Hrows. rewrite <- Hl, Hnc. by apply (Hrows i).
Qed.

Lemma scan_nothing o : scan o (fun _ _ => []) = [].
Proof.
  unfold scan. apply flat_map_all_nil. intros row _. by apply flat_map_all_nil.
Qed.

(** A turn of the loop when the container is settled and the baseline
    holds its words: nothing goes over the bus. *)
Lemma idle_frame g og1 d H b ob :
  H !! g = Some og1 → surface_ok og1 →
  GraphicsBuffer_draw g H = (Ok g, H) →
  old_buffer d = Some b → H !! b = Some ob → words ob = words og1 →
  show_frame g (d, H)
  = (Ok tt, (with_old_buffer d (Some (g + length H)%nat),
             H ++ (shift_refs (length H) <$> H))).
Proof.
  intros Hg Hs Hdraw Hold Hb Hw. unfold show_frame.
  rewrite (bind_ok _ _ (d, H) g (d, H))
    by (unfold on_heap; cbn [fst snd]; by rewrite Hdraw).
  rewrite (write_gdram_buffer_spec d H g og1 (fun _ _ => [])); [|done|].
  - rewrite scan_nothing. by rewrite sent_nil.
  - intros row col l Hr Hc. rewrite app_nil_r.
    apply (write_changed_word_skip (sent d l) H g og1 b ob row col (word_at og1 row col));
      simpl; try done; [|rewrite Hw]; by apply word_at_getitem.
Qed.

Lemma idle_frames g og1 : ∀ n d H b ob,
  H !! g = Some og1 → surface_ok og1 →
  (∀ e, GraphicsBuffer_draw g (H ++ e) = (Ok g, H ++ e)) →
  old_buffer d = Some b → H !! b = Some ob → words ob = words og1 →
  ∃ d' H', show_frames n g (d, H) = (Ok tt, (d', H')) ∧ spi d' = spi d.
Proof.
  induction n as [|n IH]; intros d H b ob Hg Hs Hdraw Hold Hb Hw; simpl.
  - by exists d, H.
  - assert (Hdraw0 : GraphicsBuffer_draw g H = (Ok g, H)).
    { specialize (Hdraw []). by rewrite app_nil_r in Hdraw. }
    rewrite (bind_ok _ _ _ _ _ (idle_frame g og1 d H b ob Hg Hs Hdraw0 Hold Hb Hw)).
    destruct (IH (with_old_buffer d (Some (g + length H)%nat))
                 (H ++ (shift_refs (length H) <$> H))
                 (g + length H)%nat (shift_refs (length H) og1))
      as (d' & H' & E & Hspi); try done.
    + by apply lookup_app_l_Some.
    + intros e. rewrite <- app_assoc. apply Hdraw.
    + rewrite lookup_app_r by lia.
      replace (g + length H - length H)%nat with g by lia.
      by rewrite list_lookup_fmap, Hg.
    + by exists d', H'.
Qed.

(** X26. The loop of main.py, [g.draw(); lcd.write_gdram_buffer(g)], when
    nothing is changed between the turns.  For a container without parent
    whose surface fits the display, with distinct children that have it
    as parent, and a driver without baseline: if the first [draw()]
    returns, it returns the container, the first turn puts every word of
    the container's surface on the bus, a [draw()] right after the first
    returns and leaves the store exactly as it is, and any number of
    further turns return and put nothing on the bus. *)
Theorem X26_unchanged_frames_send_nothing :
  ∀ (d : ST7920) (h : heap) (g : ref) (og : Bitmap) (cs : list ref) (r : ref) (h1 : heap),
    h !! g = Some og → kind og = KGraphicsBuffer cs → surface_ok og →
    _parent og = None → NoDup cs →
    (∀ c, c ∈ cs → ∃ oc, h !! c = Some oc ∧ _parent oc = Some g) →
    old_buffer d = None → fits d og →
    GraphicsBuffer_draw g h = (Ok r, h1) →
    r = g
    ∧ GraphicsBuffer_draw g h1 = (Ok g, h1)
    ∧ ∃ og1 d1 h1',
        h1 !! g = Some og1
        ∧ show_frame g (d, h) = (Ok tt, (d1, h1'))
        ∧ spi d1 = spi d ++ full_scan og1
        ∧ ∀ n, ∃ d2 h2, show_frames n g (d1, h1') = (Ok tt, (d2, h2)) ∧ spi d2 = spi d1.
Proof.
  intros d h g og cs r h1 Hg Hk Hs Hroot Hnd Hcs Hnone [Hfh Hfw] E.
  destruct (draw_settles h g og cs r h1 Hg Hk Hnd
              (children_apart h g og cs Hg Hroot Hcs) E)
    as (-> & og1 & Hg1 & Hst & Hfill & Hdraw).
  split; [done|]. split.
  { specialize (Hdraw []). by rewrite app_nil_r in Hdraw. }
  pose proof (surface_ok_fill0 og og1 Hst Hfill Hs) as Hs1.
  pose proof Hst as (Hw1 & Hh1 & _).
  set (d1 := with_old_buffer (sent d (full_scan og1)) (Some (g + length h1)%nat)).
  set (h1' := h1 ++ (shift_refs (length h1) <$> h1)).
  assert (E1 : show_frame g (d, h) = (Ok tt, (d1, h1'))).
  { unfold show_frame.
    rewrite (bind_ok _ _ (d, h) g (d, h1))
      by (unfold on_heap; cbn [fst snd]; by rewrite E).
    apply (write_gdram_buffer_spec d h1 g og1
             (fun row col => transmission row col (word_at og1 row col))); [done|].
    intros row col l Hr Hc. rewrite <- sent_sent.
    assert (Hr' : 0 ≤ row < lcd_height d) by lia.
    assert (Hc' : 0 ≤ col < lcd_width d / 16) by (rewrite Hw1 in Hc; lia).
    apply (write_changed_word_send (sent d l) h1 g og1 row col (word_at og1 row col));
      simpl; try done.
    - by apply word_at_getitem.
    - by rewrite Hnone. }
  exists og1, d1, h1'. split; [done|]. split; [done|]. split; [done|].
  intros n.
  apply (idle_frames g og1 n d1 h1' (g + length h1)%nat (shift_refs (length h1) og1));
    try done.
  - by apply lookup_app_l_Some.
  - intros e. unfold h1'. rewrite <- app_assoc. apply Hdraw.
  - unfold h1'. rewrite lookup_app_r by lia.
    replace (g + length h1 - length h1)%nat with g by lia.
    by rewrite list_lookup_fmap, Hg1.
Qed.

Lemma scene_picture_draw :
  GraphicsBuffer_draw 0%nat scene_picture = (Ok 0%nat, scene_picture_drawn).
Proof. vm_compute. reflexivity. Qed.

Lemma scene_picture_children (c : ref) :
  c ∈ [1%nat; 2%nat] → ∃ oc, scene_picture !! c = Some oc ∧ _parent oc = Some 0%nat.
Proof.
  intros Hc. apply elem_of_cons in Hc as [->|Hc];
    [|apply list_elem_of_singleton in Hc as ->]; eexists; split; reflexivity.
Qed.

Lemma X26_witness :
  GraphicsBuffer_draw 0%nat scene_picture_drawn = (Ok 0%nat, scene_picture_drawn)
  ∧ ∃ og1 d1 h1',
      scene_picture_drawn !! 0%nat = Some og1
      ∧ show_frame 0%nat (lcd_16x4, scene_picture) = (Ok tt, (d1, h1'))
      ∧ spi d1 = spi lcd_16x4 ++ full_scan og1
      ∧ ∀ n, ∃ d2 h2, show_frames n 0%nat (d1, h1') = (Ok tt, (d2, h2)) ∧ spi d2 = spi d1.
Proof.
  refine (proj2 (X26_unchanged_frames_send_nothing lcd_16x4 scene_picture 0%nat _
                   [1%nat; 2%nat] 0%nat scene_picture_drawn eq_refl eq_refl
                   (scene_picture_surface_ok _ _ _) eq_refl NoDup_1_2
                   scene_picture_children eq_refl _ scene_picture_draw)).
  split; vm_compute; discriminate.
Defined.

(** ** The cache of the drawables *)

(** A class that renders is a shape. *)
Lemma renders_kind (dw dh : Z) (k : Kind) ink (oc : Bitmap) :
  renders dw dh k ink → surface_ok oc → width oc = dw → height oc = dh →
  k ≠ KBitmap ∧ ∀ cs, k ≠ KGraphicsBuffer cs.
Proof.
  intros Hren Hs Hw Hh.
  set (o := mkBitmap (width oc) (height oc) (words oc) true None (_blend_mode oc) k).
  destruct (Hren [o] 0%nat o eq_refl eq_refl eq_refl Hs Hw Hh eq_refl)
    as (h' & o' & E & _).
  split; [|intros cs]; intros ->; by vm_compute in E.
Qed.

(** A setter on a child of a container without parent: the child takes
    the new geometry, child and container are flagged, every other
    object is as it was. *)
Lemma set_geometry_child (h : heap) (g c0 : ref) (og oc0 : Bitmap) upd k' :
  h !! g = Some og → _parent og = None →
  h !! c0 = Some oc0 → _parent oc0 = Some g → upd (kind oc0) = Some k' →
  set_geometry c0 upd h
  = (Ok tt, <[g := with_dirty og true]> (<[c0 := with_dirty (with_kind oc0 k') true]> h)).
Proof.
  intros Hg Hroot Hc Hp Hupd.
  assert (Hne : c0 ≠ g) by (intros ->; congruence).
  assert (Lc : (c0 < length h)%nat) by (by eapply lookup_lt_Some).
  unfold set_geometry.
  rewrite (bind_ok _ _ h oc0 h) by (unfold get_obj; by rewrite Hc).
  rewrite Hupd. rewrite (bind_ok _ _ h k' h) by reflexivity.
  rewrite (bind_ok _ _ h tt (<[c0 := with_kind oc0 k']> h)) by reflexivity.
  unfold dirty. rewrite length_insert.
  destruct (length h) as [|n] eqn:El; [lia|].
  cbn [dirty_rec]. unfold bind, get_obj, put_obj.
  rewrite list_lookup_insert_eq by lia. cbn [_parent with_kind with_dirty].
  rewrite Hp. rewrite list_insert_insert_eq.
  rewrite list_lookup_insert_ne by done. rewrite Hg. cbn [_parent with_dirty].
  by rewrite Hroot.
Qed.

Lemma blend_of_touch T h h' : touch T h h' → ∀ c, blend_of h' c = blend_of h c.
Proof.
  intros [Hlen Hobj] c. unfold blend_of.
  destruct (h !! c) as [o|] eqn:Hc.
  - destruct (Hobj c o Hc) as (o' & -> & (_ & _ & _ & Hbm & _) & _). simpl. by rewrite Hbm.
  - apply lookup_ge_None in Hc. rewrite <- Hlen in Hc.
    apply lookup_ge_None in Hc. by rewrite Hc.
Qed.

Lemma with_dirty_same o : _is_dirty o = true → with_dirty o true = o.
Proof. destruct o. simpl. by intros ->. Qed.

(** X27. The cache of the drawables is sound for a container without
    parent and its children.  Call the scene ready for the inks when
    every child belongs to a class that renders its ink and every child
    that is not flagged shows its ink already.  Then [draw()] on the
    container returns it, shows the picture of the inks, clears the flag
    of every child and leaves the scene ready for the same inks; and a
    setter on a child, giving it a geometry that renders another ink,
    returns and leaves the scene ready for the inks with that child's ink
    replaced.  So after any sequence of setters and draws, a [draw()]
    shows the picture of the current geometries. *)
Theorem X27_cache_is_sound :
  ∀ (h : heap) (g : ref) (og : Bitmap) (cs : list ref) (inks : ref → Z → Z → bool),
    ready h g og cs inks →
    (∃ h' og',
       GraphicsBuffer_draw g h = (Ok g, h')
       ∧ ready h' g og' cs inks
       ∧ (∀ c, c ∈ cs → flag_of h' c = Some false)
       ∧ (∀ c, blend_of h' c = blend_of h c)
       ∧ ∀ px py, in_bounds og px py = true →
           pixel og' px py = Z.b2z (picture h inks cs px py))
    ∧ ∀ (c0 : ref) (oc0 : Bitmap) (upd : Kind → option Kind) (k' : Kind)
        (ink' : Z → Z → bool),
        c0 ∈ cs → h !! c0 = Some oc0 → upd (kind oc0) = Some k' →
        renders (width og) (height og) k' ink' →
        ∃ h', set_geometry c0 upd h = (Ok tt, h')
              ∧ ready h' g og cs (with_ink inks c0 ink')
              ∧ flag_of h' c0 = Some true
              ∧ ∀ c, blend_of h' c = blend_of h c.
Proof.
  intros h g og cs inks (Hg & Hk & Hd & Hsg & Hroot & Hnd & Hcs).
  assert (Hg_notin : g ∉ cs).
  { intros Hin. destruct (Hcs g Hin) as (oc & Hc & Hp & _). congruence. }
  assert (Hkids : ∀ c, c ∈ cs → ∃ oc, h !! c = Some oc ∧ _parent oc = Some g).
  { intros c Hc_in. destruct (Hcs c Hc_in) as (oc & Hc & Hp & _). by exists oc. }
  split.
  - destruct (GraphicsBuffer_draw_paints h g og cs inks (blend_of h)
                Hg Hk Hd Hsg Hnd Hg_notin)
      as (h' & og' & E & Hg' & Hst & Hs' & Hf' & Ht & Hshow & Hpx).
    { intros c Hc_in.
      destruct (Hcs c Hc_in) as (oc & Hc & Hp & Hsc & Hw & Hh & Hren & Hclean).
      destruct (renders_kind _ _ _ _ oc Hren Hsc Hw Hh) as [Hnb Hnc].
      exists oc. do 4 (split; [done|]).
      split; [exact (chain_ok_child h g c og oc Hg Hroot Hc Hp)|].
      do 4 (split; [done|]). unfold blend_of. by rewrite Hc. }
    destruct (draw_gives_composed h g og cs g h' Hg Hk Hd Hnd
                (children_apart h g og cs Hg Hroot Hkids) E)
      as (_ & og1 & _ & _ & (Hg1 & _ & _ & Hclean' & _)).
    pose proof Hst as (Hw' & Hh' & Hp' & Hbm' & Hk').
    exists h', og'. split; [done|]. split.
    { split; [done|]. split; [congruence|]. split; [done|]. split; [done|].
      split; [congruence|]. split; [done|].
      intros c Hc_in.
      destruct (Hcs c Hc_in) as (oc & Hc & Hp & Hsc & Hw & Hh & Hren & _).
      destruct (Hshow c Hc_in) as (oc' & Hc' & Hsc' & Hpix).
      pose proof Ht as [_ Hobj].
      destruct (Hobj c oc Hc) as (oc'' & Hc'' & Hstc & _).
      assert (oc'' = oc') as -> by congruence.
      destruct Hstc as (Hwc & Hhc & Hpc & Hbmc & Hkc).
      exists oc'. split; [done|]. split; [congruence|]. split; [done|].
      split; [congruence|]. split; [congruence|].
      split; [rewrite Hw', Hh', Hkc; exact Hren|].
      intros _ px py Hb. apply Hpix. apply in_bounds_range.
      apply in_bounds_range in Hb. lia. }
    split.
    { intros c Hc_in. destruct (Hclean' c Hc_in) as (_ & oc & Hoc & Hfl & _).
      unfold flag_of. rewrite Hoc. simpl. by rewrite Hfl. }
    split; [by eapply blend_of_touch|]. exact Hpx.
  - intros c0 oc0 upd k' ink' Hin Hc0 Hupd Hren'.
    destruct (Hcs c0 Hin) as (oc & Hc & Hp & Hsc & Hw & Hh & Hren & _).
    assert (oc = oc0) as -> by congruence.
    assert (Hne : c0 ≠ g) by (intros ->; done).
    assert (Lc : (c0 < length h)%nat) by (by eapply lookup_lt_Some).
    assert (Lg : (g < length h)%nat) by (by eapply lookup_lt_Some).
    set (oc1 := with_dirty (with_kind oc0 k') true).
    exists (<[g := with_dirty og true]> (<[c0 := oc1]> h)).
    split; [by apply (set_geometry_child h g c0 og oc0)|].
    rewrite (with_dirty_same og Hd).
    split; [|split].
    + split; [apply list_lookup_insert_eq; by rewrite length_insert|].
      do 5 (split; [done|]).
      intros c Hc_in.
      assert (Hcg : c ≠ g) by (intros ->; done).
      rewrite list_lookup_insert_ne by done.
      unfold with_ink. destruct (decide (c = c0)) as [->|Hne0].
      * exists oc1. rewrite list_lookup_insert_eq by done.
        rewrite bool_decide_eq_true_2 by done.
        split; [done|]. split; [done|]. split; [exact Hsc|].
        split; [done|]. split; [done|]. split; [exact Hren'|].
        intros Hfalse. discriminate Hfalse.
      * destruct (Hcs c Hc_in) as (ocx & Hcx & Hrest).
        exists ocx. rewrite list_lookup_insert_ne by done.
        rewrite bool_decide_eq_false_2 by done. by split.
    + unfold flag_of. rewrite list_lookup_insert_ne by done.
      by rewrite list_lookup_insert_eq.
    + intros c. unfold blend_of.
      destruct (decide (c = g)) as [->|Hcg].
      { rewrite list_lookup_insert_eq by (by rewrite length_insert). by rewrite Hg. }
      rewrite list_lookup_insert_ne by done.
      destruct (decide (c = c0)) as [->|Hc0'].
      { rewrite list_lookup_insert_eq by done. by rewrite Hc0. }
      by rewrite list_lookup_insert_ne.
Qed.

Lemma scene_picture_ready :
  ready scene_picture 0%nat
    (mkBitmap 16 4 (np.mk 4 1 [[0]; [0]; [0]; [0]]) true None ON
              (KGraphicsBuffer [1%nat; 2%nat]))
    [1%nat; 2%nat] inks_picture.
Proof.
  do 3 (split; [reflexivity|]). split; [apply scene_picture_surface_ok|].
  split; [reflexivity|]. split; [exact NoDup_1_2|].
  intros c Hc. apply elem_of_cons in Hc as [->|Hc];
    [|apply list_elem_of_singleton in Hc as ->].
  - eexists. split; [reflexivity|]. split; [reflexivity|].
    split; [apply scene_picture_surface_ok|]. split; [reflexivity|].
    split; [reflexivity|]. split; [|intros Hf; discriminate Hf].
    exact (renders_line 16 4 1 0 9 0 (default [] (line_trace 1 0 9 0)) eq_refl).
  - eexists. split; [reflexivity|]. split; [reflexivity|].
    split; [apply scene_picture_surface_ok|]. split; [reflexivity|].
    split; [reflexivity|]. split; [|intros Hf; discriminate Hf].
    exact (renders_filled_rectangle 16 4 0 0 4 2).
Qed.

Lemma X27_witness :
  (∃ h' og', GraphicsBuffer_draw 0%nat scene_picture = (Ok 0%nat, h')
             ∧ ready h' 0%nat og' [1%nat; 2%nat] inks_picture
             ∧ pixel og' 2 0 = 0 ∧ pixel og' 6 0 = 1)
  ∧ ∃ h', Rectangle_w_setter 2%nat 8 scene_picture = (Ok tt, h')
          ∧ ready h' 0%nat
              (mkBitmap 16 4 (np.mk 4 1 [[0]; [0]; [0]; [0]]) true None ON
                        (KGraphicsBuffer [1%nat; 2%nat]))
              [1%nat; 2%nat] (with_ink inks_picture 2%nat (in_rect 0 0 8 2)).
Proof.
  destruct (X27_cache_is_sound scene_picture 0%nat _ [1%nat; 2%nat] inks_picture
              scene_picture_ready) as [(h' & og' & E & Hr & _ & _ & Hpx) Hset].
  split.
  - exists h', og'. split; [exact E|]. split; [exact Hr|].
    split; [exact (Hpx 2 0 eq_refl) | exact (Hpx 6 0 eq_refl)].
  - destruct (Hset 2%nat _
                (fun k => match k with
                          | KRectangle a b _ d f => Some (KRectangle a b 8 d f)
                          | _ => None
                          end)
                (KRectangle 0 0 8 2 true) (in_rect 0 0 8 2)
                ltac:(repeat constructor) eq_refl eq_refl
                (renders_filled_rectangle 16 4 0 0 8 2))
      as (h2 & E2 & Hr2 & _).
    exists h2. split; [exact E2 | exact Hr2].
Defined.
